(* ===== verification/_CoqProject ===== *)
-Q . S2P
Prelude.v
GoLayout.v
Types.v
Uring.v
Config.v
Backend.v
Worker.v
Kernel.v
Sim.v
RingOps.v
WorkerRun.v
KernelRing.v
Protocol.v
LoopRefines.v
CancelWait.v
Device.v
Control.v
DiskLike.v
BlockLayer.v
ExBackends.v
Programs.v
ChainRun.v
FaultRun.v
FlushRun.v
StressRun.v
Host.v
Demos.v
FlushBench.v
Balance.v
SigkillRun.v
EndToEnd.v
Mains.v
