(* ===== verification/Prelude.v ===== *)
(** * ublk-go: a verification of the userspace block device library

    ublk-go creates Linux block devices whose requests are served by a Go
    backend.  A [Device] talks to the ublk driver over a control io_uring
    ([ublk/device.go]); a [worker] serves the device's queue over a second
    io_uring and memory shared with the driver ([ublk/worker.go]); both use the
    io_uring wrapper of [ublk/uring/uring.go]; [ublk/ublk.go] has the options,
    the backend interfaces and [New], [ublk/types.go] the structs and opcodes of
    the driver's ABI.  The programs under [example/] are its clients: each brings
    a backend of its own, creates devices over it and does I/O on them, directly
    on the block file ([chain], [fault], [stress], [sigkill]) or through a file
    system ([fsdemo], [flushbench]).

    ** How the program is modelled

    Machine integers are [Z] with their wrap-around written out ([u8] to [u64],
    [i32], [i64]).  Pure code is a function; a run-time panic is [None], or
    [Panic] in the monad; an error is a value.  Code that makes system calls
    runs in the state monad [M] over a kernel state of any type [K] with the
    operations of the class [Kernel]: the kernel, the Go runtime and
    golang.org/x/sys are not in the repository and are this parameter.  What
    the theorems use of its documented behaviour are the classes [KernelLaws]
    (descriptors are not negative, addresses fit 64 bits, memory holds bytes)
    and [RingLaws] (stored memory is read back, the kernel leaves the submission
    ring alone outside io_uring_enter), and for the queue's ring [QueueKernel]
    (the kernel posts completions, at any time, only for tags it holds; an
    io_uring_enter that succeeds consumes the published entries).  [Sim] is a
    concrete kernel that satisfies the first two, [limited] of [EndToEnd] the same
    with small buffers, [driver] of [LoopRefines] one that satisfies the last;
    witnesses run the code on them.  Programs that do I/O also rely on the buffer
    size the kernel reports for a new device ([sane_buffers]).  A trace records descriptors
    and mappings opened and closed and control commands sent.

    A client does not depend on a particular backend but on what it promises:
    [MemLike] (agreement with the in-memory backend) or [DiskLike] (whole sectors
    are read and written as on a disk).  The kernel's block layer, between a
    client's [pread] or [pwrite] and the requests the worker serves, is the
    parameter [BlockFile] with the laws [BlockFileLaws]: a call is split into
    requests that cover it, and fails if one of them does.  Commands, files and
    signals, which make the kernel send requests of its own choice, are the
    parameter [Host]; the theorems assume of it only that the requests respect
    the device's limits ([host_ok]).  Processes are the record [world].

    ** Files

    - [Prelude]: machine integers and [goint], bit counts of [math/bits],
      slices and [copy], the [result] type.
    - [GoLayout]: sizes, alignments, offsets and byte encodings of Go struct
      types, with the decoding of an encoding; the class [GoStruct].
    - [Types]: [types.go] and the structs of [uring.go]; theorems on layouts,
      opcodes and round trips through memory.
    - [Uring]: the queue operations of [uring.go] ([nextSQE], [GetSQE64],
      [GetSQE128], [flushSQ], [PeekCQE], [SeenCQE], [roundUp2]) on the shared
      ring memory.  The specification is FIFO queues ([pending], [published],
      [completions]); the theorems are the refinement ([submit_fifo],
      [drain_fifo]), the capacity, and the case in which a full ring hands out
      a published entry again.
    - [Config]: [config], the options, [validate], [isNilBackend].
    - [Backend]: the [Backend], [Discarder] and [ZeroWriter] interfaces, the
      in-memory backend of [example/main.go], a wrapper that logs calls.
    - [Worker]: the worker's buffers, descriptors, [handleIO] and command
      entries; [handleIO_correct] covers every branch, [device_refines_disk] is
      the refinement of an abstract disk.
    - [Kernel]: errors, the system-call interface, the monad, traces and
      ownership of descriptors and mappings, Hoare triples ([triple], [total])
      and the tactics [solve_frame], [solve_live] and [solve_quiet].
    - [Sim]: the concrete kernel.
    - [RingOps]: [setup], [mmapRings], [setupCancel], [Close], [Cancel],
      [Submit], [SubmitAndWait], [WaitCQE]: no leak on any path, accesses within
      the mappings, what is handed to the kernel, what a wait returns.
    - [WorkerRun]: [init], [mmapDescs], [cleanup] and [run] of [worker.go].
    - [KernelRing]: the kernel's accesses to ring memory.
    - [Protocol]: the loop of [run] interleaved with the kernel, as a step
      relation over the real ring memory.  The invariant is that each tag is in
      exactly one place; from it: no commit is dropped, no completion is lost,
      every request is served exactly once, the worker never blocks with work
      left.
    - [LoopRefines]: [run] of [worker.go], as the code over the kernel interface,
      refines the step relation of [Protocol]: it never panics, every iteration
      leads from a reachable state to a reachable state, a batch ends
      ([batch_terminates]), and a request in hand is answered by exactly one
      commit ([loop_answers_request]).  So the invariants of [Protocol] hold of
      the code.
    - [CancelWait]: [Cancel] interleaved with [WaitCQE] and the kernel: no lost
      wake-up, a bound on the steps to return.
    - [Device]: [device.go] and [New]: whatever the kernel answers, [New] and
      [Close] leave nothing open that should not be.
    - [Control]: what is sent to the kernel: parameters, the order and encoding
      of commands, one command as an exchange, retries of [openCharDev], sizes
      and offsets.
    - [DiskLike]: the interfaces [MemLike] and [DiskLike], a device as the block
      layer sees it ([bdev]), and that a device over a [DiskLike] backend is an
      abstract disk.
    - [BlockLayer]: the interface of the block layer, and the backend of [chain]
      that forwards to another block device; it is [DiskLike] when that is.
    - [ExBackends]: the other backends of the examples; they agree with the
      reference backend, their instrumentation is exact, injected faults are
      exactly those drawn.
    - [Programs]: creating, opening and closing devices in a program; partial
      triples [returns] for programs whose watchdogs may end them.
    - [ChainRun]: [example/chain]: two stacked devices are one disk
      ([chain_refines_disk]), every step of the program passes on working
      devices, and nothing is leaked.
    - [FaultRun]: [example/fault]: total failures are always seen by the caller,
      the verdict of the low-rate scenario is determined by the draws.
    - [FlushRun]: [printSince] of [example/flushbench] against list functions.
    - [StressRun]: [example/stress]: no mode leaks and the summaries are
      consistent; offsets and pauses are in range.
    - [Host]: programs that use a file system on their device: the host, the
      monad [P], total triples [runs], and scripts with unwinding ([ran]).
    - [Demos]: [example/main.go] and [example/fsdemo]: the script, its undoing on
      every error path, exact statistics.
    - [FlushBench]: [run] of [example/flushbench]: each report is about exactly
      its experiment.
    - [Balance]: the programs leak nothing.
    - [SigkillRun]: [example/sigkill]: the announcement of the child is read back
      by the parent; the parent's verdict.
    - [EndToEnd]: [New] and [Close] joined with the programs proper: what each of
      [chain], [fault], [fsdemo] and [flushbench] does from its first system call
      to its last.
    - [Mains]: [main] of each example program, from the user id and flags to the
      lines printed and the exit status.

    ** Fuel

    In the library only loops that wait for the kernel take fuel: an iteration of
    [WaitCQE], of the worker's inner and of its outer loop use one unit each, and a
    computation that would wait longer is [Stuck].  Theorems hold for every
    fuel; those stated with [total] (set-up, [Close] of a ring, [init],
    [openCharDev]) have none and always return.  [WaitCQE_oldest] shows that a
    wait that ends is found with enough fuel, [cancel_sticky] and
    [cancel_ends_wait] that a cancelled one needs a single unit, and
    [batch_terminates] that a batch needs at most the queue depth, however the
    kernel keeps posting.  The
    sampling loop of [printSince] takes the length of the trace, which
    [printSince_report] shows to be enough.  Loops that run until a signal or a
    deadline ([stress], [sigkill]) take the number of passes as an argument.

    ** Not modelled

    The kernel itself, goroutine scheduling other than in [Protocol],
    [LoopRefines] and [CancelWait] ([New] runs the control goroutine; the worker's loop changes
    none of the resources followed there, as [run_loop_quiet_and_cancellable]
    shows; the goroutines of [stress] run in some sequential order, and a [Close]
    that outlasts its watchdog is counted as such but taken to finish within its
    pass), locking of OS threads, garbage collection, the texts of error messages
    beyond their fixed parts, tests, and of the example programs the parsing of
    flags (their values are arguments) and console output other than that
    described. *)

From Stdlib Require Import ZArith Lia.
From stdpp Require Export base numbers list gmap strings.

#[export] Set Default Goal Selector "!".
Global Open Scope Z_scope.

(** [lia] with division and modulo by literals, as the wrap-around of the
    machine integers needs. *)
Ltac Zify.zify_post_hook ::= Z.to_euclidean_division_equations.

(** ** Machine integers

    A Go integer of width [w] is a [Z]; a conversion or an arithmetic
    operation at that width reduces its exact result. *)

Declare Scope go_scope.
Delimit Scope go_scope with go.

Definition u8 (z : Z) : Z := z mod 2 ^ 8.
Definition u16 (z : Z) : Z := z mod 2 ^ 16.
Definition u32 (z : Z) : Z := z mod 2 ^ 32.
Definition u64 (z : Z) : Z := z mod 2 ^ 64.

(** Two's complement reduction to the signed range of 32 and 64 bits. *)
Definition i32 (z : Z) : Z := (z + 2 ^ 31) mod 2 ^ 32 - 2 ^ 31.
Definition i64 (z : Z) : Z := (z + 2 ^ 63) mod 2 ^ 64 - 2 ^ 63.

Definition is_u (w z : Z) : Prop := 0 <= z < 2 ^ w.
Definition is_i (w z : Z) : Prop := - 2 ^ (w - 1) <= z < 2 ^ (w - 1).

#[export] Instance is_u_dec w z : Decision (is_u w z).
Proof. unfold is_u. apply _. Defined.
#[export] Instance is_i_dec w z : Decision (is_i w z).
Proof. unfold is_i. apply _. Defined.

Notation "a +32 b" := (u32 (a + b)) (at level 50, left associativity) : go_scope.
Notation "a -32 b" := (u32 (a - b)) (at level 50, left associativity) : go_scope.

(** Unfold every machine operation and decide the goal by [lia]. *)
Ltac goint :=
  unfold is_u, is_i, u8, u16, u32, u64, i32, i64 in *; lia.

Create HintDb goint discriminated.

Lemma u16_id z : is_u 16 z -> u16 z = z.
Proof. goint. Qed.
Lemma u32_id z : is_u 32 z -> u32 z = z.
Proof. goint. Qed.
Lemma u64_id z : is_u 64 z -> u64 z = z.
Proof. goint. Qed.
Lemma i32_id z : is_i 32 z -> i32 z = z.
Proof. goint. Qed.
Lemma i64_id z : is_i 64 z -> i64 z = z.
Proof. goint. Qed.
Lemma is_u_u8 z : is_u 8 (u8 z).
Proof. goint. Qed.
Lemma is_u_u16 z : is_u 16 (u16 z).
Proof. goint. Qed.
Lemma is_u_u32 z : is_u 32 (u32 z).
Proof. goint. Qed.
Lemma is_u_u64 z : is_u 64 (u64 z).
Proof. goint. Qed.
Lemma is_i_i32 z : is_i 32 (i32 z).
Proof. goint. Qed.
Lemma is_i_i64 z : is_i 64 (i64 z).
Proof. goint. Qed.

#[export] Hint Resolve u16_id u32_id u64_id i32_id i64_id : goint.
#[export] Hint Resolve is_u_u8 is_u_u16 is_u_u32 is_u_u64 is_i_i32 is_i_i64 : goint.

(** Additions inside a 32-bit reduction may be reduced or not. *)
Lemma u32_add_l a b : u32 (u32 a + b) = u32 (a + b).
Proof. unfold u32. apply Zplus_mod_idemp_l. Qed.
Lemma u32_sub_l a b : u32 (u32 a - b) = u32 (a - b).
Proof. unfold u32. apply Zminus_mod_idemp_l. Qed.
Lemma u32_sub_r a b : u32 (a - u32 b) = u32 (a - b).
Proof. unfold u32. apply Zminus_mod_idemp_r. Qed.

(** Masking with [2^k - 1] is reduction modulo [2^k], and a 32-bit reduction
    before it changes nothing: the index arithmetic of a ring buffer. *)
Lemma land_mask a k : 0 <= k -> Z.land a (2 ^ k - 1) = a mod 2 ^ k.
Proof.
  intros Hk. rewrite <- Z.land_ones by done.
  f_equal. rewrite Z.ones_equiv. lia.
Qed.

Lemma u32_mod_pow a k : 0 <= k <= 32 -> u32 a mod 2 ^ k = a mod 2 ^ k.
Proof.
  intros Hk. unfold u32. apply Z.mod_mod_divide.
  exists (2 ^ (32 - k)). rewrite <- Z.pow_add_r by lia. f_equal. lia.
Qed.

Lemma mod_pow_bound a k : 0 <= k -> 0 <= a mod 2 ^ k < 2 ^ k.
Proof. intros. apply Z.mod_pos_bound. lia. Qed.

(** Two indices less than a ring's size apart that meet in a slot are equal. *)
Lemma mod_window_inj a b i j n :
  0 < n -> 0 <= i < n -> 0 <= j < n -> a = b ->
  (a + i) mod n = (b + j) mod n -> i = j.
Proof.
  intros Hn Hi Hj -> Heq.
  assert (Hd : (i - j) mod n = 0).
  { replace (i - j) with ((b + i) - (b + j)) by lia.
    rewrite Zminus_mod, Heq, Z.sub_diag. apply Z.mod_0_l. lia. }
  apply Z.mod_divide in Hd; [|lia]. destruct Hd as [q Hq].
  assert (q = 0) by nia. subst q. lia.
Qed.

(** ** [math/bits] *)

(** [bits.OnesCount32], [bits.TrailingZeros32] and [bits.Len32]. *)
Definition OnesCount32 (x : Z) : Z :=
  Z.of_nat (length (filter (fun i => Z.testbit x i = true) (seqZ 0 32))).

Fixpoint pos_ctz (p : positive) : Z :=
  match p with
  | xO q => 1 + pos_ctz q
  | _ => 0
  end.

Definition TrailingZeros32 (x : Z) : Z :=
  match x with Zpos p => pos_ctz p | _ => 32 end.

Definition Len32 (x : Z) : Z := if decide (x = 0) then 0 else Z.log2 x + 1.

Lemma pos_ctz_nonneg p : 0 <= pos_ctz p.
Proof. induction p; cbn [pos_ctz]; lia. Qed.

Lemma pos_ctz_pow2 k : 0 <= k -> TrailingZeros32 (2 ^ k) = k.
Proof.
  intros Hk. pattern k. apply natlike_ind; [done| |done].
  intros j Hj IH. rewrite Z.pow_succ_r by done.
  destruct (2 ^ j) as [|p|p] eqn:E; [lia| |lia].
  change (2 * Z.pos p) with (Z.pos p~0). cbn [TrailingZeros32 pos_ctz].
  cbn [TrailingZeros32] in IH. lia.
Qed.

(** A value with one set bit is the power of two of that bit's position. *)
Lemma OnesCount32_one x :
  is_u 32 x -> OnesCount32 x = 1 -> exists k, 0 <= k < 32 /\ x = 2 ^ k.
Proof.
  intros Hx Hc. unfold OnesCount32 in Hc.
  destruct (filter _ _) as [|k [|]] eqn:E; cbn in Hc; [lia| |lia].
  assert (Hin : forall i, Z.testbit x i = true /\ 0 <= i < 32 <-> i = k).
  { intros i. rewrite <- (list_elem_of_singleton i k), <- E, list_elem_of_filter, elem_of_seqZ.
    intuition lia. }
  destruct (proj2 (Hin k) eq_refl) as [Hk Hkr]. exists k. split; [done|].
  apply Z.bits_inj_iff. intros i.
  rewrite Z.pow2_bits_eqb by lia. destruct (Z.eqb_spec k i) as [->|Hne]; [done|].
  destruct (Z.testbit x i) eqn:Eb; [|done]. exfalso. apply Hne. symmetry. apply Hin.
  split; [done|]. split.
  - destruct (decide (0 <= i)); [done|]. rewrite Z.testbit_neg_r in Eb by lia. done.
  - destruct (decide (i < 32)); [done|]. exfalso.
    rewrite Z.bits_above_log2 in Eb; [done|unfold is_u in Hx; lia|].
    destruct (decide (x = 0)) as [->|]; [cbn; lia|].
    apply Z.log2_lt_pow2; [unfold is_u in Hx; lia|].
    unfold is_u in Hx. assert (2 ^ 32 <= 2 ^ i) by (apply Z.pow_le_mono_r; lia). lia.
Qed.

(** A boolean check over a range of integers decides it pointwise. *)
Lemma forallb_seqZ (f : Z -> bool) a n :
  forallb f (seqZ a n) = true -> forall i, a <= i < a + n -> f i = true.
Proof.
  intros H i Hi. rewrite forallb_forall in H. apply H, list_elem_of_In, elem_of_seqZ. lia.
Qed.

Lemma OnesCount32_pow2 k : 0 <= k < 32 -> OnesCount32 (2 ^ k) = 1.
Proof.
  intros Hk. apply Z.eqb_eq.
  apply (forallb_seqZ (fun k => OnesCount32 (2 ^ k) =? 1) 0 32); [|lia].
  vm_compute. reflexivity.
Qed.

(** ** Slices

    [sub off n s] is the Go expression [s[off:off+n]]: [None] is the run-time
    panic on bounds outside the slice. *)
Definition sub {A} (off n : Z) (s : list A) : option (list A) :=
  if decide (0 <= off /\ 0 <= n /\ off + n <= Z.of_nat (length s))
  then Some (take (Z.to_nat n) (drop (Z.to_nat off) s)) else None.

(** [copy(dst, src)]: the new content of [dst]; the result of the call is the
    number of elements copied, [copied dst src]. *)
Definition copied {A} (dst src : list A) : Z :=
  Z.min (Z.of_nat (length dst)) (Z.of_nat (length src)).
Definition copy {A} (dst src : list A) : list A :=
  let n := Z.to_nat (copied dst src) in take n src ++ drop n dst.

(** Store [src] at [off] in [dst] (in range). *)
Definition splice {A} (off : Z) (src dst : list A) : list A :=
  take (Z.to_nat off) dst ++ src ++ drop (Z.to_nat off + length src) dst.

Lemma sub_Some {A} off n (s : list A) :
  0 <= off -> 0 <= n -> off + n <= Z.of_nat (length s) ->
  sub off n s = Some (take (Z.to_nat n) (drop (Z.to_nat off) s)).
Proof. intros. unfold sub. by rewrite decide_True by lia. Qed.

Lemma sub_length {A} off n (s t : list A) :
  sub off n s = Some t -> Z.of_nat (length t) = n.
Proof.
  unfold sub. case_decide; [|done]. intros [= <-].
  rewrite length_take, length_drop. lia.
Qed.

Lemma copy_length {A} (dst src : list A) : length (copy dst src) = length dst.
Proof.
  unfold copy, copied. rewrite length_app, length_take, length_drop. lia.
Qed.

Lemma copy_all {A} (dst src : list A) :
  length dst = length src -> copy dst src = src.
Proof.
  intros Hl. unfold copy, copied. rewrite Hl, Z.min_id, Nat2Z.id.
  rewrite take_ge by lia. rewrite drop_ge by lia. apply app_nil_r.
Qed.

Lemma splice_length {A} off (src dst : list A) :
  0 <= off -> off + Z.of_nat (length src) <= Z.of_nat (length dst) ->
  length (splice off src dst) = length dst.
Proof.
  intros. unfold splice. rewrite !length_app, length_take, length_drop. lia.
Qed.

(** What was spliced in is what a slice of the same range reads. *)
Lemma sub_splice {A} off (src dst : list A) :
  0 <= off -> off + Z.of_nat (length src) <= Z.of_nat (length dst) ->
  sub off (Z.of_nat (length src)) (splice off src dst) = Some src.
Proof.
  intros Ho Hl. rewrite sub_Some; [|lia|lia|rewrite splice_length; lia].
  f_equal. unfold splice. rewrite Nat2Z.id.
  rewrite drop_app_length' by (rewrite length_take; lia).
  apply take_app_length.
Qed.

(** A slice disjoint from the spliced range reads what it read before. *)
Lemma sub_splice_disjoint {A} off n off' (src dst : list A) :
  0 <= off' -> off' + Z.of_nat (length src) <= Z.of_nat (length dst) ->
  off + n <= off' \/ off' + Z.of_nat (length src) <= off ->
  sub off n (splice off' src dst) = sub off n dst.
Proof.
  intros Ho Hl Hd. unfold sub. rewrite splice_length by lia.
  case_decide as Hb; [|done]. f_equal.
  apply list_eq. intros i.
  destruct (decide (i < Z.to_nat n)%nat) as [Hi|Hi].
  2:{ rewrite !lookup_take_ge by lia. done. }
  rewrite !lookup_take_lt, !lookup_drop by lia. unfold splice.
  destruct Hd as [Hd|Hd].
  - rewrite lookup_app_l by (rewrite length_take; lia). by rewrite lookup_take_lt by lia.
  - rewrite lookup_app_r by (rewrite length_take; lia).
    rewrite lookup_app_r by (rewrite length_take; lia).
    rewrite lookup_drop. f_equal. rewrite length_take. lia.
Qed.

(** Slices and stores, element by element. *)
Lemma sub_lookup {A} off n (s t : list A) j :
  sub off n s = Some t -> Z.of_nat j < n -> t !! j = s !! (Z.to_nat off + j)%nat.
Proof.
  unfold sub. case_decide; [|done]. intros [= <-] Hj.
  rewrite lookup_take_lt by lia. apply lookup_drop.
Qed.

Lemma splice_lookup {A} off (src dst : list A) i :
  0 <= off -> off + Z.of_nat (length src) <= Z.of_nat (length dst) ->
  splice off src dst !! i =
  if decide (off <= Z.of_nat i < off + Z.of_nat (length src))
  then src !! (i - Z.to_nat off)%nat else dst !! i.
Proof.
  intros Ho Hl. unfold splice. case_decide as Hi.
  - rewrite lookup_app_r by (rewrite length_take; lia).
    rewrite length_take, Nat.min_l by lia. apply lookup_app_l. lia.
  - destruct (decide (Z.of_nat i < off)).
    + rewrite lookup_app_l by (rewrite length_take; lia). by rewrite lookup_take_lt by lia.
    + rewrite lookup_app_r by (rewrite length_take; lia).
      rewrite lookup_app_r by (rewrite length_take; lia).
      rewrite lookup_drop, length_take. f_equal. lia.
Qed.

(** ** Results

    A Go call that may fail returns [Ok] or [Err]; [Panic] is a run-time panic. *)
Inductive result (E A : Type) : Type :=
| Ok (a : A)
| Err (e : E).
Arguments Ok {E A} a.
Arguments Err {E A} e.

Definition is_ok {E A} (r : result E A) : bool :=
  match r with Ok _ => true | Err _ => false end.

#[export] Instance result_eq_dec {E A} `{EqDecision E, EqDecision A} :
  EqDecision (result E A).
Proof. solve_decision. Defined.
