(* ===== verification/GoLayout.v ===== *)
(** * The memory layout of Go structs

    ublk-go shares memory with the kernel: it copies Go structs into io_uring
    entries byte by byte and reinterprets mapped bytes as Go structs through
    [unsafe.Pointer].  This file models what that relies on: the size, the
    alignment and the field offsets the Go compiler gives a struct on a 64-bit
    little-endian machine ([unsafe.Sizeof]), the bytes of a value, and the value
    of bytes.  [decode_encode] is the round trip every such reinterpretation
    rests on; [GoStruct] is the interface through which the components use it. *)

From S2P Require Import Prelude.

(** Types of fields: integers of [n] bytes, arrays and structs. *)
Inductive gty : Type :=
| GUint (n : nat)
| GInt (n : nat)
| GArr (k : nat) (t : gty)
| GStruct (fs : list (string * gty)).

(** Values: an integer, or the elements of an array or a struct in order. *)
Inductive gval : Type :=
| VInt (z : Z)
| VSeq (l : list gval).

Fixpoint gty_ind' (P : gty -> Prop)
  (HU : forall n, P (GUint n)) (HI : forall n, P (GInt n))
  (HA : forall k t, P t -> P (GArr k t))
  (HS : forall fs, Forall (fun f => P f.2) fs -> P (GStruct fs))
  (t : gty) {struct t} : P t :=
  match t with
  | GUint n => HU n
  | GInt n => HI n
  | GArr k t => HA k t (gty_ind' P HU HI HA HS t)
  | GStruct fs =>
      HS fs ((fix go (l : list (string * gty)) : Forall (fun f => P f.2) l :=
                match l with
                | [] => Forall_nil_2 _
                | f :: l' => Forall_cons_2 _ _ _ (gty_ind' P HU HI HA HS f.2) (go l')
                end) fs)
  end.

(** ** Alignment, size and offsets *)

(** The next multiple of [a] at or after [off]. *)
Definition align_up (off a : nat) : nat := (off + (a - off mod a) mod a)%nat.

Fixpoint alignof (t : gty) : nat :=
  match t with
  | GUint n | GInt n => n
  | GArr _ t => alignof t
  | GStruct fs => foldr (fun f acc => Nat.max (alignof f.2) acc) 1%nat fs
  end.

Fixpoint sizeof (t : gty) : nat :=
  match t with
  | GUint n | GInt n => n
  | GArr k t => (k * sizeof t)%nat
  | GStruct fs =>
      align_up (foldl (fun off f => (align_up off (alignof f.2) + sizeof f.2)%nat) 0%nat fs)
        (alignof t)
  end.

(** The offset of a named field, from offset [off] on. *)
Fixpoint offsetof_from (off : nat) (fs : list (string * gty)) (name : string) : option nat :=
  match fs with
  | [] => None
  | f :: fs' =>
      let o := align_up off (alignof f.2) in
      if decide (f.1 = name) then Some o
      else offsetof_from (o + sizeof f.2)%nat fs' name
  end.

Definition offsetof (t : gty) (name : string) : option nat :=
  match t with GStruct fs => offsetof_from 0 fs name | _ => None end.

(** ** Encoding and decoding *)

Definition zeros (n : nat) : list Z := replicate n 0.

(** [n] bytes of [z], least significant first. *)
Definition le_bytes (n : nat) (z : Z) : list Z := Z_to_little_endian (Z.of_nat n) 8 z.
Definition le_value (bs : list Z) : Z := little_endian_to_Z 8 bs.

(** The value of [n] bytes read as a signed integer. *)
Definition to_signed (n : nat) (z : Z) : Z :=
  if decide (z < 2 ^ (8 * Z.of_nat n - 1)) then z else z - 2 ^ (8 * Z.of_nat n).

Fixpoint encode (t : gty) (v : gval) {struct t} : list Z :=
  match t, v with
  | GUint n, VInt z | GInt n, VInt z => le_bytes n z
  | GArr k t, VSeq l => mjoin (encode t <$> l)
  | GStruct fs, VSeq l =>
      let body :=
        (fix go (off : nat) (fs : list (string * gty)) (vs : list gval) : list Z :=
           match fs, vs with
           | f :: fs', v :: vs' =>
               let o := align_up off (alignof f.2) in
               zeros (o - off) ++ encode f.2 v ++ go (o + sizeof f.2)%nat fs' vs'
           | _, _ => []
           end) 0%nat fs l in
      body ++ zeros (sizeof t - length body)
  | _, _ => []
  end.

Fixpoint decode (t : gty) (bs : list Z) {struct t} : gval :=
  match t with
  | GUint n => VInt (le_value (take n bs))
  | GInt n => VInt (to_signed n (le_value (take n bs)))
  | GArr k t => VSeq ((fun i => decode t (drop (i * sizeof t) bs)) <$> seq 0 k)
  | GStruct fs =>
      VSeq ((fix go (off : nat) (fs : list (string * gty)) : list gval :=
               match fs with
               | [] => []
               | f :: fs' =>
                   let o := align_up off (alignof f.2) in
                   decode f.2 (drop o bs) :: go (o + sizeof f.2)%nat fs'
               end) 0%nat fs)
  end.

(** The struct cases' inner loops under names of their own. *)
Fixpoint enc_fields (off : nat) (fs : list (string * gty)) (vs : list gval) : list Z :=
  match fs, vs with
  | f :: fs', v :: vs' =>
      let o := align_up off (alignof f.2) in
      zeros (o - off) ++ encode f.2 v ++ enc_fields (o + sizeof f.2)%nat fs' vs'
  | _, _ => []
  end.

Fixpoint dec_fields (bs : list Z) (off : nat) (fs : list (string * gty)) : list gval :=
  match fs with
  | [] => []
  | f :: fs' =>
      let o := align_up off (alignof f.2) in
      decode f.2 (drop o bs) :: dec_fields bs (o + sizeof f.2)%nat fs'
  end.

Definition end_offset (off : nat) (fs : list (string * gty)) : nat :=
  foldl (fun off f => (align_up off (alignof f.2) + sizeof f.2)%nat) off fs.

Lemma encode_struct fs l :
  encode (GStruct fs) (VSeq l) =
  enc_fields 0 fs l ++ zeros (sizeof (GStruct fs) - length (enc_fields 0 fs l)).
Proof. reflexivity. Qed.

Lemma decode_struct fs bs : decode (GStruct fs) bs = VSeq (dec_fields bs 0 fs).
Proof.
  cbn [decode]. f_equal. generalize 0%nat.
  induction fs as [|f fs IH]; intros off; [done|]. cbn [dec_fields]. f_equal. apply IH.
Qed.

(** Which values a type has. *)
Fixpoint typed (t : gty) (v : gval) {struct t} : bool :=
  match t, v with
  | GUint n, VInt z => bool_decide (0 <= z < 2 ^ (8 * Z.of_nat n))
  | GInt n, VInt z =>
      bool_decide (- 2 ^ (8 * Z.of_nat n - 1) <= z < 2 ^ (8 * Z.of_nat n - 1) /\ (0 < n)%nat)
  | GArr k t, VSeq l => bool_decide (length l = k) && forallb (typed t) l
  | GStruct fs, VSeq l =>
      (fix go (fs : list (string * gty)) (vs : list gval) : bool :=
         match fs, vs with
         | [], [] => true
         | f :: fs', v :: vs' => typed f.2 v && go fs' vs'
         | _, _ => false
         end) fs l
  | _, _ => false
  end.

Lemma typed_struct fs l :
  typed (GStruct fs) (VSeq l) = true -> Forall2 (fun f v => typed f.2 v = true) fs l.
Proof.
  cbn [typed]. revert l. induction fs as [|f fs IH]; intros [|v vs] H; try done.
  apply andb_prop in H as [Hv Hvs]. constructor; [done|]. by apply IH.
Qed.

Lemma align_up_ge off a : (off <= align_up off a)%nat.
Proof. unfold align_up. lia. Qed.

Lemma le_bytes_length n z : length (le_bytes n z) = n.
Proof. unfold le_bytes. pose proof (length_Z_to_little_endian (Z.of_nat n) 8 z). lia. Qed.

Lemma le_value_bytes n z : le_value (le_bytes n z) = z mod 2 ^ (8 * Z.of_nat n).
Proof.
  unfold le_value, le_bytes. rewrite little_endian_to_Z_to_little_endian by lia.
  f_equal. f_equal. lia.
Qed.

Lemma to_signed_mod n z :
  (0 < n)%nat -> - 2 ^ (8 * Z.of_nat n - 1) <= z < 2 ^ (8 * Z.of_nat n - 1) ->
  to_signed n (z mod 2 ^ (8 * Z.of_nat n)) = z.
Proof.
  intros Hn Hz. unfold to_signed.
  assert (E : 2 ^ (8 * Z.of_nat n) = 2 * 2 ^ (8 * Z.of_nat n - 1))
    by (rewrite <- Z.pow_succ_r by lia; f_equal; lia).
  rewrite E. destruct (decide (0 <= z)).
  - rewrite Z.mod_small by lia. by rewrite decide_True by lia.
  - rewrite <- (Z_mod_plus_full _ 1), Z.mod_small by lia.
    rewrite decide_False by lia. lia.
Qed.

Lemma enc_fields_length off fs vs :
  Forall2 (fun f v => length (encode f.2 v) = sizeof f.2) fs vs ->
  length (enc_fields off fs vs) = (end_offset off fs - off)%nat /\ (off <= end_offset off fs)%nat.
Proof.
  intros H. revert off.
  induction H as [|f v fs vs Hf _ IH]; intros off; [cbn; lia|].
  cbn [enc_fields end_offset foldl]. unfold zeros.
  rewrite !length_app, length_replicate, Hf.
  set (o := align_up off (alignof f.2)). pose proof (align_up_ge off (alignof f.2)) as Ho.
  fold o in Ho. destruct (IH (o + sizeof f.2)%nat) as [-> Hle].
  unfold end_offset in *. lia.
Qed.

Lemma mjoin_cons {A} (f : A -> list Z) (x : A) (l : list A) :
  mjoin (f <$> x :: l) = f x ++ mjoin (f <$> l).
Proof. reflexivity. Qed.

(** The bytes of a value fill exactly the size of its type. *)
Lemma encode_length t : forall v, typed t v = true -> length (encode t v) = sizeof t.
Proof.
  induction t as [n|n|k t IH|fs IH] using gty_ind'; intros [z|l] Ht; try done;
    try apply le_bytes_length.
  - cbn in Ht. apply andb_prop in Ht as [Hk Hl]. apply bool_decide_eq_true in Hk.
    cbn [encode sizeof]. subst k. rewrite forallb_forall in Hl.
    induction l as [|v l IHl]; [done|].
    rewrite mjoin_cons, length_app, IH, IHl; cbn [length]; [lia| |].
    + intros x Hx. apply Hl. by right.
    + apply Hl. by left.
  - apply typed_struct in Ht. rewrite encode_struct, length_app. unfold zeros.
    rewrite length_replicate.
    destruct (enc_fields_length 0 fs l) as [E _].
    { clear -IH Ht. induction Ht; inversion IH; subst; constructor; auto. }
    rewrite E. cbn [sizeof]. fold (end_offset 0 fs).
    pose proof (align_up_ge (end_offset 0 fs) (alignof (GStruct fs))). lia.
Qed.

(** [decode] reads only a prefix of the bytes. *)
Definition decodes (t : gty) : Prop :=
  forall v tail, typed t v = true -> decode t (encode t v ++ tail) = v.

Lemma dec_enc_fields fs vs tail : forall off pre,
  length pre = off -> Forall2 (fun f v => typed f.2 v = true) fs vs ->
  Forall (fun f => decodes f.2) fs ->
  dec_fields (pre ++ enc_fields off fs vs ++ tail) off fs = vs.
Proof.
  intros off pre Hpre Ht. revert off pre Hpre.
  induction Ht as [|f v fs vs Hv _ IH]; intros off pre Hpre Hd; [done|].
  apply Forall_cons_1 in Hd as [Hf Hd]. cbn [enc_fields dec_fields].
  set (o := align_up off (alignof f.2)). pose proof (align_up_ge off (alignof f.2)) as Ho.
  fold o in Ho. set (rest := enc_fields (o + sizeof f.2) fs vs).
  set (bs := pre ++ _).
  assert (E : bs = (pre ++ zeros (o - off)) ++ encode f.2 v ++ rest ++ tail)
    by (unfold bs; rewrite !app_assoc; done).
  f_equal.
  - rewrite E, drop_app_length' by (unfold zeros; rewrite length_app, length_replicate; lia).
    by apply Hf.
  - rewrite E, (app_assoc _ (encode _ _)). apply IH; [|done].
    rewrite !length_app, encode_length by done. unfold zeros. rewrite length_replicate. lia.
Qed.

Lemma dec_enc_array t l tail :
  decodes t -> forallb (typed t) l = true ->
  (fun i => decode t (drop (i * sizeof t) (mjoin (encode t <$> l) ++ tail))) <$> seq 0 (length l) = l.
Proof.
  intros Hd. induction l as [|v l IH]; intros Hl; [done|].
  cbn in Hl. apply andb_prop in Hl as [Hv Hl].
  rewrite mjoin_cons, <- app_assoc. cbn [length seq]. rewrite fmap_cons. f_equal.
  - rewrite Nat.mul_0_l, drop_0. by apply Hd.
  - rewrite <- fmap_S_seq, <- list_fmap_compose.
    etransitivity; [|exact (IH Hl)]. apply list_fmap_ext. intros i j _. unfold compose. f_equal.
    replace (S j * sizeof t)%nat with (length (encode t v) + j * sizeof t)%nat
      by (rewrite encode_length by done; lia).
    rewrite <- drop_drop, drop_app_length. done.
Qed.

(** Reading the bytes of a value gives the value back. *)
Lemma decode_encode t : decodes t.
Proof.
  induction t as [n|n|k t IH|fs IH] using gty_ind'; intros [z|l] tail Ht; try done.
  - cbn in Ht. apply bool_decide_eq_true in Ht. cbn [encode decode].
    rewrite take_app_length' by (symmetry; apply le_bytes_length).
    rewrite le_value_bytes, Z.mod_small by lia. done.
  - cbn in Ht. apply bool_decide_eq_true in Ht as [Hz Hn]. cbn [encode decode].
    rewrite take_app_length' by (symmetry; apply le_bytes_length).
    rewrite le_value_bytes, to_signed_mod by done. done.
  - cbn in Ht. apply andb_prop in Ht as [Hk Hl]. apply bool_decide_eq_true in Hk.
    cbn [encode decode]. subst k. f_equal. by apply dec_enc_array.
  - rewrite decode_struct, encode_struct, <- app_assoc. f_equal.
    apply (dec_enc_fields fs l _ 0 []); [done|by apply typed_struct|done].
Qed.

(** An unsigned field read from bytes is in range. *)
Lemma le_value_range n bs : Forall (is_u 8) bs -> 0 <= le_value (take n bs) < 2 ^ (8 * Z.of_nat n).
Proof.
  intros Hb. pose proof (little_endian_to_Z_bound 8 (take n bs)) as Hr.
  assert (Ht : Forall (fun b => 0 <= b < 2 ^ 8) (take n bs)) by (apply Forall_take; exact Hb).
  specialize (Hr ltac:(lia) Ht). unfold le_value. split; [lia|].
  eapply Z.lt_le_trans; [apply Hr|]. apply Z.pow_le_mono_r; [lia|].
  rewrite length_take. lia.
Qed.

(** ** Structs

    What a Go struct type provides: its layout, its fields as a value, and the
    struct of a value. *)
Class GoStruct (A : Type) := {
  go_ty : gty;
  go_val : A -> gval;
  go_of : gval -> option A;
  go_of_val : forall a, go_of (go_val a) = Some a
}.

(** The machine ranges of a struct's fields hold. *)
Definition go_wf {A} `{GoStruct A} (a : A) : bool := typed go_ty (go_val a).

(** [unsafe.Sizeof(A{})]. *)
Definition Sizeof (A : Type) `{GoStruct A} : Z := Z.of_nat (sizeof (go_ty (A := A))).

(** The bytes of a struct: [( *[unsafe.Sizeof(A{})]byte)(unsafe.Pointer(&a))]. *)
Definition bytes_of {A} `{GoStruct A} (a : A) : list Z := encode go_ty (go_val a).

(** A struct read through [( *A)(unsafe.Pointer(&bs[0]))]. *)
Definition of_bytes {A} `{GoStruct A} (bs : list Z) : option A := go_of (decode go_ty bs).

Lemma bytes_of_length {A} `{GoStruct A} (a : A) :
  go_wf a = true -> Z.of_nat (length (bytes_of a)) = Sizeof A.
Proof. intros Hw. unfold bytes_of, Sizeof. by rewrite encode_length. Qed.

Lemma of_bytes_of {A} `{GoStruct A} (a : A) tail :
  go_wf a = true -> of_bytes (bytes_of a ++ tail) = Some a.
Proof.
  intros Hw. unfold of_bytes, bytes_of. rewrite decode_encode by done. apply go_of_val.
Qed.
