(* ===== verification/Types.v ===== *)
(** * Wire types and constants

    The structs and constants of [ublk/types.go] and the io_uring structs of
    [ublk/uring/uring.go], each with its Go layout ([GoStruct] instance).  The
    theorems check the layouts and the command encodings against what the
    kernel's ublk and io_uring interfaces prescribe. *)

From S2P Require Import Prelude GoLayout.

(** ** Values of integers and integer arrays *)

Definition vints (l : list Z) : gval := VSeq (VInt <$> l).

Fixpoint ints_of_list (l : list gval) : option (list Z) :=
  match l with
  | [] => Some []
  | VInt z :: l' => r ← ints_of_list l'; Some (z :: r)
  | _ => None
  end.

Definition ints_of (v : gval) : option (list Z) :=
  match v with VSeq l => ints_of_list l | VInt _ => None end.

Lemma ints_of_vints l : ints_of (vints l) = Some l.
Proof. unfold vints, ints_of. induction l as [|z l IH]; [done|]. cbn. by rewrite IH. Qed.

(** ** Constants of [types.go] *)

Definition opRead : Z := 0.
Definition opWrite : Z := 1.
Definition opDiscard : Z := 3.
Definition opWriteZeroes : Z := 5.
Definition ioFlagNoUnmap : Z := Z.shiftl 1 15.
Definition flagCmdIoctlEncode : Z := Z.shiftl 1 6.
Definition maxQueueDepth : Z := 4096.
Definition paramTypeBasic : Z := Z.shiftl 1 0.
Definition paramTypeDiscard : Z := Z.shiftl 1 1.

Definition cmdAddDev : Z := 0x04.
Definition cmdDelDev : Z := 0x05.
Definition cmdStartDev : Z := 0x06.
Definition cmdStopDev : Z := 0x07.
Definition cmdSetParams : Z := 0x08.

Definition uCmdAddDev : Z := 0xC0207504.
Definition uCmdDelDev : Z := 0xC0207505.
Definition uCmdStartDev : Z := 0xC0207506.
Definition uCmdStopDev : Z := 0xC0207507.
Definition uCmdSetParams : Z := 0xC0207508.

Definition uIOFetchReq : Z := 0xC0107520.
Definition uIOCommitAndFetchReq : Z := 0xC0107521.

(** ** Structs of [types.go] *)

Record ctrlCmd := mk_ctrlCmd {
  cc_DevID : Z; cc_QueueID : Z; cc_Len : Z; cc_Addr : Z; cc_Data : list Z;
  cc_DevPathLen : Z; cc_Pad : Z; cc_Reserved : Z }.

Record devInfo := mk_devInfo {
  di_NrHWQueues : Z; di_QueueDepth : Z; di_State : Z; di_Pad0 : Z;
  di_MaxIOBufBytes : Z; di_DevID : Z; di_UblksrvPID : Z; di_Pad1 : Z;
  di_Flags : Z; di_UblksrvFlags : Z; di_OwnerUID : Z; di_OwnerGID : Z;
  di_Reserved1 : Z; di_Reserved2 : Z }.

Record ioCmd := mk_ioCmd { ic_QID : Z; ic_Tag : Z; ic_Result : Z; ic_Addr : Z }.

Record ioDesc := mk_ioDesc {
  id_OpFlags : Z; id_NrSectors : Z; id_StartSector : Z; id_Addr : Z }.

Record paramBasic := mk_paramBasic {
  pb_Attrs : Z; pb_LogicalBSShift : Z; pb_PhysicalBSShift : Z; pb_IOOptShift : Z;
  pb_IOMinShift : Z; pb_MaxSectors : Z; pb_ChunkSectors : Z; pb_DevSectors : Z;
  pb_VirtBoundaryMask : Z }.

Record paramDiscard := mk_paramDiscard {
  pd_DiscardAlignment : Z; pd_DiscardGranularity : Z; pd_MaxDiscardSectors : Z;
  pd_MaxWriteZeroesSectors : Z; pd_MaxDiscardSegments : Z; pd_Reserved0 : Z }.

Record paramDevt := mk_paramDevt {
  pt_CharMajor : Z; pt_CharMinor : Z; pt_DiskMajor : Z; pt_DiskMinor : Z }.

Record paramZoned := mk_paramZoned {
  pz_MaxOpenZones : Z; pz_MaxActiveZones : Z; pz_MaxZoneAppendSectors : Z;
  pz_Reserved : list Z }.

Record ublkParams := mk_ublkParams {
  up_Len : Z; up_Types : Z; up_Basic : paramBasic; up_Discard : paramDiscard;
  up_Devt : paramDevt; up_Zoned : paramZoned }.

(** ** Structs of [uring.go] *)

(** A submission queue entry; [SQE64] and [SQE128] differ in the length of
    their command area only. *)
Record SQE := mk_SQE {
  s_Opcode : Z; s_Flags : Z; s_Ioprio : Z; s_Fd : Z; s_Off : Z; s_Addr : Z;
  s_Len : Z; s_OpFlags : Z; s_UserData : Z; s_BufIndex : Z; s_Personality : Z;
  s_SpliceFdIn : Z; s_Cmd : list Z }.

Record CQE := mk_CQE { c_UserData : Z; c_Res : Z; c_Flags : Z }.

Record sqOffsets := mk_sqOffsets {
  so_Head : Z; so_Tail : Z; so_RingMask : Z; so_RingEntries : Z; so_Flags : Z;
  so_Dropped : Z; so_Array : Z; so_Resv1 : Z; so_UserAddr : Z }.

Record cqOffsets := mk_cqOffsets {
  co_Head : Z; co_Tail : Z; co_RingMask : Z; co_RingEntries : Z; co_Overflow : Z;
  co_Cqes : Z; co_Flags : Z; co_Resv1 : Z; co_UserAddr : Z }.

Record params := mk_params {
  p_SQEntries : Z; p_CQEntries : Z; p_Flags : Z; p_SqThreadCPU : Z;
  p_SqThreadIdle : Z; p_Features : Z; p_WqFd : Z; p_Resv : list Z;
  p_SqOff : sqOffsets; p_CqOff : cqOffsets }.

(** ** Layouts *)

Definition U8 : gty := GUint 1.
Definition U16 : gty := GUint 2.
Definition U32 : gty := GUint 4.
Definition U64 : gty := GUint 8.
Definition I32 : gty := GInt 4.

(** A struct of named fields, from alternating names and types. *)
Notation "'struct' { x ; .. ; y }" := (GStruct (cons x .. (cons y nil) ..)) : go_scope.
Notation "n ':::' t" := (pair (A := string) n t) (at level 60) : go_scope.
Open Scope go_scope.

Definition ctrlCmd_ty : gty := struct {
  "DevID" ::: U32; "QueueID" ::: U16; "Len" ::: U16; "Addr" ::: U64;
  "Data" ::: GArr 1 U64; "DevPathLen" ::: U16; "Pad" ::: U16; "Reserved" ::: U32 }.

Definition devInfo_ty : gty := struct {
  "NrHWQueues" ::: U16; "QueueDepth" ::: U16; "State" ::: U16; "Pad0" ::: U16;
  "MaxIOBufBytes" ::: U32; "DevID" ::: U32; "UblksrvPID" ::: I32; "Pad1" ::: U32;
  "Flags" ::: U64; "UblksrvFlags" ::: U64; "OwnerUID" ::: U32; "OwnerGID" ::: U32;
  "Reserved1" ::: U64; "Reserved2" ::: U64 }.

Definition ioCmd_ty : gty := struct {
  "QID" ::: U16; "Tag" ::: U16; "Result" ::: I32; "Addr" ::: U64 }.

Definition ioDesc_ty : gty := struct {
  "OpFlags" ::: U32; "NrSectors" ::: U32; "StartSector" ::: U64; "Addr" ::: U64 }.

Definition paramBasic_ty : gty := struct {
  "Attrs" ::: U32; "LogicalBSShift" ::: U8; "PhysicalBSShift" ::: U8;
  "IOOptShift" ::: U8; "IOMinShift" ::: U8; "MaxSectors" ::: U32;
  "ChunkSectors" ::: U32; "DevSectors" ::: U64; "VirtBoundaryMask" ::: U64 }.

Definition paramDiscard_ty : gty := struct {
  "DiscardAlignment" ::: U32; "DiscardGranularity" ::: U32; "MaxDiscardSectors" ::: U32;
  "MaxWriteZeroesSectors" ::: U32; "MaxDiscardSegments" ::: U16; "Reserved0" ::: U16 }.

Definition paramDevt_ty : gty := struct {
  "CharMajor" ::: U32; "CharMinor" ::: U32; "DiskMajor" ::: U32; "DiskMinor" ::: U32 }.

Definition paramZoned_ty : gty := struct {
  "MaxOpenZones" ::: U32; "MaxActiveZones" ::: U32; "MaxZoneAppendSectors" ::: U32;
  "Reserved" ::: GArr 20 U8 }.

Definition ublkParams_ty : gty := struct {
  "Len" ::: U32; "Types" ::: U32; "Basic" ::: paramBasic_ty;
  "Discard" ::: paramDiscard_ty; "Devt" ::: paramDevt_ty; "Zoned" ::: paramZoned_ty }.

Definition SQE_ty (cmd : nat) : gty := struct {
  "Opcode" ::: U8; "Flags" ::: U8; "Ioprio" ::: U16; "Fd" ::: I32; "Off" ::: U64;
  "Addr" ::: U64; "Len" ::: U32; "OpFlags" ::: U32; "UserData" ::: U64;
  "BufIndex" ::: U16; "Personality" ::: U16; "SpliceFdIn" ::: I32;
  "Cmd" ::: GArr cmd U8 }.
Definition SQE128_ty : gty := SQE_ty 80.
Definition SQE64_ty : gty := SQE_ty 16.

Definition CQE_ty : gty := struct { "UserData" ::: U64; "Res" ::: I32; "Flags" ::: U32 }.

Definition sqOffsets_ty : gty := struct {
  "Head" ::: U32; "Tail" ::: U32; "RingMask" ::: U32; "RingEntries" ::: U32;
  "Flags" ::: U32; "Dropped" ::: U32; "Array" ::: U32; "Resv1" ::: U32; "UserAddr" ::: U64 }.

Definition cqOffsets_ty : gty := struct {
  "Head" ::: U32; "Tail" ::: U32; "RingMask" ::: U32; "RingEntries" ::: U32;
  "Overflow" ::: U32; "Cqes" ::: U32; "Flags" ::: U32; "Resv1" ::: U32; "UserAddr" ::: U64 }.

Definition params_ty : gty := struct {
  "SQEntries" ::: U32; "CQEntries" ::: U32; "Flags" ::: U32; "SqThreadCPU" ::: U32;
  "SqThreadIdle" ::: U32; "Features" ::: U32; "WqFd" ::: U32; "Resv" ::: GArr 3 U32;
  "SqOff" ::: sqOffsets_ty; "CqOff" ::: cqOffsets_ty }.

(** ** Struct instances *)

Ltac go_struct :=
  intros []; cbn -[vints ints_of]; rewrite ?ints_of_vints; cbn; rewrite ?go_of_val; reflexivity.

#[export] Instance ctrlCmd_struct : GoStruct ctrlCmd.
Proof.
  refine {|
  go_ty := ctrlCmd_ty;
  go_val c := VSeq [VInt (cc_DevID c); VInt (cc_QueueID c); VInt (cc_Len c);
    VInt (cc_Addr c); vints (cc_Data c); VInt (cc_DevPathLen c); VInt (cc_Pad c);
    VInt (cc_Reserved c)];
  go_of v := match v with
    | VSeq [VInt a; VInt b; VInt c; VInt d; e; VInt f; VInt g; VInt h] =>
        l ← ints_of e; Some (mk_ctrlCmd a b c d l f g h)
    | _ => None
    end |}.
  go_struct.
Defined.

#[export] Instance devInfo_struct : GoStruct devInfo.
Proof.
  refine {|
  go_ty := devInfo_ty;
  go_val d := VSeq [VInt (di_NrHWQueues d); VInt (di_QueueDepth d); VInt (di_State d);
    VInt (di_Pad0 d); VInt (di_MaxIOBufBytes d); VInt (di_DevID d); VInt (di_UblksrvPID d);
    VInt (di_Pad1 d); VInt (di_Flags d); VInt (di_UblksrvFlags d); VInt (di_OwnerUID d);
    VInt (di_OwnerGID d); VInt (di_Reserved1 d); VInt (di_Reserved2 d)];
  go_of v := match v with
    | VSeq [VInt a; VInt b; VInt c; VInt d; VInt e; VInt f; VInt g; VInt h; VInt i; VInt j;
            VInt k; VInt l; VInt m; VInt n] =>
        Some (mk_devInfo a b c d e f g h i j k l m n)
    | _ => None
    end |}.
  go_struct.
Defined.

#[export] Instance ioCmd_struct : GoStruct ioCmd.
Proof.
  refine {|
  go_ty := ioCmd_ty;
  go_val c := VSeq [VInt (ic_QID c); VInt (ic_Tag c); VInt (ic_Result c); VInt (ic_Addr c)];
  go_of v := match v with
    | VSeq [VInt a; VInt b; VInt c; VInt d] => Some (mk_ioCmd a b c d)
    | _ => None
    end |}.
  go_struct.
Defined.

#[export] Instance ioDesc_struct : GoStruct ioDesc.
Proof.
  refine {|
  go_ty := ioDesc_ty;
  go_val c := VSeq [VInt (id_OpFlags c); VInt (id_NrSectors c); VInt (id_StartSector c);
    VInt (id_Addr c)];
  go_of v := match v with
    | VSeq [VInt a; VInt b; VInt c; VInt d] => Some (mk_ioDesc a b c d)
    | _ => None
    end |}.
  go_struct.
Defined.

#[export] Instance paramBasic_struct : GoStruct paramBasic.
Proof.
  refine {|
  go_ty := paramBasic_ty;
  go_val p := VSeq [VInt (pb_Attrs p); VInt (pb_LogicalBSShift p); VInt (pb_PhysicalBSShift p);
    VInt (pb_IOOptShift p); VInt (pb_IOMinShift p); VInt (pb_MaxSectors p);
    VInt (pb_ChunkSectors p); VInt (pb_DevSectors p); VInt (pb_VirtBoundaryMask p)];
  go_of v := match v with
    | VSeq [VInt a; VInt b; VInt c; VInt d; VInt e; VInt f; VInt g; VInt h; VInt i] =>
        Some (mk_paramBasic a b c d e f g h i)
    | _ => None
    end |}.
  go_struct.
Defined.

#[export] Instance paramDiscard_struct : GoStruct paramDiscard.
Proof.
  refine {|
  go_ty := paramDiscard_ty;
  go_val p := VSeq [VInt (pd_DiscardAlignment p); VInt (pd_DiscardGranularity p);
    VInt (pd_MaxDiscardSectors p); VInt (pd_MaxWriteZeroesSectors p);
    VInt (pd_MaxDiscardSegments p); VInt (pd_Reserved0 p)];
  go_of v := match v with
    | VSeq [VInt a; VInt b; VInt c; VInt d; VInt e; VInt f] =>
        Some (mk_paramDiscard a b c d e f)
    | _ => None
    end |}.
  go_struct.
Defined.

#[export] Instance paramDevt_struct : GoStruct paramDevt.
Proof.
  refine {|
  go_ty := paramDevt_ty;
  go_val p := VSeq [VInt (pt_CharMajor p); VInt (pt_CharMinor p); VInt (pt_DiskMajor p);
    VInt (pt_DiskMinor p)];
  go_of v := match v with
    | VSeq [VInt a; VInt b; VInt c; VInt d] => Some (mk_paramDevt a b c d)
    | _ => None
    end |}.
  go_struct.
Defined.

#[export] Instance paramZoned_struct : GoStruct paramZoned.
Proof.
  refine {|
  go_ty := paramZoned_ty;
  go_val p := VSeq [VInt (pz_MaxOpenZones p); VInt (pz_MaxActiveZones p);
    VInt (pz_MaxZoneAppendSectors p); vints (pz_Reserved p)];
  go_of v := match v with
    | VSeq [VInt a; VInt b; VInt c; d] => l ← ints_of d; Some (mk_paramZoned a b c l)
    | _ => None
    end |}.
  go_struct.
Defined.

#[export] Instance ublkParams_struct : GoStruct ublkParams.
Proof.
  refine {|
  go_ty := ublkParams_ty;
  go_val p := VSeq [VInt (up_Len p); VInt (up_Types p); go_val (up_Basic p);
    go_val (up_Discard p); go_val (up_Devt p); go_val (up_Zoned p)];
  go_of v := match v with
    | VSeq [VInt a; VInt b; c; d; e; f] =>
        c ← go_of c; d ← go_of d; e ← go_of e; f ← go_of f;
        Some (mk_ublkParams a b c d e f)
    | _ => None
    end |}.
  intros [a b c d e f]. cbn [up_Len up_Types up_Basic up_Discard up_Devt up_Zoned].
  rewrite (go_of_val c), (go_of_val d), (go_of_val e), (go_of_val f). reflexivity.
Defined.

#[export] Instance CQE_struct : GoStruct CQE.
Proof.
  refine {|
  go_ty := CQE_ty;
  go_val c := VSeq [VInt (c_UserData c); VInt (c_Res c); VInt (c_Flags c)];
  go_of v := match v with
    | VSeq [VInt a; VInt b; VInt c] => Some (mk_CQE a b c)
    | _ => None
    end |}.
  go_struct.
Defined.

(** The zero value of a struct with a command area of [n] bytes. *)
Definition zero_SQE (n : nat) : SQE := mk_SQE 0 0 0 0 0 0 0 0 0 0 0 0 (zeros n).
Definition zero_SQE128 : SQE := zero_SQE 80.
Definition zero_SQE64 : SQE := zero_SQE 16.

(** [unsafe.Sizeof] of the structs, as the package variables hold it. *)
Definition sizeofDevInfo : Z := Sizeof devInfo.
Definition sizeofIODesc : Z := Sizeof ioDesc.
Definition sqe128Size : Z := Z.of_nat (sizeof SQE128_ty).
Definition sqe64Size : Z := Z.of_nat (sizeof SQE64_ty).
Definition cqeSize : Z := Sizeof CQE.

(** [_IOWR('u', nr, size)] of Linux's [ioctl.h]: direction in bits 30-31, size
    in 16-29, type in 8-15, number in 0-7. *)
Definition iowr (nr size : Z) : Z :=
  Z.lor (Z.lor (Z.shiftl 3 30) (Z.shiftl size 16)) (Z.lor (Z.shiftl 0x75 8) nr).


(** The ioctl-encoded opcodes are the legacy numbers wrapped by [_IOWR] with
    type ['u'] and the size of the struct the command carries, so both encodings
    of a command name the same operation. *)
Theorem opcode_encoding :
  Forall (fun '(u, c) => u = iowr c (Sizeof ctrlCmd) /\ Z.land u 0xFF = c)
    [(uCmdAddDev, cmdAddDev); (uCmdDelDev, cmdDelDev); (uCmdStartDev, cmdStartDev);
     (uCmdStopDev, cmdStopDev); (uCmdSetParams, cmdSetParams)] /\
  uIOFetchReq = iowr 0x20 (Sizeof ioCmd) /\
  uIOCommitAndFetchReq = iowr 0x21 (Sizeof ioCmd) /\
  NoDup [uCmdAddDev; uCmdDelDev; uCmdStartDev; uCmdStopDev; uCmdSetParams;
         uIOFetchReq; uIOCommitAndFetchReq].
Proof.
  split_and!; [repeat constructor; vm_compute; reflexivity|reflexivity|reflexivity|].
  apply (bool_decide_unpack _). vm_compute. exact I.
Qed.

(** A struct survives the exchange: its bytes have the size of its type, and
    reading them gives the struct back, whatever follows in memory. *)
Definition survives (A : Type) `{GoStruct A} : Prop :=
  forall (a : A) (rest : list Z), go_wf a = true ->
    of_bytes (bytes_of a ++ rest) = Some a /\ Z.of_nat (length (bytes_of a)) = Sizeof A.

Lemma struct_survives A `{GoStruct A} : survives A.
Proof. intros a rest Hw. split; [by apply of_bytes_of|by apply bytes_of_length]. Qed.

