(* ===== verification/Uring.v ===== *)
(** * The submission and completion rings of [ublk/uring/uring.go]

    The part of [Ring] that touches no system call: the local bookkeeping of
    the submission queue, the words it shares with the kernel, and the
    completion queue.  The ring mappings are typed stores addressed by byte
    offset, so the pointer arithmetic of the source stays visible: 32-bit words
    in the SQ and CQ ring mappings, SQEs in the SQE mapping, CQEs in the CQ
    mapping.

    The abstract specification is a pair of FIFO queues for submissions (entries
    prepared but not yet flushed, entries the kernel may take) and one for
    completions; the theorems show that the index arithmetic, modulo the ring
    size and modulo [2^32], implements them. *)

From S2P Require Import Prelude GoLayout Types.

(** ** State *)

(** The memory shared with the kernel: the words of the SQ ring mapping and of
    the CQ ring mapping, the SQEs of the SQE mapping and the CQEs of the CQ
    mapping, by byte offset. *)
Record shm := mk_shm {
  sqw : gmap Z Z; cqw : gmap Z Z; sqes : gmap Z SQE; cqes : gmap Z CQE }.

(** A 32-bit load; mapped memory holds zero where nothing was stored. *)
Definition ld (m : gmap Z Z) (a : Z) : Z := default 0 (m !! a).

Definition zero_CQE : CQE := mk_CQE 0 0 0.
Definition ld_cqe (m : shm) (a : Z) : CQE := default zero_CQE (cqes m !! a).
Definition ld_sqe (m : shm) (a : Z) : SQE := default zero_SQE64 (sqes m !! a).

Definition set_sqw (f : gmap Z Z -> gmap Z Z) (m : shm) : shm :=
  mk_shm (f (sqw m)) (cqw m) (sqes m) (cqes m).
Definition set_cqw (f : gmap Z Z -> gmap Z Z) (m : shm) : shm :=
  mk_shm (sqw m) (f (cqw m)) (sqes m) (cqes m).
Definition st_sqe (a : Z) (s : SQE) (m : shm) : shm :=
  mk_shm (sqw m) (cqw m) (<[a := s]> (sqes m)) (cqes m).

(** The [Ring] struct.  A pointer into a mapping is its byte offset there; a
    mapping is its handle, [None] while it is not mapped. *)
Record Ring := mk_Ring {
  r_fd : Z; r_cancelFD : Z; r_epollFD : Z; r_cancelled : bool;
  r_p : params; r_sqeSize : Z;
  r_sqHead : Z; r_sqTail : Z; r_sqMask : Z; r_sqFlags : Z; r_sqArray : Z; r_sqeBase : Z;
  r_sqeLocalHead : Z; r_sqeLocalTail : Z; r_sqEntries : Z;
  r_cqHead : Z; r_cqTail : Z; r_cqMask : Z; r_cqeBase : Z; r_cqEntries : Z;
  r_mmapSQ : option Z; r_mmapCQ : option Z; r_mmapSQEs : option Z }.

Definition set_local (h t : Z) (r : Ring) : Ring :=
  mk_Ring (r_fd r) (r_cancelFD r) (r_epollFD r) (r_cancelled r) (r_p r) (r_sqeSize r)
    (r_sqHead r) (r_sqTail r) (r_sqMask r) (r_sqFlags r) (r_sqArray r) (r_sqeBase r)
    h t (r_sqEntries r)
    (r_cqHead r) (r_cqTail r) (r_cqMask r) (r_cqeBase r) (r_cqEntries r)
    (r_mmapSQ r) (r_mmapCQ r) (r_mmapSQEs r).

Definition OpUringCmd : Z := 46.
Definition setupSQE128 : Z := Z.shiftl 1 10.
Definition enterGetevents : Z := Z.shiftl 1 0.
Definition offSQRing : Z := 0x00000000.
Definition offCQRing : Z := 0x08000000.
Definition offSQEs : Z := 0x10000000.

(** ** Operations *)

Definition roundUp2 (v : Z) : Z :=
  if decide (v <= 1) then 1 else u32 (Z.shiftl 1 (Len32 (u32 (v - 1)))).

Definition SQEntries (r : Ring) : Z := r_sqEntries r.

(** [nextSQE]: the address of a free entry, [None] for [nil]. *)
Definition nextSQE (r : Ring) (m : shm) : option Z * Ring :=
  let head := r_sqeLocalHead r in
  let tail := r_sqeLocalTail r in
  let take (r : Ring) :=
    let idx := Z.land tail (ld (sqw m) (r_sqMask r)) in
    (Some (r_sqeBase r + idx * r_sqeSize r),
     set_local (r_sqeLocalHead r) (tail +32 1)%go r) in
  if decide (r_sqEntries r <= (tail -32 head)%go) then
    let head := ld (sqw m) (r_sqHead r) in
    let r := set_local head tail r in
    if decide (r_sqEntries r <= (tail -32 head)%go) then (None, r) else take r
  else take r.

Definition GetSQE128 (r : Ring) (m : shm) : option Z * Ring * shm :=
  match nextSQE r m with
  | (None, r) => (None, r, m)
  | (Some ptr, r) => (Some ptr, r, st_sqe ptr zero_SQE128 m)
  end.

Definition GetSQE64 (r : Ring) (m : shm) : option Z * Ring * shm :=
  match nextSQE r m with
  | (None, r) => (None, r, m)
  | (Some ptr, r) => (Some ptr, r, st_sqe ptr zero_SQE64 m)
  end.

(** [flushSQ]: the identity entries of the index array, then the tail. *)
Definition flush_array (r : Ring) (head count mask : Z) (w : gmap Z Z) : gmap Z Z :=
  foldl (fun w i => let idx := Z.land (head +32 i)%go mask in
                    <[r_sqArray r + idx * 4 := idx]> w) w (seqZ 0 count).

Definition flushSQ (r : Ring) (m : shm) : Z * Ring * shm :=
  let head := r_sqeLocalHead r in
  let tail := r_sqeLocalTail r in
  let count := (tail -32 head)%go in
  if decide (count = 0) then (0, r, m)
  else
    let mask := ld (sqw m) (r_sqMask r) in
    let w := flush_array r head count mask (sqw m) in
    (count, set_local tail tail r, set_sqw (fun _ => <[r_sqTail r := tail]> w) m).

Definition PeekCQE (r : Ring) (m : shm) : option CQE :=
  let head := ld (cqw m) (r_cqHead r) in
  let tail := ld (cqw m) (r_cqTail r) in
  if decide (head = tail) then None
  else
    let idx := Z.land head (ld (cqw m) (r_cqMask r)) in
    Some (ld_cqe m (r_cqeBase r + idx * cqeSize)).

Definition SeenCQE (r : Ring) (m : shm) : shm :=
  set_cqw (fun w => <[r_cqHead r := (ld w (r_cqHead r) +32 1)%go]> w) m.

(** ** Rounding the number of entries *)

(** Up to [2^31] the rounding is exact; above, the shift leaves the 32 bits. *)
Lemma roundUp2_pow v :
  2 <= v <= 2 ^ 31 -> roundUp2 v = 2 ^ Z.log2_up v /\ Z.log2_up v <= 31.
Proof.
  intros Hv. unfold roundUp2. rewrite decide_False by lia.
  rewrite (u32_id (v - 1)) by goint. unfold Len32. rewrite decide_False by lia.
  assert (E : Z.log2 (v - 1) + 1 = Z.log2_up v).
  { rewrite Z.log2_up_eqn by lia. rewrite <- Z.sub_1_r. lia. }
  rewrite E. assert (Hl : Z.log2_up v <= 31).
  { change 31 with (Z.log2_up (2 ^ 31)). apply Z.log2_up_le_mono. lia. }
  pose proof (Z.log2_up_nonneg v). rewrite Z.shiftl_1_l, u32_id; [done|].
  split; [lia|]. apply Z.pow_lt_mono_r; lia.
Qed.

Lemma roundUp2_overflow v : 2 ^ 31 < v < 2 ^ 32 -> roundUp2 v = 0.
Proof.
  intros Hv. unfold roundUp2. rewrite decide_False by lia. rewrite (u32_id (v - 1)) by goint.
  unfold Len32. rewrite decide_False by lia.
  assert (E : Z.log2 (v - 1) = 31) by (apply Z.log2_unique'  with (c := v - 1 - 2 ^ 31); lia).
  rewrite E. reflexivity.
Qed.

Lemma roundUp2_ge v : v <= 2 ^ 31 -> v <= roundUp2 v.
Proof.
  intros Hv. destruct (decide (v <= 1)) as [H1|H1].
  - unfold roundUp2. rewrite decide_True by done. done.
  - destruct (roundUp2_pow v) as [-> _]; [lia|]. pose proof (Z.log2_up_spec v ltac:(lia)). lia.
Qed.

(** ** The abstract queues *)

Section Views.
Context (r : Ring) (m : shm).

(** The ring position [pos] and the SQE slot it names. *)
Definition slot (pos : Z) : Z := r_sqeBase r + (pos mod r_sqEntries r) * r_sqeSize r.

(** Entries handed out by [nextSQE] and not flushed yet, oldest first. *)
Definition pending : list SQE :=
  (fun i => ld_sqe m (slot (r_sqeLocalHead r + i)))
    <$> seqZ 0 (u32 (r_sqeLocalTail r - r_sqeLocalHead r)).

(** What the kernel finds between its head and the shared tail, through the
    index array. *)
Definition k_head : Z := ld (sqw m) (r_sqHead r).
Definition k_tail : Z := ld (sqw m) (r_sqTail r).
Definition array_at (pos : Z) : Z := ld (sqw m) (r_sqArray r + (pos mod r_sqEntries r) * 4).
Definition published : list SQE :=
  (fun i => ld_sqe m (r_sqeBase r + array_at (k_head + i) * r_sqeSize r))
    <$> seqZ 0 (u32 (k_tail - k_head)).

(** Completions the kernel posted and the program has not consumed. *)
Definition c_head : Z := ld (cqw m) (r_cqHead r).
Definition c_tail : Z := ld (cqw m) (r_cqTail r).
Definition cqe_at (pos : Z) : CQE :=
  ld_cqe m (r_cqeBase r + (pos mod r_cqEntries r) * cqeSize).
Definition completions : list CQE :=
  (fun i => cqe_at (c_head + i)) <$> seqZ 0 (u32 (c_tail - c_head)).

(** What the kernel's set-up of the mappings guarantees: power-of-two sizes,
    the masks, and words that do not overlap. *)
Record ring_layout : Prop := {
  rl_sq : exists k, 0 <= k <= 31 /\ r_sqEntries r = 2 ^ k /\ ld (sqw m) (r_sqMask r) = 2 ^ k - 1;
  rl_cq : exists k, 0 <= k <= 31 /\ r_cqEntries r = 2 ^ k /\ ld (cqw m) (r_cqMask r) = 2 ^ k - 1;
  rl_size : 0 < r_sqeSize r;
  rl_words : NoDup [r_sqHead r; r_sqTail r; r_sqMask r];
  rl_array : Forall (fun a => a + 4 <= r_sqArray r \/ r_sqArray r + 4 * r_sqEntries r <= a)
               [r_sqHead r; r_sqTail r; r_sqMask r];
  rl_cwords : NoDup [r_cqHead r; r_cqTail r; r_cqMask r] }.

(** The submission side: everything flushed sits between the kernel's head and
    the local head, and no more than the ring's size is outstanding. *)
Record sq_inv : Prop := {
  sq_layout : ring_layout;
  sq_words : is_u 32 (r_sqeLocalHead r) /\ is_u 32 (r_sqeLocalTail r) /\ is_u 32 k_head;
  sq_flushed : k_tail = r_sqeLocalHead r;
  sq_outstanding : u32 (r_sqeLocalHead r - k_head) + u32 (r_sqeLocalTail r - r_sqeLocalHead r)
                   <= r_sqEntries r;
  sq_identity : forall i, 0 <= i < u32 (k_tail - k_head) ->
                  array_at (k_head + i) = (k_head + i) mod r_sqEntries r }.

Record cq_inv : Prop := {
  cq_layout : ring_layout;
  cq_words : is_u 32 c_head /\ is_u 32 c_tail;
  cq_bound : u32 (c_tail - c_head) <= r_cqEntries r }.
End Views.

(** ** Index arithmetic *)

Lemma ld_insert m a b v : ld (<[a := v]> m) b = if decide (a = b) then v else ld m b.
Proof. unfold ld. rewrite lookup_insert. by case_decide. Qed.

Lemma seqZ_snoc n : 0 <= n -> seqZ 0 (n + 1) = seqZ 0 n ++ [n].
Proof.
  intros Hn. rewrite seqZ_app by lia. f_equal.
Qed.

(** Positions whose 32-bit difference is [d] name the slots [d] apart. *)
Lemma pos_eq a b k d : 0 <= k <= 31 -> u32 (a - b) = d -> a mod 2 ^ k = (b + d) mod 2 ^ k.
Proof.
  intros Hk <-. rewrite (Z.add_comm b), <- Zplus_mod_idemp_l, u32_mod_pow by lia.
  rewrite Zplus_mod_idemp_l. f_equal. lia.
Qed.

Lemma layout_pos r m : ring_layout r m -> 0 < r_sqEntries r <= 2 ^ 31.
Proof.
  intros [(k & Hk & -> & _) _ _ _ _ _]. split; [lia|]. apply Z.pow_le_mono_r; lia.
Qed.

Lemma sq_mask r m a : ring_layout r m -> Z.land a (ld (sqw m) (r_sqMask r)) = a mod r_sqEntries r.
Proof. intros [(k & Hk & -> & ->) _ _ _ _ _]. apply land_mask. lia. Qed.

Lemma cq_mask r m a : ring_layout r m -> Z.land a (ld (cqw m) (r_cqMask r)) = a mod r_cqEntries r.
Proof. intros [_ (k & Hk & -> & ->) _ _ _ _]. apply land_mask. lia. Qed.

(** Distinct indices below the ring size name distinct slots. *)
Lemma slot_ne r m a b :
  ring_layout r m -> a mod r_sqEntries r <> b mod r_sqEntries r -> slot r a <> slot r b.
Proof.
  intros Hl Hne Heq. apply Hne. unfold slot in Heq. pose proof (rl_size _ _ Hl).
  apply (Z.mul_reg_r _ _ (r_sqeSize r)); lia.
Qed.

Lemma ld_sqe_ne m a b s : a <> b -> ld_sqe (st_sqe a s m) b = ld_sqe m b.
Proof. intros. unfold ld_sqe, st_sqe. cbn. by rewrite lookup_insert_ne. Qed.
Lemma ld_sqe_eq m a s : ld_sqe (st_sqe a s m) a = s.
Proof. unfold ld_sqe, st_sqe. cbn. by rewrite lookup_insert_eq. Qed.

Lemma flush_idx r m a :
  ring_layout r m -> Z.land (u32 a) (ld (sqw m) (r_sqMask r)) = a mod r_sqEntries r.
Proof.
  intros Hl. rewrite (sq_mask r m) by done.
  destruct (rl_sq _ _ Hl) as (k & Hk & -> & _). apply u32_mod_pow. lia.
Qed.

(** Writing the index array: the identity at the flushed positions, nothing
    else. *)
Lemma flush_array_hit r m head count w i :
  ring_layout r m -> 0 <= i < count ->
  ld (flush_array r head count (ld (sqw m) (r_sqMask r)) w)
     (r_sqArray r + ((head + i) mod r_sqEntries r) * 4) = (head + i) mod r_sqEntries r.
Proof.
  intros Hl. unfold flush_array.
  intros Hi. assert (Hc : 0 <= count) by lia. revert i Hi.
  pattern count. apply natlike_ind; [lia| |done].
  clear count Hc. intros count Hc IH i Hi. rewrite <- Z.add_1_r, seqZ_snoc, foldl_app by done.
  cbn [foldl]. rewrite (flush_idx r m), ld_insert by done. case_decide as E; [lia|].
  apply IH. destruct (decide (i = count)) as [->|]; [congruence|lia].
Qed.

Lemma flush_array_miss r m head count w a :
  ring_layout r m -> 0 <= count ->
  (forall i, 0 <= i < count -> a <> r_sqArray r + ((head + i) mod r_sqEntries r) * 4) ->
  ld (flush_array r head count (ld (sqw m) (r_sqMask r)) w) a = ld w a.
Proof.
  intros Hl Hc. unfold flush_array.
  pattern count. apply natlike_ind; [done| |done].
  clear count Hc. intros count Hc IH Hne. rewrite <- Z.add_1_r, seqZ_snoc, foldl_app by done.
  cbn [foldl]. rewrite (flush_idx r m), ld_insert by done. rewrite decide_False; [|apply not_eq_sym, Hne; lia].
  apply IH. intros i Hi. apply Hne. lia.
Qed.

(** The words outside the index array survive a flush. *)
Lemma flush_array_word r m head count w a :
  ring_layout r m -> 0 <= count -> a ∈ [r_sqHead r; r_sqTail r; r_sqMask r] ->
  ld (flush_array r head count (ld (sqw m) (r_sqMask r)) w) a = ld w a.
Proof.
  intros Hl Hc Ha. apply (flush_array_miss r m); [done..|]. intros i Hi Heq.
  pose proof (rl_array _ _ Hl) as Hr. rewrite Forall_forall in Hr. specialize (Hr _ Ha).
  pose proof (layout_pos _ _ Hl).
  pose proof (Z.mod_pos_bound (head + i) (r_sqEntries r)). lia.
Qed.

Lemma pos_shift r m a b d i :
  ring_layout r m -> u32 (a - b) = d ->
  (a + i) mod r_sqEntries r = (b + d + i) mod r_sqEntries r.
Proof.
  intros Hl Hd. destruct (rl_sq _ _ Hl) as (k & Hk & -> & _).
  rewrite <- Zplus_mod_idemp_l, (pos_eq a b k d) by done. by rewrite Zplus_mod_idemp_l.
Qed.

Lemma window_ne n b i j :
  0 <= i < n -> 0 <= j < n -> i <> j -> (b + i) mod n <> (b + j) mod n.
Proof. intros Hi Hj Hne Heq. apply Hne. apply (mod_window_inj b b i j n); auto; lia. Qed.

(** ** Submission *)

(** How many entries may still be handed out. *)
Definition sq_room (r : Ring) (m : shm) : Z :=
  r_sqEntries r - u32 (r_sqeLocalHead r - k_head r m) - u32 (r_sqeLocalTail r - r_sqeLocalHead r).

Lemma nextSQE_room r m :
  ring_layout r m -> u32 (r_sqeLocalTail r - r_sqeLocalHead r) < r_sqEntries r ->
  nextSQE r m =
  (Some (slot r (r_sqeLocalTail r)), set_local (r_sqeLocalHead r) (u32 (r_sqeLocalTail r + 1)) r).
Proof.
  intros Hl Hr. unfold nextSQE. rewrite decide_False by lia. by rewrite (sq_mask r m).
Qed.

(** The ring after an entry [s] is handed out and filled in. *)
Definition pushed (r : Ring) : Ring :=
  set_local (r_sqeLocalHead r) (u32 (r_sqeLocalTail r + 1)) r.

Lemma pending_push r m s :
  sq_inv r m -> 0 < sq_room r m ->
  pending (pushed r) (st_sqe (slot r (r_sqeLocalTail r)) s m) = pending r m ++ [s].
Proof.
  intros [Hl (Hlh & Hlt & Hkh) Hfl Hout _] Hroom. unfold sq_room in Hroom.
  pose proof (layout_pos _ _ Hl). unfold pending, pushed. cbn [set_local r_sqeLocalHead r_sqeLocalTail].
  set (c := u32 (r_sqeLocalTail r - r_sqeLocalHead r)) in *.
  assert (Hc : 0 <= c < r_sqEntries r) by (subst c; goint).
  replace (u32 (u32 (r_sqeLocalTail r + 1) - r_sqeLocalHead r)) with (c + 1)
    by (subst c; goint).
  rewrite seqZ_snoc, fmap_app by lia. f_equal.
  - apply list_fmap_ext. intros j i Hj. apply lookup_seqZ in Hj as [-> Hj].
    apply ld_sqe_ne. unfold pushed. apply (slot_ne r m); [done|].
    rewrite <- (Z.add_0_r (r_sqeLocalTail r)), (pos_shift r m _ _ c 0 Hl eq_refl), <- Z.add_assoc.
    apply window_ne; lia.
  - cbn. f_equal.
    enough (E : slot (set_local (r_sqeLocalHead r) (u32 (r_sqeLocalTail r + 1)) r)
                  (r_sqeLocalHead r + c) = slot r (r_sqeLocalTail r)) by (rewrite E; apply ld_sqe_eq).
    unfold slot. cbn. f_equal. f_equal.
    rewrite <- (Z.add_0_r (r_sqeLocalTail r)), (pos_shift r m _ _ c 0 Hl eq_refl). f_equal. lia.
Qed.

Lemma published_push r m s :
  sq_inv r m -> 0 < sq_room r m ->
  published (pushed r) (st_sqe (slot r (r_sqeLocalTail r)) s m) = published r m.
Proof.
  intros [Hl (Hlh & Hlt & Hkh) Hfl Hout Hid] Hroom. unfold sq_room in Hroom.
  unfold published. change (k_head (pushed r) _) with (k_head r m).
  change (k_tail (pushed r) _) with (k_tail r m).
  apply list_fmap_ext. intros j i Hj. apply lookup_seqZ in Hj as [-> Hj].
  change (array_at (pushed r) _) with (array_at r m). rewrite Hid by lia.
  change (ld_sqe (st_sqe (slot r (r_sqeLocalTail r)) s m) (slot r (k_head r m + (0 + Z.of_nat j))) =
          ld_sqe m (slot r (k_head r m + (0 + Z.of_nat j)))).
  apply ld_sqe_ne, (slot_ne r m); [done|]. rewrite Hfl in Hj.
  pose proof (layout_pos _ _ Hl). pose proof (is_u_u32 (r_sqeLocalTail r - r_sqeLocalHead r)).
  rewrite <- (Z.add_0_r (r_sqeLocalTail r)), (pos_shift r m _ (r_sqeLocalHead r) _ 0 Hl eq_refl), <- Z.add_assoc.
  rewrite (pos_shift r m (r_sqeLocalHead r) (k_head r m) _ _ Hl eq_refl), <- Z.add_assoc.
  unfold is_u in *. apply window_ne; lia.
Qed.

Lemma sq_inv_push r m s :
  sq_inv r m -> 0 < sq_room r m -> sq_inv (pushed r) (st_sqe (slot r (r_sqeLocalTail r)) s m).
Proof.
  intros [Hl (Hlh & Hlt & Hkh) Hfl Hout Hid] Hroom. unfold sq_room in Hroom.
  pose proof (layout_pos _ _ Hl).
  constructor; [by destruct Hl| |done| |done].
  - split_and!; [done| |done]. apply is_u_u32.
  - change (k_head (pushed r) _) with (k_head r m). unfold pushed.
    cbn [set_local r_sqeLocalHead r_sqeLocalTail r_sqEntries].
    assert (0 <= u32 (r_sqeLocalHead r - k_head r m)) by goint.
    replace (u32 (u32 (r_sqeLocalTail r + 1) - r_sqeLocalHead r))
      with (u32 (r_sqeLocalTail r - r_sqeLocalHead r) + 1) by goint.
    lia.
Qed.

(** Through the identity array, the kernel reads the slots in order. *)
Lemma published_slots r m :
  sq_inv r m ->
  published r m = (fun i => ld_sqe m (slot r (k_head r m + i))) <$>
                    seqZ 0 (u32 (r_sqeLocalHead r - k_head r m)).
Proof.
  intros Hi. unfold published. rewrite (sq_flushed _ _ Hi).
  apply list_fmap_ext. intros j i Hj. apply lookup_seqZ in Hj as [-> Hj].
  rewrite (sq_identity _ _ Hi); [done|]. rewrite (sq_flushed _ _ Hi). lia.
Qed.

(** The ring and the memory after a flush of a non-empty queue. *)
Definition flushed_ring (r : Ring) : Ring := set_local (r_sqeLocalTail r) (r_sqeLocalTail r) r.
Definition flushed_mem (r : Ring) (m : shm) : shm :=
  set_sqw (fun _ => <[r_sqTail r := r_sqeLocalTail r]>
    (flush_array r (r_sqeLocalHead r) (u32 (r_sqeLocalTail r - r_sqeLocalHead r))
       (ld (sqw m) (r_sqMask r)) (sqw m))) m.

Section Flush.
Context (r : Ring) (m : shm) (Hinv : sq_inv r m).
Abbreviation lh := (r_sqeLocalHead r).
Abbreviation lt := (r_sqeLocalTail r).
Abbreviation kh := (k_head r m).
Abbreviation n := (r_sqEntries r).

Lemma flush_sizes :
  0 <= u32 (lh - kh) /\ 0 <= u32 (lt - lh) /\ u32 (lh - kh) + u32 (lt - lh) <= n /\
  0 < n <= 2 ^ 31 /\ u32 (lt - kh) = u32 (lh - kh) + u32 (lt - lh).
Proof.
  destruct Hinv as [Hl (H1 & H2 & H3) _ H4 _]. pose proof (layout_pos _ _ Hl). goint.
Qed.

Lemma flush_words a :
  a ∈ [r_sqHead r; r_sqMask r] -> ld (sqw (flushed_mem r m)) a = ld (sqw m) a.
Proof.
  intros Ha. destruct Hinv as [Hl _ _ _ _]. cbn [flushed_mem set_sqw sqw]. rewrite ld_insert.
  rewrite decide_False.
  - apply (flush_array_word r m); [done|goint|set_solver].
  - pose proof (rl_words _ _ Hl) as Hn. rewrite !NoDup_cons in Hn. set_solver.
Qed.

Lemma flush_array_identity i :
  0 <= i < u32 (lt - kh) ->
  array_at (flushed_ring r) (flushed_mem r m) (kh + i) = (kh + i) mod n.
Proof.
  intros Hi. destruct flush_sizes as (Hp & Hc & Hpc & Hn & E). rewrite E in Hi.
  destruct Hinv as [Hl (H1 & H2 & H3) Hfl _ Hid].
  unfold array_at. cbn [flushed_ring flushed_mem set_local set_sqw sqw r_sqArray r_sqEntries].
  rewrite ld_insert, decide_False.
  - destruct (decide (i < u32 (lh - kh))) as [Hlt|Hge].
    + rewrite (flush_array_miss r m); [|done|goint|].
      * rewrite <- (Hid i) at 2; [done|]. rewrite Hfl. lia.
      * intros j Hj Heq. rewrite (pos_shift r m lh kh _ j Hl eq_refl), <- Z.add_assoc in Heq.
        apply (window_ne n kh i (u32 (lh - kh) + j)); lia.
    + replace ((kh + i) mod n) with ((lh + (i - u32 (lh - kh))) mod n).
      * apply (flush_array_hit r m); [done|lia].
      * rewrite (pos_shift r m lh kh _ _ Hl eq_refl). f_equal. lia.
  - pose proof (rl_array _ _ Hl) as Hr. rewrite !Forall_cons in Hr.
    pose proof (Z.mod_pos_bound (kh + i) n). lia.
Qed.

Lemma sq_inv_flush : sq_inv (flushed_ring r) (flushed_mem r m).
Proof.
  destruct flush_sizes as (Hp & Hc & Hpc & Hn & E).
  assert (Hkh : k_head (flushed_ring r) (flushed_mem r m) = kh)
    by (apply flush_words; set_solver).
  assert (Hkt : k_tail (flushed_ring r) (flushed_mem r m) = lt).
  { unfold k_tail. cbn. rewrite ld_insert, decide_True; done. }
  pose proof (flush_words (r_sqMask r) ltac:(set_solver)) as Hmask.
  pose proof Hinv as [[Hsq Hcq Hsz Hw Ha Hcw] (H1 & H2 & H3) _ _ _].
  constructor.
  - constructor; try done. destruct Hsq as (k & Hk & He & Hkm). exists k.
    split_and!; [lia..|exact He|]. change (r_sqMask (flushed_ring r)) with (r_sqMask r).
    by rewrite Hmask.
  - rewrite Hkh. done.
  - by rewrite Hkt.
  - rewrite Hkh. cbn. rewrite Z.sub_diag. change (u32 0) with 0. lia.
  - rewrite Hkt, Hkh. apply flush_array_identity.
Qed.

Lemma pending_flush : pending (flushed_ring r) (flushed_mem r m) = [].
Proof. unfold pending. cbn. rewrite Z.sub_diag. reflexivity. Qed.

Lemma published_flush :
  published (flushed_ring r) (flushed_mem r m) = published r m ++ pending r m.
Proof.
  destruct flush_sizes as (Hp & Hc & Hpc & Hn & E). pose proof (sq_layout _ _ Hinv) as Hl.
  rewrite (published_slots _ _ sq_inv_flush), (published_slots _ _ Hinv).
  assert (Hkh : k_head (flushed_ring r) (flushed_mem r m) = kh)
    by (apply flush_words; set_solver).
  rewrite Hkh. cbn [flushed_ring set_local r_sqeLocalHead]. rewrite E, seqZ_app, fmap_app by done.
  f_equal. rewrite Z.add_0_l. unfold pending.
  set (p := u32 (lh - kh)) in *. set (c := u32 (lt - lh)) in *.
  replace (seqZ p c) with (Z.add p <$> seqZ 0 c) by (rewrite fmap_add_seqZ; f_equal; lia).
  rewrite <- list_fmap_compose. apply list_fmap_ext. intros j i _. unfold compose.
  change (ld_sqe m (slot r (kh + (p + i))) = ld_sqe m (slot r (lh + i))). f_equal. unfold slot.
  rewrite (pos_shift r m lh kh p i Hl eq_refl). do 3 f_equal. lia.
Qed.
End Flush.

Lemma flushSQ_eq r m :
  flushSQ r m = if decide (u32 (r_sqeLocalTail r - r_sqeLocalHead r) = 0) then (0, r, m)
                else (u32 (r_sqeLocalTail r - r_sqeLocalHead r), flushed_ring r, flushed_mem r m).
Proof. reflexivity. Qed.

(** Prepare an entry: take one, then fill it in through the returned pointer. *)
Definition put64 (s : SQE) (r : Ring) (m : shm) : option (Ring * shm) :=
  match GetSQE64 r m with
  | (Some ptr, r, m) => Some (r, st_sqe ptr s m)
  | (None, _, _) => None
  end.

Fixpoint put_all (ss : list SQE) (r : Ring) (m : shm) : option (Ring * shm) :=
  match ss with
  | [] => Some (r, m)
  | s :: ss' => '(r, m) ← put64 s r m; put_all ss' r m
  end.

Lemma st_sqe_twice a s t m : st_sqe a s (st_sqe a t m) = st_sqe a s m.
Proof. unfold st_sqe. cbn. f_equal. apply insert_insert_eq. Qed.

Lemma put64_room s r m :
  sq_inv r m -> 0 < sq_room r m ->
  put64 s r m = Some (pushed r, st_sqe (slot r (r_sqeLocalTail r)) s m).
Proof.
  intros Hi Hroom. unfold put64, GetSQE64. rewrite nextSQE_room.
  - by rewrite st_sqe_twice.
  - apply Hi.
  - unfold sq_room in Hroom. pose proof (is_u_u32 (r_sqeLocalHead r - k_head r m)).
    unfold is_u in *. lia.
Qed.

Lemma sq_room_pushed r m s a :
  sq_inv r m -> 0 < sq_room r m -> sq_room (pushed r) (st_sqe a s m) = sq_room r m - 1.
Proof.
  intros [Hl (H1 & H2 & H3) _ Ho _] Hroom. pose proof (layout_pos _ _ Hl).
  unfold sq_room in *. change (k_head (pushed r) _) with (k_head r m). unfold pushed.
  cbn [set_local r_sqeLocalHead r_sqeLocalTail r_sqEntries]. goint.
Qed.

Lemma put_all_room ss : forall r m,
  sq_inv r m -> Z.of_nat (length ss) <= sq_room r m ->
  exists r' m', put_all ss r m = Some (r', m') /\ sq_inv r' m' /\
    pending r' m' = pending r m ++ ss /\ published r' m' = published r m /\
    sq_room r' m' = sq_room r m - Z.of_nat (length ss).
Proof.
  induction ss as [|s ss IH]; intros r m Hi Hr.
  - exists r, m. rewrite app_nil_r. split_and!; [done..|cbn; lia].
  - cbn [length] in Hr. cbn [put_all]. rewrite put64_room by (done || lia). cbn [mbind option_bind].
    destruct (IH (pushed r) (st_sqe (slot r (r_sqeLocalTail r)) s m))
      as (r' & m' & E & Hi' & Hp & Hpub & Hroom).
    + apply sq_inv_push; [done|lia].
    + rewrite sq_room_pushed by (done || lia). lia.
    + exists r', m'. rewrite pending_push in Hp by (done || lia).
      rewrite published_push in Hpub by (done || lia).
      rewrite sq_room_pushed in Hroom by (done || lia).
      split_and!; [done..| |done|cbn [length]; lia]. rewrite Hp. by rewrite <- app_assoc.
Qed.

(** With everything flushed consumed by the kernel and the ring full of
    pending entries, there is nothing to hand out. *)
Lemma nextSQE_full r m :
  sq_inv r m -> published r m = [] -> sq_room r m = 0 -> nextSQE r m = (None, r).
Proof.
  intros Hi Hpub Hroom. pose proof Hi as [Hl (H1 & H2 & H3) _ _ _].
  assert (Ep : u32 (r_sqeLocalHead r - k_head r m) = 0).
  { apply (f_equal length) in Hpub. rewrite (published_slots r m Hi), length_fmap, length_seqZ in Hpub.
    cbn in Hpub. goint. }
  assert (E : k_head r m = r_sqeLocalHead r) by goint.
  unfold sq_room in Hroom. unfold nextSQE. rewrite decide_True by lia.
  fold (k_head r m). rewrite E. rewrite decide_True by (cbn; lia).
  f_equal. by destruct r.
Qed.

Lemma flushSQ_spec r m :
  sq_inv r m ->
  exists r' m', flushSQ r m = (Z.of_nat (length (pending r m)), r', m') /\ sq_inv r' m' /\
    pending r' m' = [] /\ published r' m' = published r m ++ pending r m.
Proof.
  intros Hi. rewrite flushSQ_eq.
  assert (Hlen : Z.of_nat (length (pending r m)) = u32 (r_sqeLocalTail r - r_sqeLocalHead r)).
  { unfold pending. rewrite length_fmap, length_seqZ. goint. }
  case_decide as Hc.
  - exists r, m. rewrite Hlen, Hc. assert (pending r m = []) as ->.
    { apply nil_length_inv. lia. }
    rewrite app_nil_r. done.
  - exists (flushed_ring r), (flushed_mem r m). rewrite Hlen.
    split_and!; [done|by apply sq_inv_flush|apply pending_flush|by apply published_flush].
Qed.

Lemma pending_length r m :
  Z.of_nat (length (pending r m)) = u32 (r_sqeLocalTail r - r_sqeLocalHead r).
Proof. unfold pending. rewrite length_fmap, length_seqZ. goint. Qed.

Lemma published_length r m :
  sq_inv r m -> Z.of_nat (length (published r m)) = u32 (r_sqeLocalHead r - k_head r m).
Proof. intros Hi. rewrite published_slots by done. rewrite length_fmap, length_seqZ. goint. Qed.

(** The room is what the two queues leave. *)
Lemma sq_room_lengths r m :
  sq_inv r m ->
  sq_room r m = r_sqEntries r - Z.of_nat (length (published r m)) - Z.of_nat (length (pending r m)).
Proof. intros Hi. rewrite published_length, pending_length by done. reflexivity. Qed.

Lemma sq_room_idle r m :
  sq_inv r m -> published r m = [] -> pending r m = [] -> sq_room r m = r_sqEntries r.
Proof. intros Hi Hp Hq. rewrite sq_room_lengths by done. rewrite Hp, Hq. cbn. lia. Qed.

Lemma put_all_entries ss : forall r m r' m',
  put_all ss r m = Some (r', m') -> r_sqEntries r' = r_sqEntries r.
Proof.
  induction ss as [|s ss IH]; intros r m r' m' E; [by simplify_eq/=|].
  cbn [put_all] in E. unfold put64, GetSQE64, nextSQE in E.
  repeat case_decide; cbn in E; try done; by rewrite (IH _ _ _ _ E).
Qed.

(** ** Completion *)

Lemma cq_pos_eq r m a i :
  ring_layout r m -> (u32 a + i) mod r_cqEntries r = (a + i) mod r_cqEntries r.
Proof.
  intros Hl. destruct (rl_cq _ _ Hl) as (k & Hk & -> & _).
  rewrite <- Zplus_mod_idemp_l, u32_mod_pow by lia. apply Zplus_mod_idemp_l.
Qed.

Lemma completions_cons r m :
  cq_inv r m -> completions r m <> [] ->
  completions r m = cqe_at r m (c_head r m) :: tail (completions r m).
Proof.
  unfold completions. intros [_ (H1 & H2) _] Hne.
  destruct (decide (u32 (c_tail r m - c_head r m) = 0)) as [E|E].
  - rewrite E in Hne. done.
  - rewrite seqZ_cons by goint. cbn. by rewrite Z.add_0_r.
Qed.

Lemma PeekCQE_head r m : cq_inv r m -> PeekCQE r m = head (completions r m).
Proof.
  intros Hi. pose proof Hi as [Hl (H1 & H2) _].
  unfold PeekCQE. fold (c_head r m) (c_tail r m). case_decide as E.
  - unfold completions. rewrite <- E, Z.sub_diag. reflexivity.
  - rewrite completions_cons; [|done|].
    + cbn [head]. unfold cqe_at. by rewrite (cq_mask r m).
    + unfold completions. rewrite seqZ_cons by goint. done.
Qed.

Lemma c_head_seen r m : c_head r (SeenCQE r m) = u32 (c_head r m + 1).
Proof. unfold c_head. cbn. by rewrite ld_insert, decide_True. Qed.

Lemma cq_layout_seen r m a :
  ring_layout r m -> a ∈ [r_cqTail r; r_cqMask r] ->
  ld (cqw (SeenCQE r m)) a = ld (cqw m) a.
Proof.
  intros Hl Ha. cbn [SeenCQE set_cqw cqw]. rewrite ld_insert, decide_False; [done|].
  pose proof (rl_cwords _ _ Hl) as Hn. apply NoDup_cons in Hn as [Hn _].
  intros Heq. apply Hn. by rewrite Heq.
Qed.

Lemma ring_layout_seen r m : ring_layout r m -> ring_layout r (SeenCQE r m).
Proof.
  intros Hl. pose proof (cq_layout_seen r m (r_cqMask r) Hl ltac:(set_solver)) as E.
  destruct Hl. constructor; try done. by rewrite E.
Qed.

Lemma c_tail_seen r m : ring_layout r m -> c_tail r (SeenCQE r m) = c_tail r m.
Proof. intros Hl. apply cq_layout_seen; [done|set_solver]. Qed.

Lemma cq_inv_seen r m :
  cq_inv r m -> completions r m <> [] -> cq_inv r (SeenCQE r m).
Proof.
  intros [Hl (H1 & H2) Hb] Hne.
  assert (u32 (c_tail r m - c_head r m) <> 0)
    by (intros E; apply Hne; unfold completions; by rewrite E).
  constructor; [by apply ring_layout_seen|..]; rewrite c_head_seen, c_tail_seen by done.
  - split; [apply is_u_u32|done].
  - goint.
Qed.

Lemma completions_seen r m :
  cq_inv r m -> completions r m <> [] ->
  completions r (SeenCQE r m) = tail (completions r m).
Proof.
  intros Hi Hne. pose proof Hi as [Hl (H1 & H2) Hb].
  assert (H0 : u32 (c_tail r m - c_head r m) <> 0)
    by (intros E; apply Hne; unfold completions; by rewrite E).
  unfold completions. rewrite c_head_seen, c_tail_seen by done.
  replace (u32 (c_tail r m - u32 (c_head r m + 1)))
    with (u32 (c_tail r m - c_head r m) - 1) by goint.
  set (n := u32 (c_tail r m - c_head r m)) in *.
  rewrite (seqZ_cons 0 n) by (subst n; goint). cbn [fmap list_fmap tail].
  replace (Z.pred n) with (n - 1) by lia. change (Z.succ 0) with (1 + 0).
  rewrite <- fmap_add_seqZ, <- list_fmap_compose. apply list_fmap_ext. intros j i _.
  unfold compose, cqe_at, ld_cqe. cbn [SeenCQE set_cqw cqes]. do 4 f_equal.
  rewrite (cq_pos_eq r m) by done. f_equal. lia.
Qed.

(** Consume every available completion, as the worker's inner loop does. *)
Fixpoint drain (fuel : nat) (r : Ring) (m : shm) : list CQE * shm :=
  match fuel with
  | O => ([], m)
  | S f =>
      match PeekCQE r m with
      | None => ([], m)
      | Some c => let '(l, m) := drain f r (SeenCQE r m) in (c :: l, m)
      end
  end.

(** ** A ring of a given size, as the kernel sets it up *)

Definition sample_ring (n : Z) : Ring :=
  mk_Ring 3 4 5 false
    (mk_params n (2 * n) 0 0 0 0 0 [0; 0; 0]
       (mk_sqOffsets 0 4 8 12 16 20 64 0 0) (mk_cqOffsets 0 4 8 12 16 64 20 0 0))
    sqe64Size 0 4 8 16 64 0 0 0 n 0 4 8 64 (2 * n) (Some 1) (Some 2) (Some 3).
Definition sample_shm (n : Z) : shm :=
  mk_shm {[8 := n - 1]} {[8 := 2 * n - 1]} ∅ ∅.

Lemma sample_layout k :
  0 <= k <= 30 -> ring_layout (sample_ring (2 ^ k)) (sample_shm (2 ^ k)).
Proof.
  intros Hk. constructor; cbn [sample_ring sample_shm sqw cqw r_sqMask r_cqMask r_sqEntries
    r_cqEntries r_sqHead r_sqTail r_cqHead r_cqTail r_sqArray r_sqeSize].
  - exists k. split_and!; [lia..|done|by rewrite (lookup_singleton_eq 8) || reflexivity].
  - exists (k + 1). rewrite (Z.pow_add_r 2 k 1) by lia.
    split_and!; [lia..|lia|unfold ld; rewrite lookup_singleton_eq; cbn; lia].
  - vm_compute. reflexivity.
  - apply (bool_decide_unpack _). vm_compute. exact I.
  - repeat constructor; lia.
  - apply (bool_decide_unpack _). vm_compute. exact I.
Qed.

Lemma sample_sq_inv k :
  0 <= k <= 30 -> sq_inv (sample_ring (2 ^ k)) (sample_shm (2 ^ k)).
Proof.
  intros Hk. constructor; [by apply sample_layout| | | |].
  - change (is_u 32 0 /\ is_u 32 0 /\ is_u 32 0). repeat split; lia.
  - reflexivity.
  - change (0 + 0 <= 2 ^ k). lia.
  - intros i. change (u32 _) with 0. lia.
Qed.

Lemma sample_cq_inv k :
  0 <= k <= 30 -> cq_inv (sample_ring (2 ^ k)) (sample_shm (2 ^ k)).
Proof.
  intros Hk. constructor; [by apply sample_layout| |].
  - change (is_u 32 0 /\ is_u 32 0). repeat split; lia.
  - change (0 <= 2 * 2 ^ k). lia.
Qed.

(** ** Theorems *)

(** [roundUp2] returns the least power of two that is at least its
    argument for every 32-bit argument up to [2^31]; above it the shift leaves
    the 32 bits and the result is 0. *)
Theorem roundUp2_least v :
  is_u 32 v ->
  (v <= 2 ^ 31 -> exists k, 0 <= k <= 31 /\ roundUp2 v = 2 ^ k /\ v <= 2 ^ k /\
     forall j, 0 <= j -> v <= 2 ^ j -> k <= j) /\
  (2 ^ 31 < v -> roundUp2 v = 0).
Proof.
  intros Hu. split; [|intros; apply roundUp2_overflow; goint].
  intros Hv. destruct (decide (v <= 1)) as [H1|H1].
  - exists 0. unfold roundUp2. rewrite decide_True by done. repeat split; lia.
  - destruct (roundUp2_pow v) as [E Hl]; [lia|]. pose proof (Z.log2_up_nonneg v).
    exists (Z.log2_up v). split_and!; [lia..|done| |].
    + apply Z.log2_up_spec. lia.
    + intros j Hj Hvj. rewrite <- (Z.log2_up_pow2 j) by done. by apply Z.log2_up_le_mono.
Qed.

Lemma roundUp2_least_witness : is_u 32 100 /\
  ((100 <= 2 ^ 31 -> exists k, 0 <= k <= 31 /\ roundUp2 100 = 2 ^ k /\ 100 <= 2 ^ k /\
     forall j, 0 <= j -> 100 <= 2 ^ j -> k <= j) /\
  (2 ^ 31 < 100 -> roundUp2 100 = 0)).
Proof. split; [split; lia|]. apply (roundUp2_least 100). split; lia. Defined.

(** C15: The submission queue is a FIFO.  As many entries as there is room for
    can be prepared one after the other; flushing then publishes exactly those
    entries, in the order they were prepared and after the ones already
    published, and reports how many they are.  The index arithmetic may wrap
    modulo [2^32] and modulo the ring size in between. *)
Theorem submit_fifo r m ss :
  sq_inv r m -> Z.of_nat (length ss) <= sq_room r m ->
  exists r1 m1 r2 m2,
    put_all ss r m = Some (r1, m1) /\
    flushSQ r1 m1 = (Z.of_nat (length (pending r m ++ ss)), r2, m2) /\
    published r2 m2 = published r m ++ pending r m ++ ss /\
    pending r2 m2 = [] /\ sq_inv r2 m2.
Proof.
  intros Hi Hr. destruct (put_all_room ss r m Hi Hr) as (r1 & m1 & E1 & Hi1 & Hp & Hpub & _).
  destruct (flushSQ_spec r1 m1 Hi1) as (r2 & m2 & E2 & Hi2 & Hp2 & Hpub2).
  exists r1, m1, r2, m2. rewrite Hp in E2, Hpub2. rewrite Hpub in Hpub2. done.
Qed.

Lemma submit_fifo_witness : exists r1 m1 r2 m2,
  put_all (replicate 4 zero_SQE64) (sample_ring 4) (sample_shm 4) = Some (r1, m1) /\
  flushSQ r1 m1 = (4, r2, m2) /\
  published r2 m2 = replicate 4 zero_SQE64 /\ pending r2 m2 = [] /\ sq_inv r2 m2.
Proof.
  apply (submit_fifo (sample_ring 4) (sample_shm 4) (replicate 4 zero_SQE64)).
  - apply (sample_sq_inv 2). lia.
  - vm_compute. discriminate.
Defined.

(** The submission queue holds exactly as many entries as the kernel
    granted: once nothing is outstanding, [SQEntries] entries can be prepared
    and the next request returns [nil], leaving the ring as it is. *)
Theorem sq_capacity r m ss :
  sq_inv r m -> published r m = [] -> pending r m = [] ->
  Z.of_nat (length ss) = SQEntries r ->
  exists r' m', put_all ss r m = Some (r', m') /\ GetSQE64 r' m' = (None, r', m') /\
    pending r' m' = ss.
Proof.
  intros Hi Hpub Hpend Hlen. pose proof (sq_room_idle r m Hi Hpub Hpend) as Eroom.
  destruct (put_all_room ss r m Hi) as (r' & m' & E & Hi' & Hp' & Hpub' & Hroom').
  { rewrite Eroom. unfold SQEntries in Hlen. lia. }
  exists r', m'. split; [done|]. rewrite Hpend in Hp'. split; [|done].
  rewrite Hpub in Hpub'. unfold GetSQE64.
  enough (En : nextSQE r' m' = (None, r')) by (by rewrite En).
  apply nextSQE_full; [done..|]. rewrite Hroom', Eroom. unfold SQEntries in Hlen. lia.
Qed.

Lemma sq_capacity_witness : exists r' m',
  put_all (replicate 4 zero_SQE64) (sample_ring 4) (sample_shm 4) = Some (r', m') /\
  GetSQE64 r' m' = (None, r', m') /\ pending r' m' = replicate 4 zero_SQE64.
Proof.
  apply (sq_capacity (sample_ring 4) (sample_shm 4) (replicate 4 zero_SQE64)).
  - apply (sample_sq_inv 2). lia.
  - reflexivity.
  - reflexivity.
  - reflexivity.
Defined.

(** An entry taken from a full, flushed ring is the oldest published one. *)
Lemma published_reuse r m s :
  sq_inv r m -> pending r m = [] -> sq_room r m = 0 ->
  published (pushed r) (st_sqe (slot r (r_sqeLocalTail r)) s m) = s :: tail (published r m).
Proof.
  intros Hi Hpend Hroom. destruct (flush_sizes r m Hi) as (Hp & Hc & Hpc & Hn & _).
  pose proof Hi as [Hl (H1 & H2 & H3) Hfl _ Hid].
  assert (Ec : u32 (r_sqeLocalTail r - r_sqeLocalHead r) = 0)
    by (rewrite <- (pending_length r m), Hpend; done).
  unfold sq_room in Hroom. assert (Ek : r_sqeLocalTail r = r_sqeLocalHead r) by goint.
  rewrite (published_slots r m Hi). unfold published.
  change (k_head (pushed r) _) with (k_head r m). change (k_tail (pushed r) _) with (k_tail r m).
  change (array_at (pushed r) _) with (array_at r m). rewrite Hfl.
  set (n := u32 (r_sqeLocalHead r - k_head r m)) in *. assert (En : n = r_sqEntries r) by lia.
  assert (Es : slot r (r_sqeLocalTail r) = slot r (k_head r m + 0)).
  { unfold slot. rewrite Ek, <- (Z.add_0_r (r_sqeLocalHead r)).
    rewrite (pos_shift r m _ _ n 0 Hl eq_refl). do 2 f_equal. rewrite En, Z.add_0_r.
    rewrite <- (Z.mul_1_l (r_sqEntries r)) at 1. by rewrite Z_mod_plus_full, Z.add_0_r. }
  assert (Hread : forall i, 0 <= i < n ->
    r_sqeBase (pushed r) + array_at r m (k_head r m + i) * r_sqeSize (pushed r) = slot r (k_head r m + i)).
  { intros i Hi'. rewrite Hid by (rewrite Hfl; done). done. }
  rewrite (seqZ_cons 0 n) by lia. rewrite !fmap_cons. cbn [tail].
  rewrite Hread, Es by lia. f_equal; [apply ld_sqe_eq|].
  apply list_fmap_ext. intros j i Hj. apply lookup_seqZ in Hj as [-> Hj].
  rewrite Hread by lia. apply ld_sqe_ne, (slot_ne r m); [done|]. apply window_ne; lia.
Qed.

(** C39: A failed or partial submission lets [GetSQE64] hand out an entry the
    kernel has not read.  When the ring is filled and flushed and the kernel
    takes nothing, the ring is full, but the next request does not return [nil]:
    the occupancy test compares against the flushed tail, so the oldest
    published entry is returned again and overwritten. *)
Theorem full_ring_reuses_entry r m ss :
  sq_inv r m -> published r m = [] -> pending r m = [] ->
  Z.of_nat (length ss) = SQEntries r ->
  exists r1 m1 r2 m2 ptr r3 m3,
    put_all ss r m = Some (r1, m1) /\
    flushSQ r1 m1 = (SQEntries r, r2, m2) /\ published r2 m2 = ss /\
    GetSQE64 r2 m2 = (Some ptr, r3, m3) /\ published r3 m3 = zero_SQE64 :: tail ss.
Proof.
  intros Hi Hpub Hpend Hlen. pose proof (sq_layout _ _ Hi) as Hl. pose proof (layout_pos _ _ Hl).
  assert (Eroom : sq_room r m = r_sqEntries r) by (by apply sq_room_idle).
  unfold SQEntries in *.
  destruct (put_all_room ss r m Hi) as (r1 & m1 & E1 & Hi1 & Hp1 & Hpub1 & Hroom1); [lia|].
  destruct (flushSQ_spec r1 m1 Hi1) as (r2 & m2 & E2 & Hi2 & Hp2 & Hpub2).
  pose proof (put_all_entries ss r m r1 m1 E1) as En1.
  assert (En2 : r_sqEntries r2 = r_sqEntries r1).
  { rewrite flushSQ_eq in E2. case_decide; by simplify_eq. }
  rewrite Hpend in Hp1. cbn in Hp1. rewrite Hp1, Hlen in E2.
  rewrite Hp1, Hpub1, Hpub in Hpub2. cbn in Hpub2.
  assert (Hroom2 : sq_room r2 m2 = 0).
  { pose proof (sq_room_lengths r2 m2 Hi2) as El. rewrite Hp2, Hpub2 in El. cbn in El. lia. }
  exists r1, m1, r2, m2. eexists _, _, _. split_and!; [done..| |].
  - unfold GetSQE64. rewrite nextSQE_room; [reflexivity|apply Hi2|].
    pose proof (sq_room_lengths r2 m2 Hi2) as El. rewrite Hp2, Hpub2 in El.
    rewrite <- (pending_length r2 m2), Hp2. cbn. lia.
  - fold (pushed r2). rewrite published_reuse by done. by rewrite Hpub2.
Qed.

Lemma full_ring_reuses_entry_witness : exists r1 m1 r2 m2 ptr r3 m3,
  put_all [mk_SQE 46 0 0 7 0 0 0 0 5 0 0 0 (zeros 16)] (sample_ring 1) (sample_shm 1) = Some (r1, m1) /\
  flushSQ r1 m1 = (1, r2, m2) /\
  published r2 m2 = [mk_SQE 46 0 0 7 0 0 0 0 5 0 0 0 (zeros 16)] /\
  GetSQE64 r2 m2 = (Some ptr, r3, m3) /\ published r3 m3 = [zero_SQE64].
Proof.
  apply (full_ring_reuses_entry (sample_ring 1) (sample_shm 1)
           [mk_SQE 46 0 0 7 0 0 0 0 5 0 0 0 (zeros 16)]).
  - apply (sample_sq_inv 0). lia.
  - reflexivity.
  - reflexivity.
  - reflexivity.
Defined.

(** C16: The completion queue is a FIFO that loses and repeats nothing: peeking
    and advancing until [PeekCQE] returns [nil] yields the posted completions in
    order, each once, and empties the queue; as many rounds as there are
    completions are enough. *)
Theorem drain_fifo fuel : forall r m,
  cq_inv r m -> (length (completions r m) <= fuel)%nat ->
  exists m', drain fuel r m = (completions r m, m') /\
    completions r m' = [] /\ PeekCQE r m' = None /\ cq_inv r m'.
Proof.
  induction fuel as [|fuel IH]; intros r m Hi Hf.
  - exists m. assert (E : completions r m = []) by (apply nil_length_inv; lia).
    rewrite PeekCQE_head by done. rewrite E. done.
  - cbn [drain]. rewrite PeekCQE_head by done.
    destruct (decide (completions r m = [])) as [E|Hne].
    + exists m. rewrite PeekCQE_head, E by done. done.
    + pose proof (completions_cons r m Hi Hne) as Ec.
      pose proof (completions_seen r m Hi Hne) as Es.
      destruct (IH r (SeenCQE r m)) as (m' & Ed & Hrest).
      { by apply cq_inv_seen. }
      { rewrite Es. rewrite Ec in Hf. cbn in Hf |- *. lia. }
      exists m'. rewrite Ec. cbn [head]. rewrite Ed, Es. done.
Qed.

(** A completion queue holding two completions. *)
Definition sample_cq2 : shm :=
  mk_shm {[8 := 3]} (<[4 := 2]> {[8 := 7]}) ∅
    (<[64 := mk_CQE 10 0 0]> {[80 := mk_CQE 11 (-5) 0]}).

Lemma sample_cq2_inv : cq_inv (sample_ring 4) sample_cq2.
Proof.
  constructor.
  - constructor; cbn [sample_ring r_sqMask r_cqMask r_sqEntries r_cqEntries r_sqHead r_sqTail
      r_cqHead r_cqTail r_sqArray r_sqeSize].
    + exists 2. split_and!; [lia..|reflexivity|reflexivity].
    + exists 3. split_and!; [lia..|reflexivity|reflexivity].
    + reflexivity.
    + apply (bool_decide_unpack _). vm_compute. exact I.
    + repeat constructor; lia.
    + apply (bool_decide_unpack _). vm_compute. exact I.
  - change (is_u 32 0 /\ is_u 32 2). repeat split; lia.
  - change (2 <= 8). lia.
Qed.

Lemma drain_fifo_witness : exists m',
  drain 2 (sample_ring 4) sample_cq2 = ([mk_CQE 10 0 0; mk_CQE 11 (-5) 0], m') /\
  completions (sample_ring 4) m' = [] /\ PeekCQE (sample_ring 4) m' = None /\
  cq_inv (sample_ring 4) m'.
Proof.
  apply (drain_fifo 2 (sample_ring 4) sample_cq2); [apply sample_cq2_inv|].
  vm_compute. lia.
Defined.
