(* ===== verification/Config.v ===== *)
(** * Options, their validation and the backend argument of [ublk/ublk.go]

    The [config] record, the [Option] constructors that override it,
    [config.validate] with its checks in order, and [isNilBackend].  The
    theorems characterise exactly the accepted configurations, with the bounds
    the rest of the library relies on, and show how options compose. *)

From S2P Require Import Prelude Types.

(** ** Configuration *)

Record config := mk_config { blockSize : Z; queueDepth : Z; maxIOSize : Z }.

Definition defaultBlockSize : Z := 512.
Definition defaultQueueDepth : Z := 128.
Definition defaultMaxIOSize : Z := 128 * 1024.
Definition maxMaxIOSize : Z := Z.shiftl 1 20.

Definition default_config : config :=
  mk_config defaultBlockSize defaultQueueDepth defaultMaxIOSize.

(** An option overrides a field of the configuration. *)
Definition Option : Type := config -> config.

Definition WithBlockSize (bs : Z) : Option := fun c => mk_config bs (queueDepth c) (maxIOSize c).
Definition WithQueueDepth (d : Z) : Option := fun c => mk_config (blockSize c) d (maxIOSize c).
Definition WithMaxIOSize (n : Z) : Option := fun c => mk_config (blockSize c) (queueDepth c) n.

(** [for _, opt := range opts { opt(&cfg) }] *)
Definition apply_opts (opts : list Option) (c : config) : config :=
  foldl (fun c opt => opt c) c opts.

(** The errors of [validate], one per message. *)
Inductive config_error : Type :=
| ErrSizeZero
| ErrBlockSize
| ErrSizeMultiple
| ErrQueueDepth
| ErrMaxIOMultiple
| ErrMaxIOCap.

#[export] Instance config_error_eq_dec : EqDecision config_error.
Proof. solve_decision. Defined.

Definition validate (c : config) (size : Z) : option config_error :=
  if decide (size = 0) then Some ErrSizeZero
  else if decide (blockSize c < 512 \/ OnesCount32 (blockSize c) <> 1) then Some ErrBlockSize
  else if decide (size mod blockSize c <> 0) then Some ErrSizeMultiple
  else if decide (queueDepth c < 1 \/ maxQueueDepth < queueDepth c) then Some ErrQueueDepth
  else if decide (maxIOSize c = 0 \/ maxIOSize c mod blockSize c <> 0) then Some ErrMaxIOMultiple
  else if decide (maxMaxIOSize < maxIOSize c) then Some ErrMaxIOCap
  else None.

(** The fields hold values of their Go types. *)
Definition config_wf (c : config) : Prop :=
  is_u 32 (blockSize c) /\ is_u 16 (queueDepth c) /\ is_u 32 (maxIOSize c).

#[export] Instance config_wf_dec c : Decision (config_wf c).
Proof. unfold config_wf. apply _. Defined.

(** ** The backend argument *)

(** [reflect.Kind]. *)
Inductive Kind : Type :=
| KInvalid | KBool | KInt | KInt8 | KInt16 | KInt32 | KInt64 | KUint | KUint8 | KUint16
| KUint32 | KUint64 | KUintptr | KFloat32 | KFloat64 | KComplex64 | KComplex128 | KArray
| KChan | KFunc | KInterface | KMap | KPointer | KSlice | KString | KStruct | KUnsafePointer.

(** An interface value: nil, or a dynamic value of some kind that is or is not
    the nil of its type. *)
Inductive iface (A : Type) : Type :=
| NilIface
| Dynamic (kind : Kind) (isNil : bool) (a : A).
Arguments NilIface {A}.
Arguments Dynamic {A} kind isNil a.

Definition isNilBackend {A} (backend : iface A) : bool :=
  match backend with
  | NilIface => true
  | Dynamic kind isNil _ =>
      match kind with
      | KChan | KFunc | KInterface | KMap | KPointer | KSlice => isNil
      | _ => false
      end
  end.

(** Kinds whose values can be nil at all and carry methods. *)
Definition nilable (k : Kind) : bool :=
  match k with KChan | KFunc | KInterface | KMap | KPointer | KSlice => true | _ => false end.

(** ** Facts *)

Lemma pow2_le_inv a b : 0 <= a -> 0 <= b -> 2 ^ a <= 2 ^ b -> a <= b.
Proof. intros Ha Hb H. apply (Z.pow_le_mono_r_iff 2); lia. Qed.

Lemma validate_iff c size :
  config_wf c -> is_u 64 size ->
  validate c size = None <->
  0 < size /\
  (exists k, 9 <= k <= 20 /\ blockSize c = 2 ^ k) /\ (blockSize c | size) /\
  1 <= queueDepth c <= 4096 /\
  0 < maxIOSize c <= 2 ^ 20 /\ (blockSize c | maxIOSize c).
Proof.
  intros (Hb & Hd & Hm) Hs. unfold validate, maxQueueDepth, maxMaxIOSize.
  change (Z.shiftl 1 20) with (2 ^ 20). unfold is_u in *. split.
  - repeat case_decide; try done. intros _.
    destruct (OnesCount32_one (blockSize c)) as (k & Hk & Ek); [done|lia|].
    assert (Hd1 : (blockSize c | size)) by (apply Z.mod_divide; lia).
    assert (Hd2 : (blockSize c | maxIOSize c)) by (apply Z.mod_divide; lia).
    split_and!; [lia| |done|lia..|done]. exists k. split; [|done].
    assert (Hle : blockSize c <= maxIOSize c) by (apply Z.divide_pos_le; [lia|done]).
    split.
    + apply pow2_le_inv; [lia..|]. change (2 ^ 9) with 512. lia.
    + apply pow2_le_inv; [lia..|]. lia.
  - intros (Hs0 & (k & Hk & Ek) & Hd1 & Hd2 & Hm1 & Hm2).
    assert (H512 : 2 ^ 9 <= 2 ^ k) by (apply Z.pow_le_mono_r; lia). change (2 ^ 9) with 512 in H512.
    pose proof (OnesCount32_pow2 k ltac:(lia)) as Hc. rewrite <- Ek in H512, Hc.
    apply Z.mod_divide in Hd1; [|lia]. apply Z.mod_divide in Hm2; [|lia].
    repeat rewrite decide_False by lia. done.
Qed.

(** C35: [validate] accepts exactly the configurations the documentation
    describes: a positive size, a block size that is a power of two from 512 B,
    a size that is a multiple of it, a queue depth from 1 to 4096, and a maximal
    IO size that is a positive multiple of the block size up to 1 MiB; the last
    check bounds the block size by 1 MiB too. *)
Theorem validate_accepts c size :
  config_wf c -> is_u 64 size ->
  validate c size = None <->
  0 < size /\
  (exists k, 9 <= k <= 20 /\ blockSize c = 2 ^ k) /\ (blockSize c | size) /\
  1 <= queueDepth c <= 4096 /\
  0 < maxIOSize c <= 2 ^ 20 /\ (blockSize c | maxIOSize c).
Proof. apply validate_iff. Qed.

Lemma validate_accepts_witness :
  validate (mk_config 4096 256 (2 ^ 20)) (2 ^ 30) = None <->
  0 < 2 ^ 30 /\ (exists k, 9 <= k <= 20 /\ 4096 = 2 ^ k) /\ (4096 | 2 ^ 30) /\
  1 <= 256 <= 4096 /\ 0 < 2 ^ 20 <= 2 ^ 20 /\ (4096 | 2 ^ 20).
Proof.
  apply (validate_accepts (mk_config 4096 256 (2 ^ 20)) (2 ^ 30));
    [repeat split; cbn; lia | split; lia].
Defined.

(** A field of the configuration after a list of options is the value of the
    last option that sets it. *)
Inductive field : Type := FBlockSize | FQueueDepth | FMaxIOSize.

#[export] Instance field_eq_dec : EqDecision field.
Proof. solve_decision. Defined.

Definition get_field (f : field) (c : config) : Z :=
  match f with FBlockSize => blockSize c | FQueueDepth => queueDepth c | FMaxIOSize => maxIOSize c end.

(** The option constructor of a field. *)
Definition With (f : field) (v : Z) : Option :=
  match f with
  | FBlockSize => WithBlockSize v
  | FQueueDepth => WithQueueDepth v
  | FMaxIOSize => WithMaxIOSize v
  end.

(** The last value a list of settings gives a field. *)
Fixpoint last_set (f : field) (l : list (field * Z)) (d : Z) : Z :=
  match l with
  | [] => d
  | (g, v) :: l' => last_set f l' (if decide (g = f) then v else d)
  end.

(** Options compose by overriding: after any sequence of [With...] options
    each field holds the value of the last option that sets it, and its default
    when none does. *)
Theorem options_last_wins f l c :
  get_field f (apply_opts ((fun s => With s.1 s.2) <$> l) c) = last_set f l (get_field f c).
Proof.
  revert c. induction l as [|[g v] l IH]; intros c; [done|].
  cbn [fmap list_fmap apply_opts foldl last_set]. fold (apply_opts ((fun s => With s.1 s.2) <$> l)).
  unfold apply_opts in IH. rewrite IH. f_equal. by destruct f, g.
Qed.
