(* ===== verification/Backend.v ===== *)
(** * Backends

    The [Backend], [Discarder] and [ZeroWriter] interfaces of [ublk/ublk.go]:
    what the worker calls to serve a request.  A backend value has a state; a
    method may panic ([None]) or return a count and an error.  The in-memory
    backend of [example/main.go] is the reference implementation, and [logged]
    wraps any backend with a record of the calls it receives. *)

From S2P Require Import Prelude.

(** What a method returns: a count, and an error if there was one. *)
Definition ret : Type := Z * option string.

Definition ZeroNoUnmap : Z := Z.shiftl 1 0.

(** The methods of a backend with state [B].  [ReadAt] also gives the content it
    leaves in the slice it was passed, which keeps its length.  The optional
    interfaces are [None] when the dynamic type does not implement them. *)
Record Backend (B : Type) := mk_Backend {
  ReadAt : list Z -> Z -> B -> option (list Z * ret * B);
  WriteAt : list Z -> Z -> B -> option (ret * B);
  DiscardAt : option (Z -> Z -> B -> option (ret * B));
  WriteZeroesAt : option (Z -> Z -> Z -> B -> option (ret * B));
  ReadAt_length : forall p off b p' r b',
    ReadAt p off b = Some (p', r, b') -> length p' = length p }.
Arguments mk_Backend {B}.
Arguments ReadAt {B}.
Arguments WriteAt {B}.
Arguments DiscardAt {B}.
Arguments WriteZeroesAt {B}.
Arguments ReadAt_length {B}.

(** ** The in-memory backend of [example/main.go] *)

Module Mem.

(** [copy(p, m.data[off:off+int64(len(p))]), nil] *)
Definition ReadAt (p : list Z) (off : Z) (data : list Z) : option (list Z * ret * list Z) :=
  s ← sub off (Z.of_nat (length p)) data;
  Some (copy p s, (copied p s, None), data).

(** [copy(m.data[off:off+int64(len(p))], p), nil] *)
Definition WriteAt (p : list Z) (off : Z) (data : list Z) : option (ret * list Z) :=
  s ← sub off (Z.of_nat (length p)) data;
  Some ((copied s p, None), splice off (copy s p) data).

Lemma ReadAt_keeps p off data p' r data' :
  ReadAt p off data = Some (p', r, data') -> length p' = length p.
Proof.
  unfold ReadAt. destruct (sub _ _ _); [|done]. cbn. intros [= <- _ _]. apply copy_length.
Qed.

Definition memBackend : Backend (list Z) :=
  mk_Backend ReadAt WriteAt None None ReadAt_keeps.

Lemma ReadAt_in_range p off data s :
  sub off (Z.of_nat (length p)) data = Some s ->
  ReadAt p off data = Some (s, (Z.of_nat (length p), None), data).
Proof.
  intros E. unfold ReadAt. rewrite E. cbn. pose proof (sub_length _ _ _ _ E) as Hl.
  rewrite copy_all by lia. unfold copied. repeat f_equal. lia.
Qed.

Lemma WriteAt_in_range p off data :
  0 <= off -> off + Z.of_nat (length p) <= Z.of_nat (length data) ->
  WriteAt p off data = Some ((Z.of_nat (length p), None), splice off p data).
Proof.
  intros Ho Hl. unfold WriteAt. rewrite sub_Some by lia. cbn.
  rewrite copy_all by (rewrite length_take, length_drop; lia).
  unfold copied. rewrite length_take, length_drop. repeat f_equal. lia.
Qed.

End Mem.

(** ** Recording the calls *)

Inductive call : Type :=
| CallRead (len off : Z)
| CallWrite (data : list Z) (off : Z)
| CallDiscard (off len : Z)
| CallZero (off len flags : Z).

Section Logged.
Context {B : Type} (be : Backend B).

(** [be] with a log of its calls and what they returned, in order; the log is
    part of the state. *)
Definition log : Type := list (call * ret).

Definition logged_ReadAt (p : list Z) (off : Z) (s : B * log) : option (list Z * ret * (B * log)) :=
  '(p', r, b) ← ReadAt be p off s.1;
  Some (p', r, (b, s.2 ++ [(CallRead (Z.of_nat (length p)) off, r)])).
Definition logged_WriteAt (p : list Z) (off : Z) (s : B * log) : option (ret * (B * log)) :=
  '(r, b) ← WriteAt be p off s.1; Some (r, (b, s.2 ++ [(CallWrite p off, r)])).
Definition logged_DiscardAt : option (Z -> Z -> B * log -> option (ret * (B * log))) :=
  (fun f off len (s : B * log) =>
     '(r, b) ← f off len s.1; Some (r, (b, s.2 ++ [(CallDiscard off len, r)]))) <$> DiscardAt be.
Definition logged_WriteZeroesAt : option (Z -> Z -> Z -> B * log -> option (ret * (B * log))) :=
  (fun f off len flags (s : B * log) =>
     '(r, b) ← f off len flags s.1; Some (r, (b, s.2 ++ [(CallZero off len flags, r)])))
    <$> WriteZeroesAt be.

Lemma logged_ReadAt_length p off s p' r s' :
  logged_ReadAt p off s = Some (p', r, s') -> length p' = length p.
Proof.
  unfold logged_ReadAt. destruct (ReadAt be p off s.1) as [[[q r'] b]|] eqn:E; [|done].
  cbn. intros [= <- _ _]. by eapply ReadAt_length.
Qed.

Definition logged : Backend (B * log) :=
  mk_Backend logged_ReadAt logged_WriteAt logged_DiscardAt logged_WriteZeroesAt
    logged_ReadAt_length.
End Logged.

(** Reads and writes among logged calls. *)
Definition is_read (c : call) : bool := match c with CallRead _ _ => true | _ => false end.
Definition is_write (c : call) : bool := match c with CallWrite _ _ => true | _ => false end.
Definition nreads (l : list (call * ret)) : nat := length (filter (fun e => is_read e.1 = true) l).
Definition nwrites (l : list (call * ret)) : nat := length (filter (fun e => is_write e.1 = true) l).

Lemma nreads_snoc l c r : nreads (l ++ [(c, r)]) = (nreads l + if is_read c then 1 else 0)%nat.
Proof. unfold nreads. rewrite filter_app, length_app. by destruct c. Qed.
Lemma nwrites_snoc l c r : nwrites (l ++ [(c, r)]) = (nwrites l + if is_write c then 1 else 0)%nat.
Proof. unfold nwrites. rewrite filter_app, length_app. by destruct c. Qed.
