(* ===== verification/Worker.v ===== *)
(** * The IO worker of [ublk/worker.go]

    The worker's state and everything it does between two system calls:
    the aligned buffer pool and its per-tag windows, the descriptors shared with
    the kernel, [handleIO] with each of its branches, and the FETCH and COMMIT
    entries it prepares.  A run-time panic is [None].

    The theorems show that the buffers are aligned and disjoint, that a
    descriptor is read back as the kernel wrote it, which backend call a request
    makes and what result it is answered with, that nothing overflows for the
    requests the kernel may send, and that with the in-memory backend the device
    is a store of sectors. *)

From S2P Require Import Prelude GoLayout Types Uring Backend.

Definition EIO : Z := 5.
Definition EOPNOTSUPP : Z := 95.

(** ** State *)

(** The buffers [bufs] are windows [(offset, length)] of the pool: the slices
    share its memory.  [w_poolAddr] is the address of the pool's first byte,
    [w_ioDescs] the mapped descriptor bytes, [None] before [mmapDescs]. *)
Record worker := mk_worker {
  w_qid : Z; w_depth : Z; w_bufSize : Z;
  w_ioRing : option Ring;
  w_ioDescs : option (list Z);
  w_bufPool : list Z; w_poolAddr : Z;
  w_bufs : list (Z * Z) }.

Definition newWorker (qid depth bufSize : Z) : worker :=
  mk_worker qid depth bufSize None None [] 0 [].

Definition set_pool (p : list Z) (w : worker) : worker :=
  mk_worker (w_qid w) (w_depth w) (w_bufSize w) (w_ioRing w) (w_ioDescs w) p (w_poolAddr w) (w_bufs w).
Definition set_ring (r : option Ring) (w : worker) : worker :=
  mk_worker (w_qid w) (w_depth w) (w_bufSize w) r (w_ioDescs w) (w_bufPool w) (w_poolAddr w) (w_bufs w).
Definition set_descs (d : option (list Z)) (w : worker) : worker :=
  mk_worker (w_qid w) (w_depth w) (w_bufSize w) (w_ioRing w) d (w_bufPool w) (w_poolAddr w) (w_bufs w).

(** ** Buffers *)

(** [alignedAlloc], with [addr] the address [make] returned: the offset of the
    result in the fresh allocation and its content. *)
Definition alignedAlloc (addr size align : Z) : option (Z * list Z) :=
  let raw := zeros (Z.to_nat (size + align)) in
  let offset := u64 (u64 (align - addr mod align) mod align) in
  s ← sub offset size raw;
  Some (offset, s).

(** [allocBuffers]: the pool, then one window per tag. *)
Definition allocBuffers (addr : Z) (w : worker) : option worker :=
  let total := w_depth w * w_bufSize w in
  '(offset, pool) ← alignedAlloc addr total 4096;
  windows ← mapM (fun i => let off := i * w_bufSize w in
                           s ← sub off (w_bufSize w) pool; Some (off, w_bufSize w))
              (seqZ 0 (w_depth w));
  Some (mk_worker (w_qid w) (w_depth w) (w_bufSize w) (w_ioRing w) (w_ioDescs w)
          pool (addr + offset) windows).

(** ** Descriptors *)

(** [mmapDescs]: the size and the offset of the mapping it asks for. *)
Definition descs_mmapSize (depth : Z) : Z := depth * sizeofIODesc.
Definition descs_mmapOff (qid : Z) : Z := qid * maxQueueDepth * sizeofIODesc.

Definition getDesc (w : worker) (tag : Z) : option ioDesc :=
  let off := tag * sizeofIODesc in
  descs ← w_ioDescs w;
  if decide (off < Z.of_nat (length descs)) then of_bytes (drop (Z.to_nat off) descs) else None.

(** ** Requests *)

(** What a request leaves behind: the result for the kernel, the worker (its
    buffers) and the backend. *)
Section HandleIO.
Context {B : Type} (be : Backend B).

(** [if err != nil || n != length { return -EIO }; return int32(n)] *)
Definition io_result (length : Z) (r : ret) : Z :=
  let '(n, err) := r in
  if decide (err <> None \/ n <> length) then - EIO else i32 n.

(** The window of a tag's buffer, cut to [length] bytes: its offset in the pool
    and its content. *)
Definition buffer (w : worker) (tag length : Z) : option (Z * list Z) :=
  '(off, _) ← w_bufs w !! Z.to_nat tag;
  s ← sub off length (w_bufPool w);
  Some (off, s).

Definition handleIO (w : worker) (tag : Z) (b : B) : option (Z * worker * B) :=
  desc ← getDesc w tag;
  let op := Z.land (id_OpFlags desc) 0xFF in
  let offset := i64 (i64 (id_StartSector desc) * 512) in
  let length := i64 (i64 (id_NrSectors desc) * 512) in
  if decide (op = opRead) then
    if decide (length = 0) then Some (0, w, b)
    else if decide (w_bufSize w < length) then Some (- EIO, w, b)
    else
      '(off, buf) ← buffer w tag length;
      '(buf, r, b) ← ReadAt be buf offset b;
      Some (io_result length r, set_pool (splice off buf (w_bufPool w)) w, b)
  else if decide (op = opWrite) then
    if decide (length = 0) then Some (0, w, b)
    else if decide (w_bufSize w < length) then Some (- EIO, w, b)
    else
      '(off, buf) ← buffer w tag length;
      '(r, b) ← WriteAt be buf offset b;
      Some (io_result length r, w, b)
  else if decide (op = opDiscard) then
    match DiscardAt be with
    | None => Some (- EOPNOTSUPP, w, b)
    | Some discard =>
        if decide (length = 0) then Some (0, w, b)
        else
          '(r, b) ← discard offset length b;
          Some (io_result length r, w, b)
    end
  else if decide (op = opWriteZeroes) then
    match WriteZeroesAt be with
    | None => Some (- EOPNOTSUPP, w, b)
    | Some zero =>
        if decide (length = 0) then Some (0, w, b)
        else
          let flags := if decide (Z.land (id_OpFlags desc) ioFlagNoUnmap <> 0)
                       then Z.lor 0 ZeroNoUnmap else 0 in
          '(r, b) ← zero offset length flags b;
          Some (io_result length r, w, b)
    end
  else Some (- EOPNOTSUPP, w, b).
End HandleIO.

(** ** Submission entries *)

(** [&w.bufs[tag][0]] *)
Definition buf_addr (w : worker) (tag : Z) : option Z :=
  '(off, len) ← w_bufs w !! Z.to_nat tag;
  if decide (0 < len) then Some (w_poolAddr w + off) else None.

(** The entry both functions fill in, for a command [cmd]. *)
Definition io_sqe (charFD op tag : Z) (cmd : ioCmd) : SQE :=
  mk_SQE OpUringCmd 0 0 (i32 charFD) op 0 0 0 tag 0 0 0 (copy (zeros 16) (bytes_of cmd)).

Definition prepareFetch (w : worker) (charFD tag : Z) (r : Ring) (m : shm) : option (Ring * shm) :=
  match GetSQE64 r m with
  | (None, r, m) => Some (r, m)
  | (Some ptr, r, m) =>
      addr ← buf_addr w tag;
      let cmd := mk_ioCmd (w_qid w) tag 0 (u64 addr) in
      Some (r, st_sqe ptr (io_sqe charFD uIOFetchReq tag cmd) m)
  end.

Definition prepareCommitAndFetch (w : worker) (charFD tag result : Z) (r : Ring) (m : shm) :
    option (Ring * shm) :=
  match GetSQE64 r m with
  | (None, r, m) => Some (r, m)
  | (Some ptr, r, m) =>
      addr ← buf_addr w tag;
      let cmd := mk_ioCmd (w_qid w) tag result (u64 addr) in
      Some (r, st_sqe ptr (io_sqe charFD uIOCommitAndFetchReq tag cmd) m)
  end.

(** The loop at the end of [init]: a FETCH for every tag. *)
Definition prepare_fetches (w : worker) (charFD : Z) (r : Ring) (m : shm) : option (Ring * shm) :=
  foldl (fun acc tag => '(r, m) ← acc; prepareFetch w charFD tag r m)
    (Some (r, m)) (seqZ 0 (w_depth w)).

(** ** Well-formed workers *)

(** The window of tag [i]. *)
Definition window (w : worker) (i : Z) : Z * Z := (i * w_bufSize w, w_bufSize w).

Record worker_wf (w : worker) : Prop := {
  ww_depth : 1 <= w_depth w <= maxQueueDepth;
  ww_bufSize : 0 < w_bufSize w < 2 ^ 32;
  ww_pool : Z.of_nat (length (w_bufPool w)) = w_depth w * w_bufSize w;
  ww_bufs : w_bufs w = window w <$> seqZ 0 (w_depth w) }.

Lemma mapM_total {A C} (f : A -> option C) (g : A -> C) l :
  (forall x, x ∈ l -> f x = Some (g x)) -> mapM f l = Some (g <$> l).
Proof.
  induction l as [|x l IH]; intros H; [done|].
  cbn. rewrite H by set_solver. cbn. rewrite IH by set_solver. done.
Qed.

(** The offset [alignedAlloc] skips: less than the alignment, and enough. *)
Lemma align_offset addr align :
  0 < align < 2 ^ 63 -> is_u 64 addr ->
  let offset := u64 (u64 (align - addr mod align) mod align) in
  0 <= offset < align /\ (addr + offset) mod align = 0.
Proof.
  intros Ha Hu. cbn zeta. pose proof (Z.mod_pos_bound addr align ltac:(lia)) as Hm.
  rewrite (u64_id (align - addr mod align)) by goint.
  pose proof (Z.mod_pos_bound (align - addr mod align) align ltac:(lia)) as Hm2.
  rewrite u64_id by goint. split; [done|].
  rewrite Zplus_mod_idemp_r. replace (addr + (align - addr mod align))
    with ((addr - addr mod align) + 1 * align) by lia.
  rewrite Z_mod_plus_full. rewrite Zminus_mod_idemp_r, Z.sub_diag. apply Z.mod_0_l. lia.
Qed.

Lemma alignedAlloc_spec addr size align :
  0 <= size -> 0 < align < 2 ^ 63 -> is_u 64 addr ->
  exists offset, alignedAlloc addr size align = Some (offset, zeros (Z.to_nat size)) /\
    0 <= offset < align /\ (addr + offset) mod align = 0.
Proof.
  intros Hs Ha Hu. destruct (align_offset addr align Ha Hu) as [Ho Hal].
  unfold alignedAlloc. cbn zeta. set (offset := u64 _) in *. exists offset.
  rewrite sub_Some by (unfold zeros; rewrite ?length_replicate; lia). cbn.
  split; [|done]. do 2 f_equal. unfold zeros. rewrite drop_replicate, take_replicate.
  f_equal. lia.
Qed.

(** Windows lie in the pool and do not overlap. *)
Lemma window_in_pool w i :
  worker_wf w -> 0 <= i < w_depth w ->
  0 <= i * w_bufSize w /\ i * w_bufSize w + w_bufSize w <= Z.of_nat (length (w_bufPool w)).
Proof. intros [_ Hb Hp _] Hi. rewrite Hp. nia. Qed.

Lemma bufs_lookup w i :
  worker_wf w -> 0 <= i < w_depth w -> w_bufs w !! Z.to_nat i = Some (window w i).
Proof.
  intros Hw Hi. rewrite (ww_bufs w Hw), list_lookup_fmap, lookup_seqZ_lt by lia.
  cbn. do 2 f_equal. lia.
Qed.

Lemma allocBuffers_ok addr w :
  1 <= w_depth w <= maxQueueDepth -> 0 < w_bufSize w < 2 ^ 32 -> is_u 64 addr ->
  exists w', allocBuffers addr w = Some w' /\ worker_wf w' /\ w_poolAddr w' mod 4096 = 0 /\
    w_qid w' = w_qid w /\ w_depth w' = w_depth w /\ w_bufSize w' = w_bufSize w /\
    w_ioRing w' = w_ioRing w /\ w_ioDescs w' = w_ioDescs w.
Proof.
  intros Hd Hb Hu.
  destruct (alignedAlloc_spec addr (w_depth w * w_bufSize w) 4096) as (o & Ea & Ho & Hal);
    [lia..|done|].
  unfold allocBuffers. rewrite Ea. cbn [mbind option_bind].
  rewrite (mapM_total _ (window w)).
  2:{ intros i Hi. apply elem_of_seqZ in Hi. rewrite sub_Some; [done|nia|lia|].
      unfold zeros. rewrite length_replicate. nia. }
  cbn [mbind option_bind]. eexists. split; [reflexivity|]. split; [|done].
  constructor; cbn; [done..| |done]. unfold zeros. rewrite length_replicate. lia.
Qed.

Lemma buf_addr_spec w tag :
  worker_wf w -> 0 <= tag < w_depth w -> buf_addr w tag = Some (w_poolAddr w + tag * w_bufSize w).
Proof.
  intros Hw Ht. unfold buf_addr. rewrite bufs_lookup by done. cbn.
  pose proof (ww_bufSize w Hw). by rewrite decide_True by lia.
Qed.

(** C21: [allocBuffers] gives every tag a buffer of [bufSize] bytes inside one
    pool; the pool starts at a 4096-byte boundary, the buffers of distinct tags
    share no byte, and when the buffer size is a multiple of 4096 every buffer
    is itself aligned, as O_DIRECT backends need. *)
Theorem allocBuffers_layout addr w :
  1 <= w_depth w <= maxQueueDepth -> 0 < w_bufSize w < 2 ^ 32 -> is_u 64 addr ->
  exists w', allocBuffers addr w = Some w' /\ worker_wf w' /\
    w_poolAddr w' mod 4096 = 0 /\
    (forall i, 0 <= i < w_depth w ->
       exists a, buf_addr w' i = Some a /\ w_poolAddr w' <= a /\
         a + w_bufSize w <= w_poolAddr w' + Z.of_nat (length (w_bufPool w')) /\
         (w_bufSize w mod 4096 = 0 -> a mod 4096 = 0) /\
         forall j b, 0 <= j < w_depth w -> i < j -> buf_addr w' j = Some b ->
           a + w_bufSize w <= b).
Proof.
  intros Hd Hb Hu.
  destruct (allocBuffers_ok addr w Hd Hb Hu) as (w' & E & Hw & Hal & _ & Ed & Eb & _).
  exists w'. split_and!; [done..|]. rewrite <- Ed, <- Eb in *.
  intros i Hi. eexists. split; [by apply buf_addr_spec|]. rewrite (ww_pool w' Hw).
  split_and!; [nia|nia| |].
  - intros Hm. rewrite Zplus_mod, Hal, Zmult_mod, Hm, Z.mul_0_r. reflexivity.
  - intros j b Hj Hlt. rewrite buf_addr_spec by done. intros [= <-]. nia.
Qed.

Lemma allocBuffers_layout_witness :
  exists w', allocBuffers 100 (newWorker 0 2 8) = Some w' /\ worker_wf w' /\
    w_poolAddr w' mod 4096 = 0 /\
    (forall i, 0 <= i < 2 ->
       exists a, buf_addr w' i = Some a /\ w_poolAddr w' <= a /\
         a + 8 <= w_poolAddr w' + Z.of_nat (length (w_bufPool w')) /\
         (8 mod 4096 = 0 -> a mod 4096 = 0) /\
         forall j b, 0 <= j < 2 -> i < j -> buf_addr w' j = Some b -> a + 8 <= b).
Proof.
  apply (allocBuffers_layout 100 (newWorker 0 2 8)); cbn; unfold maxQueueDepth, is_u; lia.
Defined.

(** ** Descriptors *)

(** The mapped bytes when the kernel stored the descriptors [ds]. *)
Definition desc_image (ds : list ioDesc) : list Z := mjoin (bytes_of <$> ds).

Lemma drop_mjoin {A} (f : A -> list Z) n l i :
  (forall x, x ∈ l -> length (f x) = n) ->
  drop (i * n) (mjoin (f <$> l)) = mjoin (f <$> drop i l).
Proof.
  intros Hn. revert i. induction l as [|x l IH]; intros i.
  - rewrite !drop_nil. cbn. by rewrite drop_nil.
  - destruct i as [|i]; [done|]. rewrite mjoin_cons.
    replace (S i * n)%nat with (length (f x) + i * n)%nat by (rewrite Hn by set_solver; lia).
    rewrite <- drop_drop, drop_app_length. cbn [drop]. apply IH. set_solver.
Qed.

Lemma desc_image_length ds :
  Forall (fun d => go_wf d = true) ds ->
  Z.of_nat (length (desc_image ds)) = Z.of_nat (length ds) * sizeofIODesc.
Proof.
  unfold desc_image. induction 1 as [|d ds Hd _ IH]; [done|].
  rewrite mjoin_cons, length_app, Nat2Z.inj_add, IH, bytes_of_length by done.
  unfold sizeofIODesc. cbn [length]. lia.
Qed.

Lemma getDesc_image w ds tag d :
  Forall (fun d => go_wf d = true) ds -> w_ioDescs w = Some (desc_image ds) ->
  0 <= tag -> ds !! Z.to_nat tag = Some d -> getDesc w tag = Some d.
Proof.
  intros Hwf Hm Ht Hd. unfold getDesc. rewrite Hm. cbn [mbind option_bind].
  pose proof (lookup_lt_Some _ _ _ Hd). pose proof (desc_image_length ds Hwf) as Hlen.
  assert (H24 : sizeofIODesc = 24) by reflexivity. rewrite decide_True by lia.
  unfold desc_image.
  replace (Z.to_nat (tag * sizeofIODesc)) with (Z.to_nat tag * 24)%nat by lia.
  rewrite Forall_forall in Hwf.
  rewrite drop_mjoin by (intros x Hx; specialize (Hwf x Hx); apply bytes_of_length in Hwf;
                         change (Sizeof ioDesc) with 24 in Hwf; lia).
  rewrite (drop_S _ _ _ Hd), mjoin_cons. apply of_bytes_of. apply Hwf.
  by eapply list_elem_of_lookup_2.
Qed.

(** C22: [getDesc] reads back what the kernel stored: for every tag below the
    queue depth it returns that tag's descriptor, and the 24 bytes it
    reinterprets lie inside the mapping [mmapDescs] asked for.  The mappings of
    distinct queues start at page boundaries and do not overlap. *)
Theorem getDesc_roundtrip w ds :
  Forall (fun d => go_wf d = true) ds -> w_ioDescs w = Some (desc_image ds) ->
  Z.of_nat (length ds) = w_depth w -> w_depth w <= maxQueueDepth ->
  (forall tag, 0 <= tag < w_depth w ->
     getDesc w tag = ds !! Z.to_nat tag /\ is_Some (getDesc w tag) /\
     tag * sizeofIODesc + sizeofIODesc <= descs_mmapSize (w_depth w)) /\
  (forall q, 0 <= q -> descs_mmapOff q mod 4096 = 0 /\
     descs_mmapOff q + descs_mmapSize (w_depth w) <= descs_mmapOff (q + 1)).
Proof.
  intros Hwf Hm Hlen Hd. assert (H24 : sizeofIODesc = 24) by reflexivity.
  unfold descs_mmapSize, descs_mmapOff, maxQueueDepth in *. rewrite H24. split.
  - intros tag Ht. destruct (lookup_lt_is_Some_2 ds (Z.to_nat tag)) as [d Ed]; [lia|].
    rewrite (getDesc_image w ds tag d) by (done || lia). split_and!; [done|done|lia].
  - intros q Hq. split; [|lia]. replace (q * 4096 * 24) with (q * 24 * 4096) by lia.
    by rewrite Z_mod_mult.
Qed.

Definition sample_desc : ioDesc := mk_ioDesc opRead 8 3 0.

Lemma getDesc_roundtrip_witness :
  let w := set_descs (Some (desc_image [sample_desc])) (newWorker 0 1 4096) in
  (forall tag, 0 <= tag < 1 ->
     getDesc w tag = [sample_desc] !! Z.to_nat tag /\ is_Some (getDesc w tag) /\
     tag * sizeofIODesc + sizeofIODesc <= descs_mmapSize 1) /\
  (forall q, 0 <= q -> descs_mmapOff q mod 4096 = 0 /\
     descs_mmapOff q + descs_mmapSize 1 <= descs_mmapOff (q + 1)).
Proof.
  apply (getDesc_roundtrip (set_descs (Some (desc_image [sample_desc])) (newWorker 0 1 4096))
           [sample_desc]); try done. by repeat constructor.
Defined.

(** ** Serving a request *)

Section Requests.
Context {B : Type} (be : Backend B).

Definition op_of (d : ioDesc) : Z := Z.land (id_OpFlags d) 0xFF.
Definition len_of (d : ioDesc) : Z := id_NrSectors d * 512.
Definition off_of (d : ioDesc) : Z := id_StartSector d * 512.

(** The operations the backend implements. *)
Definition supported (op : Z) : Prop :=
  op = opRead \/ op = opWrite \/
  (op = opDiscard /\ is_Some (DiscardAt be)) \/
  (op = opWriteZeroes /\ is_Some (WriteZeroesAt be)).

(** The backend call that serves a descriptor: its operation on exactly the
    bytes of its sectors, and NOUNMAP passed on. *)
Definition call_for (d : ioDesc) (c : call) : Prop :=
  match c with
  | CallRead len off => op_of d = opRead /\ len = len_of d /\ off = off_of d
  | CallWrite data off =>
      op_of d = opWrite /\ Z.of_nat (length data) = len_of d /\ off = off_of d
  | CallDiscard off len => op_of d = opDiscard /\ len = len_of d /\ off = off_of d
  | CallZero off len flags =>
      op_of d = opWriteZeroes /\ len = len_of d /\ off = off_of d /\
      flags = if Z.testbit (id_OpFlags d) 15 then 1 else 0
  end.

(** Descriptors whose byte offset and byte count fit the Go types they are
    computed in. *)
Definition desc_fits (d : ioDesc) : Prop :=
  0 <= id_StartSector d < 2 ^ 54 /\ 0 <= id_NrSectors d < 2 ^ 22.

Lemma desc_fits_off d : desc_fits d -> i64 (i64 (id_StartSector d) * 512) = off_of d.
Proof. intros [Hs Hn]. unfold off_of. goint. Qed.
Lemma desc_fits_len d : desc_fits d -> i64 (i64 (id_NrSectors d) * 512) = len_of d.
Proof. intros [Hs Hn]. unfold len_of. goint. Qed.
Lemma desc_fits_i32 d : desc_fits d -> 0 <= len_of d < 2 ^ 31 /\ i32 (len_of d) = len_of d.
Proof. intros [Hs Hn]. unfold len_of. goint. Qed.

Lemma nounmap_bit d :
  (if decide (Z.land (id_OpFlags d) ioFlagNoUnmap <> 0) then Z.lor 0 ZeroNoUnmap else 0) =
  if Z.testbit (id_OpFlags d) 15 then 1 else 0.
Proof.
  unfold ioFlagNoUnmap, ZeroNoUnmap. change (Z.shiftl 1 15) with (2 ^ 15).
  rewrite Z.land_comm. destruct (Z.testbit (id_OpFlags d) 15) eqn:E.
  - rewrite decide_True; [done|]. intros H0. apply (f_equal (fun z => Z.testbit z 15)) in H0.
    rewrite Z.land_spec, E, Z.bits_0 in H0. done.
  - rewrite decide_False; [done|]. intros Hne. apply Hne. apply Z.bits_inj_iff. intros i.
    rewrite Z.land_spec, Z.bits_0, Z.pow2_bits_eqb by lia.
    destruct (Z.eqb_spec 15 i) as [<-|]; [by rewrite E|done].
Qed.

Lemma io_result_cases d r :
  desc_fits d ->
  io_result (len_of d) r = if decide (r = (len_of d, None)) then len_of d else - EIO.
Proof.
  intros Hd. destruct r as [n err]. unfold io_result.
  destruct err as [e|]; [by rewrite decide_True, decide_False by naive_solver|].
  destruct (decide (n = len_of d)) as [->|Hne].
  - rewrite decide_False, decide_True by naive_solver. by apply desc_fits_i32.
  - rewrite decide_True, decide_False by naive_solver. done.
Qed.

(** The buffer of a tag: its bytes, as many as asked for. *)
Lemma buffer_spec w tag len :
  worker_wf w -> 0 <= tag < w_depth w -> 0 <= len <= w_bufSize w ->
  exists s, buffer w tag len = Some (tag * w_bufSize w, s) /\ Z.of_nat (length s) = len /\
    sub (tag * w_bufSize w) len (w_bufPool w) = Some s.
Proof.
  intros Hw Ht Hl. unfold buffer. rewrite bufs_lookup by done. cbn [mbind option_bind window].
  destruct (window_in_pool w tag Hw Ht) as [H0 H1].
  rewrite sub_Some by lia. cbn [mbind option_bind]. eexists. split; [done|].
  split; [|done]. rewrite length_take, length_drop. lia.
Qed.

(** What a request is answered with, in terms of the calls it makes. *)
Inductive answered (w : worker) (d : ioDesc) (calls : log) : Z -> Prop :=
| ans_empty :
    calls = [] -> supported (op_of d) -> id_NrSectors d = 0 -> answered w d calls 0
| ans_unsupported :
    calls = [] -> ~ supported (op_of d) -> answered w d calls (- EOPNOTSUPP)
| ans_oversize :
    calls = [] -> op_of d = opRead \/ op_of d = opWrite -> w_bufSize w < len_of d ->
    answered w d calls (- EIO)
| ans_served c r :
    calls = [(c, r)] -> call_for d c -> 0 < len_of d ->
    answered w d calls (if decide (r = (len_of d, None)) then len_of d else - EIO).

Ltac unsupported :=
  intros [?|[?|[[? [? ?]]|[? [? ?]]]]];
  unfold opRead, opWrite, opDiscard, opWriteZeroes in *; lia || congruence.

Ltac no_call ans :=
  intros [= <- <- <- <-]; exists []; split; [done|]; apply ans; [done|..].
Ltac served :=
  cbn; intros [= <- <- <- <-]; eexists; split; [done|]; rewrite io_result_cases by done;
  eapply ans_served; [done| |lia]; cbn; auto.

Lemma handleIO_answered w tag d b l res w' b' l' :
  worker_wf w -> 0 <= tag < w_depth w -> getDesc w tag = Some d -> desc_fits d ->
  handleIO (logged be) w tag (b, l) = Some (res, w', (b', l')) ->
  exists calls, l' = l ++ calls /\ answered w d calls res.
Proof.
  intros Hw Ht Hg Hd. unfold handleIO. rewrite Hg. cbn [mbind option_bind].
  rewrite desc_fits_off, desc_fits_len by done. fold (op_of d).
  destruct (desc_fits_i32 d Hd) as [Hl _].
  assert (Hnil : l = l ++ []) by (by rewrite app_nil_r).
  destruct (decide (op_of d = opRead)) as [Er|Er];
    [|destruct (decide (op_of d = opWrite)) as [Ew|Ew];
    [|destruct (decide (op_of d = opDiscard)) as [Ed|Ed];
    [|destruct (decide (op_of d = opWriteZeroes)) as [Ez|Ez]]]].
  5: no_call ans_unsupported; unsupported.
  3: cbn [logged DiscardAt]; unfold logged_DiscardAt; destruct (DiscardAt be) as [f|] eqn:Ef;
     [|no_call ans_unsupported; unsupported].
  4: cbn [logged WriteZeroesAt]; unfold logged_WriteZeroesAt;
     destruct (WriteZeroesAt be) as [f|] eqn:Ef; [|no_call ans_unsupported; unsupported].
  3,4: cbn [fmap option_fmap option_map].
  all: destruct (decide (len_of d = 0)) as [H0|H0];
    [no_call ans_empty; [unfold supported; naive_solver|unfold len_of in H0; lia]|].
  1,2: destruct (decide (w_bufSize w < len_of d)) as [Hb|Hb]; [no_call ans_oversize; auto|];
    destruct (buffer_spec w tag (len_of d) Hw Ht) as (s & -> & Hs & _); [lia|]; cbn [mbind option_bind].
  - cbn [logged ReadAt]. unfold logged_ReadAt. destruct (ReadAt be s _ _) as [[[s' r] b1]|]; [served|done].
  - cbn [logged WriteAt]. unfold logged_WriteAt. destruct (WriteAt be s _ _) as [[r b1]|]; [served|done].
  - cbn [mbind option_bind]. destruct (f _ _ _) as [[r b1]|]; [served|done].
  - rewrite nounmap_bit. destruct (f _ _ _ _) as [[r b1]|]; [served|done].
Qed.

(** The backend's methods return. *)
Definition never_panics {C} (bk : Backend C) : Prop :=
  (forall p off b, is_Some (ReadAt bk p off b)) /\
  (forall p off b, is_Some (WriteAt bk p off b)) /\
  (forall f, DiscardAt bk = Some f -> forall off len b, is_Some (f off len b)) /\
  (forall f, WriteZeroesAt bk = Some f -> forall off len flags b, is_Some (f off len flags b)).

Lemma logged_never_panics : never_panics be -> never_panics (logged be).
Proof.
  intros (Hr & Hw & Hd & Hz). split_and!; cbn [logged ReadAt WriteAt DiscardAt WriteZeroesAt].
  - intros p off [b l]. unfold logged_ReadAt. destruct (Hr p off b) as [[[? ?] ?] E].
    cbn [fst]. rewrite E. eauto.
  - intros p off [b l]. unfold logged_WriteAt. destruct (Hw p off b) as [[? ?] E].
    cbn [fst]. rewrite E. eauto.
  - unfold logged_DiscardAt. destruct (DiscardAt be) as [g|]; [|done]. intros f [= <-] off len [b l].
    destruct (Hd g eq_refl off len b) as [[? ?] E]. cbn [fst]. rewrite E. eauto.
  - unfold logged_WriteZeroesAt. destruct (WriteZeroesAt be) as [g|]; [|done].
    intros f [= <-] off len flags [b l].
    destruct (Hz g eq_refl off len flags b) as [[? ?] E]. cbn [fst]. rewrite E. eauto.
Qed.
End Requests.

Section Frame.
Context {B : Type} (be : Backend B).

(** No slice bound of [handleIO] is exceeded: it returns when the backend does. *)
Lemma handleIO_total w tag d b :
  worker_wf w -> 0 <= tag < w_depth w -> getDesc w tag = Some d -> desc_fits d ->
  never_panics be -> is_Some (handleIO be w tag b).
Proof.
  intros Hw Ht Hg Hd (Hr & Hwr & Hdi & Hz). unfold handleIO. rewrite Hg. cbn [mbind option_bind].
  rewrite desc_fits_off, desc_fits_len by done. destruct (desc_fits_i32 d Hd) as [Hl _].
  destruct (DiscardAt be) as [fd|], (WriteZeroesAt be) as [fz|]; repeat case_decide; try (by eauto).
  all: try (destruct (buffer_spec w tag (len_of d) Hw Ht) as (s & -> & _); [lia|]); cbn [mbind option_bind].
  all: match goal with |- context [mbind _ ?t] =>
         assert (is_Some t) as [x ->] by (first [apply Hr|apply Hwr|by eapply Hdi|by eapply Hz])
       end; cbn; repeat case_match; by eauto.
Qed.

(** The worker after a request: at most a prefix of the tag's buffer changed. *)
Definition same_but_buffer (tag : Z) (w w' : worker) : Prop :=
  w' = w \/ exists s, Z.of_nat (length s) <= w_bufSize w /\
               w' = set_pool (splice (tag * w_bufSize w) s (w_bufPool w)) w.

Lemma handleIO_same w tag d b res w' b' :
  worker_wf w -> 0 <= tag < w_depth w -> getDesc w tag = Some d -> desc_fits d ->
  handleIO be w tag b = Some (res, w', b') -> same_but_buffer tag w w'.
Proof.
  intros Hw Ht Hg Hd. unfold handleIO. rewrite Hg. cbn [mbind option_bind].
  rewrite desc_fits_off, desc_fits_len by done. destruct (desc_fits_i32 d Hd) as [Hl _].
  assert (Hsame : same_but_buffer tag w w) by (by left).
  destruct (DiscardAt be) as [fd|], (WriteZeroesAt be) as [fz|]; repeat case_decide;
    try (by intros [= <- <- <-]).
  all: try (destruct (buffer_spec w tag (len_of d) Hw Ht) as (s & -> & Hs & _); [lia|]); cbn [mbind option_bind].
  all: match goal with |- context [mbind _ ?t] => destruct t as [x|] eqn:E end; try done.
  all: cbn; repeat case_match; try (by intros [= <- <- <-]); subst.
  all: intros [= <- <- <-]; right; eexists; apply ReadAt_length in E; split; [|reflexivity]; lia.
Qed.

Lemma same_but_buffer_wf tag w w' :
  worker_wf w -> 0 <= tag < w_depth w -> same_but_buffer tag w w' -> worker_wf w'.
Proof.
  intros Hw Ht [->|(s & Hs & ->)]; [done|]. destruct (window_in_pool w tag Hw Ht).
  pose proof Hw as [H1 H2 H3 H4].
  constructor; cbn [set_pool w_depth w_bufSize w_bufPool w_bufs]; [done..| |done].
  rewrite splice_length by lia. done.
Qed.

Lemma same_but_buffer_other tag j w w' :
  worker_wf w -> 0 <= tag < w_depth w -> 0 <= j < w_depth w -> j <> tag ->
  same_but_buffer tag w w' ->
  sub (j * w_bufSize w) (w_bufSize w) (w_bufPool w') = sub (j * w_bufSize w) (w_bufSize w) (w_bufPool w).
Proof.
  intros Hw Ht Hj Hne [->|(s & Hs & ->)]; [done|]. destruct (window_in_pool w tag Hw Ht).
  pose proof (ww_bufSize w Hw). cbn [set_pool w_bufPool].
  apply sub_splice_disjoint; [lia|lia|]. nia.
Qed.
End Frame.

(** C11: Every request is served correctly.  For a well-formed worker and a
    descriptor whose offset and length fit the Go types, [handleIO] returns (no
    slice bound is exceeded) whenever the backend's methods return, and the
    answer is right: 0 without a call for an empty request, [-EOPNOTSUPP]
    without a call for an operation the backend lacks, [-EIO] without a call for
    a read or write larger than the buffer, and otherwise exactly one call of
    the operation's method on exactly the request's bytes, answered with the
    byte count when the backend reports all of them without error and with
    [-EIO] when it does not.  The buffers of other tags keep their content. *)
Theorem handleIO_correct {B} (be : Backend B) w tag d b l :
  worker_wf w -> 0 <= tag < w_depth w -> getDesc w tag = Some d -> desc_fits d ->
  never_panics be ->
  exists res w' b' calls,
    handleIO (logged be) w tag (b, l) = Some (res, w', (b', l ++ calls)) /\
    answered be w d calls res /\ worker_wf w' /\
    forall j, 0 <= j < w_depth w -> j <> tag ->
      sub (j * w_bufSize w) (w_bufSize w) (w_bufPool w') =
      sub (j * w_bufSize w) (w_bufSize w) (w_bufPool w).
Proof.
  intros Hw Ht Hg Hd Hn.
  destruct (handleIO_total (logged be) w tag d (b, l) Hw Ht Hg Hd) as [[[res w'] [b' l']] E].
  { by apply logged_never_panics. }
  pose proof (handleIO_same _ _ _ _ _ _ _ _ Hw Ht Hg Hd E) as Hsame.
  destruct (handleIO_answered be _ _ _ _ _ _ _ _ _ Hw Ht Hg Hd E) as (calls & -> & Hans).
  exists res, w', b', calls. split_and!; [done|done|by eapply same_but_buffer_wf|].
  intros j Hj Hne. by apply (same_but_buffer_other tag).
Qed.

(** A worker with one tag and a 4096-byte buffer, as the unit tests set it up. *)
Definition sample_worker (d : ioDesc) : worker :=
  mk_worker 0 1 4096 None (Some (desc_image [d])) (zeros 4096) 0x10000 [(0, 4096)].

Lemma sample_worker_wf d : worker_wf (sample_worker d).
Proof. constructor; cbn; unfold maxQueueDepth; lia || reflexivity. Qed.

(** The stub backend of [worker_test.go]: every byte served, nothing kept. *)
Definition stub_ReadAt (p : list Z) (off : Z) (b : unit) : option (list Z * ret * unit) :=
  Some (p, (Z.of_nat (length p), None), b).
Definition stub_WriteAt (p : list Z) (off : Z) (b : unit) : option (ret * unit) :=
  Some ((Z.of_nat (length p), None), b).

Lemma stub_ReadAt_length p off b p' r b' :
  stub_ReadAt p off b = Some (p', r, b') -> length p' = length p.
Proof. intros H. by injection H as <- _ _. Qed.

Definition stubBackend : Backend unit :=
  mk_Backend stub_ReadAt stub_WriteAt None None stub_ReadAt_length.

Lemma stub_never_panics : never_panics stubBackend.
Proof. split_and!; intros; cbn in *; first [done | by eexists]. Qed.

Lemma handleIO_correct_witness :
  exists res w' b' calls,
    handleIO (logged stubBackend) (sample_worker sample_desc) 0 (tt, []) =
      Some (res, w', (b', [] ++ calls)) /\
    answered stubBackend (sample_worker sample_desc) sample_desc calls res /\ worker_wf w' /\
    forall j, 0 <= j < 1 -> j <> 0 ->
      sub (j * 4096) 4096 (w_bufPool w') = sub (j * 4096) 4096 (zeros 4096).
Proof.
  apply (handleIO_correct stubBackend (sample_worker sample_desc) 0 sample_desc tt []).
  - apply sample_worker_wf.
  - cbn. lia.
  - vm_compute. reflexivity.
  - cbn. unfold desc_fits. cbn. lia.
  - apply stub_never_panics.
Defined.

(** ** The device as a store of bytes

    With the in-memory backend the worker implements an abstract disk.  A
    request comes with the bytes to write; before the worker sees it the kernel
    stores its descriptor and, for a write, copies its bytes into the tag's
    buffer, and after a read it takes the reply from there. *)

Record request := mk_request { q_tag : Z; q_desc : ioDesc; q_data : list Z }.

(** The abstract disk: the result and the reply of a request, and the disk
    after it. *)
Definition disk_exec (q : request) (disk : list Z) : option (Z * list Z * list Z) :=
  let d := q_desc q in
  if decide (op_of d = opWrite) then Some (len_of d, [], splice (off_of d) (q_data q) disk)
  else if decide (op_of d = opRead) then
    s ← sub (off_of d) (len_of d) disk; Some (len_of d, s, disk)
  else None.

Definition deliver (q : request) (ds : list ioDesc) (w : worker) : worker :=
  let w := set_descs (Some (desc_image (<[Z.to_nat (q_tag q) := q_desc q]> ds))) w in
  if decide (op_of (q_desc q) = opWrite)
  then set_pool (splice (q_tag q * w_bufSize w) (q_data q) (w_bufPool w)) w else w.

Definition serve (q : request) (ds : list ioDesc) (w : worker) (data : list Z) :
    option (Z * list Z * worker * list Z) :=
  '(res, w, data) ← handleIO Mem.memBackend (deliver q ds w) (q_tag q) data;
  if decide (op_of (q_desc q) = opRead)
  then s ← sub (q_tag q * w_bufSize w) (len_of (q_desc q)) (w_bufPool w); Some (res, s, w, data)
  else Some (res, [], w, data).

(** Requests the kernel may send to a device of [size] bytes whose largest IO
    is the buffer size. *)
Record request_ok (w : worker) (size : Z) (q : request) : Prop := {
  qo_tag : 0 <= q_tag q < w_depth w;
  qo_op : op_of (q_desc q) = opRead \/ op_of (q_desc q) = opWrite;
  qo_wf : go_wf (q_desc q) = true;
  qo_fits : desc_fits (q_desc q);
  qo_len : 0 < len_of (q_desc q) <= w_bufSize w;
  qo_range : off_of (q_desc q) + len_of (q_desc q) <= size;
  qo_data : op_of (q_desc q) = opWrite -> Z.of_nat (length (q_data q)) = len_of (q_desc q) }.

Lemma off_of_nonneg d : desc_fits d -> 0 <= off_of d.
Proof. intros [Hs _]. unfold off_of. lia. Qed.

Lemma deliver_facts q ds w size :
  worker_wf w -> request_ok w size q -> Forall (fun d => go_wf d = true) ds ->
  Z.of_nat (length ds) = w_depth w ->
  worker_wf (deliver q ds w) /\ getDesc (deliver q ds w) (q_tag q) = Some (q_desc q) /\
  w_depth (deliver q ds w) = w_depth w /\ w_bufSize (deliver q ds w) = w_bufSize w /\
  (op_of (q_desc q) = opWrite ->
   sub (q_tag q * w_bufSize w) (len_of (q_desc q)) (w_bufPool (deliver q ds w)) = Some (q_data q)).
Proof.
  intros Hw Hq Hds Hlen. pose proof (qo_tag _ _ _ Hq) as Ht. pose proof (qo_len _ _ _ Hq) as Hl.
  destruct (window_in_pool w (q_tag q) Hw Ht) as [H0 H1].
  assert (Hd : worker_wf (deliver q ds w)).
  { destruct Hw as [Hw1 Hw2 Hw3 Hw4]. unfold deliver. case_decide as Eop; [|by constructor].
    pose proof (qo_data _ _ _ Hq Eop).
    constructor; cbn; [done..| |done]. rewrite splice_length by lia. done. }
  split; [done|]. unfold deliver in *. split_and!.
  - apply (getDesc_image _ (<[Z.to_nat (q_tag q) := q_desc q]> ds)).
    + apply Forall_insert; [done|apply Hq].
    + by case_decide.
    + lia.
    + apply list_lookup_insert_eq. lia.
  - by case_decide.
  - by case_decide.
  - intros Eop. rewrite decide_True by done. cbn [set_pool set_descs w_bufPool w_bufSize].
    pose proof (qo_data _ _ _ Hq Eop) as <-. apply sub_splice; [lia|].
    pose proof (qo_data _ _ _ Hq Eop). lia.
Qed.

Lemma handleIO_mem_read w tag d data s :
  worker_wf w -> 0 <= tag < w_depth w -> getDesc w tag = Some d -> desc_fits d ->
  op_of d = opRead -> 0 < len_of d <= w_bufSize w -> sub (off_of d) (len_of d) data = Some s ->
  handleIO Mem.memBackend w tag data =
  Some (len_of d, set_pool (splice (tag * w_bufSize w) s (w_bufPool w)) w, data).
Proof.
  intros Hw Ht Hg Hd Hop Hl Hs. unfold handleIO. rewrite Hg. cbn [mbind option_bind].
  rewrite desc_fits_off, desc_fits_len by done. fold (op_of d).
  rewrite decide_True, decide_False, decide_False by (done || lia).
  destruct (buffer_spec w tag (len_of d) Hw Ht) as (p & -> & Hp & _); [lia|].
  cbn [mbind option_bind Mem.memBackend ReadAt].
  rewrite (Mem.ReadAt_in_range p (off_of d) data s) by (rewrite Hp; done). cbn [mbind option_bind].
  rewrite Hp, io_result_cases, decide_True by done. done.
Qed.

Lemma handleIO_mem_write w tag d data s :
  worker_wf w -> 0 <= tag < w_depth w -> getDesc w tag = Some d -> desc_fits d ->
  op_of d = opWrite -> 0 < len_of d <= w_bufSize w ->
  off_of d + len_of d <= Z.of_nat (length data) ->
  sub (tag * w_bufSize w) (len_of d) (w_bufPool w) = Some s ->
  handleIO Mem.memBackend w tag data = Some (len_of d, w, splice (off_of d) s data).
Proof.
  intros Hw Ht Hg Hd Hop Hl Hr Hs. unfold handleIO. rewrite Hg. cbn [mbind option_bind].
  rewrite desc_fits_off, desc_fits_len by done. fold (op_of d). rewrite Hop.
  rewrite decide_False, decide_True, decide_False, decide_False by (done || lia).
  destruct (buffer_spec w tag (len_of d) Hw Ht) as (p & -> & Hp & Hsub); [lia|].
  rewrite Hs in Hsub. injection Hsub as <-. cbn [mbind option_bind Mem.memBackend WriteAt].
  pose proof (off_of_nonneg d Hd). rewrite Mem.WriteAt_in_range by lia. cbn [mbind option_bind].
  rewrite Hp, io_result_cases, decide_True by done. done.
Qed.

(** One request: the worker and the disk agree, and both stay in shape. *)
Lemma serve_refines q ds w data :
  worker_wf w -> Forall (fun d => go_wf d = true) ds -> Z.of_nat (length ds) = w_depth w ->
  request_ok w (Z.of_nat (length data)) q ->
  exists res reply w' data',
    disk_exec q data = Some (res, reply, data') /\ serve q ds w data = Some (res, reply, w', data') /\
    worker_wf w' /\ w_depth w' = w_depth w /\ w_bufSize w' = w_bufSize w /\
    length data' = length data.
Proof.
  intros Hw Hds Hlen Hq.
  destruct (deliver_facts q ds w _ Hw Hq Hds Hlen) as (Hw1 & Hg & Hdep & Hbs & Hbuf).
  destruct Hq as [Ht Hop Hwf Hf Hl Hr Hdata]. pose proof (off_of_nonneg _ Hf) as Ho.
  unfold serve, disk_exec. rewrite <- Hbs, <- Hdep in *. destruct Hop as [Hop|Hop].
  - rewrite decide_False, decide_True by (by rewrite Hop).
    destruct (sub (off_of (q_desc q)) (len_of (q_desc q)) data) as [s|] eqn:Es;
      [|rewrite sub_Some in Es by lia; done].
    rewrite (handleIO_mem_read _ _ (q_desc q) data s) by done. cbn [mbind option_bind].
    rewrite decide_True by done. cbn [set_pool w_bufSize w_bufPool].
    pose proof (sub_length _ _ _ _ Es) as Hls. destruct (window_in_pool _ _ Hw1 Ht).
    rewrite <- Hls, sub_splice by lia. cbn [mbind option_bind].
    eexists _, _, _, _. split_and!; [done|done| |done..].
    apply (same_but_buffer_wf (q_tag q) (deliver q ds w)); [done..|]. right. exists s. split; [lia|reflexivity].
  - rewrite decide_True by done.
    rewrite (handleIO_mem_write _ _ (q_desc q) data (q_data q)) by auto. cbn [mbind option_bind].
    rewrite decide_False by (by rewrite Hop).
    eexists _, _, _, _. split_and!; [done..|]. apply splice_length; [lia|]. rewrite Hdata by done. lia.
Qed.

(** A sequence of requests, on the worker and on the disk. *)
Fixpoint serve_all (qs : list request) (ds : list ioDesc) (w : worker) (data : list Z) :
    option (list (Z * list Z) * list Z) :=
  match qs with
  | [] => Some ([], data)
  | q :: qs =>
      '(res, reply, w, data) ← serve q ds w data;
      '(outs, data) ← serve_all qs (<[Z.to_nat (q_tag q) := q_desc q]> ds) w data;
      Some ((res, reply) :: outs, data)
  end.

Fixpoint disk_all (qs : list request) (disk : list Z) : option (list (Z * list Z) * list Z) :=
  match qs with
  | [] => Some ([], disk)
  | q :: qs =>
      '(res, reply, disk) ← disk_exec q disk;
      '(outs, disk) ← disk_all qs disk;
      Some ((res, reply) :: outs, disk)
  end.

(** C1: The device is a disk.  For every sequence of reads and writes in range,
    with any assignment of tags, the worker over the in-memory backend returns
    the results and the data of an abstract byte store, and the backend ends
    with the store's content: bytes written are the bytes read back, at the same
    offset, and no request touches bytes outside its range. *)
Theorem device_refines_disk qs : forall ds w data,
  worker_wf w -> Forall (fun d => go_wf d = true) ds -> Z.of_nat (length ds) = w_depth w ->
  Forall (request_ok w (Z.of_nat (length data))) qs ->
  exists outs disk, disk_all qs data = Some (outs, disk) /\
    serve_all qs ds w data = Some (outs, disk).
Proof.
  induction qs as [|q qs IH]; intros ds w data Hw Hds Hlen Hqs; [by eexists _, _|].
  apply Forall_cons in Hqs as [Hq Hqs].
  destruct (serve_refines q ds w data Hw Hds Hlen Hq)
    as (res & reply & w' & data' & E1 & E2 & Hw' & Hdep & Hbs & Hl).
  destruct (IH (<[Z.to_nat (q_tag q) := q_desc q]> ds) w' data') as (outs & disk & E3 & E4).
  - done.
  - apply Forall_insert; [done|apply Hq].
  - rewrite length_insert. lia.
  - eapply Forall_impl; [exact Hqs|]. intros q' [H1 H2 H3 H4 H5 H6 H7].
    constructor; try done; rewrite ?Hdep, ?Hbs, ?Hl; done.
  - exists ((res, reply) :: outs), disk. cbn [disk_all serve_all].
    rewrite E1, E2. cbn [mbind option_bind]. by rewrite E3, E4.
Qed.

(** Write a sector of sevens to sector 1, then read it back. *)
Definition sample_requests : list request :=
  [mk_request 0 (mk_ioDesc opWrite 1 1 0) (replicate 512 7); mk_request 0 (mk_ioDesc opRead 1 1 0) []].

Lemma device_refines_disk_witness :
  exists outs disk, disk_all sample_requests (zeros 1024) = Some (outs, disk) /\
    serve_all sample_requests [sample_desc] (sample_worker sample_desc) (zeros 1024) = Some (outs, disk).
Proof.
  apply (device_refines_disk sample_requests [sample_desc] (sample_worker sample_desc) (zeros 1024)).
  - apply sample_worker_wf.
  - by repeat constructor.
  - reflexivity.
  - repeat constructor; vm_compute; first [done|lia|naive_solver].
Defined.

(** ** Commands to the kernel *)

(** The address of a tag's buffer, for a well-formed worker. *)
Definition tag_addr (w : worker) (tag : Z) : Z := u64 (w_poolAddr w + tag * w_bufSize w).

Definition fetch_sqe (w : worker) (charFD tag : Z) : SQE :=
  io_sqe charFD uIOFetchReq tag (mk_ioCmd (w_qid w) tag 0 (tag_addr w tag)).
Definition commit_sqe (w : worker) (charFD tag result : Z) : SQE :=
  io_sqe charFD uIOCommitAndFetchReq tag (mk_ioCmd (w_qid w) tag result (tag_addr w tag)).

(** With room in the ring, preparing a command is pushing its entry. *)
Lemma prepareFetch_put w charFD tag r m :
  worker_wf w -> 0 <= tag < w_depth w -> sq_inv r m -> 0 < sq_room r m ->
  prepareFetch w charFD tag r m = put64 (fetch_sqe w charFD tag) r m.
Proof.
  intros Hw Ht Hi Hr. pose proof (put64_room zero_SQE64 r m Hi Hr) as E. unfold put64 in *.
  unfold prepareFetch. destruct (GetSQE64 r m) as [[[ptr|] r'] m']; [|done].
  rewrite buf_addr_spec by done. done.
Qed.

Lemma prepareCommit_put w charFD tag res r m :
  worker_wf w -> 0 <= tag < w_depth w -> sq_inv r m -> 0 < sq_room r m ->
  prepareCommitAndFetch w charFD tag res r m = put64 (commit_sqe w charFD tag res) r m.
Proof.
  intros Hw Ht Hi Hr. pose proof (put64_room zero_SQE64 r m Hi Hr) as E. unfold put64 in *.
  unfold prepareCommitAndFetch. destruct (GetSQE64 r m) as [[[ptr|] r'] m']; [|done].
  rewrite buf_addr_spec by done. done.
Qed.

(** What the kernel decodes from the command area of an entry. *)
Lemma io_sqe_decodes charFD op tag cmd :
  go_wf cmd = true -> of_bytes (s_Cmd (io_sqe charFD op tag cmd)) = Some cmd.
Proof.
  intros Hw. cbn [io_sqe s_Cmd]. pose proof (bytes_of_length cmd Hw) as Hl.
  change (Sizeof ioCmd) with 16 in Hl.
  rewrite copy_all by (unfold zeros; rewrite length_replicate; lia).
  rewrite <- (app_nil_r (bytes_of cmd)). by apply of_bytes_of.
Qed.

Lemma ioCmd_wf q t res a :
  is_u 16 q -> is_u 16 t -> is_i 32 res -> is_u 64 a -> go_wf (mk_ioCmd q t res a) = true.
Proof.
  intros Hq Ht Hr Ha. unfold go_wf. cbn. unfold is_u, is_i in *.
  rewrite !bool_decide_eq_true_2; [done|..]; cbn in *; lia.
Qed.

(** A completed request is reported faithfully.  With room in the ring,
    [prepareCommitAndFetch] appends exactly one entry; the kernel finds in it
    the COMMIT_AND_FETCH opcode, the tag as user data, and in its command area
    the queue, the tag, the result and the address of the tag's buffer. *)
Theorem commit_entry w charFD tag res r m :
  worker_wf w -> 0 <= tag < w_depth w -> is_u 16 (w_qid w) -> is_i 32 res ->
  sq_inv r m -> 0 < sq_room r m ->
  exists r' m' e, prepareCommitAndFetch w charFD tag res r m = Some (r', m') /\ sq_inv r' m' /\
    pending r' m' = pending r m ++ [e] /\ published r' m' = published r m /\
    s_Opcode e = OpUringCmd /\ s_Off e = uIOCommitAndFetchReq /\ s_UserData e = tag /\
    of_bytes (s_Cmd e) = Some (mk_ioCmd (w_qid w) tag res (tag_addr w tag)).
Proof.
  intros Hw Ht Hq Hres Hi Hr. pose proof (ww_depth w Hw) as Hd. unfold maxQueueDepth in Hd.
  rewrite prepareCommit_put by done. rewrite put64_room by done.
  eexists _, _, (commit_sqe w charFD tag res). split_and!; [done| | | |done..|].
  - by apply sq_inv_push.
  - by apply pending_push.
  - by apply published_push.
  - apply io_sqe_decodes, ioCmd_wf; [done| |done|].
    + unfold is_u. lia.
    + apply is_u_u64.
Qed.

Lemma commit_entry_witness :
  exists r' m' e,
    prepareCommitAndFetch (sample_worker sample_desc) 9 0 (-5) (sample_ring 4) (sample_shm 4)
      = Some (r', m') /\ sq_inv r' m' /\
    pending r' m' = [] ++ [e] /\ published r' m' = [] /\
    s_Opcode e = OpUringCmd /\ s_Off e = uIOCommitAndFetchReq /\ s_UserData e = 0 /\
    of_bytes (s_Cmd e) = Some (mk_ioCmd 0 0 (-5) 0x10000).
Proof.
  apply (commit_entry (sample_worker sample_desc) 9 0 (-5) (sample_ring 4) (sample_shm 4)).
  - apply sample_worker_wf.
  - cbn. lia.
  - split; cbn; lia.
  - split; cbn; lia.
  - apply (sample_sq_inv 2). lia.
  - vm_compute. reflexivity.
Defined.

(** Preparing commands one after the other is pushing their entries. *)
Lemma prepare_fetches_put w charFD : forall tags r m,
  worker_wf w -> Forall (fun t => 0 <= t < w_depth w) tags -> sq_inv r m ->
  Z.of_nat (length tags) <= sq_room r m ->
  foldl (fun acc tag => '(r, m) ← acc; prepareFetch w charFD tag r m) (Some (r, m)) tags =
  put_all (fetch_sqe w charFD <$> tags) r m.
Proof.
  induction tags as [|t tags IH]; intros r m Hw Ht Hi Hr; [done|].
  apply Forall_cons in Ht as [Ht Hts]. cbn [length] in Hr.
  cbn [foldl fmap list_fmap put_all mbind option_bind]. rewrite prepareFetch_put by (done || lia).
  rewrite put64_room by (done || lia). cbn [mbind option_bind]. apply IH; [done..| |].
  - apply sq_inv_push; [done|lia].
  - rewrite sq_room_pushed by (done || lia). lia.
Qed.

Lemma fetches_flushed w charFD r m :
  worker_wf w -> sq_inv r m -> published r m = [] -> pending r m = [] ->
  roundUp2 (w_depth w) <= SQEntries r ->
  exists r1 m1 r2 m2,
    prepare_fetches w charFD r m = Some (r1, m1) /\
    flushSQ r1 m1 = (w_depth w, r2, m2) /\
    published r2 m2 = fetch_sqe w charFD <$> seqZ 0 (w_depth w) /\
    s_UserData <$> published r2 m2 = seqZ 0 (w_depth w) /\
    sq_inv r2 m2 /\ pending r2 m2 = [].
Proof.
  intros Hw Hi Hpub Hpend Hent. pose proof (ww_depth w Hw) as Hd. unfold maxQueueDepth in Hd.
  assert (Hle : w_depth w <= sq_room r m).
  { rewrite (sq_room_idle r m Hi Hpub Hpend). unfold SQEntries in Hent.
    pose proof (roundUp2_ge (w_depth w) ltac:(lia)). lia. }
  unfold prepare_fetches. rewrite prepare_fetches_put; [|done| |done|rewrite length_seqZ; lia].
  2:{ apply Forall_forall. intros t Ht. apply elem_of_seqZ in Ht. lia. }
  set (es := fetch_sqe w charFD <$> seqZ 0 (w_depth w)).
  assert (Hlen : Z.of_nat (length es) = w_depth w)
    by (unfold es; rewrite length_fmap, length_seqZ; lia).
  destruct (put_all_room es r m Hi) as (r1 & m1 & E1 & Hi1 & Hp1 & Hpub1 & _); [lia|].
  destruct (flushSQ_spec r1 m1 Hi1) as (r2 & m2 & E2 & Hi2 & Hp2 & Hpub2).
  rewrite Hpend in Hp1. cbn in Hp1. rewrite Hp1, Hlen in E2. rewrite Hp1, Hpub1, Hpub in Hpub2.
  exists r1, m1, r2, m2. split_and!; [done..| |done|done]. rewrite Hpub2. unfold es.
  cbn [app]. rewrite <- list_fmap_compose. rewrite <- (list_fmap_id (seqZ 0 (w_depth w))) at 2.
  apply list_fmap_ext. done.
Qed.

(** [init] arms every tag exactly once.  On a fresh ring of at least
    [roundUp2 depth] entries, as [uring.New] asks for, no FETCH is silently
    dropped: the loop prepares one FETCH_REQ for every tag from 0 to [depth-1]
    in order, and the submission in [run] publishes exactly those. *)
Theorem init_arms_every_tag w charFD r m :
  worker_wf w -> sq_inv r m -> published r m = [] -> pending r m = [] ->
  roundUp2 (w_depth w) <= SQEntries r ->
  exists r1 m1 r2 m2,
    prepare_fetches w charFD r m = Some (r1, m1) /\
    flushSQ r1 m1 = (w_depth w, r2, m2) /\
    published r2 m2 = fetch_sqe w charFD <$> seqZ 0 (w_depth w) /\
    s_UserData <$> published r2 m2 = seqZ 0 (w_depth w).
Proof.
  intros Hw Hi Hpub Hpend Hent.
  destruct (fetches_flushed w charFD r m Hw Hi Hpub Hpend Hent)
    as (r1 & m1 & r2 & m2 & E1 & E2 & E3 & E4 & _).
  by exists r1, m1, r2, m2.
Qed.

Lemma init_arms_every_tag_witness :
  exists r1 m1 r2 m2,
    prepare_fetches (sample_worker sample_desc) 9 (sample_ring 4) (sample_shm 4) = Some (r1, m1) /\
    flushSQ r1 m1 = (1, r2, m2) /\
    published r2 m2 = fetch_sqe (sample_worker sample_desc) 9 <$> seqZ 0 1 /\
    s_UserData <$> published r2 m2 = seqZ 0 1.
Proof.
  apply (init_arms_every_tag (sample_worker sample_desc) 9 (sample_ring 4) (sample_shm 4)).
  - apply sample_worker_wf.
  - apply (sample_sq_inv 2). lia.
  - reflexivity.
  - reflexivity.
  - vm_compute. discriminate.
Defined.
