(* ===== verification/Kernel.v ===== *)
(** * The system-call interface

    The kernel is not part of the repository: it is a parameter.  [Kernel K]
    lists the system calls and the shared memory ublk-go uses, as operations on
    an opaque kernel state [K]; [KernelLaws] states the documented behaviour
    every theorem about the library's resources may use.  The library's
    functions run in the monad [M]: a computation on the kernel state that may
    panic, or block for longer than the fuel it was given.  A trace records
    which descriptors and mappings were acquired and released and which control
    commands were submitted. *)

From S2P Require Import Prelude GoLayout Types Uring.

(** ** Errors *)

(** Go error values: an errno, a plain message, [ErrCancelled], and [%w]
    wrapping of one or two errors. *)
Inductive goerr : Type :=
| Errno (e : Z)
| Msg (s : string)
| ErrCancelled
| Wrap (s : string) (e : goerr)
| Wrap2 (s : string) (e1 e2 : goerr).

#[export] Instance goerr_eq_dec : EqDecision goerr.
Proof. solve_decision. Defined.

Definition ENOENT : Z := 2.
Definition EINTR : Z := 4.

(** [errors.Is(err, unix.EINTR)] and the like, for an unwrapped errno. *)
Definition is_errno (n e : Z) : bool := bool_decide (n = e).

(** ** System calls *)

Class Kernel (K : Type) := {
  (** [open], [close]. *)
  k_open : string -> Z -> K -> result Z Z * K;
  k_close : Z -> K -> option Z * K;
  (** [io_uring_setup] and [io_uring_enter] (fd, to_submit, flags). *)
  k_uring_setup : Z -> params -> K -> result Z (Z * params) * K;
  k_enter : Z -> Z -> Z -> K -> result Z Z * K;
  (** [mmap] (fd, offset, length) gives the handle of a mapping. *)
  k_mmap : Z -> Z -> Z -> K -> result Z Z * K;
  k_munmap : Z -> K -> option Z * K;
  (** [eventfd], [epoll_create1], [epoll_ctl] ADD, [epoll_wait] (the ready
      descriptors), and the write that signals an eventfd. *)
  k_eventfd : K -> result Z Z * K;
  k_epoll_create : K -> result Z Z * K;
  k_epoll_add : Z -> Z -> K -> option Z * K;
  k_epoll_wait : Z -> K -> result Z (list Z) * K;
  k_event_write : Z -> K -> K;
  (** What the kernel did on its own before the program reads shared memory. *)
  k_async : K -> K;
  (** The ring memory shared through a ring descriptor. *)
  k_shm : Z -> K -> shm;
  k_set_shm : Z -> shm -> K -> K;
  (** The bytes of a descriptor mapping. *)
  k_bytes : Z -> K -> list Z;
  (** User memory the kernel reads and writes through an address: the address
      of a pinned variable, its content, and the allocator's next address. *)
  k_pin : list Z -> K -> Z * K;
  k_user : Z -> K -> list Z;
  k_user_set : Z -> list Z -> K -> K;
  k_alloc : K -> Z;
  k_getpid : K -> Z;
  k_sleep : K -> K
}.

(** ** The trace *)

Inductive event : Type :=
| Acquire (fd : Z)
| Release (fd : Z)
| Map (h : Z)
| Unmap (h : Z)
| TryOpen (path : string)
| Ctrl (op : Z) (cmd : ctrlCmd).

Definition acquired (tr : list event) : list Z :=
  omap (fun e => match e with Acquire fd => Some fd | _ => None end) tr.
Definition released (tr : list event) : list Z :=
  omap (fun e => match e with Release fd => Some fd | _ => None end) tr.
Definition mapped (tr : list event) : list Z :=
  omap (fun e => match e with Map h => Some h | _ => None end) tr.
Definition unmapped (tr : list event) : list Z :=
  omap (fun e => match e with Unmap h => Some h | _ => None end) tr.
Definition ctrl_ops (tr : list event) : list Z :=
  omap (fun e => match e with Ctrl op _ => Some op | _ => None end) tr.

(** [fds] and [maps] are what the trace leaves open: every other descriptor
    was closed, and every other mapping removed, exactly as often as it was
    acquired. *)
Definition owns (tr : list event) (fds maps : list Z) : Prop :=
  acquired tr ≡ₚ released tr ++ fds /\ mapped tr ≡ₚ unmapped tr ++ maps.

(** ** Computations *)

Inductive out (A : Type) : Type :=
| Val (a : A)
| Panic
| Stuck.
Arguments Val {A} a.
Arguments Panic {A}.
Arguments Stuck {A}.

Section Monad.
Context {K : Type} `{Kernel K}.

Record st := mk_st { kern : K; trace : list event }.

Definition M (A : Type) : Type := st -> out (A * st).

#[export] Instance M_ret : MRet M := fun A a s => Val (a, s).
#[export] Instance M_bind : MBind M := fun A B f m s =>
  match m s with
  | Val (a, s') => f a s'
  | Panic => Panic
  | Stuck => Stuck
  end.

(** An expression that panics when it is [None]. *)
Definition must {A} (o : option A) : M A :=
  match o with Some a => mret a | None => fun _ => Panic end.

Definition stuck {A} : M A := fun _ => Stuck.

Definition log (e : event) : M () := fun s => Val ((), mk_st (kern s) (trace s ++ [e])).
Definition gets {A} (f : K -> A) : M A := fun s => Val (f (kern s), s).
Definition modify (f : K -> K) : M () := fun s => Val ((), mk_st (f (kern s)) (trace s)).
Definition call {A} (f : K -> A * K) : M A :=
  fun s => let '(a, k) := f (kern s) in Val (a, mk_st k (trace s)).

(** The system calls, with what they acquire and release. *)
Definition acquire (f : K -> result Z Z * K) : M (result Z Z) :=
  r ← call f;
  match r with
  | Ok fd => log (Acquire fd);; mret r
  | Err _ => mret r
  end.

Definition sys_open (path : string) (flags : Z) : M (result Z Z) :=
  log (TryOpen path);; acquire (k_open path flags).
Definition sys_close (fd : Z) : M (option Z) := log (Release fd);; call (k_close fd).
Definition sys_mmap (fd off len : Z) : M (result Z Z) :=
  r ← call (k_mmap fd off len);
  match r with Ok h => log (Map h);; mret r | Err _ => mret r end.
Definition sys_munmap (h : Z) : M (option Z) := log (Unmap h);; call (k_munmap h).
Definition sys_uring_setup (entries : Z) (p : params) : M (result Z (Z * params)) :=
  r ← call (k_uring_setup entries p);
  match r with Ok (fd, _) => log (Acquire fd);; mret r | Err _ => mret r end.

(** Shared-memory accesses of the ring [fd]: the kernel may have run since. *)
Definition load_shm (fd : Z) : M shm := modify k_async;; gets (k_shm fd).
Definition store_shm (fd : Z) (m : shm) : M () := modify (k_set_shm fd m).
End Monad.
Arguments st K : clear implicits.
Arguments M K A : clear implicits.

(** ** Hoare triples

    [triple P m Q]: from a state satisfying [P] the computation does not panic,
    and if it returns, [Q] holds of its value and state.  [total P m Q] also
    excludes [Stuck]. *)
Section Triples.
Context {K : Type}.

Definition triple {A} (P : st K -> Prop) (m : M K A) (Q : A -> st K -> Prop) : Prop :=
  forall s, P s -> match m s with Val (a, s') => Q a s' | Panic => False | Stuck => True end.

Definition total {A} (P : st K -> Prop) (m : M K A) (Q : A -> st K -> Prop) : Prop :=
  forall s, P s -> exists a s', m s = Val (a, s') /\ Q a s'.

Lemma total_triple {A} P (m : M K A) Q : total P m Q -> triple P m Q.
Proof. intros Ht s Hp. destruct (Ht s Hp) as (a & s' & -> & Hq). done. Qed.

Lemma triple_ret {A} (P : st K -> Prop) (a : A) (Q : A -> st K -> Prop) :
  (forall s, P s -> Q a s) -> triple P (mret a) Q.
Proof. intros Hq s Hp. cbn. by apply Hq. Qed.

Lemma triple_bind {A B} P (m : M K A) R (f : A -> M K B) Q :
  triple P m R -> (forall a, triple (R a) (f a) Q) -> triple P (m ≫= f) Q.
Proof.
  intros Hm Hf s Hp. specialize (Hm s Hp). unfold mbind, M_bind.
  destruct (m s) as [[a s']| |]; [by apply Hf|done|done].
Qed.

Lemma triple_conseq {A} (P P' : st K -> Prop) (m : M K A) Q Q' :
  triple P' m Q' -> (forall s, P s -> P' s) -> (forall a s, Q' a s -> Q a s) -> triple P m Q.
Proof.
  intros Hm Hp Hq s Hs. specialize (Hm s (Hp s Hs)). destruct (m s) as [[a s']| |]; eauto.
Qed.

Lemma triple_pre {A} (P P' : st K -> Prop) (m : M K A) Q :
  (forall s, P s -> P' s) -> triple P' m Q -> triple P m Q.
Proof. intros Hp Hm s Hs. apply Hm, Hp, Hs. Qed.

(** Run a computation for its effect. *)
Lemma triple_skip {A B} P (m : M K A) (b : B) (Q : st K -> Prop) :
  triple P m (fun _ => Q) -> triple P (m;; mret b) (fun _ => Q).
Proof. intros Hm. eapply triple_bind; [exact Hm|]. intros a. by apply triple_ret. Qed.

Lemma triple_pure {A} (X : Prop) P (m : M K A) Q :
  (X -> triple P m Q) -> triple (fun s => X /\ P s) m Q.
Proof. intros Hm s [Hx Hp]. by apply Hm. Qed.

(** A computation that does not block. *)
Definition live {A} (m : M K A) : Prop := forall s, m s <> Stuck.

Lemma live_ret {A} (a : A) : live (mret a).
Proof. done. Qed.
Lemma live_bind {A B} (m : M K A) (f : A -> M K B) :
  live m -> (forall a, live (f a)) -> live (m ≫= f).
Proof.
  intros Hm Hf s. specialize (Hm s). unfold mbind, M_bind.
  destruct (m s) as [[a s']| |]; [apply Hf|done|done].
Qed.
Lemma live_call {A} (f : K -> A * K) : live (call f).
Proof. intros [k tr]. unfold call. cbn. by destruct (f k). Qed.
Lemma live_log e : live (log e).
Proof. done. Qed.
Lemma live_gets {A} (f : K -> A) : live (gets f).
Proof. done. Qed.
Lemma live_modify (f : K -> K) : live (modify f).
Proof. done. Qed.

Lemma live_must {A} (o : option A) : live (must o).
Proof. by destruct o. Qed.

Lemma total_of {A} P (m : M K A) Q : triple P m Q -> live m -> total P m Q.
Proof.
  intros Ht Hl s Hp. specialize (Ht s Hp). specialize (Hl s).
  destruct (m s) as [[a s']| |]; [eauto|done|done].
Qed.

Lemma triple_gets {A} (f : K -> A) (Q : A -> Prop) (P : st K -> Prop) :
  (forall k, Q (f k)) -> triple P (gets f) (fun a s => Q a /\ P s).
Proof. intros Hq s Hp. cbn. split; [apply Hq|done]. Qed.

Lemma triple_exists {A X} (P : X -> st K -> Prop) (m : M K A) Q :
  (forall x, triple (P x) m Q) -> triple (fun s => exists x, P x s) m Q.
Proof. intros Hm s [x Hx]. by apply (Hm x). Qed.
End Triples.

(** ** Ownership *)

(** What is documented of descriptors and addresses: a successful call that
    opens a descriptor returns a non-negative number, an address fits in 64
    bits, and memory holds bytes. *)
Class KernelLaws (K : Type) `{Kernel K} := {
  kl_open path fl k fd k' : k_open path fl k = (Ok fd, k') -> 0 <= fd;
  kl_setup n p k fd p' k' : k_uring_setup n p k = (Ok (fd, p'), k') -> 0 <= fd;
  kl_eventfd k fd k' : k_eventfd k = (Ok fd, k') -> 0 <= fd;
  kl_epoll k fd k' : k_epoll_create k = (Ok fd, k') -> 0 <= fd;
  kl_alloc k : is_u 64 (k_alloc k);
  kl_user a k : Forall (is_u 8) (k_user a k)
}.

Section Ownership.
Context {K : Type} `{Kernel K}.

Definition own (fds maps : list Z) (s : st K) : Prop := owns (trace s) fds maps.

#[export] Instance own_proper : Proper ((≡ₚ) ==> (≡ₚ) ==> (=) ==> iff) own.
Proof.
  intros f f' Hf g g' Hg s s' ->. unfold own, owns. by rewrite Hf, Hg.
Qed.

Lemma omap_snoc {A B} (f : A -> option B) l x :
  omap f (l ++ [x]) = omap f l ++ match f x with Some y => [y] | None => [] end.
Proof. rewrite omap_app. cbn. by destruct (f x). Qed.

Lemma own_acquire fds maps k k' tr fd :
  own fds maps (mk_st k tr) -> own (fds ++ [fd]) maps (mk_st k' (tr ++ [Acquire fd])).
Proof.
  intros [Ha Hm]. split; cbn in *.
  - unfold acquired, released in *. rewrite !omap_snoc, app_nil_r, Ha. by rewrite app_assoc.
  - unfold mapped, unmapped in *. by rewrite !omap_snoc, !app_nil_r.
Qed.

Lemma own_release fds maps k k' tr fd :
  own (fds ++ [fd]) maps (mk_st k tr) -> own fds maps (mk_st k' (tr ++ [Release fd])).
Proof.
  intros [Ha Hm]. split; cbn in *.
  - unfold acquired, released in *. rewrite !omap_snoc, app_nil_r, Ha.
    rewrite <- app_assoc. by rewrite (Permutation_app_comm fds [fd]).
  - unfold mapped, unmapped in *. by rewrite !omap_snoc, !app_nil_r.
Qed.

Lemma own_map fds maps k k' tr h :
  own fds maps (mk_st k tr) -> own fds (maps ++ [h]) (mk_st k' (tr ++ [Map h])).
Proof.
  intros [Ha Hm]. split; cbn in *.
  - unfold acquired, released in *. by rewrite !omap_snoc, !app_nil_r.
  - unfold mapped, unmapped in *. rewrite !omap_snoc, app_nil_r, Hm. by rewrite app_assoc.
Qed.

Lemma own_unmap fds maps k k' tr h :
  own fds (maps ++ [h]) (mk_st k tr) -> own fds maps (mk_st k' (tr ++ [Unmap h])).
Proof.
  intros [Ha Hm]. split; cbn in *.
  - unfold acquired, released in *. by rewrite !omap_snoc, !app_nil_r.
  - unfold mapped, unmapped in *. rewrite !omap_snoc, app_nil_r, Hm.
    rewrite <- app_assoc. by rewrite (Permutation_app_comm maps [h]).
Qed.

(** Events that open or close nothing. *)
Definition neutral (e : event) : Prop :=
  match e with TryOpen _ | Ctrl _ _ => True | _ => False end.

Lemma own_neutral fds maps k k' tr e :
  neutral e -> own fds maps (mk_st k tr) -> own fds maps (mk_st k' (tr ++ [e])).
Proof.
  intros He [Ha Hm]. unfold own, owns, acquired, released, mapped, unmapped in *.
  cbn [trace] in *. rewrite !omap_snoc. destruct e; try done; by rewrite !app_nil_r.
Qed.

Lemma own_kern fds maps k k' tr : own fds maps (mk_st k tr) -> own fds maps (mk_st k' tr).
Proof. done. Qed.

(** A computation that neither opens nor closes anything. *)
Definition frame {A} (m : M K A) : Prop :=
  forall fds maps, triple (own fds maps) m (fun _ => own fds maps).

Lemma frame_ret {A} (a : A) : frame (mret a).
Proof. intros f g. by apply triple_ret. Qed.
Lemma frame_bind {A B} (m : M K A) (f : A -> M K B) :
  frame m -> (forall a, frame (f a)) -> frame (m ≫= f).
Proof. intros Hm Hf F G. eapply triple_bind; [apply Hm|]. intros a. apply Hf. Qed.
Lemma frame_log e : neutral e -> frame (log e).
Proof. intros He f g [k tr] Ho. cbn. by eapply own_neutral. Qed.
Lemma frame_gets {A} (f : K -> A) : frame (gets f).
Proof. intros F G s Ho. done. Qed.
Lemma frame_modify f : frame (modify f).
Proof. intros F G [k tr] Ho. done. Qed.
Lemma frame_call {A} (f : K -> A * K) : frame (call f).
Proof. intros F G [k tr] Ho. cbn. unfold call. cbn. by destruct (f k). Qed.
Lemma frame_stuck {A} : frame (stuck (A := A)).
Proof. intros F G s Ho. done. Qed.
Lemma triple_must {A} (o : option A) (Q : A -> Prop) (P : st K -> Prop) :
  (exists a, o = Some a /\ Q a) -> triple P (must o) (fun a s => Q a /\ P s).
Proof. intros (a & -> & Hq) s Hp. done. Qed.

(** The system calls. *)
Lemma triple_acquire f (P : Z -> Prop) fds maps :
  (forall k fd k', f k = (Ok fd, k') -> P fd) ->
  triple (own fds maps) (acquire f)
    (fun r s => match r with Ok fd => P fd /\ own (fds ++ [fd]) maps s | Err _ => own fds maps s end).
Proof.
  intros HP [k tr] Ho. unfold acquire, call, mbind, M_bind. cbn.
  destruct (f k) as [[fd|e] k'] eqn:E; cbn.
  - split; [by eapply HP|]. by eapply own_acquire.
  - done.
Qed.

Lemma triple_open path fl fds maps `{!KernelLaws K} :
  triple (own fds maps) (sys_open path fl)
    (fun r s => match r with Ok fd => 0 <= fd /\ own (fds ++ [fd]) maps s | Err _ => own fds maps s end).
Proof.
  eapply triple_bind; [by apply frame_log|]. intros [].
  apply triple_acquire. intros k fd k'. apply kl_open.
Qed.

Lemma triple_close fd fds maps :
  triple (own (fds ++ [fd]) maps) (sys_close fd) (fun _ => own fds maps).
Proof.
  intros [k tr] Ho. unfold sys_close, call, log, mbind, M_bind. cbn.
  destruct (k_close fd k) as [e k']. by eapply own_release.
Qed.

Lemma triple_mmap fd off len fds maps :
  triple (own fds maps) (sys_mmap fd off len)
    (fun r s => match r with Ok h => own fds (maps ++ [h]) s | Err _ => own fds maps s end).
Proof.
  intros [k tr] Ho. unfold sys_mmap, call, log, mbind, M_bind. cbn.
  destruct (k_mmap fd off len k) as [[h|e] k']; [|done]. cbn. by eapply own_map.
Qed.

Lemma triple_munmap h fds maps :
  triple (own fds (maps ++ [h])) (sys_munmap h) (fun _ => own fds maps).
Proof.
  intros [k tr] Ho. unfold sys_munmap, call, log, mbind, M_bind. cbn.
  destruct (k_munmap h k) as [e k']. by eapply own_unmap.
Qed.

Lemma triple_uring_setup n p fds maps `{!KernelLaws K} :
  triple (own fds maps) (sys_uring_setup n p)
    (fun r s => match r with
                | Ok (fd, _) => 0 <= fd /\ own (fds ++ [fd]) maps s
                | Err _ => own fds maps s
                end).
Proof.
  intros [k tr] Ho. unfold sys_uring_setup, call, log, mbind, M_bind. cbn.
  destruct (k_uring_setup n p k) as [[[fd p']|e] k'] eqn:E; [|done]. cbn.
  split; [by eapply kl_setup|]. by eapply own_acquire.
Qed.
End Ownership.

(** The frame and resource lemmas read from the list the code works on. *)
Lemma triple_close' {K} `{Kernel K} fd fds0 fds maps :
  fds0 ≡ₚ fd :: fds -> triple (own fds0 maps) (sys_close fd) (fun _ => own fds maps).
Proof.
  intros Hp. eapply triple_conseq; [apply (triple_close fd fds maps)| |done].
  intros s. cbn. by rewrite Hp, Permutation_cons_append.
Qed.

Lemma triple_munmap' {K} `{Kernel K} h fds maps0 maps :
  maps0 ≡ₚ h :: maps -> triple (own fds maps0) (sys_munmap h) (fun _ => own fds maps).
Proof.
  intros Hp. eapply triple_conseq; [apply (triple_munmap h fds maps)| |done].
  intros s. cbn. by rewrite Hp, Permutation_cons_append.
Qed.

(** ** Quiet computations

    One that opens and closes nothing and issues no control command: if it
    returns, the trace is the one it started with. *)
Section Quiet.
Context {K : Type}.

Definition quiet {A} (m : M K A) : Prop :=
  forall s, match m s with Val (_, s') => trace s' = trace s | _ => True end.

Lemma quiet_ret {A} (a : A) : quiet (mret a).
Proof. done. Qed.
Lemma quiet_bind {A B} (m : M K A) (f : A -> M K B) :
  quiet m -> (forall a, quiet (f a)) -> quiet (m ≫= f).
Proof.
  intros Hm Hf s. specialize (Hm s). unfold mbind, M_bind.
  destruct (m s) as [[a s']| |]; [|done|done]. specialize (Hf a s').
  destruct (f a s') as [[b s'']| |]; [by etransitivity|done|done].
Qed.
Lemma quiet_gets {A} (f : K -> A) : quiet (gets f).
Proof. done. Qed.
Lemma quiet_modify (f : K -> K) : quiet (modify f).
Proof. done. Qed.
Lemma quiet_call {A} (f : K -> A * K) : quiet (call f).
Proof. intros [k tr]. unfold call. cbn. by destruct (f k). Qed.
Lemma quiet_must {A} (o : option A) : quiet (must o).
Proof. by destruct o. Qed.
Lemma quiet_stuck {A} : quiet (stuck (A := A)).
Proof. done. Qed.
End Quiet.

Create HintDb quiet discriminated.
#[export] Hint Resolve quiet_ret quiet_gets quiet_modify quiet_call quiet_must quiet_stuck : quiet.

(** Prove that a computation is quiet, by its structure. *)
Ltac solve_quiet :=
  repeat first
    [ progress (auto with quiet)
    | apply quiet_bind; [|intros ?]
    | case_match ].

Create HintDb live discriminated.
#[export] Hint Resolve live_ret live_call live_log live_gets live_modify live_must : live.

(** Prove that a computation does not block, by its structure. *)
Ltac solve_live :=
  repeat first
    [ progress (auto with live)
    | apply live_bind; [|intros ?]
    | case_match ].

Create HintDb frame discriminated.
#[export] Hint Resolve frame_ret frame_gets frame_modify frame_call frame_stuck : frame.

(** Prove that a computation touches no resource, by its structure. *)
Ltac solve_frame :=
  repeat first
    [ progress (auto with frame)
    | apply frame_bind; [|intros ?]
    | apply frame_log; exact I
    | case_match ].
