(* ===== verification/Sim.v ===== *)
(** * A concrete kernel

    An executable instance of the system-call interface, used to run the
    library on concrete inputs and to show that the hypotheses about the kernel
    can hold.  It numbers descriptors and mappings, keeps the shared memory of
    each ring, answers every control command at submission, and can be told to
    fail any system call (by its position) or to reject control commands (by
    their code). *)

From S2P Require Import Prelude GoLayout Types Uring Kernel.

Record sim := mk_sim {
  m_clock : nat;             (* fallible calls so far *)
  m_faults : gmap nat Z;     (* which of them fail, and how *)
  m_reject : list Z;         (* control commands answered with -EINVAL *)
  m_next : N;                (* next descriptor, mapping handle or address *)
  m_rings : gmap Z (shm * params);
  m_user : gmap Z (list Z);
  m_signal : gset Z }.

Definition set_rings (f : gmap Z (shm * params) -> gmap Z (shm * params)) (k : sim) : sim :=
  mk_sim (m_clock k) (m_faults k) (m_reject k) (m_next k) (f (m_rings k)) (m_user k) (m_signal k).
Definition set_user (f : gmap Z (list Z) -> gmap Z (list Z)) (k : sim) : sim :=
  mk_sim (m_clock k) (m_faults k) (m_reject k) (m_next k) (m_rings k) (f (m_user k)) (m_signal k).

(** One fallible call: it fails if the plan says so. *)
Definition tick (k : sim) : option Z * sim :=
  (m_faults k !! m_clock k,
   mk_sim (S (m_clock k)) (m_faults k) (m_reject k) (m_next k) (m_rings k) (m_user k) (m_signal k)).

(** A fresh number. *)
Definition fresh (k : sim) : Z * sim :=
  (Z.of_N (m_next k), mk_sim (m_clock k) (m_faults k) (m_reject k) (m_next k + 1)%N (m_rings k)
               (m_user k) (m_signal k)).

Definition sim_new (k : sim) : result Z Z * sim :=
  match tick k with
  | (Some e, k) => (Err e, k)
  | (None, k) => let '(fd, k) := fresh k in (Ok fd, k)
  end.

(** ** Rings *)

Definition sim_params (n flags : Z) : params :=
  mk_params n (2 * n) flags 0 0 0 0 [0; 0; 0]
    (mk_sqOffsets 0 4 8 12 16 20 64 0 0) (mk_cqOffsets 0 4 8 12 16 64 20 0 0).

Definition sim_uring_setup (n : Z) (p : params) (k : sim) : result Z (Z * params) * sim :=
  match tick k with
  | (Some e, k) => (Err e, k)
  | (None, k) =>
    let '(fd, k) := fresh k in
    let p := sim_params n (p_Flags p) in
    let m := mk_shm {[8 := n - 1]} {[8 := 2 * n - 1]} ∅ ∅ in
    (Ok (fd, p), set_rings (insert fd (m, p)) k)
  end.

(** Post a completion. *)
Definition sim_post (p : params) (c : CQE) (m : shm) : shm :=
  let t := ld (cqw m) 4 in
  mk_shm (sqw m) (<[4 := u32 (t + 1)]> (cqw m)) (sqes m)
    (<[64 + (t mod p_CQEntries p) * cqeSize := c]> (cqes m)).

(** The device information [ADD_DEV] writes back: device 0. *)
Definition sim_add (cmd : ctrlCmd) (k : sim) : sim :=
  match of_bytes (default [] (m_user k !! cc_Addr cmd)) with
  | Some i =>
    let i := mk_devInfo (di_NrHWQueues i) (di_QueueDepth i) (di_State i) (di_Pad0 i)
               (di_MaxIOBufBytes i) 0 (di_UblksrvPID i) (di_Pad1 i) (di_Flags i)
               (di_UblksrvFlags i) (di_OwnerUID i) (di_OwnerGID i) (di_Reserved1 i)
               (di_Reserved2 i) in
    set_user (insert (cc_Addr cmd) (bytes_of i)) k
  | None => k
  end.

Definition is_ctrl (op : Z) : bool :=
  bool_decide (op ∈ [cmdAddDev; cmdDelDev; cmdStartDev; cmdStopDev; cmdSetParams; uCmdAddDev;
                     uCmdDelDev; uCmdStartDev; uCmdStopDev; uCmdSetParams]).

(** Take one entry: a control command is answered, a FETCH or a COMMIT stays. *)
Definition sim_take (p : params) (e : SQE) (x : shm * sim) : shm * sim :=
  let '(m, k) := x in
  if is_ctrl (s_Off e) then
    let bad := bool_decide (s_Off e ∈ m_reject k) in
    let m := sim_post p (mk_CQE (s_UserData e) (if bad then -22 else 0) 0) m in
    match of_bytes (s_Cmd e) with
    | Some cmd =>
      (m, if negb bad && bool_decide (s_Off e ∈ [cmdAddDev; uCmdAddDev]) then sim_add cmd k else k)
    | None => (m, k)
    end
  else (m, k).

Definition sim_enter (fd n flags : Z) (k : sim) : result Z Z * sim :=
  match tick k with
  | (Some e, k) => (Err e, k)
  | (None, k) =>
    match m_rings k !! fd with
    | None => (Err 9, k)
    | Some (m, p) =>
      let size := if decide (p_Flags p = setupSQE128) then sqe128Size else sqe64Size in
      let head := ld (sqw m) 0 in
      let es := (fun i => ld_sqe m (ld (sqw m) (64 + ((head + i) mod p_SQEntries p) * 4) * size))
                  <$> seqZ 0 n in
      let '(m, k) := foldl (fun x e => sim_take p e x) (m, k) es in
      let m := mk_shm (<[0 := u32 (head + n)]> (sqw m)) (cqw m) (sqes m) (cqes m) in
      (Ok n, set_rings (insert fd (m, p)) k)
    end
  end.

(** ** The instance *)

#[export] Instance sim_kernel : Kernel sim := {
  k_open _ _ := sim_new;
  k_close _ k := (None, k);
  k_uring_setup := sim_uring_setup;
  k_enter := sim_enter;
  k_mmap _ _ _ := sim_new;
  k_munmap _ k := (None, k);
  k_eventfd := sim_new;
  k_epoll_create := sim_new;
  k_epoll_add _ _ := tick;
  k_epoll_wait _ k := match tick k with
                      | (Some e, k) => (Err e, k)
                      | (None, k) => (Ok (elements (m_signal k)), k)
                      end;
  k_event_write fd k := mk_sim (m_clock k) (m_faults k) (m_reject k) (m_next k) (m_rings k)
                          (m_user k) ({[fd]} ∪ m_signal k);
  k_async k := k;
  k_shm fd k := match m_rings k !! fd with Some (m, _) => m | None => mk_shm ∅ ∅ ∅ ∅ end;
  k_set_shm fd m := set_rings (fun rs =>
    <[fd := (m, match rs !! fd with Some (_, p) => p | None => sim_params 0 0 end)]> rs);
  k_bytes _ _ := zeros 4096;
  k_pin bs k := let '(a, k) := fresh k in (a, set_user (insert a bs) k);
  k_user a k := u8 <$> default [] (m_user k !! a);
  k_user_set a bs := set_user (insert a bs);
  k_alloc k := u64 (Z.of_N (m_next k));
  k_getpid _ := 1000;
  k_sleep k := k
}.

Lemma sim_new_nonneg k fd k' : sim_new k = (Ok fd, k') -> 0 <= fd.
Proof.
  unfold sim_new, tick, fresh. case_match; [done|]. intros E. injection E as <- _. lia.
Qed.

#[export] Instance sim_laws : KernelLaws sim.
Proof.
  split; try (intros; by eapply sim_new_nonneg); [|intros k; apply is_u_u64|].
  - intros n p k fd p' k'. cbn. unfold sim_uring_setup, tick, fresh.
    case_match; [done|]. intros E. injection E as <- _ _. lia.
  - intros a k. cbn. apply Forall_fmap, Forall_true. intros z. apply is_u_u8.
Qed.

(** A kernel that fails the calls of [faults] and rejects the commands of
    [reject]. *)
Definition boot (faults : list (nat * Z)) (reject : list Z) : st sim :=
  mk_st (mk_sim 0 (list_to_map faults) reject 3 ∅ ∅ ∅) [].

Lemma boot_own faults reject : own [] [] (boot faults reject).
Proof. by split. Qed.

(** A kernel with one ring of [2^k] entries behind descriptor 3. *)
Definition sim_with_ring (m : shm) (n : Z) : sim :=
  set_rings (insert 3 (m, sim_params n 0)) (mk_sim 0 ∅ [] 6 ∅ ∅ ∅).

Lemma sim_with_ring_shm m n : k_shm 3 (k_async (sim_with_ring m n)) = m.
Proof. reflexivity. Qed.
