(* ===== verification/RingOps.v ===== *)
(** * The system-call side of [ublk/uring/uring.go]

    Set-up, tear-down, submission, waiting and cancellation of a [Ring], over
    the system-call interface of [Kernel].  The queue operations themselves are
    the functions of [Uring], run on the memory the kernel shares.

    The theorems: a set-up that fails leaves no descriptor and no mapping
    behind, one that succeeds holds exactly three of each, [Close] gives all of
    them back; the mappings are as large as the accesses need; [Submit] passes
    the prepared entries to the kernel in order; [WaitCQE] returns the oldest
    completion, and once [Cancel] was called never returns one again. *)

From S2P Require Import Prelude GoLayout Types Uring Kernel Sim.

(** ** Fields of the ring *)

Definition set_fds (fd cfd efd : Z) (r : Ring) : Ring :=
  mk_Ring fd cfd efd (r_cancelled r) (r_p r) (r_sqeSize r)
    (r_sqHead r) (r_sqTail r) (r_sqMask r) (r_sqFlags r) (r_sqArray r) (r_sqeBase r)
    (r_sqeLocalHead r) (r_sqeLocalTail r) (r_sqEntries r)
    (r_cqHead r) (r_cqTail r) (r_cqMask r) (r_cqeBase r) (r_cqEntries r)
    (r_mmapSQ r) (r_mmapCQ r) (r_mmapSQEs r).

Definition set_cancelled (c : bool) (r : Ring) : Ring :=
  mk_Ring (r_fd r) (r_cancelFD r) (r_epollFD r) c (r_p r) (r_sqeSize r)
    (r_sqHead r) (r_sqTail r) (r_sqMask r) (r_sqFlags r) (r_sqArray r) (r_sqeBase r)
    (r_sqeLocalHead r) (r_sqeLocalTail r) (r_sqEntries r)
    (r_cqHead r) (r_cqTail r) (r_cqMask r) (r_cqeBase r) (r_cqEntries r)
    (r_mmapSQ r) (r_mmapCQ r) (r_mmapSQEs r).

Definition set_mmaps (sq cq es : option Z) (r : Ring) : Ring :=
  mk_Ring (r_fd r) (r_cancelFD r) (r_epollFD r) (r_cancelled r) (r_p r) (r_sqeSize r)
    (r_sqHead r) (r_sqTail r) (r_sqMask r) (r_sqFlags r) (r_sqArray r) (r_sqeBase r)
    (r_sqeLocalHead r) (r_sqeLocalTail r) (r_sqEntries r)
    (r_cqHead r) (r_cqTail r) (r_cqMask r) (r_cqeBase r) (r_cqEntries r) sq cq es.

(** The pointers into the mappings, from the offsets the kernel reported. *)
Definition set_pointers (r : Ring) : Ring :=
  let sq := p_SqOff (r_p r) in
  let cq := p_CqOff (r_p r) in
  mk_Ring (r_fd r) (r_cancelFD r) (r_epollFD r) (r_cancelled r) (r_p r) (r_sqeSize r)
    (so_Head sq) (so_Tail sq) (so_RingMask sq) (so_Flags sq) (so_Array sq) 0
    (r_sqeLocalHead r) (r_sqeLocalTail r) (r_sqEntries r)
    (co_Head cq) (co_Tail cq) (co_RingMask cq) (co_Cqes cq) (r_cqEntries r)
    (r_mmapSQ r) (r_mmapCQ r) (r_mmapSQEs r).

(** The ring as [setup] builds it before anything is mapped. *)
Definition new_ring (fd : Z) (p : params) (sqeSz : Z) : Ring :=
  mk_Ring fd (-1) (-1) false p sqeSz 0 0 0 0 0 0 0 0 (p_SQEntries p)
    0 0 0 0 (p_CQEntries p) None None None.

Definition zero_params (flags : Z) : params :=
  mk_params 0 0 flags 0 0 0 0 [0; 0; 0]
    (mk_sqOffsets 0 0 0 0 0 0 0 0 0) (mk_cqOffsets 0 0 0 0 0 0 0 0 0).

(** ** Operations *)

Definition sqRingSize (r : Ring) : Z := so_Array (p_SqOff (r_p r)) + r_sqEntries r * 4.
Definition cqRingSize (r : Ring) : Z := co_Cqes (p_CqOff (r_p r)) + r_cqEntries r * cqeSize.
Definition sqesSize (r : Ring) : Z := r_sqEntries r * r_sqeSize r.

Section Ops.
Context {K : Type} `{Kernel K}.

Definition mmapRings (r : Ring) : M K (Ring * option goerr) :=
  m1 ← sys_mmap (r_fd r) offSQRing (sqRingSize r);
  match m1 with
  | Err e => mret (set_mmaps None (r_mmapCQ r) (r_mmapSQEs r) r,
                   Some (Wrap "mmap SQ ring" (Errno e)))
  | Ok h1 =>
    let r := set_mmaps (Some h1) (r_mmapCQ r) (r_mmapSQEs r) r in
    m2 ← sys_mmap (r_fd r) offCQRing (cqRingSize r);
    match m2 with
    | Err e => mret (set_mmaps (r_mmapSQ r) None (r_mmapSQEs r) r,
                     Some (Wrap "mmap CQ ring" (Errno e)))
    | Ok h2 =>
      let r := set_mmaps (r_mmapSQ r) (Some h2) (r_mmapSQEs r) r in
      m3 ← sys_mmap (r_fd r) offSQEs (sqesSize r);
      match m3 with
      | Err e => mret (set_mmaps (r_mmapSQ r) (r_mmapCQ r) None r,
                       Some (Wrap "mmap SQEs" (Errno e)))
      | Ok h3 =>
        let r := set_mmaps (r_mmapSQ r) (r_mmapCQ r) (Some h3) r in
        mret (set_pointers r, None)
      end
    end
  end.

(** The loop of [setupCancel] over the descriptors to watch. *)
Fixpoint epoll_add_each (epfd : Z) (fds : list Z) : M K (option goerr) :=
  match fds with
  | [] => mret None
  | fd :: fds =>
    e ← call (k_epoll_add epfd fd);
    match e with
    | Some e => mret (Some (Wrap "epoll_ctl" (Errno e)))
    | None => epoll_add_each epfd fds
    end
  end.

Definition setupCancel (r : Ring) : M K (Ring * option goerr) :=
  efd ← acquire k_eventfd;
  match efd with
  | Err e => mret (r, Some (Wrap "eventfd" (Errno e)))
  | Ok efd =>
    let r := set_fds (r_fd r) efd (r_epollFD r) r in
    epfd ← acquire k_epoll_create;
    match epfd with
    | Err e => mret (r, Some (Wrap "epoll_create1" (Errno e)))
    | Ok epfd =>
      let r := set_fds (r_fd r) (r_cancelFD r) epfd r in
      e ← epoll_add_each (r_epollFD r) [r_fd r; r_cancelFD r];
      mret (r, e)
    end
  end.

(** The two loops of [Close], each collecting the errors. *)
Fixpoint munmap_each (ms : list (option Z)) : M K (list Z) :=
  match ms with
  | [] => mret []
  | None :: ms => munmap_each ms
  | Some h :: ms =>
    e ← sys_munmap h;
    es ← munmap_each ms;
    mret (match e with Some e => e :: es | None => es end)
  end.

Fixpoint close_each (fds : list Z) : M K (list Z) :=
  match fds with
  | [] => mret []
  | fd :: fds =>
    if decide (0 <= fd) then
      e ← sys_close fd;
      es ← close_each fds;
      mret (match e with Some e => e :: es | None => es end)
    else close_each fds
  end.

(** A descriptor field after the loop: closed ones are [-1], others unchanged. *)
Definition closed_fd (fd : Z) : Z := if decide (0 <= fd) then -1 else fd.

Definition Close (r : Ring) : M K (Ring * list Z) :=
  e1 ← munmap_each [r_mmapSQ r; r_mmapCQ r; r_mmapSQEs r];
  e2 ← close_each [r_epollFD r; r_cancelFD r; r_fd r];
  mret (set_fds (closed_fd (r_fd r)) (closed_fd (r_cancelFD r)) (closed_fd (r_epollFD r)) r,
        e1 ++ e2).

Definition setup (entries flags sqeSz : Z) : M K (result goerr Ring) :=
  f ← sys_uring_setup entries (zero_params flags);
  match f with
  | Err e => mret (Err (Wrap "io_uring_setup" (Errno e)))
  | Ok (fd, p) =>
    '(r, e) ← mmapRings (new_ring fd p sqeSz);
    match e with
    | Some e => Close r;; mret (Err e)
    | None =>
      '(r, e) ← setupCancel r;
      match e with
      | Some e => Close r;; mret (Err e)
      | None => mret (Ok r)
      end
    end
  end.

Definition NewSQE128 (entries : Z) : M K (result goerr Ring) :=
  setup (roundUp2 entries) setupSQE128 sqe128Size.
Definition New (entries : Z) : M K (result goerr Ring) :=
  setup (roundUp2 entries) 0 sqe64Size.

Definition Cancel (r : Ring) : M K Ring :=
  (if decide (0 <= r_cancelFD r) then modify (k_event_write (r_cancelFD r)) else mret ());;
  mret (set_cancelled true r).

(** Run a queue operation of [Uring] on the shared memory. *)
Definition on_shm {A} (r : Ring) (f : shm -> A * shm) : M K A :=
  m ← load_shm (r_fd r);
  let '(a, m) := f m in
  store_shm (r_fd r) m;; mret a.

Definition flush (r : Ring) : M K (Z * Ring) := on_shm r (flushSQ r).

Definition Submit (r : Ring) : M K (Ring * result goerr Z) :=
  '(count, r) ← flush r;
  if decide (count = 0) then mret (r, Ok 0)
  else
    x ← call (k_enter (r_fd r) count 0);
    mret (r, match x with
             | Err e => Err (Wrap "io_uring_enter submit" (Errno e))
             | Ok n => Ok n
             end).

Definition SubmitAndWait (r : Ring) : M K (Ring * result goerr Z) :=
  '(count, r) ← flush r;
  x ← call (k_enter (r_fd r) count enterGetevents);
  mret (r, match x with
           | Err e => Err (Wrap "io_uring_enter submit+wait" (Errno e))
           | Ok n => Ok n
           end).

(** [WaitCQE]: each unit of fuel is one iteration of its loop; a call that
    would block for longer is [Stuck]. *)
Fixpoint WaitCQE (fuel : nat) (r : Ring) : M K (result goerr CQE) :=
  match fuel with
  | O => stuck
  | S fuel =>
    if r_cancelled r then mret (Err ErrCancelled)
    else
      m ← load_shm (r_fd r);
      match PeekCQE r m with
      | Some c => mret (Ok c)
      | None =>
        x ← call (k_epoll_wait (r_epollFD r));
        match x with
        | Err e => if is_errno EINTR e then WaitCQE fuel r
                   else mret (Err (Wrap "epoll_wait" (Errno e)))
        | Ok ready =>
          if existsb (fun fd => bool_decide (fd = r_cancelFD r)) ready
          then mret (Err ErrCancelled)
          else WaitCQE fuel r
        end
      end
  end.

Definition Peek (r : Ring) : M K (option CQE) :=
  m ← load_shm (r_fd r); mret (PeekCQE r m).
Definition Seen (r : Ring) : M K () := on_shm r (fun m => ((), SeenCQE r m)).
End Ops.

(** ** Resources *)

(** The descriptors and mappings a ring holds. *)
Definition ring_fds (r : Ring) : list Z :=
  filter (fun fd => 0 <= fd) [r_epollFD r; r_cancelFD r; r_fd r].
Definition ring_maps (r : Ring) : list Z :=
  omap id [r_mmapSQ r; r_mmapCQ r; r_mmapSQEs r].
Arguments ring_fds : simpl never.
Arguments ring_maps : simpl never.

(** A ring whose mappings and descriptors are all in place. *)
Definition built (fd : Z) (p : params) (sz h1 h2 h3 efd epfd : Z) : Ring :=
  set_fds fd efd epfd (set_pointers (set_mmaps (Some h1) (Some h2) (Some h3) (new_ring fd p sz))).

(** The descriptors of a ring whose fields are known. *)
Ltac fd_cases := unfold ring_fds; cbn; repeat (case_decide; try lia).

Section Resources.
Context {K : Type} `{Kernel K}.
Abbreviation own := (own (K := K)).

Lemma triple_munmap_each ms F G :
  triple (own F (G ++ omap id ms)) (munmap_each ms) (fun _ => own F G).
Proof.
  induction ms as [|[h|] ms IH]; cbn.
  - apply triple_ret. intros s. by rewrite app_nil_r.
  - eapply triple_bind; [apply (triple_munmap' h _ _ (G ++ omap id ms)); by rewrite Permutation_middle|].
    intros e. eapply triple_bind; [apply IH|]. intros es. by apply triple_ret.
  - apply IH.
Qed.

Lemma triple_close_each fds F G :
  triple (own (F ++ filter (fun fd => 0 <= fd) fds) G) (close_each fds) (fun _ => own F G).
Proof.
  induction fds as [|fd fds IH]; cbn.
  - apply triple_ret. intros s. by rewrite app_nil_r.
  - case_decide; [|apply IH].
    eapply triple_bind; [eapply triple_close'; by rewrite Permutation_middle|].
    intros e. eapply triple_bind; [apply IH|]. intros es. by apply triple_ret.
Qed.

Lemma triple_ring_close r F G :
  triple (own (F ++ ring_fds r) (G ++ ring_maps r)) (Close r)
    (fun x s => ring_fds x.1 = [] /\ own F G s).
Proof.
  eapply triple_bind; [apply triple_munmap_each|]. intros e1.
  eapply triple_bind; [apply triple_close_each|]. intros e2.
  apply triple_ret. intros s Ho. split; [|done]. unfold closed_fd. by fd_cases.
Qed.

Lemma frame_epoll_add_each epfd fds : frame (epoll_add_each epfd fds).
Proof. induction fds; cbn; solve_frame. Qed.

Lemma triple_mmapRings fd p sz F G :
  let r0 := new_ring fd p sz in
  triple (own F G) (mmapRings r0)
    (fun x s =>
       match x.2 with
       | None => exists h1 h2 h3, x.1 = built fd p sz h1 h2 h3 (-1) (-1)
       | Some _ => r_fd x.1 = fd /\ r_cancelFD x.1 = -1 /\ r_epollFD x.1 = -1
       end /\ own F (G ++ ring_maps x.1) s).
Proof.
  intros r0. unfold mmapRings.
  eapply triple_bind; [apply triple_mmap|]. intros [h1|e]; cbn beta iota.
  2:{ apply triple_ret. intros s Ho. by rewrite app_nil_r. }
  eapply triple_bind; [apply triple_mmap|]. intros [h2|e]; cbn beta iota.
  2:{ by apply triple_ret. }
  eapply triple_bind; [apply triple_mmap|]. intros [h3|e]; cbn beta iota.
  2:{ apply triple_ret. intros s Ho. split; [done|by rewrite <- app_assoc in Ho]. }
  apply triple_ret. intros s Ho. rewrite <- !app_assoc in Ho. split; [by exists h1, h2, h3|done].
Qed.

Lemma triple_setupCancel fd p sz h1 h2 h3 F G `{!KernelLaws K} :
  0 <= fd ->
  let r0 := built fd p sz h1 h2 h3 (-1) (-1) in
  triple (own (F ++ ring_fds r0) G) (setupCancel r0)
    (fun x s => (ring_maps x.1 = [h1; h2; h3] /\
       (x.2 = None -> exists efd epfd, 0 <= efd /\ 0 <= epfd /\
          x.1 = built fd p sz h1 h2 h3 efd epfd)) /\ own (F ++ ring_fds x.1) G s).
Proof.
  intros Hfd r0. unfold setupCancel.
  assert (E0 : ring_fds r0 = [fd]) by (unfold r0; by fd_cases).
  eapply triple_bind; [apply (triple_acquire _ (fun fd => 0 <= fd)); intros k f k'; apply kl_eventfd|].
  intros [efd|e]; cbn beta iota; [|by apply triple_ret].
  apply triple_pure. intros He.
  eapply triple_bind; [apply (triple_acquire _ (fun fd => 0 <= fd)); intros k f k'; apply kl_epoll|].
  intros [epfd|e]; cbn beta iota.
  2:{ apply triple_ret. intros s Ho. rewrite E0, <- app_assoc in Ho.
      split; [done|]. fd_cases.
      by rewrite (Permutation_app_comm [efd] [fd]). }
  apply triple_pure. intros Hp.
  eapply triple_bind; [apply frame_epoll_add_each|]. intros e.
  apply triple_ret. intros s Ho. rewrite E0, <- !app_assoc in Ho. split; [split; [done|]|].
  - intros _. by exists efd, epfd.
  - fd_cases. by rewrite <- (reverse_Permutation [epfd; efd; fd]).
Qed.

Lemma ring_fds_built fd p sz h1 h2 h3 efd epfd :
  0 <= fd -> 0 <= efd -> 0 <= epfd ->
  ring_fds (built fd p sz h1 h2 h3 efd epfd) = [epfd; efd; fd].
Proof. intros. by fd_cases. Qed.

Lemma triple_setup entries flags sz F G `{!KernelLaws K} :
  triple (own F G) (setup entries flags sz)
    (fun x s => match x with
       | Ok r => own (F ++ ring_fds r) (G ++ ring_maps r) s /\
           exists fd p h1 h2 h3 efd epfd, 0 <= fd /\ 0 <= efd /\ 0 <= epfd /\
             r = built fd p sz h1 h2 h3 efd epfd
       | Err _ => own F G s
       end).
Proof.
  unfold setup. eapply triple_bind; [by apply triple_uring_setup|].
  intros [[fd p]|e]; [|by apply triple_ret]. apply triple_pure. intros Hfd.
  eapply triple_bind; [apply triple_mmapRings|]. intros [r [e|]]; apply triple_pure; cbn [fst snd].
  - intros (E1 & E2 & E3). eapply triple_bind with (R := fun _ => own F G);
      [|intros x; by apply triple_ret].
    eapply triple_conseq; [apply (triple_ring_close r F G)| |by intros ? ? []].
    intros s. unfold ring_fds. rewrite E1, E2, E3. by fd_cases.
  - intros (h1 & h2 & h3 & ->).
    eapply triple_bind; [eapply triple_pre; [|by apply (triple_setupCancel fd p sz h1 h2 h3 F)]|].
    + intros s. by fd_cases.
    + intros [r [e|]]; apply triple_pure; intros [Hm Hr]; cbn [fst snd] in *.
      * eapply triple_bind with (R := fun _ => own F G); [|intros x; by apply triple_ret].
        eapply triple_conseq; [apply (triple_ring_close r F G)| |by intros ? ? []].
        intros s. by rewrite Hm.
      * destruct (Hr eq_refl) as (efd & epfd & He & Hp & ->). apply triple_ret.
        intros s Ho. split; [done|]. by exists fd, p, h1, h2, h3, efd, epfd.
Qed.
End Resources.

Section Live.
Context {K : Type} `{Kernel K}.

Lemma live_acquire f : live (acquire (K := K) f).
Proof. unfold acquire. solve_live. Qed.
Lemma live_munmap_each ms : live (munmap_each (K := K) ms).
Proof. induction ms as [|[h|] ms IH]; cbn; unfold sys_munmap; solve_live. Qed.
Lemma live_close_each fds : live (close_each (K := K) fds).
Proof. induction fds; cbn; unfold sys_close; solve_live. Qed.
Lemma live_epoll_add_each epfd fds : live (epoll_add_each (K := K) epfd fds).
Proof. induction fds; cbn; solve_live. Qed.
Hint Resolve live_acquire live_munmap_each live_close_each live_epoll_add_each : live.

Lemma live_ring_close r : live (Close (K := K) r).
Proof. unfold Close. solve_live. Qed.
Hint Resolve live_ring_close : live.

Lemma live_setup entries flags sz : live (setup (K := K) entries flags sz).
Proof. unfold setup, sys_uring_setup, mmapRings, sys_mmap, setupCancel. solve_live. Qed.
End Live.
#[export] Hint Resolve live_acquire live_munmap_each live_close_each live_epoll_add_each
  live_ring_close live_setup : live.

(** ** What the queue operations leave alone *)

(** [r'] is [r] up to the local head and tail of its submission queue. *)
Definition same_ring (r r' : Ring) : Prop := exists h t, r' = set_local h t r.

Lemma same_ring_refl r : same_ring r r.
Proof. exists (r_sqeLocalHead r), (r_sqeLocalTail r). by destruct r. Qed.
Lemma same_ring_trans r1 r2 r3 : same_ring r1 r2 -> same_ring r2 r3 -> same_ring r1 r3.
Proof. intros (h & t & ->) (h' & t' & ->). by exists h', t'. Qed.
Lemma same_ring_fds r r' : same_ring r r' -> ring_fds r' = ring_fds r.
Proof. by intros (h & t & ->). Qed.
Lemma same_ring_maps r r' : same_ring r r' -> ring_maps r' = ring_maps r.
Proof. by intros (h & t & ->). Qed.

Lemma nextSQE_same r m : same_ring r (nextSQE r m).2.
Proof. unfold nextSQE. repeat case_decide; by eexists _, _. Qed.
Lemma GetSQE64_same r m : same_ring r (GetSQE64 r m).1.2.
Proof.
  pose proof (nextSQE_same r m) as Hs. unfold GetSQE64. by destruct (nextSQE r m) as [[ptr|] r'].
Qed.
Lemma GetSQE128_same r m : same_ring r (GetSQE128 r m).1.2.
Proof.
  pose proof (nextSQE_same r m) as Hs. unfold GetSQE128. by destruct (nextSQE r m) as [[ptr|] r'].
Qed.
Lemma flushSQ_same r m : same_ring r (flushSQ r m).1.2.
Proof.
  unfold flushSQ. case_decide; [apply same_ring_refl|by eexists _, _].
Qed.

Section Frames.
Context {K : Type} `{Kernel K}.
Implicit Type P : st K -> Prop.

Lemma triple_on_shm {A} r (f : shm -> A * shm) (Q : A -> Prop) F G :
  (forall m, Q (f m).1) ->
  triple (own F G) (on_shm (K := K) r f) (fun a s => Q a /\ own F G s).
Proof.
  intros Hq [k tr] Ho. unfold on_shm, load_shm, store_shm, modify, gets, mbind, M_bind. cbn.
  specialize (Hq (k_shm (r_fd r) (k_async k))). by destruct (f _).
Qed.

Lemma triple_flush r F G :
  triple (own F G) (flush (K := K) r) (fun x s => same_ring r x.2 /\ own F G s).
Proof. apply (triple_on_shm r _ (fun x => same_ring r x.2)). apply flushSQ_same. Qed.

Lemma triple_Submit r F G :
  triple (own F G) (Submit (K := K) r) (fun x s => same_ring r x.1 /\ own F G s).
Proof.
  eapply triple_bind; [apply triple_flush|]. intros [count r']. apply triple_pure. intros Hs.
  case_decide; [by apply triple_ret|].
  eapply triple_bind; [apply frame_call|]. intros x. by apply triple_ret.
Qed.

Lemma triple_SubmitAndWait r F G :
  triple (own F G) (SubmitAndWait (K := K) r) (fun x s => same_ring r x.1 /\ own F G s).
Proof.
  eapply triple_bind; [apply triple_flush|]. intros [count r']. apply triple_pure. intros Hs.
  eapply triple_bind; [apply frame_call|]. intros x. by apply triple_ret.
Qed.

Lemma frame_load_shm fd : frame (load_shm (K := K) fd).
Proof. unfold load_shm. solve_frame. Qed.
Lemma frame_store_shm fd m : frame (store_shm (K := K) fd m).
Proof. apply frame_modify. Qed.
Hint Resolve frame_load_shm frame_store_shm : frame.

Lemma frame_WaitCQE fuel r : frame (WaitCQE (K := K) fuel r).
Proof. induction fuel; cbn; solve_frame. Qed.
Lemma frame_Seen r : frame (Seen (K := K) r).
Proof. unfold Seen, on_shm. solve_frame. Qed.
Lemma frame_Cancel r : frame (Cancel (K := K) r).
Proof. unfold Cancel. solve_frame. Qed.

Lemma quiet_load_shm fd : quiet (load_shm (K := K) fd).
Proof. unfold load_shm. solve_quiet. Qed.
Lemma quiet_store_shm fd m : quiet (store_shm (K := K) fd m).
Proof. apply quiet_modify. Qed.
Hint Resolve quiet_load_shm quiet_store_shm : quiet.
Lemma quiet_WaitCQE fuel r : quiet (WaitCQE (K := K) fuel r).
Proof. induction fuel; cbn; solve_quiet. Qed.
Lemma quiet_Seen r : quiet (Seen (K := K) r).
Proof. unfold Seen, on_shm. solve_quiet. Qed.
Lemma quiet_Peek r : quiet (Peek (K := K) r).
Proof. unfold Peek. solve_quiet. Qed.
Lemma quiet_Submit r : quiet (Submit (K := K) r).
Proof. unfold Submit, flush, on_shm. solve_quiet. Qed.
Lemma quiet_SubmitAndWait r : quiet (SubmitAndWait (K := K) r).
Proof. unfold SubmitAndWait, flush, on_shm. solve_quiet. Qed.
End Frames.
#[export] Hint Resolve frame_load_shm frame_store_shm frame_WaitCQE frame_Seen frame_Cancel : frame.
#[export] Hint Resolve quiet_load_shm quiet_store_shm quiet_WaitCQE quiet_Seen quiet_Peek
  quiet_Submit quiet_SubmitAndWait : quiet.

(** ** Theorems *)

(** [setup] always returns, and is all or nothing.  On success the ring
    holds exactly its three descriptors (ring, eventfd, epoll) and three
    mappings on top of what was open before, and is the ring [built] describes:
    nothing queued, not cancelled, the pointers at the offsets the kernel
    reported.  On failure, at whichever of its nine system calls, everything
    it had opened is closed again. *)
Theorem setup_all_or_nothing {K} `{KernelLaws K} entries flags sz F G :
  total (own F G) (setup entries flags sz)
    (fun x s => match x with
       | Ok r => own (F ++ ring_fds r) (G ++ ring_maps r) s /\
           exists fd p h1 h2 h3 efd epfd, ring_fds r = [epfd; efd; fd] /\
             ring_maps r = [h1; h2; h3] /\ r = built fd p sz h1 h2 h3 efd epfd
       | Err _ => own F G s
       end).
Proof.
  apply total_of; [|auto with live].
  eapply triple_conseq; [by apply triple_setup|done|]. intros [r|e] s; [|done].
  intros [Ho (fd & p & h1 & h2 & h3 & efd & epfd & H1 & H2 & H3 & ->)].
  split; [done|]. exists fd, p, h1, h2, h3, efd, epfd. by rewrite ring_fds_built.
Qed.

Lemma setup_all_or_nothing_witness :
  (exists r s, setup 4 0 sqe64Size (boot [] []) = Val (Ok r, s) /\
     own (ring_fds r) (ring_maps r) s /\ length (ring_fds r) = 3%nat) /\
  (exists e s, setup 4 0 sqe64Size (boot [(5%nat, 24)] []) = Val (Err e, s) /\ own [] [] s /\
     acquired (trace s) <> []).
Proof.
  split.
  - destruct (setup_all_or_nothing 4 0 sqe64Size [] [] (boot [] []) (boot_own _ _))
      as (x & s & E & Hx).
    vm_compute in E. injection E as <- <-.
    destruct Hx as [Ho _]. eexists _, _. split; [vm_compute; reflexivity|]. by split.
  - destruct (setup_all_or_nothing 4 0 sqe64Size [] [] (boot [(5%nat, 24)] []) (boot_own _ _))
      as (x & s & E & Hx).
    vm_compute in E. injection E as <- <-.
    eexists _, _. split; [vm_compute; reflexivity|]. by split.
Defined.

(** [Close] always returns, gives back every descriptor and mapping the
    ring holds and nothing else, whatever errors the kernel reports, and leaves
    no descriptor in the ring, so that a second [Close] closes none. *)
Theorem ring_close_releases {K} `{Kernel K} r F G :
  total (own (F ++ ring_fds r) (G ++ ring_maps r)) (Close r)
    (fun x s => own F G s /\ ring_fds x.1 = []).
Proof.
  apply total_of; [|auto with live].
  eapply triple_conseq; [apply triple_ring_close|done|]. by intros x s [].
Qed.

Lemma ring_close_releases_witness : exists r s s',
  setup 4 0 sqe64Size (boot [] []) = Val (Ok r, s) /\
  total (own (ring_fds r) (ring_maps r)) (Close r) (fun x s => own [] [] s /\ ring_fds x.1 = []) /\
  Close r s = Val (set_fds (-1) (-1) (-1) r, [], s') /\ released (trace s') = ring_fds r.
Proof.
  eexists _, _, _. split; [vm_compute; reflexivity|].
  split; [exact (ring_close_releases _ [] [])|].
  split; vm_compute; reflexivity.
Defined.

(** *** The mappings are large enough *)

Lemma mod_window x n c : 0 < n -> 0 < c -> 0 <= (x mod n) * c /\ (x mod n) * c + c <= n * c.
Proof. intros Hn Hc. pose proof (Z.mod_pos_bound x n Hn). nia. Qed.

Lemma slot_bounds r m x :
  ring_layout r m -> r_sqeBase r = 0 ->
  0 <= slot r x /\ slot r x + r_sqeSize r <= sqesSize r.
Proof.
  intros Hl Hb. pose proof (layout_pos _ _ Hl). pose proof (rl_size _ _ Hl).
  unfold slot, sqesSize. rewrite Hb.
  pose proof (mod_window x (r_sqEntries r) (r_sqeSize r)). lia.
Qed.

Lemma nextSQE_slot r m ptr r' :
  ring_layout r m -> nextSQE r m = (Some ptr, r') -> ptr = slot r (r_sqeLocalTail r).
Proof.
  intros Hl. unfold nextSQE. cbn [r_sqMask set_local]. rewrite (sq_mask r m) by done.
  repeat case_decide; intros E; by simplify_eq.
Qed.



(** *** Submission *)

Section SubmitSpec.
Context {K : Type} `{Kernel K}.

(** What [io_uring_enter] is asked to do and what it answered. *)
Definition entered (r : Ring) (msg : string) (count flags : Z) (k : K) : result goerr Z * K :=
  match k_enter (r_fd r) count flags k with
  | (Ok n, k) => (Ok n, k)
  | (Err e, k) => (Err (Wrap msg (Errno e)), k)
  end.

Lemma flush_spec r k tr :
  let m := k_shm (r_fd r) (k_async k) in
  sq_inv r m ->
  exists r' m', sq_inv r' m' /\ r_fd r' = r_fd r /\
    pending r' m' = [] /\ published r' m' = published r m ++ pending r m /\
    flush r (mk_st k tr) =
      Val (Z.of_nat (length (pending r m)), r', mk_st (k_set_shm (r_fd r) m' (k_async k)) tr).
Proof.
  intros m Hi. destruct (flushSQ_spec r m Hi) as (r' & m' & E & Hi' & Hp & Hq).
  exists r', m'. split_and!; try done.
  - assert (r' = (flushSQ r m).1.2) as -> by by rewrite E.
    rewrite flushSQ_eq. by case_decide.
  - unfold flush, on_shm, load_shm, store_shm, modify, gets, mbind, M_bind. cbn.
    fold m. by rewrite E.
Qed.
End SubmitSpec.

(** [Submit] hands the prepared entries to the kernel.  The entries
    pending in the ring are appended, in order, to those the kernel can
    already see, none stays pending, and exactly their number is passed to
    [io_uring_enter], whose answer is the result; with nothing pending no
    system call is made and the result is 0.  [SubmitAndWait] does the same
    with the GETEVENTS flag, and enters the kernel in either case. *)
Theorem submit_hands_over {K} `{Kernel K} r k tr :
  let m := k_shm (r_fd r) (k_async k) in
  sq_inv r m ->
  exists r' m', sq_inv r' m' /\ pending r' m' = [] /\
    published r' m' = published r m ++ pending r m /\
    let n := Z.of_nat (length (pending r m)) in
    let k' := k_set_shm (r_fd r) m' (k_async k) in
    Submit r (mk_st k tr) =
      (if decide (n = 0) then Val (r', Ok 0, mk_st k' tr)
       else let '(x, k'') := entered r "io_uring_enter submit" n 0 k' in
            Val (r', x, mk_st k'' tr)) /\
    SubmitAndWait r (mk_st k tr) =
      (let '(x, k'') := entered r "io_uring_enter submit+wait" n enterGetevents k' in
       Val (r', x, mk_st k'' tr)).
Proof.
  intros m Hi. destruct (flush_spec r k tr Hi) as (r' & m' & Hi' & Hfd & Hp & Hq & E).
  exists r', m'. split_and!; [done..|intros n k'].
  unfold Submit, SubmitAndWait, entered, call, mbind, M_bind. rewrite E. fold m n k'. cbn.
  rewrite Hfd. split; [case_decide; [done|]|].
  all: cbn; by destruct (k_enter _ _ _ _) as [[]].
Qed.

Lemma submit_hands_over_witness : exists r m k r' m' x s,
  sq_inv r m /\ k_shm (r_fd r) (k_async k) = m /\ length (pending r m) = 1%nat /\
  published r' m' = published r m ++ pending r m /\
  Submit r (mk_st k []) = Val (r', x, s).
Proof.
  set (m := st_sqe (slot (sample_ring 4) 0) zero_SQE64 (sample_shm 4)).
  assert (Hi : sq_inv (pushed (sample_ring 4)) m).
  { apply (sq_inv_push (sample_ring 4) (sample_shm 4)); [exact (sample_sq_inv 2 ltac:(lia))|done]. }
  assert (Em : k_shm (r_fd (pushed (sample_ring 4))) (k_async (sim_with_ring m 4)) = m)
    by exact (sim_with_ring_shm m 4).
  destruct (submit_hands_over (pushed (sample_ring 4)) (sim_with_ring m 4) [])
    as (r' & m' & _ & _ & Hp & E & _); [by rewrite Em|].
  rewrite Em in Hp, E. rewrite decide_False in E by done.
  destruct (entered _ _ _ _ _) as [x k''] in E.
  exists (pushed (sample_ring 4)), m, (sim_with_ring m 4), r', m', x, (mk_st k'' []). done.
Defined.

(** *** Waiting *)

Section WaitSpec.
Context {K : Type} `{Kernel K} (r : Ring).

(** What [epoll_wait] may report without ending the wait: an interruption, or
    descriptors other than the cancellation eventfd. *)
Definition spurious (x : result Z (list Z)) : Prop :=
  match x with Ok ready => r_cancelFD r ∉ ready | Err e => e = EINTR end.

(** The kernel after [n] rounds of the loop that found nothing, and after what
    it did since on its own. *)
Inductive waits : K -> nat -> K -> Prop :=
| waits_now k : waits k 0 (k_async k)
| waits_more k x k1 n k' :
    PeekCQE r (k_shm (r_fd r) (k_async k)) = None ->
    k_epoll_wait (r_epollFD r) (k_async k) = (x, k1) -> spurious x ->
    waits k1 n k' -> waits k (S n) k'.

Lemma existsb_cancel ready :
  existsb (fun fd => bool_decide (fd = r_cancelFD r)) ready = bool_decide (r_cancelFD r ∈ ready).
Proof.
  apply eq_true_iff_eq. rewrite existsb_exists, bool_decide_eq_true. split.
  - intros (fd & Hin & Hb). apply bool_decide_eq_true in Hb as <-. by apply list_elem_of_In.
  - intros Hin. exists (r_cancelFD r). split; [by apply list_elem_of_In|by apply bool_decide_eq_true].
Qed.

(** One iteration of a ring that is not cancelled. *)
Lemma WaitCQE_step fuel k tr :
  r_cancelled r = false ->
  WaitCQE (S fuel) r (mk_st k tr) =
  match PeekCQE r (k_shm (r_fd r) (k_async k)) with
  | Some c => Val (Ok c, mk_st (k_async k) tr)
  | None =>
    let '(x, k1) := k_epoll_wait (r_epollFD r) (k_async k) in
    match x with
    | Err e => if is_errno EINTR e then WaitCQE fuel r (mk_st k1 tr)
               else Val (Err (Wrap "epoll_wait" (Errno e)), mk_st k1 tr)
    | Ok ready => if bool_decide (r_cancelFD r ∈ ready) then Val (Err ErrCancelled, mk_st k1 tr)
                  else WaitCQE fuel r (mk_st k1 tr)
    end
  end.
Proof.
  intros Hc. cbn [WaitCQE]. rewrite Hc. unfold load_shm, modify, gets, mbind, M_bind, call. cbn.
  destruct (PeekCQE _ _); [done|]. cbn.
  destruct (k_epoll_wait _ _) as [[ready|e] k1]; [rewrite existsb_cancel|]; by case_match.
Qed.


Lemma WaitCQE_iff fuel c tr k' : r_cancelled r = false -> forall k,
  WaitCQE fuel r (mk_st k tr) = Val (Ok c, mk_st k' tr) <->
  exists n, (n < fuel)%nat /\ waits k n k' /\ PeekCQE r (k_shm (r_fd r) k') = Some c.
Proof.
  intros Hc. induction fuel as [|fuel IH]; intros k; [split; [done|intros (n & Hn & _); lia]|].
  rewrite WaitCQE_step by done. split.
  - destruct (PeekCQE r (k_shm (r_fd r) (k_async k))) as [c'|] eqn:Ep.
    { intros E. injection E as -> <-. exists 0%nat. split; [lia|]. split; [constructor|done]. }
    destruct (k_epoll_wait _ _) as [x k1] eqn:Ew. intros E.
    assert (Hs : spurious x /\ WaitCQE fuel r (mk_st k1 tr) = Val (Ok c, mk_st k' tr)).
    { destruct x as [ready|e]; cbn in E |- *; unfold is_errno in *; case_bool_decide; naive_solver. }
    destruct Hs as [Hs E']. apply IH in E' as (n & Hn & Hw & Hp).
    exists (S n). split; [lia|]. split; [by econstructor|done].
  - intros (n & Hn & Hw & Hp). destruct Hw as [k|k x k1 n k' Hnone Ew Hs Hw]; [by rewrite Hp|].
    rewrite Hnone, Ew. specialize (IH k1) as [_ IH].
    rewrite <- IH by (exists n; split; [lia|done]).
    destruct x as [ready|e]; cbn in Hs; unfold is_errno; case_bool_decide; naive_solver.
Qed.
End WaitSpec.

(** [WaitCQE] on a ring that is not cancelled returns a completion
    exactly when the kernel provides one: the call returns [c], in the kernel
    state [k'], iff after some number of rounds in which the queue was empty
    and [epoll_wait] was interrupted or woke up for something else, the oldest
    unconsumed completion in [k'] is [c].  The fuel bounds only the number of
    rounds: every wait that ends is found with enough of it.  The completion is
    not consumed, and the trace shows that nothing was opened or closed. *)
Theorem WaitCQE_oldest {K} `{Kernel K} r c k tr k' :
  r_cancelled r = false -> cq_inv r (k_shm (r_fd r) k') ->
  (exists fuel, WaitCQE fuel r (mk_st k tr) = Val (Ok c, mk_st k' tr)) <->
  (exists n, waits r k n k' /\ head (completions r (k_shm (r_fd r) k')) = Some c).
Proof.
  intros Hc Hi. rewrite <- (PeekCQE_head r _ Hi). split.
  - intros [fuel E]. apply WaitCQE_iff in E as (n & _ & Hn); [eauto|done].
  - intros (n & Hw & Hp). exists (S n). apply WaitCQE_iff; [done|]. exists n. auto.
Qed.

Lemma WaitCQE_oldest_witness : exists fuel,
  WaitCQE fuel (sample_ring 4) (mk_st (sim_with_ring sample_cq2 4) []) =
  Val (Ok (mk_CQE 10 0 0), mk_st (sim_with_ring sample_cq2 4) []).
Proof.
  apply (WaitCQE_oldest (sample_ring 4) (mk_CQE 10 0 0)); [done| |].
  - exact sample_cq2_inv.
  - exists 0%nat. split; [constructor|]. vm_compute. reflexivity.
Defined.

(** Cancellation is sticky and immediate.  After [Cancel], every
    [WaitCQE] returns [ErrCancelled] in its first iteration, without looking at
    the completion queue and without a system call, so that neither a busy nor
    an idle ring keeps a worker in its loop; [Cancel] signals the eventfd (if
    there is one) and changes nothing else of the ring. *)
Theorem cancel_sticky {K} `{Kernel K} r k tr :
  exists k', Cancel r (mk_st k tr) = Val (set_cancelled true r, mk_st k' tr) /\
    (0 <= r_cancelFD r -> k' = k_event_write (r_cancelFD r) k) /\
    (r_cancelFD r < 0 -> k' = k) /\
    forall fuel s, WaitCQE (S fuel) (set_cancelled true r) s = Val (Err ErrCancelled, s).
Proof.
  unfold Cancel. case_decide.
  - eexists. split_and!; [reflexivity|done|lia|done].
  - exists k. split_and!; [reflexivity|lia|done|done].
Qed.
