(* ===== verification/WorkerRun.v ===== *)
(** * The worker's life cycle: [init], [run] and [cleanup] of [ublk/worker.go]

    The parts of the worker that make system calls: its ring and descriptor
    mapping, the submission of the FETCH commands, and the loop that serves the
    kernel's requests.  A [thread] is a worker with the handle of its
    descriptor mapping and whether its goroutine is running.

    The descriptors and the buffer pool are memory the kernel shares, so the
    loop reads them where [getDesc] and the backend calls do, and stores the
    pool back. *)

From S2P Require Import Prelude GoLayout Types Uring Backend Worker Kernel Sim RingOps.

Record thread := mk_thread { t_w : worker; t_descs : option Z; t_running : bool }.

Definition thread_of (w : worker) : thread := mk_thread w None false.
Definition with_worker (w : worker) (t : thread) : thread := mk_thread w (t_descs t) (t_running t).
Definition with_ring (r : option Ring) (t : thread) : thread := with_worker (set_ring r (t_w t)) t.
Definition running (b : bool) (t : thread) : thread := mk_thread (t_w t) (t_descs t) b.
Definition t_ring (t : thread) : option Ring := w_ioRing (t_w t).

Section Run.
Context {K : Type} `{Kernel K}.

Definition mmapDescs (charFD : Z) (t : thread) : M K (thread * option goerr) :=
  x ← sys_mmap charFD (descs_mmapOff (w_qid (t_w t))) (descs_mmapSize (w_depth (t_w t)));
  match x with
  | Err e => mret (t, Some (Errno e))
  | Ok h =>
    data ← gets (k_bytes h);
    mret (mk_thread (set_descs (Some data) (t_w t)) (Some h) (t_running t), None)
  end.

Definition cleanup (t : thread) : M K thread :=
  (match t_descs t with Some h => sys_munmap h;; mret () | None => mret () end);;
  (match t_ring t with Some r => Close r;; mret () | None => mret () end);;
  mret (mk_thread (set_ring None (set_descs None (t_w t))) None (t_running t)).

(** The FETCH commands of [init], into the shared ring. *)
Definition arm (w : worker) (charFD : Z) (r : Ring) : M K Ring :=
  m ← load_shm (r_fd r);
  '(r, m) ← must (prepare_fetches w charFD r m);
  store_shm (r_fd r) m;;
  mret r.

Definition init (charFD : Z) (t : thread) : M K (thread * option goerr) :=
  x ← New (u32 (w_depth (t_w t)));
  match x with
  | Err e => mret (with_ring None t, Some e)
  | Ok r =>
    '(t, e) ← mmapDescs charFD (with_ring (Some r) t);
    match e with
    | Some e => t ← cleanup t; mret (t, Some e)
    | None =>
      addr ← gets k_alloc;
      w ← must (allocBuffers addr (t_w t));
      modify (k_user_set (w_poolAddr w) (w_bufPool w));;
      r ← arm w charFD r;
      mret (with_ring (Some r) (with_worker w t), None)
    end
  end.

(** The start of [run], up to the value it sends on [ready]. *)
Definition run_start (t : thread) : M K (thread * option goerr) :=
  r ← must (t_ring t);
  '(r, x) ← SubmitAndWait r;
  let t := with_ring (Some r) t in
  match x with
  | Err e => mret (running false t, Some e)
  | Ok _ => mret (running true t, None)
  end.

Context {B : Type} (be : Backend B).

(** [result := w.handleIO(tag); w.prepareCommitAndFetch(tag, result)] *)
Definition serve_one (charFD tag : Z) (t : thread) (b : B) : M K (thread * B) :=
  let w := t_w t in
  h ← must (t_descs t);
  descs ← gets (k_bytes h);
  pool ← gets (k_user (w_poolAddr w));
  '(result, w, b) ← must (handleIO be (set_pool pool (set_descs (Some descs) w)) tag b);
  modify (k_user_set (w_poolAddr w) (w_bufPool w));;
  r ← must (w_ioRing w);
  m ← load_shm (r_fd r);
  '(r, m) ← must (prepareCommitAndFetch w charFD tag result r m);
  store_shm (r_fd r) m;;
  mret (with_worker (set_ring (Some r) w) t, b).

(** The inner loop, over the completions that are already there; [true] when
    the worker returns. *)
Fixpoint serve_batch (fuel : nat) (charFD : Z) (c : CQE) (t : thread) (b : B) :
    M K (thread * B * bool) :=
  match fuel with
  | O => stuck
  | S fuel =>
    r ← must (t_ring t);
    let tag := u16 (c_UserData c) in
    let res := c_Res c in
    Seen r;;
    if decide (res < 0) then mret (t, b, true)
    else
      '(t, b) ← serve_one charFD tag t b;
      r ← must (t_ring t);
      c ← Peek r;
      match c with
      | None => mret (t, b, false)
      | Some c => serve_batch fuel charFD c t b
      end
  end.

(** One iteration of the outer loop. *)
Definition run_iter (fuel : nat) (charFD : Z) (t : thread) (b : B) : M K (thread * B * bool) :=
  r ← must (t_ring t);
  x ← WaitCQE fuel r;
  match x with
  | Err _ => mret (t, b, true)
  | Ok c =>
    '(t, b, ret) ← serve_batch fuel charFD c t b;
    if (ret : bool) then mret (t, b, true)
    else
      r ← must (t_ring t);
      '(r, y) ← Submit r;
      let t := with_ring (Some r) t in
      mret (t, b, match y with Err _ => true | Ok _ => false end)
  end.

Fixpoint run_loop (fuel : nat) (charFD : Z) (t : thread) (b : B) : M K (thread * B) :=
  match fuel with
  | O => stuck
  | S fuel' =>
    '(t, b, ret) ← run_iter fuel charFD t b;
    if (ret : bool) then mret (running false t, b) else run_loop fuel' charFD t b
  end.
End Run.

(** ** Resources *)

Definition thread_fds (t : thread) : list Z :=
  match t_ring t with Some r => ring_fds r | None => [] end.
Definition thread_maps (t : thread) : list Z :=
  match t_ring t with Some r => ring_maps r | None => [] end ++
  match t_descs t with Some h => [h] | None => [] end.

(** Preparing commands never panics on a well-formed worker, whatever the ring
    memory holds. *)
Lemma prepareFetch_same w charFD tag r m :
  worker_wf w -> 0 <= tag < w_depth w ->
  exists r' m', prepareFetch w charFD tag r m = Some (r', m') /\ same_ring r r'.
Proof.
  intros Hw Ht. pose proof (GetSQE64_same r m) as Hs. unfold prepareFetch.
  destruct (GetSQE64 r m) as [[[ptr|] r'] m']; [|by eexists _, _].
  rewrite buf_addr_spec by done. by eexists _, _.
Qed.

Lemma prepare_fetches_same w charFD r m :
  worker_wf w ->
  exists x, prepare_fetches w charFD r m = Some x /\ same_ring r x.1.
Proof.
  intros Hw. unfold prepare_fetches.
  assert (Ht : Forall (fun t => 0 <= t < w_depth w) (seqZ 0 (w_depth w))).
  { apply Forall_forall. intros t Ht. apply elem_of_seqZ in Ht. lia. }
  revert r m. induction Ht as [|t ts Ht _ IH]; intros r m.
  - exists (r, m). split; [done|apply same_ring_refl].
  - cbn [foldl mbind option_bind].
    destruct (prepareFetch_same w charFD t r m Hw Ht) as (r1 & m1 & -> & Hs).
    destruct (IH r1 m1) as (x & E & Hx). exists x. split; [done|]. by eapply same_ring_trans.
Qed.

Section RunLemmas.
Context {K : Type} `{Kernel K}.
Abbreviation own := (own (K := K)).

Lemma triple_cleanup t F G :
  triple (own (F ++ thread_fds t) (G ++ thread_maps t)) (cleanup t)
    (fun t' s => (t_ring t' = None /\ t_descs t' = None) /\ own F G s).
Proof.
  unfold cleanup, thread_fds, thread_maps.
  eapply triple_bind with
    (R := fun _ => own (F ++ match t_ring t with Some r => ring_fds r | None => [] end)
                       (G ++ match t_ring t with Some r => ring_maps r | None => [] end)).
  { destruct (t_descs t) as [h|].
    - apply triple_skip, triple_munmap'. by rewrite app_assoc, <- Permutation_cons_append.
    - apply triple_ret. intros s. by rewrite app_nil_r. }
  intros []. eapply triple_bind with (R := fun _ => own F G).
  { destruct (t_ring t) as [r|].
    - apply triple_skip. eapply triple_conseq; [apply (triple_ring_close r)|done|by intros ? ? []].
    - apply triple_ret. intros s. by rewrite !app_nil_r. }
  intros []. by apply triple_ret.
Qed.

(** A worker of a given queue depth and buffer size. *)
Definition configured (depth bufSize : Z) (w : worker) : Prop :=
  worker_wf w /\ w_depth w = depth /\ w_bufSize w = bufSize.

(** The rings and mappings of a worker that [init] accepted. *)
Definition thread_ready (depth bufSize : Z) (t : thread) : Prop :=
  configured depth bufSize (t_w t) /\ t_running t = false /\
  exists r h, t_ring t = Some r /\ t_descs t = Some h /\ r_cancelled r = false /\
    length (ring_fds r) = 3%nat /\ length (ring_maps r) = 3%nat.

Lemma triple_mmapDescs charFD t F G :
  t_descs t = None ->
  triple (own F (G ++ thread_maps t)) (mmapDescs charFD t)
    (fun x s => match x.2 with
                | Some _ => x.1 = t
                | None => exists data h, x.1 =
                    mk_thread (set_descs (Some data) (t_w t)) (Some h) (t_running t)
                end /\ own F (G ++ thread_maps x.1) s).
Proof.
  intros Hd. eapply triple_bind; [apply triple_mmap|]. intros [h|e]; cbn beta iota.
  - eapply triple_bind; [apply frame_gets|]. intros data. apply triple_ret. intros s Ho.
    split; [by exists data, h|]. cbn in *. unfold thread_maps in *. rewrite Hd in Ho. cbn in *.
    by rewrite app_nil_r, <- app_assoc in Ho.
  - by apply triple_ret.
Qed.

Lemma triple_arm w charFD r F G :
  worker_wf w -> triple (own F G) (arm w charFD r) (fun r' s => same_ring r r' /\ own F G s).
Proof.
  intros Hw. eapply triple_bind; [apply frame_load_shm|]. intros m.
  eapply triple_bind; [apply triple_must, (prepare_fetches_same w charFD r m Hw)|].
  intros [r' m']. apply triple_pure. intros Hs.
  eapply triple_bind; [apply frame_store_shm|]. intros []. by apply triple_ret.
Qed.

Lemma triple_init charFD qid depth bufSize F G `{!KernelLaws K} :
  1 <= depth <= maxQueueDepth -> 0 < bufSize < 2 ^ 32 ->
  triple (own F G) (init charFD (thread_of (newWorker qid depth bufSize)))
    (fun x s => match x.2 with
                | Some _ => own F G s
                | None => thread_ready depth bufSize x.1 /\ own (F ++ thread_fds x.1) (G ++ thread_maps x.1) s
                end).
Proof.
  intros Hd Hb. set (w := newWorker qid depth bufSize).
  eapply triple_bind; [by apply (triple_setup _ _ _ F G)|]. intros [r|e]; [|by apply triple_ret].
  eapply triple_pre with (P' := fun s => _ /\ _); [intros s [Ho Hr]; split; [exact Hr|exact Ho]|].
  apply triple_pure. intros (fd & p & h1 & h2 & h3 & efd & epfd & H1 & H2 & H3 & Er).
  assert (Hf : length (ring_fds r) = 3%nat) by (rewrite Er, ring_fds_built; done).
  set (t := with_ring (Some r) (thread_of w)).
  eapply triple_bind.
  { eapply triple_pre; [|by apply (triple_mmapDescs charFD t (F ++ ring_fds r) G)].
    intros s. unfold thread_maps. cbn. by rewrite app_nil_r. }
  intros [t' [e|]]; apply triple_pure; cbn [fst snd].
  - intros ->. eapply triple_bind; [apply (triple_cleanup t F G)|]. intros t''.
    apply triple_pure. intros _. by apply triple_ret.
  - intros (data & h & ->). eapply triple_bind; [apply (triple_gets _ (is_u 64)), kl_alloc|]. intros addr.
    apply triple_pure. intros Ha.
    eapply triple_bind.
    { apply triple_must, (allocBuffers_ok addr (set_descs (Some data) (set_ring (Some r) w))); done. }
    intros w'. apply triple_pure. intros (Hw' & _ & _ & Hdep & Hbs & Er' & _).
    eapply triple_bind; [apply frame_modify|]. intros [].
    eapply triple_bind; [by apply triple_arm|]. intros r'. apply triple_pure. intros Hs.
    apply triple_ret. intros s Ho. cbn [snd fst]. split.
    + split; [|split; [done|]]. { split; [destruct Hw'; by constructor|by split]. }
      exists r', h. rewrite (same_ring_fds r r' Hs), (same_ring_maps r r' Hs), Hf, Er.
      destruct Hs as (lh & lt & ->). by rewrite Er.
    + unfold thread_fds, thread_maps in *. cbn [t_ring with_ring with_worker t_w set_ring w_ioRing
        t_descs set_descs t] in *.
      by rewrite (same_ring_fds r r' Hs), (same_ring_maps r r' Hs).
Qed.
End RunLemmas.

Section RunQuiet.
Context {K : Type} `{Kernel K} {B : Type} (be : Backend B).

Lemma live_load_shm fd : live (load_shm (K := K) fd).
Proof. unfold load_shm. solve_live. Qed.
Hint Resolve live_load_shm : live.
Lemma live_cleanup t : live (cleanup (K := K) t).
Proof. unfold cleanup, sys_munmap. solve_live. Qed.
Hint Resolve live_cleanup : live.
Lemma live_init charFD t : live (init (K := K) charFD t).
Proof. unfold init, New, mmapDescs, sys_mmap, arm, store_shm. solve_live. Qed.

Lemma quiet_serve_one charFD tag t b : quiet (serve_one (K := K) be charFD tag t b).
Proof. unfold serve_one. solve_quiet. Qed.
Hint Resolve quiet_serve_one : quiet.
Lemma quiet_serve_batch charFD fuel : forall c t b,
  quiet (serve_batch (K := K) be fuel charFD c t b).
Proof. induction fuel; intros; cbn; solve_quiet. Qed.
Hint Resolve quiet_serve_batch : quiet.
Lemma quiet_run_iter fuel charFD t b : quiet (run_iter (K := K) be fuel charFD t b).
Proof. unfold run_iter. solve_quiet. Qed.
Hint Resolve quiet_run_iter : quiet.
Lemma quiet_run_loop charFD fuel : forall t b, quiet (run_loop (K := K) be fuel charFD t b).
Proof. induction fuel; intros; cbn; solve_quiet. Qed.

(** A worker whose ring is cancelled leaves its loop at once. *)
Lemma run_loop_cancelled fuel charFD t b r s :
  t_ring t = Some r -> r_cancelled r = true ->
  run_loop (K := K) be (S fuel) charFD t b s = Val (running false t, b, s).
Proof.
  intros Hr Hc. cbn [run_loop]. unfold run_iter, mbind, M_bind. rewrite Hr.
  cbn. by rewrite Hc.
Qed.
End RunQuiet.
#[export] Hint Resolve live_load_shm live_cleanup live_init : live.
#[export] Hint Resolve quiet_serve_one quiet_serve_batch quiet_run_iter quiet_run_loop : quiet.

(** ** Theorems *)

(** The worker's [init] always returns and is all or nothing.  On success
    the worker is well formed, not running yet, and holds exactly the three
    descriptors and three mappings of its ring and the mapping of its
    descriptors; on failure everything it had opened is closed again, so that
    [New] may forget it. *)
Theorem init_all_or_nothing {K} `{KernelLaws K} charFD qid depth bufSize F G :
  1 <= depth <= maxQueueDepth -> 0 < bufSize < 2 ^ 32 ->
  total (own F G) (init charFD (thread_of (newWorker qid depth bufSize)))
    (fun x s => match x.2 with
                | Some _ => own F G s
                | None => thread_ready depth bufSize x.1 /\ own (F ++ thread_fds x.1) (G ++ thread_maps x.1) s /\
                          length (thread_fds x.1) = 3%nat /\ length (thread_maps x.1) = 4%nat
                end).
Proof.
  intros Hd Hb. apply total_of; [|auto with live].
  eapply triple_conseq; [by apply (triple_init charFD qid depth bufSize F G)|done|].
  intros [t [e|]] s; [done|]. cbn [fst snd]. intros [Ht Ho]. split_and!; [done..| |].
  - unfold thread_fds. destruct Ht as (_ & _ & r & h & -> & _ & _ & Hf & _). done.
  - unfold thread_maps. destruct Ht as (_ & _ & r & h & -> & -> & _ & _ & Hm).
    rewrite length_app, Hm. done.
Qed.

Lemma init_all_or_nothing_witness :
  (exists t s, init 9 (thread_of (newWorker 0 2 512)) (boot [] []) = Val ((t, None), s) /\
     own (thread_fds t) (thread_maps t) s) /\
  (exists t e s, init 9 (thread_of (newWorker 0 2 512)) (boot [(8%nat, 12)] []) =
     Val ((t, Some e), s) /\ own [] [] s).
Proof.
  split.
  - destruct (init_all_or_nothing 9 0 2 512 [] [] ltac:(done) ltac:(lia) (boot [] []) (boot_own _ _))
      as ((t & e) & s & E & Hx).
    assert (e = None) as ->.
    { apply (f_equal (fun o => match o with Val (x, _) => x.2 | _ => None end)) in E.
      vm_compute in E. done. }
    exists t, s. split; [exact E|]. apply Hx.
  - destruct (init_all_or_nothing 9 0 2 512 [] [] ltac:(done) ltac:(lia) (boot [(8%nat, 12)] [])
                (boot_own _ _)) as ((t & e) & s & E & Hx).
    destruct e as [e|]; [exists t, e, s; split; [exact E|exact Hx]|].
    apply (f_equal (fun o => match o with Val (x, _) => x.2 | _ => None end)) in E.
    vm_compute in E. done.
Defined.

(** The worker loop opens and closes nothing and sends no control command:
    whatever requests it serves, for however long, and whatever the backend and
    the kernel do, the trace is unchanged when it returns; and once its ring is
    cancelled it returns from the head of its loop immediately, without a system
    call, a request served or a backend call. *)
Theorem run_loop_quiet_and_cancellable {K} `{Kernel K} {B} (be : Backend B) charFD t b :
  (forall fuel s t' b' s', run_loop be fuel charFD t b s = Val (t', b', s') -> trace s' = trace s) /\
  (forall r, t_ring t = Some r -> r_cancelled r = true ->
     forall fuel s, run_loop be (S fuel) charFD t b s = Val (running false t, b, s)).
Proof.
  split.
  - intros fuel s t' b' s' E. pose proof (quiet_run_loop be charFD fuel t b s) as Hq.
    by rewrite E in Hq.
  - intros r Hr Hc fuel s. by eapply run_loop_cancelled.
Qed.
