(* ===== verification/KernelRing.v ===== *)
(** * The kernel's side of a ring

    What the io_uring ABI prescribes for the kernel's accesses to the shared
    memory: posting a completion at the CQ tail and consuming the submission
    entries up to the SQ tail.  The lemmas relate both to the queues of [Uring]
    and show that the two directions do not interfere. *)

From S2P Require Import Prelude GoLayout Types Uring Kernel Sim RingOps.

(** Post a completion: store it in the slot of the tail, then advance the
    tail. *)
Definition post_cqe (r : Ring) (c : CQE) (m : shm) : shm :=
  let t := c_tail r m in
  mk_shm (sqw m) (<[r_cqTail r := u32 (t + 1)]> (cqw m)) (sqes m)
    (<[r_cqeBase r + (t mod r_cqEntries r) * cqeSize := c]> (cqes m)).

(** Consume every published entry: advance the head to the tail. *)
Definition take_all (r : Ring) (m : shm) : shm :=
  set_sqw (fun w => <[r_sqHead r := k_tail r m]> w) m.

(** ** Independence of the two directions *)

Lemma sq_inv_ext r m m' :
  sqw m' = sqw m -> sqes m' = sqes m -> ring_layout r m' -> sq_inv r m -> sq_inv r m'.
Proof.
  intros Ew Es Hl [_ Hw Hf Ho Hid]. unfold k_head, k_tail, array_at in *.
  constructor; unfold k_head, k_tail, array_at; rewrite ?Ew; done.
Qed.
Lemma pending_ext r m m' : sqes m' = sqes m -> pending r m' = pending r m.
Proof. intros Es. unfold pending, ld_sqe. by rewrite Es. Qed.
Lemma published_ext r m m' :
  sqw m' = sqw m -> sqes m' = sqes m -> published r m' = published r m.
Proof. intros Ew Es. unfold published, ld_sqe, array_at, k_head, k_tail. by rewrite Ew, Es. Qed.

Lemma cq_inv_ext r r' m m' :
  same_ring r r' -> cqw m' = cqw m -> ring_layout r' m' -> cq_inv r m -> cq_inv r' m'.
Proof.
  intros (h & t & ->) Ew Hl [_ Hw Hb]. unfold c_head, c_tail in *.
  constructor; unfold c_head, c_tail; rewrite ?Ew; done.
Qed.
Lemma completions_ext r r' m m' :
  same_ring r r' -> cqw m' = cqw m -> cqes m' = cqes m -> completions r' m' = completions r m.
Proof.
  intros (h & t & ->) Ew Es. unfold completions, cqe_at, ld_cqe, c_head, c_tail. by rewrite Ew, Es.
Qed.

(** ** Posting *)

Lemma c_tail_post r c m : c_tail r (post_cqe r c m) = u32 (c_tail r m + 1).
Proof. unfold c_tail at 1. cbn. by rewrite ld_insert, decide_True. Qed.
Lemma post_other r c m a :
  ring_layout r m -> a ∈ [r_cqHead r; r_cqMask r] -> ld (cqw (post_cqe r c m)) a = ld (cqw m) a.
Proof.
  intros Hl Ha. cbn. rewrite ld_insert, decide_False; [done|].
  pose proof (rl_cwords _ _ Hl) as Hn. apply NoDup_cons in Hn as [Hn1 Hn].
  apply NoDup_cons in Hn as [Hn2 _]. set_solver.
Qed.
Lemma c_head_post r c m : ring_layout r m -> c_head r (post_cqe r c m) = c_head r m.
Proof. intros Hl. apply post_other; [done|set_solver]. Qed.
Lemma ring_layout_post r c m : ring_layout r m -> ring_layout r (post_cqe r c m).
Proof.
  intros Hl. pose proof (post_other r c m (r_cqMask r) Hl ltac:(set_solver)) as E.
  destruct Hl. constructor; try done. by rewrite E.
Qed.

Lemma cq_inv_post r c m :
  cq_inv r m -> Z.of_nat (length (completions r m)) < r_cqEntries r -> cq_inv r (post_cqe r c m).
Proof.
  intros [Hl (H1 & H2) Hb] Hr. unfold completions in Hr. rewrite length_fmap, length_seqZ in Hr.
  assert (Hc : r_cqEntries r <= 2 ^ 31).
  { destruct (rl_cq _ _ Hl) as (k & Hk & -> & _). apply Z.pow_le_mono_r; lia. }
  constructor; [by apply ring_layout_post|..]; rewrite c_tail_post, c_head_post by done.
  - split; [done|apply is_u_u32].
  - goint.
Qed.

(** A posted completion is the newest one. *)
Lemma completions_post r c m :
  cq_inv r m -> Z.of_nat (length (completions r m)) < r_cqEntries r ->
  completions r (post_cqe r c m) = completions r m ++ [c].
Proof.
  intros [Hl (H1 & H2) Hb] Hr. unfold completions in *. rewrite length_fmap, length_seqZ in Hr.
  destruct (rl_cq _ _ Hl) as (k & Hk & Ek & _).
  assert (Hc : r_cqEntries r <= 2 ^ 31) by (rewrite Ek; apply Z.pow_le_mono_r; lia).
  rewrite c_tail_post, c_head_post by done. set (n := u32 (c_tail r m - c_head r m)) in *.
  assert (Hn : 0 <= n < r_cqEntries r) by (subst n; goint).
  replace (u32 (u32 (c_tail r m + 1) - c_head r m)) with (n + 1) by (subst n; goint).
  assert (Ep : forall i, (c_head r m + i) mod r_cqEntries r = c_tail r m mod r_cqEntries r <->
                         i mod r_cqEntries r = n mod r_cqEntries r).
  { intros i. rewrite Ek. rewrite (pos_eq (c_tail r m) (c_head r m) k n Hk eq_refl).
    split; intros E.
    - apply (f_equal (fun x => (x - c_head r m) mod 2 ^ k)) in E.
      rewrite !Zminus_mod_idemp_l in E. by replace (c_head r m + i - c_head r m) with i in E by lia;
        replace (c_head r m + n - c_head r m) with n in E by lia.
    - rewrite <- Zplus_mod_idemp_r, E. apply Zplus_mod_idemp_r. }
  rewrite seqZ_snoc, fmap_app by lia. cbn [fmap list_fmap]. f_equal.
  - apply list_fmap_ext. intros j i Hi. apply list_elem_of_lookup_2, elem_of_seqZ in Hi.
    unfold cqe_at, ld_cqe. cbn [post_cqe cqes]. rewrite lookup_insert_ne; [done|].
    intros E. assert (Ei : i mod r_cqEntries r = n mod r_cqEntries r).
    { apply Ep. change cqeSize with 16 in E. lia. }
    rewrite !Z.mod_small in Ei by lia. lia.
  - f_equal. unfold cqe_at, ld_cqe. cbn [post_cqe cqes].
    rewrite (proj2 (Ep n) eq_refl), lookup_insert_eq. done.
Qed.

(** ** Consuming *)

Lemma take_other r m a :
  ring_layout r m -> a <> r_sqHead r -> ld (sqw (take_all r m)) a = ld (sqw m) a.
Proof. intros Hl Ha. cbn. by rewrite ld_insert, decide_False. Qed.
Lemma k_head_take r m : k_head r (take_all r m) = k_tail r m.
Proof. unfold k_head. cbn. by rewrite ld_insert, decide_True. Qed.

Lemma sq_words_ne r m :
  ring_layout r m -> r_sqTail r <> r_sqHead r /\ r_sqMask r <> r_sqHead r.
Proof.
  intros Hl. pose proof (rl_words _ _ Hl) as Hn. apply NoDup_cons in Hn as [Hn _]. set_solver.
Qed.

Lemma ring_layout_take r m : ring_layout r m -> ring_layout r (take_all r m).
Proof.
  intros Hl. destruct (sq_words_ne r m Hl) as [_ Hm].
  pose proof (take_other r m (r_sqMask r) Hl Hm) as E. destruct Hl. constructor; try done.
  by rewrite E.
Qed.

Lemma sq_inv_take r m :
  sq_inv r m -> sq_inv r (take_all r m) /\ published r (take_all r m) = [] /\
    pending r (take_all r m) = pending r m.
Proof.
  intros [Hl (H1 & H2 & H3) Hf Ho Hid]. destruct (sq_words_ne r m Hl) as [Ht _].
  assert (Et : k_tail r (take_all r m) = k_tail r m) by (by apply take_other).
  pose proof (layout_pos r m Hl) as Hp.
  assert (E0 : u32 (k_tail r m - k_tail r m) = 0) by (by rewrite Z.sub_diag).
  split; [constructor|split; [|done]].
  - by apply ring_layout_take.
  - rewrite k_head_take, Hf. done.
  - by rewrite Et.
  - rewrite k_head_take, Hf in *. goint.
  - intros i. rewrite Et, k_head_take, E0. lia.
  - unfold published. by rewrite Et, k_head_take, E0.
Qed.
