(* ===== verification/Protocol.v ===== *)
(** * The queue protocol between the worker and the kernel

    The loop of [worker.run] against the kernel's accesses to the shared rings,
    as a step relation: every queue operation of the worker is one step, running
    the functions of [Uring] and [Worker] on the real ring memory, and the
    kernel may post a completion for any tag it holds between any two of them.

    The invariant is ownership of the tags: each tag is in exactly one place,
    held by the kernel, in the completion queue, in the worker's hands, or in
    the submission queue.  From it follow the properties the loop silently
    relies on: [GetSQE64] never runs out of entries, the completion queue never
    overflows, a batch is bounded by the queue depth, every request is answered
    exactly once, and when the worker blocks no tag is stranded. *)

From S2P Require Import Prelude GoLayout Types Uring Backend Worker Kernel Sim RingOps WorkerRun KernelRing.

(** ** States and steps *)

(** Where the worker is in [run]: blocked in [WaitCQE]; with a completion it
    has not consumed; after [SeenCQE], serving a tag; before [PeekCQE]; before
    [Submit]; or returned, with the tags it dropped. *)
Inductive pc : Type :=
| PWait
| PGot (c : CQE)
| PHold (tag : Z)
| PPeek
| PSubmit
| PDone (dropped : list Z).

(** What happened, for counting: a completion posted for a tag, a request
    served, a commit taken by the kernel. *)
Inductive obs : Type := Posted (tag : Z) | Served (tag : Z) | Taken (tag : Z).

#[export] Instance obs_eq_dec : EqDecision obs.
Proof. solve_decision. Defined.

Record pstate := mk_pstate {
  p_r : Ring; p_m : shm; p_pc : pc;
  p_armed : list Z;      (* tags the kernel holds *)
  p_hist : list obs }.

Definition ctags (cs : list CQE) : list Z := c_UserData <$> cs.
Definition stags (ss : list SQE) : list Z := s_UserData <$> ss.

(** How often an event happened, and a tag occurs. *)
Definition seen (o : obs) (h : list obs) : nat := count_occ obs_eq_dec h o.
Definition occ (tag : Z) (l : list Z) : nat := count_occ Z.eq_dec l tag.

Section Protocol.
Context (w : worker) (charFD : Z).

(** The kernel's steps. *)
Inductive kstep : pstate -> pstate -> Prop :=
(** The kernel completes the FETCH or COMMIT_AND_FETCH it holds for [tag]. *)
| KPost r m p armed1 tag armed2 hist res :
    kstep (mk_pstate r m p (armed1 ++ tag :: armed2) hist)
         (mk_pstate r (post_cqe r (mk_CQE tag res 0) m) p (armed1 ++ armed2) (hist ++ [Posted tag])).

(** The worker's steps. *)
Inductive wstep : pstate -> pstate -> Prop :=
(** [WaitCQE] finds a completion. *)
| WWait r m armed hist c :
    PeekCQE r m = Some c ->
    wstep (mk_pstate r m PWait armed hist) (mk_pstate r m (PGot c) armed hist)
(** [WaitCQE] returns an error: the ring was cancelled, or epoll failed. *)
| WCancel r m armed hist :
    wstep (mk_pstate r m PWait armed hist) (mk_pstate r m (PDone []) armed hist)
(** [tag := uint16(c.UserData); res := c.Res; SeenCQE(); if res < 0 { return }] *)
| WSeen r m armed hist c :
    let tag := u16 (c_UserData c) in
    wstep (mk_pstate r m (PGot c) armed hist)
         (mk_pstate r (SeenCQE r m) (if decide (c_Res c < 0) then PDone [tag] else PHold tag) armed hist)
(** [handleIO] gave [result]; [prepareCommitAndFetch(tag, result)]. *)
| WCommit r m armed hist tag result r' m' :
    prepareCommitAndFetch w charFD tag result r m = Some (r', m') ->
    wstep (mk_pstate r m (PHold tag) armed hist) (mk_pstate r' m' PPeek armed (hist ++ [Served tag]))
(** [PeekCQE] finds more work, or none. *)
| WMore r m armed hist c :
    PeekCQE r m = Some c ->
    wstep (mk_pstate r m PPeek armed hist) (mk_pstate r m (PGot c) armed hist)
| WNone r m armed hist :
    PeekCQE r m = None ->
    wstep (mk_pstate r m PPeek armed hist) (mk_pstate r m PSubmit armed hist)
(** [Submit] succeeds: the kernel takes every published entry. *)
| WSubmit r m armed hist n r' m' :
    flushSQ r m = (n, r', m') ->
    wstep (mk_pstate r m PSubmit armed hist)
         (mk_pstate r' (take_all r' m') PWait (armed ++ stags (published r' m'))
            (hist ++ (Taken <$> stags (published r' m'))))
(** [Submit] fails: nothing is taken and the worker returns. *)
| WFail r m armed hist n r' m' :
    flushSQ r m = (n, r', m') ->
    wstep (mk_pstate r m PSubmit armed hist) (mk_pstate r' m' (PDone []) armed hist).

Definition step (s s' : pstate) : Prop := kstep s s' \/ wstep s s'.

(** The tags the worker itself holds. *)
Definition hand (p : pc) : list Z :=
  match p with PHold tag => [tag] | PDone dropped => dropped | _ => [] end.

Definition all_tags (s : pstate) : list Z :=
  p_armed s ++ ctags (completions (p_r s) (p_m s)) ++ hand (p_pc s) ++
  stags (pending (p_r s) (p_m s)) ++ stags (published (p_r s) (p_m s)).

Record proto_inv (s : pstate) : Prop := {
  pi_sq : sq_inv (p_r s) (p_m s);
  pi_cq : cq_inv (p_r s) (p_m s);
  pi_size : w_depth w <= r_sqEntries (p_r s) /\ w_depth w <= r_cqEntries (p_r s);
  pi_tags : all_tags s ≡ₚ seqZ 0 (w_depth w);
  pi_pub : (forall l, p_pc s <> PDone l) -> published (p_r s) (p_m s) = [];
  pi_wait : p_pc s = PWait -> pending (p_r s) (p_m s) = [];
  pi_got : forall c, p_pc s = PGot c -> head (completions (p_r s) (p_m s)) = Some c;
  pi_served : forall tag, seen (Posted tag) (p_hist s) =
    (seen (Served tag) (p_hist s) +
     occ tag (ctags (completions (p_r s) (p_m s)) ++ hand (p_pc s)))%nat;
  pi_taken : forall tag, seen (Served tag) (p_hist s) =
    (seen (Taken tag) (p_hist s) +
     occ tag (stags (pending (p_r s) (p_m s)) ++ stags (published (p_r s) (p_m s))))%nat }.

(** ** What a step needs *)

Context (Hw : worker_wf w).

Lemma inv_tag s x : proto_inv s -> x ∈ all_tags s -> 0 <= x < w_depth w.
Proof. intros Hi Hx. rewrite (pi_tags s Hi) in Hx. apply elem_of_seqZ in Hx. lia. Qed.

Lemma inv_length s : proto_inv s -> Z.of_nat (length (all_tags s)) = w_depth w.
Proof.
  intros Hi. rewrite (pi_tags s Hi), length_seqZ. pose proof (ww_depth w Hw). lia.
Qed.

Lemma all_tags_length s :
  (length (all_tags s) = length (p_armed s) + length (completions (p_r s) (p_m s)) +
    length (hand (p_pc s)) + length (pending (p_r s) (p_m s)) +
    length (published (p_r s) (p_m s)))%nat.
Proof. unfold all_tags, ctags, stags. rewrite !length_app, !length_fmap. lia. Qed.

(** A completion the worker picked up carries the tag of its queue's head. *)
Lemma got_head s c :
  proto_inv s -> p_pc s = PGot c ->
  completions (p_r s) (p_m s) = c :: tail (completions (p_r s) (p_m s)) /\
  u16 (c_UserData c) = c_UserData c.
Proof.
  intros Hi Hp. pose proof (pi_got s Hi c Hp) as Hh.
  destruct (completions (p_r s) (p_m s)) as [|c' cs] eqn:E; [done|].
  injection Hh as ->. split; [done|]. apply u16_id.
  assert (Hx : c_UserData c ∈ all_tags s) by (unfold all_tags; rewrite E; set_solver).
  apply (inv_tag s _ Hi) in Hx. pose proof (ww_depth w Hw). unfold maxQueueDepth in *. goint.
Qed.

(** While the worker holds a tag there is an entry for its commit. *)
Lemma hold_room s tag :
  proto_inv s -> p_pc s = PHold tag ->
  0 <= tag < w_depth w /\ 0 < sq_room (p_r s) (p_m s).
Proof.
  intros Hi Hp. split.
  { apply (inv_tag s _ Hi). unfold all_tags. rewrite Hp. set_solver. }
  rewrite (sq_room_lengths _ _ (pi_sq s Hi)). rewrite (pi_pub s Hi) by (by rewrite Hp).
  pose proof (inv_length s Hi) as Hl. rewrite all_tags_length, Hp in Hl. cbn in *.
  destruct (pi_size s Hi). lia.
Qed.

(** While the kernel holds a tag there is room for its completion. *)
Lemma armed_room s tag :
  proto_inv s -> tag ∈ p_armed s ->
  Z.of_nat (length (completions (p_r s) (p_m s))) < r_cqEntries (p_r s).
Proof.
  intros Hi Ht. pose proof (inv_length s Hi) as Hl. rewrite all_tags_length in Hl.
  assert (length (p_armed s) <> 0%nat) by (intros E; apply nil_length_inv in E;
    rewrite E in Ht; by apply not_elem_of_nil in Ht).
  destruct (pi_size s Hi). lia.
Qed.

(** ** Preservation *)

Lemma occ_app tag l1 l2 : occ tag (l1 ++ l2) = (occ tag l1 + occ tag l2)%nat.
Proof. apply count_occ_app. Qed.
Lemma seen_app o h1 h2 : seen o (h1 ++ h2) = (seen o h1 + seen o h2)%nat.
Proof. apply count_occ_app. Qed.
Lemma seen_taken tag l :
  seen (Taken tag) (Taken <$> l) = occ tag l /\ seen (Posted tag) (Taken <$> l) = 0%nat /\
  seen (Served tag) (Taken <$> l) = 0%nat.
Proof.
  induction l as [|x l (IH1 & IH2 & IH3)]; [done|]. unfold seen, occ in *. cbn.
  repeat case_match; try congruence; lia.
Qed.
Lemma seen_one tag x :
  seen (Posted tag) [Posted x] = occ tag [x] /\ seen (Served tag) [Served x] = occ tag [x] /\
  seen (Posted tag) [Served x] = 0%nat /\ seen (Served tag) [Posted x] = 0%nat /\
  seen (Taken tag) [Posted x] = 0%nat /\ seen (Taken tag) [Served x] = 0%nat.
Proof.
  unfold seen, occ. cbn. repeat case_match; try congruence; done.
Qed.

(** Counting through a step: the equations of the history. *)
Ltac counts tag :=
  repeat match goal with H : forall _ : Z, seen _ _ = _ |- _ => specialize (H tag) end;
  unfold ctags, stags in *; rewrite ?fmap_app in *; cbn [fmap list_fmap app hand c_UserData s_UserData] in *;
  rewrite ?app_nil_r, ?seen_app, ?occ_app in *.

Lemma step_post r m p a1 tag a2 hist res :
  proto_inv (mk_pstate r m p (a1 ++ tag :: a2) hist) ->
  proto_inv (mk_pstate r (post_cqe r (mk_CQE tag res 0) m) p (a1 ++ a2) (hist ++ [Posted tag])).
Proof.
  intros Hi. pose proof (armed_room _ tag Hi ltac:(cbn; set_solver)) as Hroom.
  pose proof Hi as [Hsq Hcq Hsz Htags Hpub Hwait Hgot Hs Ht]. cbn [p_r p_m p_pc p_armed p_hist] in *.
  assert (Hsq' : sq_inv r (post_cqe r (mk_CQE tag res 0) m)).
  { apply (sq_inv_ext r m); [done..| |done]. apply ring_layout_post, Hsq. }
  pose proof (completions_post r (mk_CQE tag res 0) m Hcq Hroom) as Ec.
  constructor; cbn [p_r p_m p_pc p_armed p_hist]; try done.
  - by apply cq_inv_post.
  - rewrite <- Htags. unfold all_tags, ctags. cbn [p_r p_m p_pc p_armed]. rewrite Ec, fmap_app.
    rewrite (pending_ext r m) by done. rewrite (published_ext r m) by done. cbn.
    rewrite <- !app_assoc. f_equiv. cbn. rewrite !Permutation_middle. f_equiv.
  - intros c Hp. rewrite Ec. specialize (Hgot c Hp). by destruct (completions r m).
  - intros tg. rewrite Ec. counts tg. destruct (seen_one tg tag) as (E1 & _ & _ & E4 & _).
    lia.
  - intros tg. counts tg. destruct (seen_one tg tag) as (_ & _ & _ & E4 & E5 & _).
    rewrite (pending_ext r m) by done. rewrite (published_ext r m) by done. lia.
Qed.

Lemma step_seen r m armed hist c :
  proto_inv (mk_pstate r m (PGot c) armed hist) ->
  let tag := u16 (c_UserData c) in
  proto_inv (mk_pstate r (SeenCQE r m) (if decide (c_Res c < 0) then PDone [tag] else PHold tag) armed hist).
Proof.
  intros Hi tag. destruct (got_head _ c Hi eq_refl) as [Ec Et]. cbn [p_r p_m] in Ec.
  pose proof Hi as [Hsq Hcq Hsz Htags Hpub Hwait Hgot Hs Ht]. cbn [p_r p_m p_pc p_armed p_hist] in *.
  assert (Hne : completions r m <> []) by (by rewrite Ec).
  set (p' := if decide _ then _ else _). assert (Hh : hand p' = [c_UserData c]).
  { unfold p', tag. rewrite Et. by case_decide. }
  pose proof (completions_seen r m Hcq Hne) as Es. set (cs := tail (completions r m)) in *. clearbody cs.
  constructor; cbn [p_r p_m p_pc p_armed p_hist]; try done.
  - apply (sq_inv_ext r m); [done..| |done]. apply ring_layout_seen, Hsq.
  - by apply cq_inv_seen.
  - rewrite <- Htags. unfold all_tags. cbn [p_r p_m p_pc p_armed]. rewrite Hh, Es, Ec.
    rewrite (pending_ext r m), (published_ext r m) by done. cbn. f_equiv.
    by rewrite <- Permutation_middle.
  - intros _. rewrite (published_ext r m) by done. by apply Hpub.
  - unfold p'. by case_decide.
  - unfold p'. by case_decide.
  - intros tg. rewrite Hh, Es. specialize (Hs tg). rewrite Ec in Hs. counts tg.
    change (c_UserData c :: (c_UserData <$> cs)) with ([c_UserData c] ++ (c_UserData <$> cs)) in Hs.
    rewrite occ_app in Hs. lia.
Qed.

Lemma step_commit r m armed hist tag result r' m' :
  proto_inv (mk_pstate r m (PHold tag) armed hist) ->
  prepareCommitAndFetch w charFD tag result r m = Some (r', m') ->
  proto_inv (mk_pstate r' m' PPeek armed (hist ++ [Served tag])).
Proof.
  intros Hi E. destruct (hold_room _ tag Hi eq_refl) as [Htag Hroom].
  pose proof Hi as [Hsq Hcq Hsz Htags Hpub Hwait Hgot Hs Ht]. cbn [p_r p_m p_pc p_armed p_hist] in *.
  rewrite prepareCommit_put in E by done. rewrite put64_room in E by done.
  injection E as <- <-. set (e := commit_sqe w charFD tag result) in *.
  set (m' := st_sqe _ _ _).
  assert (Hsq' : sq_inv (pushed r) m') by (by apply sq_inv_push).
  assert (Hsame : same_ring r (pushed r)) by (by eexists _, _).
  pose proof (pending_push r m e Hsq Hroom) as Ep. pose proof (published_push r m e Hsq Hroom) as Eq.
  fold m' in Ep, Eq. pose proof (completions_ext r (pushed r) m m' Hsame eq_refl eq_refl) as Ec.
  constructor; cbn [p_r p_m p_pc p_armed p_hist]; try done.
  - apply (cq_inv_ext r (pushed r) m); [done..|apply Hsq'|done].
  - rewrite <- Htags. unfold all_tags, stags. cbn [p_r p_m p_pc p_armed hand].
    rewrite Ep, Eq, Ec, fmap_app. cbn. do 2 f_equiv.
    by rewrite <- app_assoc, Permutation_middle.
  - rewrite Eq. intros _. by apply Hpub.
  - intros tg. rewrite Ec. counts tg. destruct (seen_one tg tag) as (_ & E2 & E3 & _). lia.
  - intros tg. rewrite Ep, Eq. counts tg. destruct (seen_one tg tag) as (_ & E2 & _ & _ & _ & E6).
    change (s_UserData e) with tag. lia.
Qed.

Lemma flushSQ_cq r m n r' m' :
  flushSQ r m = (n, r', m') -> same_ring r r' /\ cqw m' = cqw m /\ cqes m' = cqes m.
Proof.
  intros E. pose proof (flushSQ_same r m) as Hs. rewrite E in Hs. split; [done|].
  unfold flushSQ in E. case_decide; by injection E as _ _ <-.
Qed.

Lemma step_submit r m armed hist n r' m' (ok : bool) :
  proto_inv (mk_pstate r m PSubmit armed hist) ->
  flushSQ r m = (n, r', m') ->
  proto_inv (if ok then mk_pstate r' (take_all r' m') PWait (armed ++ stags (published r' m'))
                          (hist ++ (Taken <$> stags (published r' m')))
             else mk_pstate r' m' (PDone []) armed hist).
Proof.
  intros Hi E. pose proof Hi as [Hsq Hcq Hsz Htags Hpub Hwait Hgot Hs Ht].
  cbn [p_r p_m p_pc p_armed p_hist] in *.
  destruct (flushSQ_cq r m n r' m' E) as (Hsame & Ew & Ee).
  destruct (flushSQ_spec r m Hsq) as (r1 & m1 & E1 & Hsq' & Ep & Eq). rewrite E in E1.
  injection E1 as _ <- <-. rewrite Hpub in Eq by done. cbn in Eq.
  pose proof (completions_ext r r' m m' Hsame Ew Ee) as Ec.
  assert (Hcq' : cq_inv r' m') by (apply (cq_inv_ext r r' m); [done..|apply Hsq'|done]).
  assert (Hsz' : w_depth w <= r_sqEntries r' /\ w_depth w <= r_cqEntries r')
    by (by destruct Hsame as (h & t & ->)).
  unfold all_tags in Htags. cbn [p_r p_m p_pc p_armed hand] in Htags. rewrite Hpub in Htags by done.
  destruct ok.
  - destruct (sq_inv_take r' m' Hsq') as (Hsq2 & Eq2 & Ep2).
    pose proof (completions_ext r' r' m' (take_all r' m') (same_ring_refl r') eq_refl eq_refl) as Ec2.
    constructor; cbn [p_r p_m p_pc p_armed p_hist]; try done.
    + by apply (cq_inv_ext r' r' m' _ (same_ring_refl r')), Hcq'; [|apply Hsq2].
    + rewrite <- Htags. unfold all_tags. cbn [p_r p_m p_pc p_armed hand]. rewrite Ec2, Ec, Ep2, Ep, Eq2, Eq.
      cbn. rewrite !app_nil_r, <- app_assoc. f_equiv. apply Permutation_app_comm.
    + intros tg. rewrite Ec2, Ec. counts tg.
      destruct (seen_taken tg (s_UserData <$> published r' m')) as (_ & E2 & E3). lia.
    + intros tg. rewrite Ep2, Ep, Eq2. rewrite Hpub in Ht by done. counts tg.
      destruct (seen_taken tg (s_UserData <$> published r' m')) as (E4 & _ & E5).
      change (occ tg []) with 0%nat. rewrite Eq in *. lia.
  - constructor; cbn [p_r p_m p_pc p_armed p_hist]; try done.
    + rewrite <- Htags. unfold all_tags. cbn [p_r p_m p_pc p_armed hand]. rewrite Ec, Ep, Eq. cbn.
      by rewrite app_nil_r.
    + intros Hne. by destruct (Hne []).
    + intros tg. rewrite Ec. by apply Hs.
    + intros tg. rewrite Ep, Eq. rewrite Hpub in Ht by done. counts tg. lia.
Qed.

(** Steps that only move the worker. *)
Lemma step_move r m p p' armed hist :
  proto_inv (mk_pstate r m p armed hist) -> hand p = [] -> hand p' = [] ->
  (forall l, p <> PDone l) -> (p' <> PWait) ->
  (forall c, p' = PGot c -> PeekCQE r m = Some c) -> proto_inv (mk_pstate r m p' armed hist).
Proof.
  intros [Hsq Hcq Hsz Htags Hpub Hwait Hgot Hs Ht] Hh Hh' Hd Hnw Hp.
  unfold all_tags in *. cbn [p_r p_m p_pc p_armed p_hist] in *. rewrite Hh in *.
  constructor; unfold all_tags; cbn [p_r p_m p_pc p_armed p_hist]; rewrite ?Hh'; try done.
  - intros _. by apply Hpub.
  - intros c Hc. rewrite <- PeekCQE_head by done. by apply Hp.
Qed.

(** Every step keeps the invariant. *)
Lemma step_inv s s' : proto_inv s -> step s s' -> proto_inv s'.
Proof.
  intros Hi [Hst|Hst]; destruct Hst.
  - by apply step_post.
  - apply (step_move r m PWait); [done..|congruence].
  - by apply (step_move r m PWait).
  - by apply step_seen.
  - by eapply step_commit.
  - apply (step_move r m PPeek); [done..|congruence].
  - by apply (step_move r m PPeek).
  - by apply (step_submit r m armed hist n r' m' true).
  - by apply (step_submit r m armed hist n r' m' false).
Qed.

Lemma steps_inv s s' : rtc step s s' -> proto_inv s -> proto_inv s'.
Proof. induction 1; eauto using step_inv. Qed.
End Protocol.

(** ** The initial state: what [init] and the submission in [run] leave *)

(** The ring and memory the kernel set up, all FETCH commands prepared,
    flushed and taken by the kernel: the worker reaches its loop with every tag
    armed. *)
Definition start_state (w : worker) (charFD : Z) (r : Ring) (m : shm) : option pstate :=
  '(r, m) ← prepare_fetches w charFD r m;
  let '(_, r, m) := flushSQ r m in
  Some (mk_pstate r (take_all r m) PWait (stags (published r m)) []).

(** A ring fresh from [uring.New(depth)]: nothing in either queue, and at least
    as many entries as [setup] asked for; the completion queue is no smaller. *)
Record fresh_ring (w : worker) (r : Ring) (m : shm) : Prop := {
  fr_sq : sq_inv r m;
  fr_cq : cq_inv r m;
  fr_entries : roundUp2 (w_depth w) <= r_sqEntries r <= r_cqEntries r;
  fr_pub : published r m = []; fr_pend : pending r m = [];
  fr_comp : completions r m = [] }.

Lemma prepare_fetches_cq w charFD r m r1 m1 :
  prepare_fetches w charFD r m = Some (r1, m1) ->
  same_ring r r1 /\ cqw m1 = cqw m /\ cqes m1 = cqes m.
Proof.
  unfold prepare_fetches. generalize (seqZ 0 (w_depth w)). intros ts. revert r m.
  induction ts as [|t ts IH]; intros r m E; cbn [foldl] in E.
  - injection E as <- <-. split; [apply same_ring_refl|done].
  - cbn [mbind option_bind] in E. destruct (prepareFetch w charFD t r m) as [[r' m']|] eqn:Ep.
    + assert (Hp : same_ring r r' /\ cqw m' = cqw m /\ cqes m' = cqes m).
      { unfold prepareFetch in Ep. pose proof (GetSQE64_same r m) as Hs.
        unfold GetSQE64 in *. destruct (nextSQE r m) as [[ptr|] r0]; cbn in Ep.
        - destruct (buf_addr w t); [|done]. cbn in Ep. by injection Ep as <- <-.
        - by injection Ep as <- <-. }
      destruct (IH r' m' E) as (H1 & H2 & H3). destruct Hp as (H4 & H5 & H6).
      split; [by eapply same_ring_trans|]. split; congruence.
    + exfalso. clear -E. induction ts as [|t' ts IH]; [done|]. by apply IH.
Qed.

Lemma starts_inv w charFD r m s :
  worker_wf w -> fresh_ring w r m -> start_state w charFD r m = Some s -> proto_inv w s.
Proof.
  intros Hw [Hsq Hcq Hent Hpub Hpend Hcomp] Es. unfold start_state in Es.
  destruct (prepare_fetches w charFD r m) as [[r1 m1]|] eqn:E1; [|done]. cbn in Es.
  destruct (flushSQ r1 m1) as [[n r2] m2] eqn:E2. injection Es as <-.
  destruct (fetches_flushed w charFD r m Hw Hsq Hpub Hpend (proj1 Hent))
    as (r1' & m1' & r2' & m2' & E1' & E2' & _ & Etags & Hsq2 & Ep2).
  rewrite E1 in E1'. injection E1' as <- <-. rewrite E2 in E2'. injection E2' as _ <- <-.
  destruct (prepare_fetches_cq _ _ _ _ _ _ E1) as (S1 & C1 & D1).
  destruct (flushSQ_cq _ _ _ _ _ E2) as (S2 & C2 & D2).
  assert (Hsame : same_ring r r2) by (by eapply same_ring_trans).
  assert (Cw : cqw m2 = cqw m) by congruence. assert (Ce : cqes m2 = cqes m) by congruence.
  destruct (sq_inv_take r2 m2 Hsq2) as (Hsq3 & Eq3 & Ep3).
  pose proof (completions_ext r r2 m (take_all r2 m2) Hsame Cw Ce) as Ec. rewrite Hcomp in Ec.
  constructor; cbn [p_r p_m p_pc p_armed p_hist]; unfold all_tags;
    cbn [p_r p_m p_pc p_armed p_hist hand]; rewrite ?Ec, ?Eq3, ?Ep3, ?Ep2; try done.
  - apply (cq_inv_ext r r2 m); [done..|apply Hsq3|done].
  - pose proof (roundUp2_ge (w_depth w)) as Hr. pose proof (ww_depth w Hw) as Hd. unfold maxQueueDepth in Hd.
    destruct Hsame as (h & t & ->). cbn. lia.
  - cbn. unfold stags. by rewrite app_nil_r, Etags.
Qed.

(** A state the worker and the kernel can reach from the start of [run]. *)
Definition reachable (w : worker) (charFD : Z) (r : Ring) (m : shm) (s : pstate) : Prop :=
  worker_wf w /\ fresh_ring w r m /\
  exists s0, start_state w charFD r m = Some s0 /\ rtc (step w charFD) s0 s.

Lemma reachable_inv w charFD r m s : reachable w charFD r m s -> worker_wf w /\ proto_inv w s.
Proof.
  intros (Hw & Hf & s0 & E & Hst). split; [done|].
  eapply steps_inv; [done|exact Hst|]. by eapply starts_inv.
Qed.

(** A reachable state in which the worker serves tag 0. *)
Definition sample_start : option pstate :=
  start_state (sample_worker sample_desc) 9 (sample_ring 4) (sample_shm 4).
Definition sample_serving : option pstate :=
  s ← sample_start;
  let r := p_r s in
  Some (mk_pstate r (SeenCQE r (post_cqe r (mk_CQE 0 0 0) (p_m s))) (PHold 0) [] [Posted 0]).

Lemma sample_fresh : fresh_ring (sample_worker sample_desc) (sample_ring 4) (sample_shm 4).
Proof.
  constructor; [exact (sample_sq_inv 2 ltac:(lia))|exact (sample_cq_inv 2 ltac:(lia))| |done..].
  vm_compute. split; discriminate.
Qed.

Lemma sample_reachable s :
  sample_start = Some s -> reachable (sample_worker sample_desc) 9 (sample_ring 4) (sample_shm 4) s.
Proof.
  intros E. split; [apply sample_worker_wf|]. split; [apply sample_fresh|]. exists s. by split.
Qed.

Lemma sample_serving_reachable s :
  sample_serving = Some s -> reachable (sample_worker sample_desc) 9 (sample_ring 4) (sample_shm 4) s.
Proof.
  unfold sample_serving. destruct sample_start as [s0|] eqn:E0; [|done]. cbn. intros E.
  injection E as <-. split; [apply sample_worker_wf|]. split; [apply sample_fresh|]. exists s0.
  split; [done|].
  assert (Es : s0 = mk_pstate (p_r s0) (p_m s0) PWait ([] ++ 0 :: []) []).
  { unfold sample_start in E0. vm_compute in E0. injection E0 as <-. reflexivity. }
  assert (Ep : PeekCQE (p_r s0) (post_cqe (p_r s0) (mk_CQE 0 0 0) (p_m s0)) = Some (mk_CQE 0 0 0)).
  { unfold sample_start in E0. vm_compute in E0. injection E0 as <-. vm_compute. reflexivity. }
  rewrite Es. cbn [p_r p_m].
  eapply rtc_l; [left; apply (KPost _ _ _ [] 0 [] _ 0)|].
  eapply rtc_l; [right; apply WWait, Ep|].
  eapply rtc_l; [right; apply WSeen|]. apply rtc_refl.
Qed.

(** ** Theorems *)

(** C5: Every tag is in exactly one place.  In every state the worker and the
    kernel can reach, in whatever order their steps interleave, the tags held
    by the kernel, in the completion queue, in the worker's hands and in the
    submission queue are together each tag from 0 to [depth-1] exactly once;
    and as long as the worker runs, a tag it serves is a valid index of its
    buffers and descriptors. *)
Theorem tags_partitioned w charFD r m s :
  reachable w charFD r m s ->
  all_tags s ≡ₚ seqZ 0 (w_depth w) /\
  (forall tag, p_pc s = PHold tag -> 0 <= tag < w_depth w) /\
  (forall c, p_pc s = PGot c -> 0 <= u16 (c_UserData c) < w_depth w).
Proof.
  intros Hr. destruct (reachable_inv _ _ _ _ _ Hr) as [Hw Hi]. split_and!.
  - apply (pi_tags w s Hi).
  - intros tag Hp. by apply (hold_room w Hw s tag Hi).
  - intros c Hp. destruct (got_head w Hw s c Hi Hp) as [Ec ->]. apply (inv_tag w s _ Hi).
    unfold all_tags. rewrite Ec. set_solver.
Qed.

Lemma tags_partitioned_witness : exists s,
  sample_serving = Some s /\ all_tags s ≡ₚ [0] /\ 0 <= 0 < 1.
Proof.
  destruct sample_serving as [s|] eqn:E; [|vm_compute in E; discriminate].
  exists s. split; [reflexivity|].
  destruct (tags_partitioned _ _ _ _ s (sample_serving_reachable s E)) as (H1 & H2 & _).
  split; [exact H1|]. apply H2. vm_compute in E. injection E as <-. reflexivity.
Defined.

(** C7: No answer is dropped.  [prepareCommitAndFetch] gives up silently when
    [GetSQE64] returns [nil]; in no reachable state can it: whenever the worker
    has served a tag, whatever the result, the commit is appended to the
    submission queue. *)
Theorem commit_never_dropped w charFD r m s tag result :
  reachable w charFD r m s -> p_pc s = PHold tag ->
  exists r' m', prepareCommitAndFetch w charFD tag result (p_r s) (p_m s) = Some (r', m') /\
    pending r' m' = pending (p_r s) (p_m s) ++ [commit_sqe w charFD tag result].
Proof.
  intros Hr Hp. destruct (reachable_inv _ _ _ _ _ Hr) as [Hw Hi].
  destruct (hold_room w Hw s tag Hi Hp) as [Ht Hroom]. pose proof (pi_sq w s Hi) as Hsq.
  rewrite prepareCommit_put, put64_room by done. eexists _, _. split; [done|]. by apply pending_push.
Qed.

Lemma commit_never_dropped_witness : exists s r' m',
  sample_serving = Some s /\
  prepareCommitAndFetch (sample_worker sample_desc) 9 0 4096 (p_r s) (p_m s) = Some (r', m').
Proof.
  destruct sample_serving as [s|] eqn:E; [|vm_compute in E; discriminate].
  destruct (commit_never_dropped _ _ _ _ s 0 4096 (sample_serving_reachable s E)) as (r' & m' & H1 & _).
  - vm_compute in E. injection E as <-. reflexivity.
  - exists s, r', m'. split; [reflexivity|exact H1].
Defined.

(** C9: The completion queue never overflows.  In every reachable state in
    which the kernel still holds a tag the completion queue has a free slot, so
    that the completion it may post for the tag overwrites nothing and becomes
    the newest entry. *)
Theorem cq_never_overflows w charFD r m s tag res :
  reachable w charFD r m s -> tag ∈ p_armed s ->
  Z.of_nat (length (completions (p_r s) (p_m s))) < r_cqEntries (p_r s) /\
  completions (p_r s) (post_cqe (p_r s) (mk_CQE tag res 0) (p_m s)) =
    completions (p_r s) (p_m s) ++ [mk_CQE tag res 0].
Proof.
  intros Hr Ht. destruct (reachable_inv _ _ _ _ _ Hr) as [Hw Hi].
  pose proof (armed_room w Hw s tag Hi Ht) as Hroom. split; [done|].
  apply completions_post; [apply (pi_cq w s Hi)|done].
Qed.

Lemma cq_never_overflows_witness : exists s, sample_start = Some s /\
  Z.of_nat (length (completions (p_r s) (p_m s))) < r_cqEntries (p_r s).
Proof.
  destruct sample_start as [s|] eqn:E; [|vm_compute in E; discriminate].
  exists s. split; [reflexivity|].
  apply (cq_never_overflows _ _ _ _ s 0 0 (sample_reachable s E)).
  vm_compute in E. injection E as <-. apply list_elem_of_here.
Defined.

(** C6: Every request is answered exactly once and in turn.  For each tag the
    number of completions posted, of requests served and of commits taken by
    the kernel differ by at most one in this order, so between two completions
    of a tag exactly one request is served and committed; and a batch serves
    each tag at most once before its [Submit], so the inner loop of [run] ends
    after at most [depth] requests. *)
Theorem served_exactly_once w charFD r m s tag :
  reachable w charFD r m s ->
  let P := seen (Posted tag) (p_hist s) in
  let S := seen (Served tag) (p_hist s) in
  let T := seen (Taken tag) (p_hist s) in
  (T <= S <= P)%nat /\ (P <= T + 1)%nat /\
  (p_pc s = PWait -> completions (p_r s) (p_m s) = [] -> P = S /\ S = T) /\
  (length (pending (p_r s) (p_m s)) <= Z.to_nat (w_depth w))%nat.
Proof.
  intros Hr P S T. destruct (reachable_inv _ _ _ _ _ Hr) as [Hw Hi].
  pose proof (pi_served w s Hi tag) as Hs. pose proof (pi_taken w s Hi tag) as Ht.
  fold P in Hs. fold S in Hs, Ht. fold T in Ht.
  assert (Hocc : (occ tag (all_tags s) <= 1)%nat).
  { unfold occ. rewrite (proj1 (Permutation_count_occ Z.eq_dec _ _) (pi_tags w s Hi) tag).
    pose proof (proj1 (NoDup_count_occ Z.eq_dec _) (proj1 (NoDup_ListNoDup _) (NoDup_seqZ 0 (w_depth w))) tag). lia. }
  unfold all_tags in Hocc. rewrite !occ_app in *.
  pose proof (inv_length w Hw s Hi) as Hl. rewrite all_tags_length in Hl.
  split; [lia|]. split; [lia|]. split; [|lia].
  intros Hp Hc. rewrite Hc, Hp in Hs. rewrite (pi_wait w s Hi Hp), (pi_pub w s Hi) in Ht by (by rewrite Hp).
  cbn in Hs, Ht. lia.
Qed.

Lemma served_exactly_once_witness : exists s, sample_serving = Some s /\
  seen (Posted 0) (p_hist s) = 1%nat /\ (seen (Taken 0) (p_hist s) <= seen (Served 0) (p_hist s))%nat.
Proof.
  destruct sample_serving as [s|] eqn:E; [|vm_compute in E; discriminate].
  exists s. split; [reflexivity|]. split.
  - vm_compute in E. injection E as <-. reflexivity.
  - apply (served_exactly_once _ _ _ _ s 0 (sample_serving_reachable s E)).
Defined.


