(* ===== verification/LoopRefines.v ===== *)
(** * The worker loop refines the queue protocol

    [Protocol] describes the loop of [worker.run] as a step relation and proves
    its invariants.  Here the executable loop of [WorkerRun], whose reads and
    writes of the ring go through system calls and memory shared with the
    kernel, is shown to take only steps of that relation: from [init]'s FETCH
    commands to the return of the goroutine, every state at the head of the loop
    is a reachable state of the protocol, and nothing panics.

    [QueueKernel] states what the io_uring and ublk documentation promise of
    the queue: which tags the kernel holds, that it completes only those, and
    that a successful [io_uring_enter] consumes the entries it was given. *)

From S2P Require Import Prelude GoLayout Types Uring Backend Worker Kernel Sim RingOps WorkerRun KernelRing Protocol.

(** ** The kernel's side of a queue *)

(** What the worker can observe of the queue: the tags the kernel holds and the
    shared memory.  On its own the kernel only completes tags it holds. *)
Definition qview : Type := list Z * shm.

Inductive posts (r : Ring) : qview -> qview -> Prop :=
| posts_one a1 tag a2 res m :
    posts r (a1 ++ tag :: a2, m) (a1 ++ a2, post_cqe r (mk_CQE tag res 0) m).

(** The kernel behind the ring [r] of the worker [w], whose descriptors are
    mapped at [h]. *)
Class QueueKernel (K : Type) `{Kernel K} (w : worker) (r : Ring) (h : Z) := {
  q_armed : K -> list Z;
  (** Between two calls the kernel may complete commands; the pool keeps its
      size. *)
  qk_evolves (k k' : K) : Prop :=
    rtc (posts r) (q_armed k, k_shm (r_fd r) k) (q_armed k', k_shm (r_fd r) k') /\
    length (k_user (w_poolAddr w) k') = length (k_user (w_poolAddr w) k);
  qk_async k : qk_evolves k (k_async k);
  qk_wait epfd k : qk_evolves k (k_epoll_wait epfd k).2;
  (** The program's stores. *)
  qk_store m k :
    q_armed (k_set_shm (r_fd r) m k) = q_armed k /\ k_shm (r_fd r) (k_set_shm (r_fd r) m k) = m /\
    length (k_user (w_poolAddr w) (k_set_shm (r_fd r) m k)) = length (k_user (w_poolAddr w) k);
  qk_user bs k :
    q_armed (k_user_set (w_poolAddr w) bs k) = q_armed k /\
    k_shm (r_fd r) (k_user_set (w_poolAddr w) bs k) = k_shm (r_fd r) k /\
    length (k_user (w_poolAddr w) (k_user_set (w_poolAddr w) bs k)) = length bs;
  (** [io_uring_enter]: an error consumes nothing; success consumes all the
      published entries it was told of, whose tags the kernel then holds. *)
  qk_refused n fl k e k' : k_enter (r_fd r) n fl k = (Err e, k') -> qk_evolves k k';
  qk_entered n fl k x k' :
    k_enter (r_fd r) n fl k = (Ok x, k') ->
    n = Z.of_nat (length (published r (k_shm (r_fd r) k))) ->
    exists armed m,
      rtc (posts r) (q_armed k, k_shm (r_fd r) k) (armed, m) /\
      rtc (posts r) (armed ++ stags (published r m), take_all r m) (q_armed k', k_shm (r_fd r) k') /\
      length (k_user (w_poolAddr w) k') = length (k_user (w_poolAddr w) k);
  (** The descriptor area holds a request the driver can have sent. *)
  qk_descs tag k :
    0 <= tag < w_depth w ->
    exists d, getDesc (set_descs (Some (k_bytes h k)) w) tag = Some d /\ desc_fits d
}.

(** ** Independence of the ring's local indices *)

Lemma posts_pending r0 r v v' : rtc (posts r0) v v' -> pending r v'.2 = pending r v.2.
Proof.
  induction 1 as [v|v v1 v2 Hst Hp IH]; [done|]. rewrite IH. by destruct Hst.
Qed.
Lemma post_cqe_same r r' c m : same_ring r r' -> post_cqe r' c m = post_cqe r c m.
Proof. by intros (hd & tl & ->). Qed.
Lemma published_same r r' m : same_ring r r' -> published r' m = published r m.
Proof. by intros (hd & tl & ->). Qed.
Lemma take_all_same r r' m : same_ring r r' -> take_all r' m = take_all r m.
Proof. by intros (hd & tl & ->). Qed.

(** Completions posted between the store of the SQ tail and [io_uring_enter]
    might as well have been posted before it. *)
Lemma flushSQ_post r0 r c m n r' m' :
  flushSQ r m = (n, r', m') -> flushSQ r (post_cqe r0 c m) = (n, r', post_cqe r0 c m').
Proof. unfold flushSQ. case_decide; by intros [= <- <- <-]. Qed.

Lemma flushSQ_posts r0 r armed m n r' m' v :
  flushSQ r m = (n, r', m') -> rtc (posts r0) (armed, m') v ->
  exists m0, rtc (posts r0) (armed, m) (v.1, m0) /\ flushSQ r m0 = (n, r', v.2).
Proof.
  intros Ef Hp. remember (armed, m') as v0 eqn:Ev. revert armed m m' Ev Ef.
  induction Hp as [v|v v1 v2 Hs Hp IH]; intros armed m m' -> Ef; [by exists m|].
  inversion Hs as [a1 tag a2 res mm E1 E2]; subst.
  destruct (IH _ (post_cqe r0 (mk_CQE tag res 0) m) _ eq_refl (flushSQ_post _ _ _ _ _ _ _ Ef))
    as (m0 & Hm0 & Ef0).
  exists m0. split; [|done]. eapply rtc_l; [apply posts_one|done].
Qed.

(** The configuration of a worker, which the loop never changes. *)
Definition same_config (w w' : worker) : Prop :=
  w_qid w' = w_qid w /\ w_depth w' = w_depth w /\ w_bufSize w' = w_bufSize w /\
  w_poolAddr w' = w_poolAddr w /\ w_bufs w' = w_bufs w.

Lemma same_config_commit w w' charFD tag res r m :
  same_config w w' ->
  prepareCommitAndFetch w' charFD tag res r m = prepareCommitAndFetch w charFD tag res r m.
Proof.
  intros (Hq & _ & _ & Ha & Hb). unfold prepareCommitAndFetch, buf_addr. by rewrite Hq, Ha, Hb.
Qed.

Lemma same_config_wf w w' pool :
  worker_wf w -> same_config w w' -> length pool = length (w_bufPool w) ->
  worker_wf (set_pool pool w').
Proof.
  intros [H1 H2 H3 H4] (_ & Hd & Hs & _ & Hb) Hp. unfold window in *.
  constructor; cbn; unfold window; cbn; rewrite ?Hd, ?Hs, ?Hb, ?Hp; done.
Qed.

(** ** Total computations *)

Lemma total_bind {K A C} P (m : M K A) R (f : A -> M K C) Q :
  total P m R -> (forall a, total (R a) (f a) Q) -> total P (m ≫= f) Q.
Proof.
  intros Hm Hf s Hp. destruct (Hm s Hp) as (a & s' & E & Hr). unfold mbind, M_bind. rewrite E. by apply Hf.
Qed.
Lemma total_ret {K A} (P : st K -> Prop) (a : A) (Q : A -> st K -> Prop) :
  (forall s, P s -> Q a s) -> total P (mret a) Q.
Proof. intros Hq s Hp. exists a, s. split; [done|by apply Hq]. Qed.

(** ** The simulation *)

Section Refines.
Context (w : worker) (charFD : Z) (Hw : worker_wf w).
Context {K : Type} `{Kernel K} (r0 : Ring) (h : Z) `{!QueueKernel K w r0 h}.
Abbreviation fd := (r_fd r0).
Abbreviation view k := (q_armed k, k_shm fd k).

(** The protocol state the worker starts from. *)
Context (p0 : pstate) (Hp0 : proto_inv w p0).

(** The worker, with ring [r] and [n] commits prepared, is at [p] of a protocol
    run from [p0] that has led to the memory and the tags of the kernel state. *)
Definition At (r : Ring) (p : pc) (n : nat) (s : st K) : Prop :=
  same_ring r0 r /\ length (k_user (w_poolAddr w) (kern s)) = length (w_bufPool w) /\
  length (pending r (k_shm fd (kern s))) = n /\
  exists hist,
    rtc (step w charFD) p0 (mk_pstate r (k_shm fd (kern s)) p (q_armed (kern s)) hist).

(** A run of the kernel alone. *)
Lemma posts_steps r p v v' hist :
  same_ring r0 r -> rtc (posts r0) v v' ->
  exists hist', rtc (step w charFD) (mk_pstate r v.2 p v.1 hist) (mk_pstate r v'.2 p v'.1 hist').
Proof.
  intros Hs Hp. revert hist. induction Hp as [v|v v1 v2 Hst Hp IH]; intros hist; [by exists hist|].
  inversion Hst as [a1 tag a2 res m E1 E2]; subst. cbn [fst snd] in *.
  destruct (IH (hist ++ [Posted tag])) as (hist' & Hr). exists hist'.
  eapply rtc_l; [left; apply (KPost _ _ _ _ tag _ _ res)|]. by rewrite (post_cqe_same r0).
Qed.

Lemma At_evolves r p n s s' : qk_evolves (kern s) (kern s') -> At r p n s -> At r p n s'.
Proof.
  intros [Hv Hl] (Hs & Hl' & Hn & hist & Hr). split; [done|]. split; [congruence|].
  split; [by rewrite <- Hn; apply (f_equal length), (posts_pending _ r _ _ Hv)|].
  destruct (posts_steps r p _ _ hist Hs Hv) as (hist' & Hr').
  exists hist'. by etransitivity.
Qed.

Lemma At_inv r p n s :
  At r p n s ->
  exists hist, let q := mk_pstate r (k_shm fd (kern s)) p (q_armed (kern s)) hist in
    proto_inv w q /\ rtc (step w charFD) p0 q.
Proof.
  intros (Hs & Hl & _ & hist & Hr). exists hist. cbn zeta. split; [by eapply steps_inv|done].
Qed.

Lemma At_fd r p n s : At r p n s -> r_fd r = fd.
Proof. by intros ((hd & tl & ->) & _). Qed.

(** A worker step that leaves the ring and the memory alone. *)
Lemma At_move r p p' n s :
  (forall hist, wstep w charFD (mk_pstate r (k_shm fd (kern s)) p (q_armed (kern s)) hist)
                        (mk_pstate r (k_shm fd (kern s)) p' (q_armed (kern s)) hist)) ->
  At r p n s -> At r p' n s.
Proof.
  intros Hst (Hs & Hl & Hn & hist & Hr). split; [done|]. split; [done|]. split; [done|].
  exists hist. eapply rtc_r; [done|]. right. apply Hst.
Qed.

(** One that stores a new memory. *)
Lemma At_store r r' p p' n n' m s obs :
  same_ring r r' -> length (pending r' m) = n' ->
  (forall hist, wstep w charFD (mk_pstate r (k_shm fd (kern s)) p (q_armed (kern s)) hist)
                        (mk_pstate r' m p' (q_armed (kern s)) (hist ++ obs))) ->
  At r p n s -> At r' p' n' (mk_st (k_set_shm fd m (kern s)) (trace s)).
Proof.
  intros Hr' Hn' Hst (Hs & Hl & _ & hist & Hr).
  destruct (qk_store (w := w) (r := r0) (h := h) m (kern s)) as (E1 & E2 & E3).
  split; [by eapply same_ring_trans|]. cbn [kern]. split; [congruence|].
  split; [by rewrite E2|]. exists (hist ++ obs). rewrite E1, E2. eapply rtc_r; [done|]. right. apply Hst.
Qed.

(** ** The queue operations *)

Lemma triple_load r p n :
  triple (At r p n) (load_shm (r_fd r)) (fun m s => m = k_shm fd (kern s) /\ At r p n s).
Proof.
  intros s Ha. rewrite (At_fd _ _ _ _ Ha). cbn. split; [done|].
  eapply At_evolves; [|exact Ha]. apply qk_async.
Qed.

Lemma triple_Seen r c n :
  triple (At r (PGot c) n) (Seen r)
    (fun _ => At r (if decide (c_Res c < 0) then PDone [u16 (c_UserData c)]
                    else PHold (u16 (c_UserData c))) n).
Proof.
  unfold Seen, on_shm. eapply triple_bind; [apply triple_load|]. intros m.
  intros s [-> Ha]. cbn. rewrite (At_fd _ _ _ _ Ha).
  eapply (At_store r r _ _ _ _ _ s []); [apply same_ring_refl|by apply Ha| |exact Ha].
  intros hist. rewrite app_nil_r. apply WSeen.
Qed.

Lemma triple_Peek r n :
  triple (At r PPeek n) (Peek r)
    (fun c => At r (match c with Some c => PGot c | None => PSubmit end) n).
Proof.
  unfold Peek. eapply triple_bind; [apply triple_load|]. intros m s [-> Ha]. cbn.
  eapply At_move; [|exact Ha]. intros hist.
  destruct (PeekCQE r _) eqn:E; [by apply WMore|by apply WNone].
Qed.

Lemma triple_WaitCQE r n : forall fuel,
  triple (At r PWait n) (WaitCQE fuel r)
    (fun x => At r (match x with Ok c => PGot c | Err _ => PDone [] end) n).
Proof.
  assert (Hstop : forall s, At r PWait n s -> At r (PDone []) n s).
  { intros s. apply At_move. intros hist. apply WCancel. }
  induction fuel as [|fuel IH]; [done|]. cbn [WaitCQE].
  destruct (r_cancelled r); [by apply triple_ret|].
  eapply triple_bind; [apply triple_load|]. intros m s [-> Ha].
  destruct (PeekCQE r _) as [c|] eqn:E.
  { cbn. eapply At_move; [|exact Ha]. intros hist. by apply WWait. }
  unfold mbind, M_bind, call. pose proof (qk_wait (r_epollFD r) (kern s)) as Hk.
  destruct (k_epoll_wait (r_epollFD r) (kern s)) as [x k'] eqn:Ek. cbn [snd] in Hk.
  assert (Ha' : At r PWait n (mk_st k' (trace s))) by (by eapply At_evolves).
  destruct x as [ready|e]; [destruct (existsb _ ready)|destruct (is_errno EINTR e)];
    first [exact (IH _ Ha')|exact (Hstop _ Ha')].
Qed.

(** The state between the store of the SQ tail and [io_uring_enter], and what
    the call makes of it. *)
Lemma At_enter r n s count fl r' m' x k' tr :
  At r PSubmit n s -> flushSQ r (k_shm fd (kern s)) = (count, r', m') ->
  k_enter fd count fl (k_set_shm fd m' (kern s)) = (x, k') ->
  At r' (match x with Ok _ => PWait | Err _ => PDone [] end) 0 (mk_st k' tr).
Proof.
  intros Ha Ef Ek. destruct (At_inv _ _ _ _ Ha) as (hist & Hi & Hr). destruct Ha as (Hs & Hl & _ & _).
  destruct (flushSQ_spec _ _ (pi_sq w _ Hi)) as (r1 & m1 & E1 & _ & Epend & Epub).
  pose proof (pi_pub w _ Hi) as Hpub. cbn [p_r p_m p_pc] in *.
  rewrite Ef in E1. injection E1 as -> <- <-. rewrite Hpub in Epub by done. cbn in Epub.
  pose proof (flushSQ_same r (k_shm fd (kern s))) as Hs'. rewrite Ef in Hs'. cbn in Hs'.
  assert (Hs0 : same_ring r0 r') by (by eapply same_ring_trans).
  destruct (qk_store (w := w) (r := r0) (h := h) m' (kern s)) as (E1 & E2 & E3).
  destruct x as [x|e].
  - destruct (qk_entered (w := w) (h := h) _ _ _ _ _ Ek) as (armed & m & Hp1 & Hp2 & Hl').
    { rewrite E2, <- (published_same r0 r') by done. by rewrite Epub. }
    rewrite E1, E2 in Hp1. rewrite <- (published_same r0 r'), <- (take_all_same r0 r') in Hp2 by done.
    destruct (flushSQ_posts _ _ _ _ _ _ _ _ Ef Hp1) as (m0 & Hm0 & Ef0). cbn [fst snd] in *.
    destruct (posts_steps r PSubmit _ _ hist Hs Hm0) as (hist1 & Hr1).
    pose proof (WSubmit w charFD _ _ armed hist1 _ _ _ Ef0) as Hst.
    destruct (posts_steps r' PWait _ _ (hist1 ++ (Taken <$> stags (published r' m))) Hs0 Hp2) as (hist2 & Hr2).
    split; [done|]. split; [cbn; congruence|]. split.
    { pose proof (posts_pending _ r' _ _ Hp1) as Q1. pose proof (posts_pending _ r' _ _ Hp2) as Q2.
      cbn [fst snd kern] in *. rewrite Q2, (pending_ext r' m), Q1, Epend by done. done. }
    exists hist2.
    etransitivity; [exact Hr|]. etransitivity; [exact Hr1|]. eapply rtc_l; [by right|exact Hr2].
  - destruct (qk_refused (w := w) (h := h) _ _ _ _ _ Ek) as [Hp Hl'].
    rewrite E1, E2 in Hp. destruct (flushSQ_posts _ _ _ _ _ _ _ _ Ef Hp) as (m0 & Hm0 & Ef0).
    pose proof (posts_pending _ r' _ _ Hp) as Q1.
    cbn [fst snd] in *. destruct (posts_steps r PSubmit _ _ hist Hs Hm0) as (hist1 & Hr1).
    split; [done|]. split; [cbn; congruence|]. split; [cbn; by rewrite Q1, Epend|]. exists hist1.
    etransitivity; [exact Hr|]. eapply rtc_r; [exact Hr1|]. right. by eapply WFail.
Qed.

Lemma triple_Submit_At r n :
  n <> 0%nat ->
  triple (At r PSubmit n) (Submit r)
    (fun x => At x.1 (match x.2 with Ok _ => PWait | Err _ => PDone [] end) 0).
Proof.
  intros Hn. unfold Submit, flush, on_shm.
  eapply triple_bind with (R := fun x s => exists s0 m', At r PSubmit n s0 /\ x.1 <> 0 /\
    r_fd x.2 = fd /\ flushSQ r (k_shm fd (kern s0)) = (x, m') /\ kern s = k_set_shm fd m' (kern s0)).
  { eapply triple_bind; [apply triple_load|]. intros m s [-> Ha].
    destruct (At_inv _ _ _ _ Ha) as (hist & Hi & _).
    destruct (flushSQ_spec _ _ (pi_sq w _ Hi)) as (r1 & m1 & Ef & _). cbn [p_r p_m] in Ef.
    pose proof (flushSQ_same r (k_shm fd (kern s))) as Hs. pose proof Ha as (_ & _ & El & _).
    rewrite El in Ef. rewrite Ef in Hs |- *. cbn in *.
    exists s, m1. split_and!; [done|cbn; lia| |done|by rewrite (At_fd _ _ _ _ Ha)].
    destruct Hs as (hd & tl & ->). by rewrite <- (At_fd _ _ _ _ Ha). }
  intros [count r'] s. cbn [fst snd].
  intros (s0 & m' & Ha & Hc & Hfd & Ef & Ek). rewrite decide_False by done.
  unfold mbind, M_bind, call. rewrite Hfd, Ek. destruct (k_enter fd count 0 _) as [x k'] eqn:Ex.
  pose proof (At_enter _ _ _ _ _ _ _ _ _ (trace s) Ha Ef Ex) as Ha'. by destruct x.
Qed.

(** The commit of a tag in the worker's hands is appended to the queue. *)
Definition commit (tag res : Z) (r : Ring) : M K Ring :=
  m ← load_shm (r_fd r);
  '(r, m) ← must (prepareCommitAndFetch w charFD tag res r m);
  store_shm (r_fd r) m;; mret r.

Lemma commit_runs r tag res n s :
  At r (PHold tag) n s ->
  exists r' s', commit tag res r s = Val (r', s') /\ At r' PPeek (S n) s' /\
    pending r' (k_shm fd (kern s')) = pending r (k_shm fd (kern s)) ++ [commit_sqe w charFD tag res].
Proof.
  intros Ha0. pose proof (triple_load r (PHold tag) n s Ha0) as Hld.
  assert (Hpend : pending r (k_shm fd (k_async (kern s))) = pending r (k_shm fd (kern s))).
  { apply (posts_pending _ r _ _ (proj1 (qk_async (kern s)))). }
  cbn in Hld. destruct Hld as [_ Ha]. set (s1 := mk_st (k_async (kern s)) (trace s)) in *.
  destruct (At_inv _ _ _ _ Ha) as (hist & Hi & _). pose proof Ha as (_ & _ & Hn & _).
  destruct (hold_room w Hw _ tag Hi eq_refl) as [Ht Hroom].
  pose proof (pi_sq w _ Hi) as Hsq. cbn [p_r p_m kern s1] in *.
  destruct (prepareCommitAndFetch w charFD tag res r (k_shm fd (k_async (kern s)))) as [[r' m']|] eqn:E.
  2:{ rewrite prepareCommit_put, put64_room in E by done. done. }
  assert (Hs : same_ring r r' /\
    pending r' m' = pending r (k_shm fd (k_async (kern s))) ++ [commit_sqe w charFD tag res]).
  { rewrite prepareCommit_put, put64_room in E by done. injection E as <- <-.
    split; [by eexists _, _|]. by apply pending_push. }
  destruct Hs as [Hs Hp].
  assert (Hfd : r_fd r' = fd) by (destruct Hs as (hd & tl & ->); by rewrite <- (At_fd _ _ _ _ Ha)).
  exists r', (mk_st (k_set_shm fd m' (k_async (kern s))) (trace s)). split.
  { unfold commit, load_shm, store_shm, modify, gets, must, mbind, M_bind, mret, M_ret. cbn [kern trace].
    by rewrite (At_fd _ _ _ _ Ha0), E, Hfd. }
  split.
  - apply (At_store r r' (PHold tag) PPeek n _ _ s1 [Served tag]); [done| | |exact Ha].
    + rewrite Hp, length_app, Hn. cbn. lia.
    + intros hist'. by eapply WCommit.
  - cbn. destruct (qk_store (w := w) (r := r0) (h := h) m' (k_async (kern s))) as (_ & -> & _).
    by rewrite Hp, Hpend.
Qed.

(** ** The loop *)

(** The worker's thread at a point of the protocol. *)
Definition at_pc (t : thread) (p : pc) (n : nat) (s : st K) : Prop :=
  same_config w (t_w t) /\ t_descs t = Some h /\ exists r, t_ring t = Some r /\ At r p n s.

Lemma at_pc_intro t r p n s :
  same_config w (t_w t) -> t_descs t = Some h -> t_ring t = Some r -> At r p n s -> at_pc t p n s.
Proof. intros Hc Hh Hr Ha. split; [done|]. split; [done|]. by exists r. Qed.

(** [w.ioRing] is read from the worker, and is there. *)
Lemma triple_ring {A} t p n (f : Ring -> M K A) Q :
  (forall r, same_config w (t_w t) -> t_descs t = Some h -> t_ring t = Some r ->
     triple (At r p n) (f r) Q) ->
  triple (at_pc t p n) (r ← must (t_ring t); f r) Q.
Proof.
  intros Hf s (Hc & Hh & r & Hr & Ha). rewrite Hr. unfold must, mbind, M_bind, mret, M_ret.
  by apply Hf.
Qed.

Context {B : Type} (be : Backend B) (Hbe : never_panics be).

(** What [handleIO] leaves of a worker whose pool and descriptors were just
    read. *)
Lemma handleIO_loop t tag b descs pool d :
  same_config w (t_w t) -> length pool = length (w_bufPool w) -> 0 <= tag < w_depth w ->
  getDesc (set_descs (Some descs) (t_w t)) tag = Some d -> desc_fits d ->
  exists res w' b', handleIO be (set_pool pool (set_descs (Some descs) (t_w t))) tag b = Some (res, w', b') /\
    same_config w w' /\ w_ioRing w' = t_ring t /\ length (w_bufPool w') = length (w_bufPool w).
Proof.
  intros Hc Hp Ht Hg Hd. set (w1 := set_pool pool (set_descs (Some descs) (t_w t))).
  assert (Hw1 : worker_wf w1) by (by apply (same_config_wf w)).
  assert (Ht1 : 0 <= tag < w_depth w1) by (destruct Hc as (_ & Hdep & _); cbn; by rewrite Hdep).
  destruct (handleIO_total be w1 tag d b Hw1 Ht1 Hg Hd Hbe) as [[[res w'] b'] E].
  pose proof (handleIO_same be _ _ _ _ _ _ _ Hw1 Ht1 Hg Hd E) as Hs.
  pose proof (same_but_buffer_wf _ _ _ Hw1 Ht1 Hs) as Hw'.
  exists res, w', b'. split; [done|].
  assert (Hc' : same_config w w' /\ w_ioRing w' = t_ring t) by (by destruct Hs as [->|(x & _ & ->)]).
  split; [apply Hc'|]. split; [apply Hc'|].
  destruct Hc' as ((_ & Hdep & Hsz & _) & _).
  pose proof (ww_pool w' Hw') as Hl. rewrite Hdep, Hsz in Hl. pose proof (ww_pool w Hw). lia.
Qed.

(** One request: [handleIO] on the memory the kernel shares, and its result
    committed. *)
Lemma serve_one_runs t tag b n s :
  at_pc t (PHold tag) n s ->
  exists d res w' b' r r' s',
    getDesc (set_descs (Some (k_bytes h (kern s))) (t_w t)) tag = Some d /\ desc_fits d /\
    handleIO be (set_pool (k_user (w_poolAddr w) (kern s))
                   (set_descs (Some (k_bytes h (kern s))) (t_w t))) tag b = Some (res, w', b') /\
    serve_one be charFD tag t b s = Val ((with_worker (set_ring (Some r') w') t, b'), s') /\
    at_pc (with_worker (set_ring (Some r') w') t) PPeek (S n) s' /\ t_ring t = Some r /\
    pending r' (k_shm fd (kern s')) = pending r (k_shm fd (kern s)) ++ [commit_sqe w charFD tag res].
Proof.
  intros (Hc & Hh & r & Hr & Ha). unfold serve_one. rewrite Hh.
  destruct (At_inv _ _ _ _ Ha) as (hist & Hi & _). destruct (hold_room w Hw _ tag Hi eq_refl) as [Ht _].
  destruct (qk_descs (r := r0) tag (kern s) Ht) as (d & Hg & Hd).
  pose proof Hc as (_ & _ & _ & Haddr & _).
  destruct Ha as (Hs & Hl & Hn & Hst).
  destruct (handleIO_loop t tag b (k_bytes h (kern s)) (k_user (w_poolAddr w) (kern s)) d)
    as (res & w' & b' & E & Hc' & Hr' & Hp'); [done..|].
  destruct (qk_user (w := w) (r := r0) (h := h) (w_bufPool w') (kern s)) as (E1 & E2 & E3).
  set (s1 := mk_st (k_user_set (w_poolAddr w) (w_bufPool w') (kern s)) (trace s)).
  assert (Ha1 : At r (PHold tag) n s1).
  { split; [done|]. cbn. rewrite E1, E2. split; [congruence|done]. }
  destruct (commit_runs r tag res n s1 Ha1) as (r' & s' & Ecom & Ha' & Hpend).
  cbn [kern s1] in Hpend. rewrite E2 in Hpend.
  exists d, res, w', b', r, r', s'. split_and!; try done; [|by apply (at_pc_intro _ r')].
  unfold commit, must, gets, modify, mbind, M_bind, mret, M_ret in *. rewrite Haddr, E, Hr', Hr.
  pose proof Hc' as (_ & _ & _ & -> & _). cbn in Ecom |- *. fold s1.
  destruct (load_shm (r_fd r) s1) as [[m s2]| |]; [|done..].
  rewrite (same_config_commit w w') by done.
  destruct (prepareCommitAndFetch w _ _ _ _ _) as [[r1 m']|]; [|done]. cbn in *. by injection Ecom as <- <-.
Qed.

Lemma total_serve_one t tag b n :
  total (at_pc t (PHold tag) n) (serve_one be charFD tag t b) (fun x => at_pc x.1 PPeek (S n)).
Proof.
  intros s Hs. destruct (serve_one_runs t tag b n s Hs) as (d & res & w' & b' & r & r' & s' & _ & _ & _ & E & Ha & _).
  by eexists _, _.
Qed.

(** Where the inner loop leaves the worker: with commits to submit, or
    returned. *)
Definition batch_post (x : thread * B * bool) (s : st K) : Prop :=
  if x.2 then exists l n, at_pc x.1.1 (PDone l) n s
  else exists n, n <> 0%nat /\ at_pc x.1.1 PSubmit n s.

Lemma triple_serve_batch fuel : forall c t b n,
  triple (at_pc t (PGot c) n) (serve_batch be fuel charFD c t b) batch_post.
Proof.
  induction fuel as [|fuel IH]; intros c t b n; [done|]. cbn [serve_batch].
  apply triple_ring. intros r Hc Hh Hr.
  eapply triple_bind; [apply triple_Seen|]. intros []. case_decide.
  { apply triple_ret. intros s Ha. exists [u16 (c_UserData c)], n. by apply (at_pc_intro _ r). }
  eapply triple_bind.
  { eapply triple_pre; [|apply total_triple, (total_serve_one t _ b n)].
    intros s Ha. by apply (at_pc_intro _ r). }
  intros [t' b']. apply triple_ring. intros r' Hc' Hh' Hr'.
  eapply triple_bind; [apply triple_Peek|]. intros [c'|].
  - eapply triple_pre; [|apply (IH c' t' b' (S n))]. intros s Ha. by apply (at_pc_intro _ r').
  - apply triple_ret. intros s Ha. exists (S n). split; [done|]. by apply (at_pc_intro _ r').
Qed.

Lemma triple_run_iter fuel t b :
  triple (at_pc t PWait 0) (run_iter be fuel charFD t b)
    (fun x s => if x.2 then exists l n, at_pc x.1.1 (PDone l) n s else at_pc x.1.1 PWait 0 s).
Proof.
  unfold run_iter. apply triple_ring. intros r Hc Hh Hr.
  eapply triple_bind; [apply triple_WaitCQE|]. intros [c|e].
  2:{ apply triple_ret. intros s Ha. exists [], 0%nat. by apply (at_pc_intro _ r). }
  eapply triple_bind.
  { eapply triple_pre; [|apply (triple_serve_batch fuel c t b 0)]. intros s Ha. by apply (at_pc_intro _ r). }
  intros [[t' b'] [|]]; [by apply triple_ret|]. apply triple_exists. intros n. apply triple_pure. intros Hn.
  cbn [fst snd]. apply triple_ring. intros r' Hc' Hh' Hr'.
  eapply triple_bind; [by apply triple_Submit_At|]. intros [r2 [y|e]]; apply triple_ret; intros s Ha.
  - by apply (at_pc_intro _ r2).
  - exists [], 0%nat. by apply (at_pc_intro _ r2).
Qed.

Lemma triple_run_loop fuel : forall t b,
  triple (at_pc t PWait 0) (run_loop be fuel charFD t b)
    (fun x s => t_running x.1 = false /\ exists l n, at_pc x.1 (PDone l) n s).
Proof.
  induction fuel as [|fuel IH]; intros t b; [done|]. cbn [run_loop].
  eapply triple_bind; [apply triple_run_iter|]. intros [[t' b'] [|]]; cbn [fst snd]; [|apply IH].
  by apply triple_ret.
Qed.

(** ** The inner loop ends *)

(** A completion in hand leaves fewer commits prepared than there are tags. *)
Lemma got_pending r c n s : At r (PGot c) n s -> Z.of_nat n < w_depth w.
Proof.
  intros Ha. destruct (At_inv _ _ _ _ Ha) as (hist & Hi & _). destruct Ha as (_ & _ & <- & _).
  pose proof (inv_length w Hw _ Hi) as Hl. rewrite all_tags_length in Hl.
  destruct (got_head w Hw _ c Hi eq_refl) as [Ec _]. rewrite Ec in Hl. cbn in *. lia.
Qed.

Lemma live_Seen r : live (Seen (K := K) r).
Proof. unfold Seen, on_shm, store_shm. solve_live. Qed.
Lemma live_Peek r : live (Peek (K := K) r).
Proof. unfold Peek. solve_live. Qed.

Lemma total_ring {A} t p n (f : Ring -> M K A) Q :
  (forall r, same_config w (t_w t) -> t_descs t = Some h -> t_ring t = Some r ->
     total (At r p n) (f r) Q) ->
  total (at_pc t p n) (r ← must (t_ring t); f r) Q.
Proof.
  intros Hf s (Hc & Hh & r & Hr & Ha). rewrite Hr. unfold must, mbind, M_bind, mret, M_ret.
  by apply Hf.
Qed.

Lemma total_serve_batch fuel : forall c t b n,
  w_depth w <= Z.of_nat (fuel + n) ->
  total (at_pc t (PGot c) n) (serve_batch be fuel charFD c t b) batch_post.
Proof.
  induction fuel as [|fuel IH]; intros c t b n Hf.
  { intros s (_ & _ & r & _ & Ha). apply got_pending in Ha. lia. }
  cbn [serve_batch]. apply total_ring. intros r Hc Hh Hr.
  eapply total_bind; [apply total_of; [apply triple_Seen|apply live_Seen]|]. intros []. case_decide.
  { apply total_ret. intros s Ha. exists [u16 (c_UserData c)], n. by apply (at_pc_intro _ r). }
  eapply total_bind.
  { intros s Ha. apply (total_serve_one t _ b n). by apply (at_pc_intro _ r). }
  intros [t' b']. apply total_ring. intros r' Hc' Hh' Hr'.
  eapply total_bind; [apply total_of; [apply triple_Peek|apply live_Peek]|]. intros [c'|].
  - intros s Ha. apply (IH c' t' b' (S n)); [lia|]. by apply (at_pc_intro _ r').
  - apply total_ret. intros s Ha. exists (S n). split; [done|]. by apply (at_pc_intro _ r').
Qed.
End Refines.

(** ** From the FETCH commands to the loop *)

(** [worker.run]: submit what [init] prepared, then serve.  The error is the
    one sent on [ready]. *)
Definition run {K} `{Kernel K} {B} (be : Backend B) (fuel : nat) (charFD : Z) (t : thread) (b : B) :
    M K (thread * B * option goerr) :=
  '(t, e) ← run_start t;
  match e with
  | Some e => mret (t, b, Some e)
  | None => '(t, b) ← run_loop be fuel charFD t b; mret (t, b, None)
  end.

Lemma posts_nil r m v : rtc (posts r) ([], m) v -> v = ([], m).
Proof.
  intros Hp. inversion Hp as [|x y z Hs _]; subst; [done|].
  inversion Hs as [a1 tag a2 res m' E]. by destruct a1.
Qed.

Section Start.
Context (w : worker) (charFD : Z) (Hw : worker_wf w).
Context {K : Type} `{Kernel K} (r0 : Ring) (h : Z) `{!QueueKernel K w r0 h}.
Context (m0 : shm) (Hfresh : fresh_ring w r0 m0).
Abbreviation fd := (r_fd r0).

(** The thread and the kernel are in a reachable state of the protocol: its
    ring is the thread's, its memory and armed tags the kernel's. *)
Definition linked (t : thread) (p : pc) (s : st K) : Prop :=
  same_config w (t_w t) /\ t_descs t = Some h /\
  length (k_user (w_poolAddr w) (kern s)) = length (w_bufPool w) /\
  exists ps, reachable w charFD r0 m0 ps /\ p_pc ps = p /\
    same_ring r0 (p_r ps) /\ t_ring t = Some (p_r ps) /\
    p_m ps = k_shm fd (kern s) /\ p_armed ps = q_armed (kern s).

Lemma linked_at s0 t p n s :
  start_state w charFD r0 m0 = Some s0 -> at_pc w charFD r0 h s0 t p n s -> linked t p s.
Proof.
  intros E (Hc & Hh & r & Hr & Hs & Hl & _ & hist & Hst). split; [done|]. split; [done|]. split; [done|].
  eexists. split_and!; [split; [done|]; split; [done|]; by exists s0|done..].
Qed.

Lemma at_linked t p s :
  linked t p s ->
  exists s0 n, start_state w charFD r0 m0 = Some s0 /\ proto_inv w s0 /\
    at_pc w charFD r0 h s0 t p n s /\ (p = PWait -> n = 0%nat).
Proof.
  intros (Hc & Hh & Hl & ps & Hre & Hp & Hs & Hr & Hm & Ha).
  destruct (reachable_inv _ _ _ _ _ Hre) as [_ Hi]. pose proof (pi_wait w ps Hi) as Hwait.
  destruct Hre as (_ & _ & s0 & E & Hst). destruct ps as [r m pc armed hist]. cbn in *. subst.
  exists s0, (length (pending r (k_shm fd (kern s)))). split_and!; [done|by eapply starts_inv| |].
  - apply (at_pc_intro _ _ _ _ _ _ r); [done..|]. split; [done|]. split; [done|]. split; [done|]. by exists hist.
  - intros ->. by rewrite Hwait.
Qed.

(** Triples from a point of the loop, for any protocol run that leads to it. *)
Lemma linked_triple {A} t p (c : M K A) (Q : A -> st K -> Prop) :
  (forall s0 n, start_state w charFD r0 m0 = Some s0 -> proto_inv w s0 -> (p = PWait -> n = 0%nat) ->
     triple (at_pc w charFD r0 h s0 t p n) c Q) ->
  triple (linked t p) c Q.
Proof.
  intros Hc s Hl. destruct (at_linked t p s Hl) as (s0 & n & E0 & Hi & Ha & Hn). by apply (Hc s0 n).
Qed.

(** Before the first submission the kernel holds no tag, so the memory is the
    program's. *)
Definition idle (m : shm) (s : st K) : Prop :=
  q_armed (kern s) = [] /\ k_shm fd (kern s) = m /\
  length (k_user (w_poolAddr w) (kern s)) = length (w_bufPool w).

Lemma triple_load_idle m : triple (idle m) (load_shm fd) (fun x s => x = m /\ idle m s).
Proof.
  intros s (Ha & Hm & Hl). cbn. destruct (qk_async (kern s)) as [Hp Hl'].
  rewrite Ha, Hm in Hp. apply posts_nil in Hp. injection Hp as Ha' Hm'.
  split; [done|]. split; [done|]. split; [done|]. cbn. congruence.
Qed.

Lemma triple_arm_idle :
  triple (idle m0) (arm w charFD r0)
    (fun r s => exists m, prepare_fetches w charFD r0 m0 = Some (r, m) /\ idle m s).
Proof.
  eapply triple_bind; [apply triple_load_idle|]. intros m s [-> Hid].
  destruct (prepare_fetches_same w charFD r0 m0 Hw) as ([r m] & E & hd & tl & Hr). cbn in Hr.
  rewrite E. cbn. exists m. split; [done|]. destruct Hid as (Ha & _ & Hl).
  assert (r_fd r = fd) as -> by (by rewrite Hr).
  destruct (qk_store (w := w) (r := r0) (h := h) m (kern s)) as (E1 & E2 & E3).
  split; [cbn; congruence|]. split; [done|]. cbn; congruence.
Qed.

Lemma triple_run_start_At t r m1 :
  same_config w (t_w t) -> t_descs t = Some h -> t_ring t = Some r ->
  prepare_fetches w charFD r0 m0 = Some (r, m1) ->
  triple (idle m1) (run_start t)
    (fun x s => match x.2 with
                | None => t_running x.1 = true /\ linked x.1 PWait s
                | Some _ => t_running x.1 = false
                end).
Proof.
  intros Hc Hh Hr Ef. destruct Hfresh as [Hsq _ Hent Hpub Hpend _].
  destruct (fetches_flushed w charFD r0 m0 Hw Hsq Hpub Hpend (proj1 Hent))
    as (r1 & m1' & r2 & m2 & Ef' & E2 & Epub & Etags & _ & Ep2).
  rewrite Ef in Ef'. injection Ef' as <- <-.
  destruct (prepare_fetches_cq _ _ _ _ _ _ Ef) as (S1 & _). destruct (flushSQ_cq _ _ _ _ _ E2) as (S2 & _).
  assert (Hs : same_ring r0 r2) by (by eapply same_ring_trans).
  assert (Hfd1 : r_fd r = fd) by (by destruct S1 as (? & ? & ->)).
  assert (Hfd2 : r_fd r2 = fd) by (by destruct Hs as (? & ? & ->)).
  intros s Hid. unfold run_start. rewrite Hr. unfold SubmitAndWait, flush, on_shm.
  pose proof (triple_load_idle m1 s Hid) as Hld. unfold must, mbind, M_bind, mret, M_ret in *. rewrite Hfd1.
  destruct (load_shm fd s) as [[m s1]| |]; [|done..]. destruct Hld as [-> (Ha & Hm & Hl)].
  rewrite E2. unfold store_shm, modify, call. cbn. rewrite Hfd2.
  destruct (qk_store (w := w) (r := r0) (h := h) m2 (kern s1)) as (Q1 & Q2 & Q3).
  destruct (k_enter fd _ _ _) as [[x|e] k'] eqn:Ek; [|done]. cbn. split; [done|].
  destruct (qk_entered (w := w) (h := h) _ _ _ _ _ Ek) as (armed & m & Hp1 & Hp2 & Hl').
  { rewrite Q2, <- (published_same r0 r2) by done. rewrite Epub, length_fmap, length_seqZ.
    pose proof (ww_depth w Hw). lia. }
  rewrite Q1, Q2, Ha in Hp1. apply posts_nil in Hp1. injection Hp1 as -> ->. cbn in Hp2.
  rewrite <- (published_same r0 r2), <- (take_all_same r0 r2) in Hp2 by done.
  set (s0 := mk_pstate r2 (take_all r2 m2) PWait (stags (published r2 m2)) []).
  assert (E0 : start_state w charFD r0 m0 = Some s0).
  { unfold start_state. rewrite Ef. cbn. by rewrite E2. }
  destruct (posts_steps w charFD r0 r2 PWait _ _ [] Hs Hp2) as (hist & Hst).
  pose proof (posts_pending _ r2 _ _ Hp2) as Q4. cbn [fst snd] in Q4.
  apply (linked_at s0 _ _ 0 _ E0). apply (at_pc_intro _ _ _ _ _ _ r2); [done..|].
  split; [done|]. split; [cbn; congruence|]. split; [|by exists hist].
  cbn [kern]. rewrite Q4. change (pending r2 (take_all r2 m2)) with (pending r2 m2). by rewrite Ep2.
Qed.
End Start.

(** ** A driver

    A concrete kernel for the worker [w] behind the ring [r]: it completes the
    commands it holds in order, with the results of [d_todo] and the requests
    [ds], whenever the worker waits, and signals the cancel descriptor when there are none left. *)
Record driver := mk_driver {
  d_shm : shm; d_armed : list Z; d_todo : list Z; d_pool : list Z }.

Section Driver.
Context (r : Ring) (ds : list ioDesc).

Definition driver_post (k : driver) : driver :=
  match d_armed k, d_todo k with
  | tag :: armed, res :: todo =>
    mk_driver (post_cqe r (mk_CQE tag res 0) (d_shm k)) armed todo (d_pool k)
  | _, _ => k
  end.

Definition driver_enter (n : Z) (k : driver) : result Z Z * driver :=
  (Ok n, mk_driver (take_all r (d_shm k)) (d_armed k ++ stags (published r (d_shm k)))
           (d_todo k) (d_pool k)).

Definition driver_kernel : Kernel driver := {|
  k_open _ _ k := (Err ENOENT, k); k_close _ k := (None, k);
  k_uring_setup _ _ k := (Err ENOENT, k);
  k_enter _ n _ := driver_enter n;
  k_mmap _ _ _ k := (Err ENOENT, k); k_munmap _ k := (None, k);
  k_eventfd k := (Err ENOENT, k); k_epoll_create k := (Err ENOENT, k); k_epoll_add _ _ k := (None, k);
  k_epoll_wait _ k :=
    match d_todo k with [] => (Ok [r_cancelFD r], k) | _ => (Ok [r_fd r], driver_post k) end;
  k_event_write _ k := k; k_async k := k;
  k_shm _ := d_shm;
  k_set_shm _ m k := mk_driver m (d_armed k) (d_todo k) (d_pool k);
  k_bytes _ _ := desc_image ds;
  k_pin _ k := (0, k);
  k_user _ := d_pool;
  k_user_set _ bs k := mk_driver (d_shm k) (d_armed k) (d_todo k) bs;
  k_alloc _ := 0; k_getpid _ := 1; k_sleep k := k |}.

Lemma driver_post_posts k :
  rtc (posts r) (d_armed k, d_shm k) (d_armed (driver_post k), d_shm (driver_post k)) /\
  d_pool (driver_post k) = d_pool k.
Proof.
  destruct k as [m [|tag armed] [|res todo] pool]; try (split; [apply rtc_refl|done]).
  split; [|done]. apply rtc_once, (posts_one r [] tag armed res m).
Qed.

#[local] Existing Instance driver_kernel.

Definition driver_queue (w : worker) (h : Z) :
  Z.of_nat (length ds) = w_depth w -> Forall (fun d => go_wf d = true /\ desc_fits d) ds ->
  QueueKernel driver w r h.
Proof.
  intros Hl Hd. refine (Build_QueueKernel _ _ w r h d_armed _ _ _ _ _ _ _); cbn -[getDesc].
  - intros k. split; [apply rtc_refl|done].
  - intros _ k. destruct (driver_post_posts k) as [Hp Hq].
    destruct (d_todo k); [split; [apply rtc_refl|done]|]. cbn. by rewrite Hq.
  - done.
  - done.
  - done.
  - intros n fl k x k' [= _ <-] _. exists (d_armed k), (d_shm k). split; [apply rtc_refl|].
    split; [apply rtc_refl|done].
  - intros tag k Ht. destruct (lookup_lt_is_Some_2 ds (Z.to_nat tag) ltac:(lia)) as [d E].
    pose proof (Forall_lookup_1 _ _ _ _ Hd E) as [Hwf Hf]. exists d. split; [|done].
    apply (getDesc_image _ ds); [|done|lia|done]. eapply Forall_impl; [exact Hd|]. by intros x [].
Defined.
End Driver.

(** The sample worker, its ring and two requests for its only tag. *)
Definition sample_driver : driver :=
  mk_driver (sample_shm 4) [] [0; 0] (zeros 4096).
Definition sample_thread : thread :=
  mk_thread (set_ring (Some (sample_ring 4)) (sample_worker sample_desc)) (Some 8) false.

#[export] Instance sample_driver_kernel : Kernel driver := driver_kernel (sample_ring 4) [sample_desc].
#[export] Instance sample_driver_queue :
  QueueKernel driver (sample_worker sample_desc) (sample_ring 4) 8.
Proof.
  apply driver_queue; [done|]. repeat constructor; cbn; lia.
Defined.

(** ** Theorems *)


Definition sample_run : M driver (thread * unit * option goerr) :=
  r' ← arm (sample_worker sample_desc) 9 (sample_ring 4);
  run stubBackend 10 9 (with_ring (Some r') sample_thread) tt.

Lemma sample_run_returns :
  match sample_run (mk_st sample_driver []) with
  | Val ((_, None), s) => d_todo (kern s) = []
  | _ => False
  end.
Proof. vm_compute. reflexivity. Qed.


(** C10: The batch ends.  However the kernel keeps posting completions while the
    worker serves, the inner loop of [run] is over after at most [depth]
    requests: it always returns, without a panic, either with commits to submit
    or with the worker returned because the kernel aborted a tag. *)
Theorem batch_terminates {K} `{Kernel K} (w : worker) (charFD : Z) (r : Ring) (h : Z) (m : shm)
    `{!QueueKernel K w r h} {B} (be : Backend B) c t b :
  worker_wf w -> fresh_ring w r m -> never_panics be ->
  total (linked w charFD r h m t (PGot c)) (serve_batch be (Z.to_nat (w_depth w)) charFD c t b)
    (fun '(t', _, ret) s => if (ret : bool) then exists l, linked w charFD r h m t' (PDone l) s
                            else linked w charFD r h m t' PSubmit s).
Proof.
  intros Hw Hf Hbe s Hl. destruct (at_linked w charFD Hw r h m Hf t (PGot c) s Hl) as (s0 & n & E0 & Hi & Ha & _).
  destruct (total_serve_batch w charFD Hw r h s0 Hi be Hbe (Z.to_nat (w_depth w)) c t b n ltac:(lia) s Ha)
    as ([[t' b'] ret] & s' & E & Hp).
  exists (t', b', ret), s'. split; [exact E|]. destruct ret.
  - destruct Hp as (l & n' & Hp). exists l. by eapply linked_at.
  - destruct Hp as (n' & _ & Hp). by eapply linked_at.
Qed.

(** The sample worker with a completion in hand, and then with its tag. *)
Definition sample_at (f : Ring -> shm -> shm) (s : pstate) : thread * st driver :=
  (with_ring (Some (p_r s)) sample_thread,
   mk_st (mk_driver (f (p_r s) (post_cqe (p_r s) (mk_CQE 0 0 0) (p_m s))) [] [] (zeros 4096)) []).

Lemma sample_start_shape s :
  sample_start = Some s ->
  s = mk_pstate (p_r s) (p_m s) PWait ([] ++ 0 :: []) [] /\ same_ring (sample_ring 4) (p_r s) /\
  PeekCQE (p_r s) (post_cqe (p_r s) (mk_CQE 0 0 0) (p_m s)) = Some (mk_CQE 0 0 0).
Proof.
  unfold sample_start. intros E. vm_compute in E. injection E as <-.
  split; [reflexivity|]. split; [by exists 1, 1|]. vm_compute. reflexivity.
Qed.

Lemma sample_linked (f : Ring -> shm -> shm) p s :
  sample_start = Some s ->
  rtc (step (sample_worker sample_desc) 9)
    (mk_pstate (p_r s) (post_cqe (p_r s) (mk_CQE 0 0 0) (p_m s)) (PGot (mk_CQE 0 0 0)) [] [Posted 0])
    (mk_pstate (p_r s) (f (p_r s) (post_cqe (p_r s) (mk_CQE 0 0 0) (p_m s))) p [] [Posted 0]) ->
  linked (sample_worker sample_desc) 9 (sample_ring 4) 8 (sample_shm 4) (sample_at f s).1 p (sample_at f s).2.
Proof.
  intros E Hst. destruct (sample_start_shape s E) as (Es & Hs & Ep).
  split; [done|]. split; [done|]. split; [done|].
  exists (mk_pstate (p_r s) (f (p_r s) (post_cqe (p_r s) (mk_CQE 0 0 0) (p_m s))) p [] [Posted 0]).
  split; [|done]. split; [apply sample_worker_wf|]. split; [apply sample_fresh|]. exists s. split; [done|].
  rewrite Es at 1. eapply rtc_l; [left; apply (KPost _ _ _ [] 0 [] _ 0)|].
  eapply rtc_l; [right; apply WWait, Ep|]. exact Hst.
Qed.

Lemma batch_terminates_witness : exists s x s',
  sample_start = Some s /\
  serve_batch stubBackend 1 9 (mk_CQE 0 0 0) (sample_at (fun _ m => m) s).1 tt
    (sample_at (fun _ m => m) s).2 = Val (x, s').
Proof.
  destruct sample_start as [s|] eqn:E; [|vm_compute in E; discriminate].
  destruct (batch_terminates (sample_worker sample_desc) 9 (sample_ring 4) 8 (sample_shm 4) stubBackend
    (mk_CQE 0 0 0) (sample_at (fun _ m => m) s).1 tt (sample_worker_wf sample_desc) sample_fresh stub_never_panics
    (sample_at (fun _ m => m) s).2) as (x & s' & Ex & _).
  - apply (sample_linked _ _ s E). apply rtc_refl.
  - exists s, x, s'. split; [reflexivity|exact Ex].
Defined.

(** C4: Each request in the loop gets its answer.  With a tag in hand, one
    iteration of the inner loop reads that tag's descriptor from the memory the
    kernel shares, makes exactly the backend call it asks for (or none, when
    the request is empty, unsupported or too large), and appends to the
    submission queue exactly one COMMIT_AND_FETCH, for this tag, this tag's
    buffer and the result those calls mean; completions the kernel posts
    meanwhile change nothing of it. *)
Theorem loop_answers_request {K} `{Kernel K} (w : worker) (charFD : Z) (r : Ring) (h : Z) (m : shm)
    `{!QueueKernel K w r h} {B} (be : Backend B) t tag b l s :
  worker_wf w -> fresh_ring w r m -> never_panics be ->
  linked w charFD r h m t (PHold tag) s ->
  exists d res calls t' b' r1 r2 s',
    getDesc (set_descs (Some (k_bytes h (kern s))) (t_w t)) tag = Some d /\
    serve_one (logged be) charFD tag t (b, l) s = Val ((t', (b', l ++ calls)), s') /\
    answered be w d calls res /\
    t_ring t = Some r1 /\ t_ring t' = Some r2 /\
    pending r2 (k_shm (r_fd r) (kern s')) =
      pending r1 (k_shm (r_fd r) (kern s)) ++ [commit_sqe w charFD tag res] /\
    linked w charFD r h m t' PPeek s'.
Proof.
  intros Hw Hf Hbe Hl.
  destruct (at_linked w charFD Hw r h m Hf t (PHold tag) s Hl) as (s0 & n & E0 & Hi & Ha & _).
  destruct (serve_one_runs w charFD Hw r h s0 Hi (logged be) (logged_never_panics be Hbe) t tag (b, l) n s Ha)
    as (d & res & w' & [b' l'] & r1 & r2 & s' & Hg & Hd & Eh & Es & Ha' & Hr1 & Hp).
  set (w1 := set_pool _ _) in Eh.
  pose proof Ha as (Hc & _ & r1' & Hr1' & At1). destruct (At_inv w charFD Hw r h s0 Hi _ _ _ _ At1) as (hist & Hi1 & _).
  destruct (hold_room w Hw _ tag Hi1 eq_refl) as [Ht _]. destruct At1 as (_ & Hlen & _).
  assert (Hw1 : worker_wf w1) by (by apply (same_config_wf w)).
  destruct (handleIO_answered be w1 tag d b l res w' b' l' Hw1) as (calls & -> & Hans); [|done..|].
  { destruct Hc as (_ & Hdep & _). cbn. by rewrite Hdep. }
  eexists d, res, calls, _, b', r1, r2, s'. split_and!; [done|exact Es| |done|done|done|by eapply linked_at].
  destruct Hc as (_ & _ & Hsz & _). destruct Hans; [by apply ans_empty|by apply ans_unsupported| |by eapply ans_served].
  apply ans_oversize; [done|done|]. cbn in *. by rewrite <- Hsz.
Qed.

Lemma loop_answers_request_witness : exists s d res calls t' b' s',
  sample_start = Some s /\
  serve_one (logged stubBackend) 9 0 (sample_at SeenCQE s).1 (tt, []) (sample_at SeenCQE s).2 =
    Val ((t', (b', [] ++ calls)), s') /\
  answered stubBackend (sample_worker sample_desc) d calls res.
Proof.
  destruct sample_start as [s|] eqn:E; [|vm_compute in E; discriminate].
  destruct (loop_answers_request (sample_worker sample_desc) 9 (sample_ring 4) 8 (sample_shm 4) stubBackend
    (sample_at SeenCQE s).1 0 tt [] (sample_at SeenCQE s).2
    (sample_worker_wf sample_desc) sample_fresh stub_never_panics)
    as (d & res & calls & t' & b' & r1 & r2 & s' & _ & Es & Ha & _).
  - apply (sample_linked _ _ s E). eapply rtc_l; [right; apply WSeen|]. apply rtc_refl.
  - exists s, d, res, calls, t', b', s'. split; [reflexivity|]. split; [exact Es|exact Ha].
Defined.
