(* ===== verification/Device.v ===== *)
(** * The device of [ublk/device.go] and [New] of [ublk/ublk.go]

    The control path: opening the control device, the ublk control commands
    over the control ring (with the fallback from ioctl-encoded to legacy
    opcodes), the character device, the parameters, start, stop and removal,
    and the two entry points [New] and [Close] composed of them.

    [New] runs the control goroutine; the worker goroutine it starts is the
    [thread] of [WorkerRun], whose loop touches none of the resources followed
    here. *)

From stdpp Require Import pretty.
From S2P Require Import Prelude GoLayout Types Uring Config Backend Worker Kernel Sim RingOps WorkerRun.

(** ** State *)

Record Device := mk_Device {
  d_id : Z; d_ctrlFD : Z; d_charFD : Z; d_ctrlRing : option Ring;
  d_info : devInfo; d_discarder : bool; d_zeroer : bool; d_useIoctl : bool;
  d_workers : list thread; d_closed : bool }.

Definition set_ctrl (fd : Z) (r : option Ring) (d : Device) : Device :=
  mk_Device (d_id d) fd (d_charFD d) r (d_info d) (d_discarder d) (d_zeroer d) (d_useIoctl d)
    (d_workers d) (d_closed d).
Definition set_ctrlRing (r : option Ring) (d : Device) : Device := set_ctrl (d_ctrlFD d) r d.
Definition set_charFD (fd : Z) (d : Device) : Device :=
  mk_Device (d_id d) (d_ctrlFD d) fd (d_ctrlRing d) (d_info d) (d_discarder d) (d_zeroer d)
    (d_useIoctl d) (d_workers d) (d_closed d).
Definition set_added (info : devInfo) (useIoctl : bool) (d : Device) : Device :=
  mk_Device (di_DevID info) (d_ctrlFD d) (d_charFD d) (d_ctrlRing d) info (d_discarder d)
    (d_zeroer d) useIoctl (d_workers d) (d_closed d).
Definition set_workers (ws : list thread) (d : Device) : Device :=
  mk_Device (d_id d) (d_ctrlFD d) (d_charFD d) (d_ctrlRing d) (d_info d) (d_discarder d)
    (d_zeroer d) (d_useIoctl d) ws (d_closed d).
Definition set_closed (d : Device) : Device :=
  mk_Device (d_id d) (d_ctrlFD d) (d_charFD d) (d_ctrlRing d) (d_info d) (d_discarder d)
    (d_zeroer d) (d_useIoctl d) (d_workers d) true.

Definition zero_info : devInfo := mk_devInfo 0 0 0 0 0 0 0 0 0 0 0 0 0 0.

Definition O_RDWR : Z := 2.
Definition O_CLOEXEC : Z := 0x80000.
Definition all_ones32 : Z := 2 ^ 32 - 1.
Definition all_ones16 : Z := 2 ^ 16 - 1.

(** ** Pure parts *)

Definition ctrlOp (d : Device) (ioctlCmd legacyCmd : Z) : Z :=
  if d_useIoctl d then ioctlCmd else legacyCmd.

Definition Path (d : Device) : string :=
  if decide (d_id d < 0) then "" else "/dev/ublkb" +:+ pretty (d_id d).

(** The entry [ctrlCommand] fills in. *)
Definition ctrl_sqe (ctrlFD cmdOp : Z) (cmd : ctrlCmd) : SQE :=
  mk_SQE OpUringCmd 0 0 (i32 ctrlFD) cmdOp 0 0 0 0 0 0 0 (copy (zeros 80) (bytes_of cmd)).

(** The parameters [setParams] sends. *)
Definition params_for (d : Device) (size : Z) (cfg : config) (maxSectors : Z) : ublkParams :=
  let bsShift := u8 (TrailingZeros32 (blockSize cfg)) in
  let basic := mk_paramBasic 0 bsShift bsShift bsShift bsShift maxSectors 0 (size / 512) 0 in
  let maxSect := Z.shiftl 1 21 in
  let '(types, discard) :=
    if d_discarder d || d_zeroer d then
      (Z.lor paramTypeBasic paramTypeDiscard,
       mk_paramDiscard 0 (blockSize cfg) (if d_discarder d then maxSect else 0)
         (if d_zeroer d then maxSect else 0) 1 0)
    else (paramTypeBasic, mk_paramDiscard 0 0 0 0 0 0) in
  mk_ublkParams (u32 (Sizeof ublkParams)) types basic discard
    (mk_paramDevt 0 0 0 0) (mk_paramZoned 0 0 0 (zeros 20)).

(** The [devInfo] and the command of [addDev]. *)
Definition add_info (queues depth maxIOBuf : Z) : devInfo :=
  mk_devInfo queues depth 0 0 maxIOBuf all_ones32 0 0 flagCmdIoctlEncode 0 0 0 0 0.
Definition clear_flags (i : devInfo) : devInfo :=
  mk_devInfo (di_NrHWQueues i) (di_QueueDepth i) (di_State i) (di_Pad0 i) (di_MaxIOBufBytes i)
    (di_DevID i) (di_UblksrvPID i) (di_Pad1 i) 0 (di_UblksrvFlags i) (di_OwnerUID i)
    (di_OwnerGID i) (di_Reserved1 i) (di_Reserved2 i).
Definition add_cmd (addr : Z) : ctrlCmd :=
  mk_ctrlCmd all_ones32 all_ones16 (u16 sizeofDevInfo) (u64 addr) [0] 0 0 0.
Definition dev_cmd (d : Device) (len addr data : Z) : ctrlCmd :=
  mk_ctrlCmd (u32 (d_id d)) all_ones16 len addr [data] 0 0 0.

(** ** Control commands *)

Section Control.
Context {K : Type} `{Kernel K} (fuel : nat).

Definition ctrlCommand (cmdOp : Z) (cmd : ctrlCmd) (d : Device) : M K (Device * option goerr) :=
  r ← must (d_ctrlRing d);
  '(sqe, r) ← on_shm r (GetSQE128 r);
  let d := set_ctrlRing (Some r) d in
  match sqe with
  | None => mret (d, Some (Msg "control ring SQ full"))
  | Some ptr =>
    on_shm r (fun m => ((), st_sqe ptr (ctrl_sqe (d_ctrlFD d) cmdOp cmd) m));;
    log (Ctrl cmdOp cmd);;
    '(r, x) ← Submit r;
    let d := set_ctrlRing (Some r) d in
    match x with
    | Err e => mret (d, Some e)
    | Ok _ =>
      c ← WaitCQE fuel r;
      match c with
      | Err e => mret (d, Some e)
      | Ok cqe =>
        let res := c_Res cqe in
        Seen r;;
        if decide (res < 0)
        then mret (d, Some (Wrap "ublk control cmd" (Errno (u64 (i32 (- res))))))
        else mret (d, None)
      end
    end
  end.

(** The pinned [info], as the kernel left it. *)
Definition read_info (addr : Z) : M K devInfo :=
  bs ← gets (k_user addr); must (of_bytes bs).

Definition addDev (queues depth maxIOBuf : Z) (d : Device) : M K (Device * option goerr) :=
  addr ← call (k_pin (bytes_of (add_info queues depth maxIOBuf)));
  let cmd := add_cmd addr in
  '(d, err) ← ctrlCommand uCmdAddDev cmd d;
  match err with
  | Some err =>
    info ← read_info addr;
    modify (k_user_set addr (bytes_of (clear_flags info)));;
    '(d, err2) ← ctrlCommand cmdAddDev cmd d;
    match err2 with
    | Some err2 => mret (d, Some (Wrap2 "ADD_DEV failed" err err2))
    | None => info ← read_info addr; mret (set_added info false d, None)
    end
  | None => info ← read_info addr; mret (set_added info true d, None)
  end.

(** The retry loop of [openCharDev]; [err] is the error of the previous try. *)
Fixpoint open_tries (n : nat) (path : string) (err : Z) : M K (result goerr Z) :=
  match n with
  | O => mret (Err (Wrap ("char device " +:+ path +:+ " not created") (Errno err)))
  | S n =>
    x ← sys_open path (Z.lor O_RDWR O_CLOEXEC);
    match x with
    | Ok fd => mret (Ok fd)
    | Err e =>
      if is_errno ENOENT e then modify k_sleep;; open_tries n path e
      else mret (Err (Wrap ("open " +:+ path) (Errno e)))
    end
  end.

Definition openCharDev (d : Device) : M K (Device * option goerr) :=
  x ← open_tries 50 ("/dev/ublkc" +:+ pretty (d_id d)) 0;
  match x with
  | Ok fd => mret (set_charFD fd d, None)
  | Err e => mret (d, Some e)
  end.

Definition setParams (size : Z) (cfg : config) (maxSectors : Z) (d : Device) :
    M K (Device * option goerr) :=
  let params := params_for d size cfg maxSectors in
  addr ← call (k_pin (bytes_of params));
  ctrlCommand (ctrlOp d uCmdSetParams cmdSetParams)
    (dev_cmd d (u16 (up_Len params)) (u64 addr) 0) d.

Definition startDev (d : Device) : M K (Device * option goerr) :=
  pid ← gets k_getpid;
  ctrlCommand (ctrlOp d uCmdStartDev cmdStartDev) (dev_cmd d 0 0 (u64 pid)) d.
Definition stopDev (d : Device) : M K (Device * option goerr) :=
  ctrlCommand (ctrlOp d uCmdStopDev cmdStopDev) (dev_cmd d 0 0 0) d.
Definition delDev (d : Device) : M K (Device * option goerr) :=
  ctrlCommand (ctrlOp d uCmdDelDev cmdDelDev) (dev_cmd d 0 0 0) d.

(** ** Opening, closing *)

Context {B : Type} (be : Backend B).

Definition openDevice : M K (result goerr Device) :=
  x ← sys_open "/dev/ublk-control" O_RDWR;
  match x with
  | Err e => mret (Err (Wrap "open /dev/ublk-control" (Errno e)))
  | Ok fd =>
    y ← NewSQE128 4;
    match y with
    | Err e => sys_close fd;; mret (Err (Wrap "create control ring" e))
    | Ok ctrlRing =>
      mret (Ok (mk_Device (-1) fd (-1) (Some ctrlRing) zero_info
                  (bool_decide (is_Some (DiscardAt be))) (bool_decide (is_Some (WriteZeroesAt be)))
                  false [] false))
    end
  end.

(** [for _, w := range d.workers { w.ioRing.Cancel() }] *)
Fixpoint cancel_all (ts : list thread) : M K (list thread) :=
  match ts with
  | [] => mret []
  | t :: ts =>
    r ← must (t_ring t);
    r ← Cancel r;
    ts ← cancel_all ts;
    mret (with_ring (Some r) t :: ts)
  end.

(** [d.wg.Wait()]: every running worker runs on until it returns. *)
Fixpoint wait_all (charFD : Z) (ts : list thread) (b : B) : M K (list thread * B) :=
  match ts with
  | [] => mret ([], b)
  | t :: ts =>
    '(t, b) ← (if t_running t then run_loop be fuel charFD t b else mret (t, b));
    '(ts, b) ← wait_all charFD ts b;
    mret (t :: ts, b)
  end.

(** [for _, w := range d.workers { w.cleanup() }] *)
Fixpoint cleanup_all (ts : list thread) : M K (list thread) :=
  match ts with
  | [] => mret []
  | t :: ts => t ← cleanup t; ts ← cleanup_all ts; mret (t :: ts)
  end.

(** The workers' part of [shutdown]. *)
Definition stop_workers (d : Device) (b : B) : M K (Device * B) :=
  ts ← cancel_all (d_workers d);
  '(ts, b) ← wait_all (d_charFD d) ts b;
  ts ← cleanup_all ts;
  mret (set_workers ts d, b).

(** The four steps of [shutdown] after the workers are gone. *)
Definition close_char (d : Device) : M K Device :=
  if decide (0 <= d_charFD d) then sys_close (d_charFD d);; mret (set_charFD (-1) d) else mret d.
Definition remove (d : Device) : M K (Device * option goerr) :=
  '(d, _) ← stopDev d;
  if decide (0 <= d_id d) then delDev d else mret (d, None).
Definition close_ring (d : Device) : M K Device :=
  match d_ctrlRing d with
  | Some r => Close r;; mret (set_ctrlRing None d)
  | None => mret d
  end.
Definition close_ctrl (d : Device) : M K Device :=
  if decide (0 <= d_ctrlFD d) then sys_close (d_ctrlFD d);; mret (set_ctrl (-1) (d_ctrlRing d) d)
  else mret d.

Definition shutdown (d : Device) (b : B) : M K (Device * B * option goerr) :=
  '(d, b) ← stop_workers d b;
  d ← close_char d;
  '(d, err) ← remove d;
  d ← close_ring d;
  d ← close_ctrl d;
  mret (d, b, err).

(** [Close]: the body of [closeOnce.Do] runs at most once. *)
Definition Close (d : Device) (b : B) : M K (Device * B * option goerr) :=
  if d_closed d then mret (d, b, None) else shutdown (set_closed d) b.

(** ** [New] *)

(** The deferred error path: [cleanup(); return nil, fmt.Errorf(...)]. *)
Definition fail_with (msg : string) (e : goerr) (d : Device) (b : B) :
    M K (result goerr (Device * B)) :=
  shutdown d b;; mret (Err (Wrap msg e)).

Definition config_msg (e : config_error) : string :=
  match e with
  | ErrSizeZero => "size must be > 0"
  | ErrBlockSize => "block size must be a power of two >= 512"
  | ErrSizeMultiple => "size must be a multiple of block size"
  | ErrQueueDepth => "queue depth must be in [1, 4096]"
  | ErrMaxIOMultiple => "max IO size must be a positive multiple of block size"
  | ErrMaxIOCap => "max IO size exceeds 1 MiB cap"
  end.

(** The buffer size [New] derives from the kernel's answer. *)
Definition buf_size (d : Device) (cfg : config) : Z :=
  if decide (di_MaxIOBufBytes (d_info d) = 0) then maxIOSize cfg else di_MaxIOBufBytes (d_info d).

(** [New] from the worker on. *)
Definition new_worker (cfg : config) (bufSize : Z) (d : Device) (b : B) :
    M K (result goerr (Device * B)) :=
  '(t, e) ← init (d_charFD d) (thread_of (newWorker 0 (queueDepth cfg) bufSize));
  match e with
  | Some e => fail_with "init queue" e d b
  | None =>
    '(t, e) ← run_start t;
    let d := set_workers [t] d in
    match e with
    | Some e => fail_with "submit FETCH" e d b
    | None =>
      '(d, e) ← startDev d;
      match e with
      | Some e => fail_with "start device" e d b
      | None => mret (Ok (d, b))
      end
    end
  end.

(** [New] from the character device on. *)
Definition new_queue (size : Z) (cfg : config) (bufSize : Z) (d : Device) (b : B) :
    M K (result goerr (Device * B)) :=
  '(d, e) ← openCharDev d;
  match e with
  | Some e => fail_with "open char device" e d b
  | None =>
    '(d, e) ← setParams size cfg (u32 bufSize / 512) d;
    match e with
    | Some e => fail_with "set params" e d b
    | None => new_worker cfg bufSize d b
    end
  end.

(** [New] once the configuration is accepted and the device is open. *)
Definition new_device (size : Z) (cfg : config) (d : Device) (b : B) :
    M K (result goerr (Device * B)) :=
  '(d, e) ← addDev 1 (queueDepth cfg) (maxIOSize cfg) d;
  match e with
  | Some e => fail_with "add device" e d b
  | None => new_queue size cfg (buf_size d cfg) d b
  end.

Definition New (backend : iface B) (size : Z) (opts : list Option) : M K (result goerr (Device * B)) :=
  match isNilBackend backend, backend with
  | false, Dynamic _ _ b =>
    let cfg := apply_opts opts default_config in
    match validate cfg size with
    | Some e => mret (Err (Msg (config_msg e)))
    | None =>
      x ← openDevice;
      match x with
      | Err e => mret (Err e)
      | Ok d => new_device size cfg d b
      end
    end
  | _, _ => mret (Err (Msg "backend must not be nil"))
  end.
End Control.

(** ** Resources *)

Definition dev_fds (d : Device) : list Z :=
  match d_ctrlRing d with Some r => ring_fds r | None => [] end ++
  filter (fun fd => 0 <= fd) [d_ctrlFD d] ++ filter (fun fd => 0 <= fd) [d_charFD d] ++
  (d_workers d ≫= thread_fds).
Definition dev_maps (d : Device) : list Z :=
  match d_ctrlRing d with Some r => ring_maps r | None => [] end ++ (d_workers d ≫= thread_maps).

(** What the steps between opening and closing rely on: the control ring is
    there, and so is the ring of every worker. *)
Definition dev_open (d : Device) : Prop :=
  is_Some (d_ctrlRing d) /\ Forall (fun t => is_Some (t_ring t)) (d_workers d).

(** The control side is complete: the control descriptor and a ring with its
    three descriptors and three mappings. *)
Definition ctrl_full (d : Device) : Prop :=
  0 <= d_ctrlFD d /\
  exists r, d_ctrlRing d = Some r /\ length (ring_fds r) = 3%nat /\ length (ring_maps r) = 3%nat.

(** [d'] is [d] up to the local indices of its control ring. *)
Definition ctrl_same (d d' : Device) : Prop :=
  exists r r', d_ctrlRing d = Some r /\ same_ring r r' /\ d' = set_ctrlRing (Some r') d.

Lemma ctrl_same_fds d d' : ctrl_same d d' -> dev_fds d' = dev_fds d.
Proof.
  intros (r & r' & E & Hs & ->). unfold dev_fds. cbn. by rewrite E, (same_ring_fds r r' Hs).
Qed.
Lemma ctrl_same_maps d d' : ctrl_same d d' -> dev_maps d' = dev_maps d.
Proof.
  intros (r & r' & E & Hs & ->). unfold dev_maps. cbn. by rewrite E, (same_ring_maps r r' Hs).
Qed.
Lemma ctrl_same_open d d' : ctrl_same d d' -> dev_open d -> dev_open d'.
Proof. intros (r & r' & E & Hs & ->) [_ Hw]. by split; [eexists|]. Qed.
Lemma ctrl_same_full d d' : ctrl_same d d' -> ctrl_full d -> ctrl_full d'.
Proof.
  intros (r & r' & E & Hs & ->) [Hc (r0 & E0 & Hf & Hm)]. rewrite E in E0. injection E0 as <-.
  split; [done|]. exists r'. by rewrite (same_ring_fds r r' Hs), (same_ring_maps r r' Hs).
Qed.
Lemma ctrl_same_ring d d' : ctrl_same d d' -> is_Some (d_ctrlRing d').
Proof. intros (r & r' & _ & _ & ->). by eexists. Qed.
Lemma ctrl_same_trans d1 d2 d3 : ctrl_same d1 d2 -> ctrl_same d2 d3 -> ctrl_same d1 d3.
Proof.
  intros (r1 & r2 & E1 & H12 & ->) (r2' & r3 & E2 & H23 & ->). injection E2 as <-.
  exists r1, r3. split; [done|]. split; [by eapply same_ring_trans|done].
Qed.

(** A cancelled worker, and one that has returned. *)
Definition cancelled (t : thread) : thread := with_ring (set_cancelled true <$> t_ring t) t.
Definition stopped (t : thread) : thread := if t_running t then running false t else t.

Lemma cancelled_fds t : thread_fds (cancelled t) = thread_fds t.
Proof. unfold thread_fds, cancelled, t_ring. by destruct t as [[? ? ? [r|] ? ? ? ?] ? ?]. Qed.
Lemma cancelled_maps t : thread_maps (cancelled t) = thread_maps t.
Proof. unfold thread_maps, cancelled, t_ring. by destruct t as [[? ? ? [r|] ? ? ? ?] ? ?]. Qed.
Lemma stopped_fds t : thread_fds (stopped t) = thread_fds t.
Proof. unfold stopped. by destruct (t_running t). Qed.
Lemma stopped_maps t : thread_maps (stopped t) = thread_maps t.
Proof. unfold stopped. by destruct (t_running t). Qed.

Lemma bind_fmap_ext {A C} (f : A -> list C) (g : A -> A) l :
  (forall x, f (g x) = f x) -> (g <$> l) ≫= f = l ≫= f.
Proof.
  intros E. induction l as [|x l IH]; [done|]. cbn. rewrite E. f_equal. apply IH.
Qed.

(** Reading the pinned device information always succeeds. *)
Lemma info_decodes bs :
  Forall (is_u 8) bs ->
  exists i : devInfo, of_bytes bs = Some i /\ 0 <= di_DevID i < 2 ^ 32 /\
    0 <= di_MaxIOBufBytes i < 2 ^ 32.
Proof.
  intros Hb. eexists. split; [reflexivity|]. cbn [di_DevID di_MaxIOBufBytes].
  split; apply (le_value_range 4); by apply Forall_drop.
Qed.

Section DeviceTriples.
Context {K : Type} `{Kernel K} (fuel : nat).
Abbreviation own := (own (K := K)).

(** What a device holds on top of [F] and [G]. *)
Definition holds (F G : list Z) (d : Device) (s : st K) : Prop :=
  own (F ++ dev_fds d) (G ++ dev_maps d) s.

Lemma holds_nil F G d s : holds F G d s -> dev_fds d = [] -> dev_maps d = [] -> own F G s.
Proof. unfold holds. intros Ho E1 E2. by rewrite E1, E2, !app_nil_r in Ho. Qed.

Lemma triple_ctrlCommand op cmd d F G :
  is_Some (d_ctrlRing d) ->
  triple (own F G) (ctrlCommand fuel op cmd d) (fun x s => ctrl_same d x.1 /\ own F G s).
Proof.
  intros [r Er]. unfold ctrlCommand. rewrite Er.
  eapply triple_bind; [apply (triple_must _ (fun r' => r' = r)); by exists r|].
  intros r0. apply triple_pure. intros ->.
  eapply triple_bind; [apply (triple_on_shm r _ (fun x => same_ring r x.2)), GetSQE128_same|].
  intros [sqe r1]. apply triple_pure. cbn [snd]. intros H1.
  destruct sqe as [ptr|]; [|by apply triple_ret; intros s Ho; split; [exists r, r1|]].
  eapply triple_bind; [by apply (triple_on_shm r1 _ (fun _ => True))|].
  intros []. apply triple_pure. intros _.
  eapply triple_bind; [by apply frame_log|]. intros [].
  eapply triple_bind; [apply triple_Submit|]. intros [r2 x]. apply triple_pure. cbn [fst]. intros H2.
  assert (Hs : ctrl_same d (set_ctrlRing (Some r2) (set_ctrlRing (Some r1) d))).
  { exists r, r2. split; [done|]. split; [by eapply same_ring_trans|done]. }
  destruct x as [n|e]; [|by apply triple_ret].
  eapply triple_bind; [apply frame_WaitCQE|]. intros [c|e]; [|by apply triple_ret].
  eapply triple_bind; [apply frame_Seen|]. intros []. case_decide; by apply triple_ret.
Qed.

(** A step that changes only the control ring's indices keeps what the device
    holds. *)
Lemma triple_ctrl_step op cmd d F G :
  is_Some (d_ctrlRing d) ->
  triple (holds F G d) (ctrlCommand fuel op cmd d)
    (fun x s => ctrl_same d x.1 /\ holds F G x.1 s).
Proof.
  intros Ho. eapply triple_conseq; [by apply triple_ctrlCommand|done|].
  intros x s [Hs Hh]. unfold holds. by rewrite (ctrl_same_fds d x.1 Hs), (ctrl_same_maps d x.1 Hs).
Qed.

Lemma triple_startDev d F G :
  is_Some (d_ctrlRing d) ->
  triple (holds F G d) (startDev fuel d) (fun x s => ctrl_same d x.1 /\ holds F G x.1 s).
Proof.
  intros Hr. eapply triple_bind; [apply frame_gets|]. intros pid. by apply triple_ctrl_step.
Qed.

Lemma triple_setParams size cfg mx d F G :
  is_Some (d_ctrlRing d) ->
  triple (holds F G d) (setParams fuel size cfg mx d)
    (fun x s => ctrl_same d x.1 /\ holds F G x.1 s).
Proof.
  intros Hr. eapply triple_bind; [apply frame_call|]. intros addr. by apply triple_ctrl_step.
Qed.

Lemma triple_read_info addr F G `{!KernelLaws K} :
  triple (own F G) (read_info addr)
    (fun i s => ((0 <= di_DevID i < 2 ^ 32 /\ 0 <= di_MaxIOBufBytes i < 2 ^ 32) /\
                 exists k : K, of_bytes (k_user addr k) = Some i) /\ own F G s).
Proof.
  eapply triple_bind.
  { apply (triple_gets _ (fun bs => Forall (is_u 8) bs /\ exists k, bs = k_user addr k)).
    intros k. split; [apply kl_user|by exists k]. }
  intros bs. apply triple_pure. intros [Hb (k & ->)]. apply triple_must.
  destruct (info_decodes _ Hb) as (i & E & Hi). exists i. split; [done|]. split; [done|]. by exists k.
Qed.

(** The device after a successful ADD_DEV: its information is what the kernel
    wrote back. *)
Definition added (d : Device) : Prop :=
  0 <= d_id d < 2 ^ 32 /\ d_id d = di_DevID (d_info d) /\
  0 <= di_MaxIOBufBytes (d_info d) < 2 ^ 32 /\
  exists a (k : K), of_bytes (k_user a k) = Some (d_info d).

Lemma triple_finish_add addr useIoctl d F G `{!KernelLaws K} :
  dev_open d -> ctrl_full d ->
  triple (holds F G d) (info ← read_info addr; mret (set_added info useIoctl d, None))
    (fun (x : Device * option goerr) s =>
       (dev_open x.1 /\ ctrl_full x.1 /\ d_charFD x.1 = d_charFD d /\ d_workers x.1 = d_workers d /\
        d_closed x.1 = d_closed d /\ (x.2 = None -> added x.1)) /\ holds F G x.1 s).
Proof.
  intros Ho Hc. eapply triple_bind; [by apply triple_read_info|]. intros i. apply triple_pure.
  intros [Hi (k & Ek)]. apply triple_ret. intros s Hh. split; [|exact Hh]. split_and!; [done..|].
  intros _. unfold added. cbn. split; [lia|]. split; [done|]. split; [lia|]. by exists addr, k.
Qed.

Lemma triple_addDev q depth mx d F G `{!KernelLaws K} :
  dev_open d -> ctrl_full d ->
  triple (holds F G d) (addDev fuel q depth mx d)
    (fun x s => (dev_open x.1 /\ ctrl_full x.1 /\ d_charFD x.1 = d_charFD d /\
                 d_workers x.1 = d_workers d /\ d_closed x.1 = d_closed d /\
                 (x.2 = None -> added x.1)) /\ holds F G x.1 s).
Proof.
  intros Ho Hc. unfold addDev. eapply triple_bind; [apply frame_call|]. intros addr.
  eapply triple_bind; [by apply triple_ctrl_step, Ho|].
  intros [d1 [e|]]; apply triple_pure; cbn [fst]; intros Hs1;
    pose proof (ctrl_same_open _ _ Hs1 Ho) as Ho1; pose proof (ctrl_same_full _ _ Hs1 Hc) as Hc1;
    destruct Hs1 as (r & r' & _ & _ & ->).
  - eapply triple_bind; [by apply triple_read_info|]. intros i. apply triple_pure. intros _.
    eapply triple_bind; [apply frame_modify|]. intros [].
    eapply triple_bind; [by apply triple_ctrl_step, Ho1|].
    intros [d2 [e2|]]; apply triple_pure; cbn [fst]; intros Hs2;
      pose proof (ctrl_same_open _ _ Hs2 Ho1) as Ho2; pose proof (ctrl_same_full _ _ Hs2 Hc1) as Hc2;
      destruct Hs2 as (r1 & r2 & _ & _ & ->);
      [by apply triple_ret|].
    exact (triple_finish_add addr false _ F G Ho2 Hc2).
  - exact (triple_finish_add addr true _ F G Ho1 Hc1).
Qed.

Lemma triple_open_tries n path err F G `{!KernelLaws K} :
  triple (own F G) (open_tries n path err)
    (fun x s => match x with Ok fd => 0 <= fd /\ own (F ++ [fd]) G s | Err _ => own F G s end).
Proof.
  revert err. induction n as [|n IH]; intros err; cbn [open_tries]; [by apply triple_ret|].
  eapply triple_bind; [by apply triple_open|]. intros [fd|e]; [by apply triple_ret|].
  case_match; [|by apply triple_ret]. eapply triple_bind; [apply frame_modify|].
  intros []. apply IH.
Qed.

Lemma triple_openCharDev d F G `{!KernelLaws K} :
  d_charFD d = -1 ->
  triple (holds F G d) (openCharDev d)
    (fun x s => (match x.2 with
                 | None => exists fd, 0 <= fd /\ x.1 = set_charFD fd d
                 | Some _ => x.1 = d
                 end) /\ holds F G x.1 s).
Proof.
  intros Hc. unfold openCharDev. eapply triple_bind; [by apply triple_open_tries|].
  intros [fd|e]; [|by apply triple_ret]. apply triple_pure. intros Hfd. apply triple_ret.
  intros s Ho. split; [by exists fd|]. unfold holds, dev_fds in *. cbn in *. rewrite Hc in Ho.
  rewrite (decide_True (P := 0 <= fd)) by done.
  rewrite (decide_False (P := 0 <= -1)) in Ho by lia.
  cbn in *. rewrite <- app_assoc in Ho. cbn in Ho.
  eapply own_proper; [|done|done|exact Ho]. rewrite <- !app_assoc.
  do 3 f_equiv. cbn. by rewrite <- Permutation_cons_append.
Qed.

Lemma triple_cancel_all ts F G :
  Forall (fun t => is_Some (t_ring t)) ts ->
  triple (own F G) (cancel_all ts) (fun ts' s => ts' = cancelled <$> ts /\ own F G s).
Proof.
  induction 1 as [|t ts [r Hr] _ IH]; [by apply triple_ret|]. cbn [cancel_all]. rewrite Hr.
  eapply triple_bind; [apply (triple_must _ (fun r' => r' = r)); by exists r|]. intros r'.
  apply triple_pure. intros ->. eapply triple_bind with (R := fun r' s => r' = set_cancelled true r /\ own F G s).
  { intros [k tr] Ho. unfold Cancel. case_decide; by split. }
  intros r'. apply triple_pure. intros ->.
  eapply triple_bind; [exact IH|]. intros ts'. apply triple_pure. intros ->.
  apply triple_ret. intros s Ho. split; [|done]. cbn. unfold cancelled at 2. by rewrite Hr.
Qed.

Lemma triple_wait_one {B} (be : Backend B) charFD t b F G :
  is_Some (t_ring t) ->
  triple (own F G)
    (if t_running (cancelled t) then run_loop be fuel charFD (cancelled t) b
     else mret (cancelled t, b))
    (fun x s => x = (stopped (cancelled t), b) /\ own F G s).
Proof.
  intros [r Hr] s Ho. unfold stopped. destruct (t_running (cancelled t)) eqn:Et; [|done].
  destruct fuel as [|n]; [done|].
  rewrite (run_loop_cancelled be n charFD (cancelled t) b (set_cancelled true r)); [done| |done].
  unfold cancelled, t_ring in *. cbn. by rewrite Hr.
Qed.

Lemma triple_wait_all {B} (be : Backend B) charFD ts b F G :
  Forall (fun t => is_Some (t_ring t)) ts ->
  triple (own F G) (wait_all fuel be charFD (cancelled <$> ts) b)
    (fun x s => x = (stopped <$> (cancelled <$> ts), b) /\ own F G s).
Proof.
  induction 1 as [|t ts Hr _ IH]; [by apply triple_ret|]. cbn [fmap list_fmap wait_all].
  eapply triple_bind; [by apply triple_wait_one|]. intros [t' b']. apply triple_pure.
  intros [= -> ->]. eapply triple_bind; [exact IH|]. intros [ts' b']. apply triple_pure.
  intros [= -> ->]. by apply triple_ret.
Qed.

Lemma triple_cleanup_all ts F G :
  triple (own (F ++ (ts ≫= thread_fds)) (G ++ (ts ≫= thread_maps))) (cleanup_all ts)
    (fun ts' s => Forall (fun t => t_ring t = None /\ t_descs t = None) ts' /\ own F G s).
Proof.
  induction ts as [|t ts IH]; cbn [cleanup_all].
  - apply triple_ret. intros s. cbn. rewrite !app_nil_r. done.
  - eapply triple_bind.
    { eapply triple_pre; [|apply (triple_cleanup t (F ++ (ts ≫= thread_fds)) (G ++ (ts ≫= thread_maps)))].
      intros s. cbn. intros Ho. eapply own_proper; [| |done|exact Ho];
        rewrite <- app_assoc; f_equiv; apply Permutation_app_comm. }
    intros t'. apply triple_pure. intros Ht.
    eapply triple_bind; [exact IH|]. intros ts'. apply triple_pure. intros Hts.
    apply triple_ret. intros s Ho. split; [by constructor|done].
Qed.

Lemma clean_threads ts :
  Forall (fun t => t_ring t = None /\ t_descs t = None) ts ->
  ts ≫= thread_fds = [] /\ ts ≫= thread_maps = [].
Proof.
  induction 1 as [|t ts [Hr Hd] _ [IH1 IH2]]; [done|]. cbn. unfold thread_fds, thread_maps.
  rewrite Hr, Hd. done.
Qed.

Lemma triple_stop_workers {B} (be : Backend B) d b F G :
  dev_open d ->
  triple (holds F G d) (stop_workers fuel be d b)
    (fun x s => (exists ts, x = (set_workers ts d, b) /\
                   Forall (fun t => t_ring t = None /\ t_descs t = None) ts) /\
                holds F G x.1 s).
Proof.
  intros [_ Hr]. eapply triple_bind; [by apply triple_cancel_all|]. intros ts. apply triple_pure.
  intros ->. eapply triple_bind; [by apply triple_wait_all|]. intros [ts b']. apply triple_pure.
  intros [= -> ->].
  set (F' := F ++ dev_fds (set_workers [] d)). set (G' := G ++ dev_maps (set_workers [] d)).
  eapply triple_bind.
  { eapply triple_pre; [|apply (triple_cleanup_all _ F' G')]. intros s Ho.
    rewrite (bind_fmap_ext thread_fds), (bind_fmap_ext thread_maps),
      (bind_fmap_ext thread_fds), (bind_fmap_ext thread_maps)
      by (apply cancelled_fds || apply cancelled_maps || apply stopped_fds || apply stopped_maps).
    unfold F', G', holds, dev_fds, dev_maps in *. cbn in *. by rewrite !app_nil_r, <- !app_assoc. }
  intros ts. apply triple_pure. intros Hts. apply triple_ret. intros s Ho. split; [by exists ts|].
  destruct (clean_threads ts Hts) as [E1 E2].
  unfold F', G', holds, dev_fds, dev_maps in *. cbn in *. by rewrite E1, E2.
Qed.

Lemma triple_close_char d F G :
  triple (holds F G d) (close_char d) (fun d' s => d' = set_charFD (closed_fd (d_charFD d)) d /\ holds F G d' s).
Proof.
  unfold close_char, closed_fd. case_decide as Hc.
  - eapply triple_bind with (R := fun _ => holds F G (set_charFD (-1) d)).
    + apply triple_close'. unfold dev_fds. cbn. rewrite (decide_True (P := 0 <= d_charFD d)) by done.
      cbn. by rewrite !app_assoc, <- Permutation_middle, <- !app_assoc.
    + intros x. by apply triple_ret.
  - apply triple_ret. intros s Ho. split; [by destruct d|done].
Qed.

Lemma triple_remove d F G :
  is_Some (d_ctrlRing d) ->
  triple (holds F G d) (remove fuel d) (fun x s => ctrl_same d x.1 /\ holds F G x.1 s).
Proof.
  intros Hr. unfold remove. eapply triple_bind; [by apply triple_ctrl_step|]. intros [d1 e].
  apply triple_pure. cbn [fst]. intros Hs1. case_decide; [|by apply triple_ret].
  eapply triple_conseq; [by apply triple_ctrl_step, (ctrl_same_ring d)|done|]. intros x s [Hs2 Hh].
  split; [by eapply ctrl_same_trans|done].
Qed.

Lemma triple_close_ring d F G :
  triple (holds F G d) (close_ring d) (fun d' s => d' = set_ctrlRing None d /\ holds F G d' s).
Proof.
  unfold close_ring. destruct (d_ctrlRing d) as [r|] eqn:Er.
  - eapply triple_bind with (R := fun _ => holds F G (set_ctrlRing None d)).
    + eapply triple_conseq; [apply (triple_ring_close r (F ++ dev_fds (set_ctrlRing None d))
                                       (G ++ dev_maps (set_ctrlRing None d)))| |by intros ? ? []].
      intros s Ho. unfold holds, dev_fds, dev_maps in *. cbn. rewrite Er in Ho.
      eapply own_proper; [| |done|exact Ho]; rewrite <- app_assoc; f_equiv; apply Permutation_app_comm.
    + intros x. by apply triple_ret.
  - apply triple_ret. intros s Ho. split; [by destruct d; cbn in *; subst|done].
Qed.

Lemma triple_close_ctrl d F G :
  triple (holds F G d) (close_ctrl d)
    (fun d' s => d' = set_ctrl (closed_fd (d_ctrlFD d)) (d_ctrlRing d) d /\ holds F G d' s).
Proof.
  unfold close_ctrl, closed_fd. case_decide as Hc.
  - eapply triple_bind with (R := fun _ => holds F G (set_ctrl (-1) (d_ctrlRing d) d)).
    + apply triple_close'. unfold dev_fds. cbn. rewrite (decide_True (P := 0 <= d_ctrlFD d)) by done.
      cbn. by rewrite !app_assoc, <- Permutation_middle, <- !app_assoc.
    + intros x. by apply triple_ret.
  - apply triple_ret. intros s Ho. split; [by destruct d|done].
Qed.

(** [shutdown] gives back everything the device holds. *)
Lemma triple_shutdown {B} (be : Backend B) d b F G :
  dev_open d ->
  triple (holds F G d) (shutdown fuel be d b)
    (fun x s => (dev_fds x.1.1 = [] /\ dev_maps x.1.1 = [] /\ x.1.2 = b /\
                 d_closed x.1.1 = d_closed d) /\ own F G s).
Proof.
  intros Ho. unfold shutdown. eapply triple_bind; [by apply triple_stop_workers|].
  intros [d1 b1]. apply triple_pure. cbn [fst]. intros (ts & [= -> ->] & Hts).
  destruct (clean_threads ts Hts) as [E1 E2].
  eapply triple_bind; [apply triple_close_char|]. intros d2. apply triple_pure. intros ->.
  eapply triple_bind; [by apply triple_remove, Ho|].
  intros [d3 err]. apply triple_pure. cbn [fst]. intros (r & r' & _ & _ & ->).
  eapply triple_bind; [apply triple_close_ring|]. intros d4. apply triple_pure. intros ->.
  eapply triple_bind; [apply triple_close_ctrl|]. intros d5. apply triple_pure. intros ->.
  apply triple_ret. intros s Hh. cbn [fst snd]. set (d5 := set_ctrl _ _ _) in *.
  assert (Ef : dev_fds d5 = []).
  { unfold dev_fds, d5, closed_fd. cbn. rewrite E1. by repeat (case_decide; cbn; try lia). }
  split; [by split_and!|]. by eapply holds_nil.
Qed.

(** ** Creating a device *)

Section NewTriples.
Context {B : Type} (be : Backend B) `{!KernelLaws K}.

Lemma triple_openDevice F G :
  triple (own F G) (openDevice be)
    (fun x s => match x with
       | Ok d => (dev_open d /\ ctrl_full d /\ d_charFD d = -1 /\ d_workers d = [] /\
                  d_id d = -1 /\ d_closed d = false) /\ holds F G d s
       | Err _ => own F G s
       end).
Proof.
  eapply triple_bind; [by apply triple_open|]. intros [fd|e]; [|by apply triple_ret].
  apply triple_pure. intros Hfd. eapply triple_bind; [by apply triple_setup|].
  intros [r|e].
  - apply triple_ret. intros s [Ho (rf & p & h1 & h2 & h3 & efd & epfd & H1 & H2 & H3 & Er)].
    assert (Hf : length (ring_fds r) = 3%nat) by (rewrite Er, ring_fds_built; done).
    split.
    + split; [split; [by eexists|constructor]|]. split; [|done]. split; [done|]. exists r.
      by rewrite Hf, Er.
    + unfold holds, dev_fds, dev_maps. cbn. rewrite decide_True by done. rewrite !app_nil_r. cbn.
      eapply own_proper; [| done|done|exact Ho]. rewrite <- app_assoc. f_equiv.
      by rewrite <- Permutation_cons_append.
  - eapply triple_bind with (R := fun _ => own F G); [apply triple_close|].
    intros x. by apply triple_ret.
Qed.

(** What [New] promises of its result. *)
Definition New_post (cfg : config) (F G : list Z) (b : B) (x : result goerr (Device * B)) (s : st K) : Prop :=
  match x with
  | Ok (d, b') =>
      (b' = b /\ added d /\ ctrl_full d /\ 0 <= d_charFD d /\ d_closed d = false /\
       exists t, d_workers d = [t] /\ t_running t = true /\
         configured (queueDepth cfg) (buf_size d cfg) (t_w t) /\
         length (thread_fds t) = 3%nat /\ length (thread_maps t) = 4%nat) /\ holds F G d s
  | Err _ => own F G s
  end.

Lemma triple_fail_with cfg msg e d b F G :
  dev_open d -> triple (holds F G d) (fail_with fuel be msg e d b) (New_post cfg F G b).
Proof.
  intros Ho. unfold fail_with. eapply triple_bind; [by apply triple_shutdown|].
  intros x. apply triple_pure. intros _. by apply triple_ret.
Qed.

Lemma triple_run_start depth bufSize t F G :
  thread_ready depth bufSize t ->
  triple (own F G) (run_start t)
    (fun x s => (exists r r', t_ring t = Some r /\ same_ring r r' /\
       x.1 = running (bool_decide (x.2 = None)) (with_ring (Some r') t)) /\ own F G s).
Proof.
  intros (_ & _ & r & h & Hr & _). unfold run_start. rewrite Hr.
  eapply triple_bind; [apply (triple_must _ (fun r' => r' = r)); by exists r|].
  intros r0. apply triple_pure. intros ->.
  eapply triple_bind; [apply triple_SubmitAndWait|]. intros [r' x]. apply triple_pure. intros Hs.
  destruct x; apply triple_ret; intros s Ho; (split; [by exists r, r'|done]).
Qed.

Lemma run_start_thread depth bufSize t r r' b :
  thread_ready depth bufSize t -> t_ring t = Some r -> same_ring r r' ->
  let t' := running b (with_ring (Some r') t) in
  thread_fds t' = thread_fds t /\ thread_maps t' = thread_maps t /\ configured depth bufSize (t_w t') /\
  length (thread_fds t') = 3%nat /\ length (thread_maps t') = 4%nat.
Proof.
  intros (Hw & _ & r0 & h & Hr0 & Hh & _ & Hf & Hm) Hr Hs. rewrite Hr in Hr0. injection Hr0 as <-.
  intros t'. assert (E1 : thread_fds t' = thread_fds t).
  { unfold thread_fds. rewrite Hr. exact (same_ring_fds r r' Hs). }
  assert (E2 : thread_maps t' = thread_maps t).
  { unfold thread_maps. rewrite Hr. cbn. by rewrite (same_ring_maps r r' Hs). }
  rewrite E1, E2. split_and!; [done..| | |].
  - destruct Hw as [[] ?]. by split; [constructor|].
  - unfold thread_fds. by rewrite Hr.
  - unfold thread_maps. rewrite Hr, Hh, length_app, Hm. done.
Qed.

(** A device that took over a worker. *)
Lemma holds_worker F G d t s :
  d_workers d = [] -> own ((F ++ dev_fds d) ++ thread_fds t) ((G ++ dev_maps d) ++ thread_maps t) s ->
  holds F G (set_workers [t] d) s.
Proof.
  intros Hw Ho. unfold holds, dev_fds, dev_maps in *. cbn. rewrite Hw in Ho. cbn in Ho.
  rewrite !app_nil_r. by rewrite !app_nil_r, <- !app_assoc in Ho.
Qed.

Lemma triple_new_worker cfg bufSize d b F G :
  dev_open d -> ctrl_full d -> added d -> 0 <= d_charFD d -> d_workers d = [] ->
  d_closed d = false -> 1 <= queueDepth cfg <= maxQueueDepth -> 0 < bufSize < 2 ^ 32 ->
  bufSize = buf_size d cfg ->
  triple (holds F G d) (new_worker fuel be cfg bufSize d b) (New_post cfg F G b).
Proof.
  intros Ho Hc Ha Hfd Hws Hcl Hq Hb Eb. unfold new_worker.
  eapply triple_bind; [by apply triple_init|]. intros [t [e|]]; cbn [fst snd].
  { by apply triple_fail_with. }
  apply triple_pure. intros Ht. eapply triple_bind; [by eapply triple_run_start|].
  intros [t' e]. apply triple_pure. cbn [fst snd]. intros (r & r' & Hr & Hs & ->).
  destruct (run_start_thread _ _ t r r' (bool_decide (e = None)) Ht Hr Hs) as (Ef & Em & Hw & Lf & Lm).
  set (t' := running _ _) in *. set (d' := set_workers [t'] d).
  assert (Hod : dev_open d').
  { split; [apply Ho|]. repeat constructor. by exists r'. }
  eapply triple_pre with (P' := holds F G d').
  { intros s Hh. apply holds_worker; [done|]. by rewrite Ef, Em. }
  destruct e as [e|]; [by apply triple_fail_with|].
  eapply triple_bind; [by apply triple_startDev, Hod|]. intros [d2 e]. apply triple_pure.
  cbn [fst]. intros Hs2. pose proof (ctrl_same_open _ _ Hs2 Hod) as Ho2.
  pose proof (ctrl_same_full _ _ Hs2 Hc) as Hc2.
  destruct e as [e|]; [by apply triple_fail_with|]. apply triple_ret. intros s Hh.
  split; [|done]. destruct Hs2 as (q & q' & _ & _ & ->). split_and!; try done. exists t'.
  rewrite Eb in Hw. by split_and!.
Qed.

Lemma triple_new_device size cfg d b F G :
  config_wf cfg -> is_u 64 size -> validate cfg size = None ->
  dev_open d -> ctrl_full d -> d_charFD d = -1 -> d_workers d = [] -> d_closed d = false ->
  triple (holds F G d) (new_device fuel be size cfg d b) (New_post cfg F G b).
Proof.
  intros Hwf Hsz Hv Ho Hc Hch Hws Hcl. unfold new_device.
  apply validate_iff in Hv as (_ & _ & _ & Hq & Hmx & _); [|done..].
  eapply triple_bind; [by apply triple_addDev|]. intros [d1 e]. apply triple_pure. cbn [fst snd].
  intros (Ho1 & Hc1 & Hch1 & Hws1 & Hcl1 & Ha1). destruct e as [e|]; [by apply triple_fail_with|].
  specialize (Ha1 eq_refl). assert (Hb : 0 < buf_size d1 cfg < 2 ^ 32).
  { unfold buf_size. destruct Ha1 as (_ & _ & Hi & _). case_decide; lia. }
  unfold new_queue. rewrite Hch in Hch1. rewrite Hws in Hws1. rewrite Hcl in Hcl1.
  eapply triple_bind; [by apply triple_openCharDev|]. intros [d2 e]. apply triple_pure.
  cbn [fst snd]. intros Hd2.
  destruct e as [e|]; [rewrite Hd2; by apply triple_fail_with|]. destruct Hd2 as (fd & Hfd & ->).
  eapply triple_bind; [by apply triple_setParams, Ho1|]. intros [d3 e]. apply triple_pure.
  cbn [fst]. intros Hs3. pose proof (ctrl_same_open _ (_ : Device) Hs3 Ho1) as Ho3.
  pose proof (ctrl_same_full _ (_ : Device) Hs3 Hc1) as Hc3.
  destruct e as [e|]; [by apply triple_fail_with|].
  destruct Hs3 as (r & r' & _ & _ & ->). by apply triple_new_worker.
Qed.

Lemma triple_New kind isNil b size opts F G :
  config_wf (apply_opts opts default_config) -> is_u 64 size ->
  triple (own F G) (New fuel be (Dynamic kind isNil b) size opts)
    (New_post (apply_opts opts default_config) F G b).
Proof.
  intros Hwf Hsz. unfold New. destruct (isNilBackend _); [by apply triple_ret|].
  destruct (validate _ _) eqn:Hv; [by apply triple_ret|].
  eapply triple_bind; [apply triple_openDevice|]. intros [d|e]; [|by apply triple_ret].
  apply triple_pure. intros (Ho & Hc & Hch & Hws & _ & Hcl). by apply triple_new_device.
Qed.
End NewTriples.
End DeviceTriples.

(** ** Theorems *)

(** A configuration and a size that [New] receives as Go values. *)
Definition new_args_wf (opts : list Option) (size : Z) : Prop :=
  config_wf (apply_opts opts default_config) /\ is_u 64 size.

Lemma New_post_counts {K} `{Kernel K} {B} cfg F G (b : B) d b' (s : st K) :
  New_post cfg F G b (Ok (d, b')) s ->
  length (dev_fds d) = 8%nat /\ length (dev_maps d) = 7%nat.
Proof.
  intros [(_ & _ & (Hc & r & Hr & Hf & Hm) & Hch & _ & t & Ht & _ & _ & Lf & Lm) _].
  unfold dev_fds, dev_maps. rewrite Hr, Ht. cbn. rewrite !decide_True by done.
  rewrite !length_app, Hf, Hm. cbn. rewrite Lf, Lm. done.
Qed.

Lemma New_post_open {K} `{Kernel K} {B} cfg F G (b : B) d b' (s : st K) :
  New_post cfg F G b (Ok (d, b')) s -> dev_open d /\ d_closed d = false.
Proof.
  intros [(_ & _ & (Hc & r & Hr & Hf & Hm) & Hch & Hcl & t & Ht & _ & _ & Lf & Lm) _].
  split; [|done]. split; [by exists r|]. rewrite Ht. repeat constructor.
  unfold thread_fds in Lf. destruct (t_ring t); [by eexists|done].
Qed.

(** C12: [New] never leaks and never panics.  Whatever the kernel answers to
    any of its calls, when [New] returns an error every descriptor and mapping
    it opened has been closed again, each exactly once; when it returns a
    device, what is open beyond what was open before is exactly the device's
    eight descriptors (control device, character device, and for each of the
    two rings the ring, its eventfd and its epoll instance) and seven mappings,
    the backend was not called, and the device has one running worker. *)
Theorem New_no_leak {K} `{KernelLaws K} fuel {B} (be : Backend B) kind isNil b size opts F G :
  new_args_wf opts size ->
  triple (own F G) (New fuel be (Dynamic kind isNil b) size opts)
    (fun x s => match x with
       | Ok (d, b') => own (F ++ dev_fds d) (G ++ dev_maps d) s /\
           length (dev_fds d) = 8%nat /\ length (dev_maps d) = 7%nat /\ b' = b /\
           0 <= d_id d /\ exists t, d_workers d = [t] /\ t_running t = true
       | Err _ => own F G s
       end).
Proof.
  intros [Hwf Hsz]. eapply triple_conseq; [by apply (triple_New fuel be kind isNil b size opts F G)|done|].
  intros [[d b']|e] s Hp; [|done]. destruct (New_post_counts _ F G b d b' s Hp) as [L1 L2].
  destruct Hp as [(-> & Ha & _ & _ & _ & t & Ht & Hr & _) Hh].
  split_and!; [done..|apply Ha|by exists t].
Qed.

(** A run of [New] on the concrete kernel. *)
Definition sample_new (faults : list (nat * Z)) (reject : list Z) : out (result goerr (Device * unit) * st sim) :=
  New 3 stubBackend (Dynamic KPointer false tt) (2 ^ 20) [WithQueueDepth 2; WithMaxIOSize 512]
    (boot faults reject).

Lemma sample_args : new_args_wf [WithQueueDepth 2; WithMaxIOSize 512] (2 ^ 20).
Proof. split; [apply (bool_decide_unpack _); vm_compute; exact I|split; lia]. Qed.

Lemma New_no_leak_witness :
  (exists d b s, sample_new [] [] = Val (Ok (d, b), s) /\ own (dev_fds d) (dev_maps d) s /\
     length (dev_fds d) = 8%nat) /\
  (exists e s, sample_new [] [uCmdStartDev] = Val (Err e, s) /\ own [] [] s /\
     length (acquired (trace s)) = 8%nat).
Proof.
  split.
  - pose proof (New_no_leak 3 stubBackend KPointer false tt (2 ^ 20) _ [] [] sample_args
                  (boot [] []) (boot_own _ _)) as Hn.
    change (New _ _ _ _ _ _) with (sample_new [] []) in Hn.
    destruct (sample_new [] []) as [[[[d b]|e] s]| |] eqn:E;
      [|apply (f_equal (fun o => match o with Val (Ok _, _) => true | _ => false end)) in E;
        vm_compute in E; done..].
    exists d, b, s. split; [done|]. split; apply Hn.
  - pose proof (New_no_leak 3 stubBackend KPointer false tt (2 ^ 20) _ [] [] sample_args
                  (boot [] [uCmdStartDev]) (boot_own _ _)) as Hn.
    change (New _ _ _ _ _ _) with (sample_new [] [uCmdStartDev]) in Hn.
    assert (El : match sample_new [] [uCmdStartDev] with
                 | Val (Err _, s) => length (acquired (trace s)) = 8%nat | _ => False end)
      by (vm_compute; reflexivity).
    destruct (sample_new [] [uCmdStartDev]) as [[[[d b]|e] s]| |]; try done.
    exists e, s. split; [done|]. split; [exact Hn|exact El].
Defined.

(** C13: [Close] returns everything.  On an open device (one [New] returned,
    however far its worker has run) the first [Close] releases every descriptor
    and mapping the device holds and nothing else, even if the kernel refuses
    STOP_DEV, DEL_DEV or any close; the device then holds none, the backend was
    not called, and every later [Close] returns [nil] without doing anything. *)
Theorem Close_releases {K} `{Kernel K} fuel {B} (be : Backend B) d b F G :
  dev_open d -> d_closed d = false ->
  triple (own (F ++ dev_fds d) (G ++ dev_maps d)) (Close fuel be d b)
    (fun '(d', b', _) s => own F G s /\ dev_fds d' = [] /\ dev_maps d' = [] /\ b' = b /\
       forall s', Close fuel be d' b' s' = Val (d', b', None, s')).
Proof.
  intros Ho Hcl. unfold Close. rewrite Hcl.
  eapply triple_conseq; [by apply (triple_shutdown fuel be (set_closed d) b F G)|done|].
  intros [[d' b'] e] s [(E1 & E2 & E3 & E4) Hs]. cbn in *. by rewrite E4.
Qed.

Lemma sample_new_device : exists d s,
  sample_new [] [] = Val (Ok (d, tt), s) /\ dev_open d /\ d_closed d = false /\
  own (dev_fds d) (dev_maps d) s.
Proof.
  pose proof (triple_New 3 stubBackend KPointer false tt (2 ^ 20) _ [] [] (proj1 sample_args)
                (proj2 sample_args) (boot [] []) (boot_own _ _)) as Hn.
  change (New _ _ _ _ _ _) with (sample_new [] []) in Hn.
  assert (El : match sample_new [] [] with Val (Ok _, s) => True | _ => False end)
    by (vm_compute; exact I).
  destruct (sample_new [] []) as [[[[d []]|e] s]| |]; try done.
  exists d, s. destruct (New_post_open _ _ _ _ _ _ _ Hn) as [Ho Hc].
  destruct Hn as [_ Hh]. split; [reflexivity|]. split; [exact Ho|]. split; [exact Hc|exact Hh].
Qed.

Lemma Close_releases_witness : exists d s,
  sample_new [] [] = Val (Ok (d, tt), s) /\
  match Close 3 stubBackend d tt s with
  | Val (d', _, _, s') => own [] [] s' /\ dev_fds d' = []
  | Panic => False
  | Stuck => True
  end.
Proof.
  destruct sample_new_device as (d & s & E & Ho & Hc & Hh). exists d, s. split; [exact E|].
  pose proof (Close_releases 3 stubBackend d tt [] [] Ho Hc s Hh) as Hr.
  destruct (Close _ _ _ _ _) as [[[[d' b'] e] s']| |]; [|exact Hr|exact I].
  destruct Hr as (H1 & H2 & _). split; [exact H1|exact H2].
Defined.

(** The whole life of a device is balanced.  A program that creates a
    device and closes it, on whichever path [New] and [Close] return, ends with
    exactly the descriptors and mappings it started with. *)
Theorem lifecycle_balanced {K} `{KernelLaws K} fuel {B} (be : Backend B) kind isNil b size opts F G :
  new_args_wf opts size ->
  triple (own F G)
    (x ← New fuel be (Dynamic kind isNil b) size opts;
     match x with
     | Ok (d, b) => '(_, _, e) ← Close fuel be d b; mret e
     | Err e => mret (Some e)
     end)
    (fun _ => own F G).
Proof.
  intros [Hwf Hsz]. eapply triple_bind; [by apply triple_New|]. intros [[d b']|e]; [|by apply triple_ret].
  intros s Hn. destruct (New_post_open _ _ _ _ _ _ _ Hn) as [Ho Hcl]. destruct Hn as [_ Hh].
  revert s Hh. change (triple (holds F G d) ('(_, _, e) ← Close fuel be d b'; mret e) (fun _ => own F G)).
  unfold Close. rewrite Hcl.
  eapply triple_bind; [by apply (triple_shutdown fuel be (set_closed d) b' F G)|].
  intros [[d' b''] e]. apply triple_pure. intros _. by apply triple_ret.
Qed.

Lemma lifecycle_balanced_witness :
  match (x ← New 3 stubBackend (Dynamic KPointer false tt) (2 ^ 20) [WithQueueDepth 2; WithMaxIOSize 512];
         match x with
         | Ok (d, b) => '(_, _, e) ← Close 3 stubBackend d b; mret e
         | Err e => mret (Some e)
         end) (boot [] []) with
  | Val (e, s) => e = None /\ own [] [] s /\ length (acquired (trace s)) = 8%nat
  | _ => False
  end.
Proof.
  pose proof (lifecycle_balanced 3 stubBackend KPointer false tt (2 ^ 20) _ [] [] sample_args
                (boot [] []) (boot_own _ _)) as Hn.
  set (x := (mbind _ _ : M sim (option goerr)) _) in *.
  assert (El : match x with Val (e, s) => e = None /\ length (acquired (trace s)) = 8%nat | _ => False end)
    by (vm_compute; by split).
  destruct x as [[e s]| |]; [|destruct El..]. destruct El as [E1 E2].
  split; [exact E1|]. split; [exact Hn|exact E2].
Defined.
