(* ===== verification/Control.v ===== *)
(** * What the control path tells the kernel

    Theorems on the commands of [ublk/device.go]: the parameters [setParams]
    announces, the retries of [openCharDev], the order and the encoding of the
    control commands over a device's life, and the offsets a validated size
    leads to. *)

From stdpp Require Import pretty.
From S2P Require Import Prelude GoLayout Types Uring Config Backend Worker Kernel Sim RingOps WorkerRun KernelRing Device.

(** ** Parameters *)

Lemma accepted_shift cfg size :
  config_wf cfg -> is_u 64 size -> validate cfg size = None ->
  exists k, 9 <= k <= 20 /\ blockSize cfg = 2 ^ k /\ u8 (TrailingZeros32 (blockSize cfg)) = k.
Proof.
  intros Hw Hs Hv. apply validate_iff in Hv as (_ & (k & Hk & Ek) & _); [|done..].
  exists k. split; [done|]. split; [done|]. rewrite Ek, pos_ctz_pow2 by lia. goint.
Qed.

Lemma accepted_sectors cfg size :
  config_wf cfg -> is_u 64 size -> validate cfg size = None -> size / 512 * 512 = size.
Proof.
  intros Hw Hs Hv. apply validate_iff in Hv as (_ & (k & Hk & Ek) & [q Hq] & _); [|done..].
  rewrite Hq, Ek. replace (2 ^ k) with (2 ^ (k - 9) * 512)
    by (change 512 with (2 ^ 9); rewrite <- Z.pow_add_r by lia; f_equal; lia).
  rewrite Z.mul_assoc, Z.div_mul by lia. done.
Qed.

Lemma params_wf d size cfg mx :
  config_wf cfg -> is_u 64 size -> is_u 32 mx -> go_wf (params_for d size cfg mx) = true.
Proof.
  intros (Hb & _) Hs Hm. unfold params_for. pose proof (is_u_u8 (TrailingZeros32 (blockSize cfg))).
  assert (Hd : is_u 64 (size / 512)) by goint. set (sec := size / 512) in *.
  set (sh := u8 _) in *. unfold is_u in *.
  destruct (d_discarder d), (d_zeroer d); unfold go_wf; cbn;
    rewrite !bool_decide_eq_true_2; (done || (vm_compute; intuition congruence) || cbn; lia).
Qed.

(** C19: [setParams] announces exactly the device that was asked for.  For an
    accepted configuration the sector count times 512 is the size, the four
    block-size shifts all name the configured block size, an IO is limited to
    the whole sectors of the buffer, discard and write-zeroes limits are
    announced for exactly the capabilities the backend has, at block
    granularity, and the struct the kernel decodes is the struct that was
    built, whose length field is its size. *)
Theorem setParams_exact d size cfg bufSize :
  config_wf cfg -> is_u 64 size -> validate cfg size = None -> 0 < bufSize < 2 ^ 32 ->
  let p := params_for d size cfg (u32 bufSize / 512) in
  let b := up_Basic p in
  pb_DevSectors b * 512 = size /\
  2 ^ pb_LogicalBSShift b = blockSize cfg /\ pb_PhysicalBSShift b = pb_LogicalBSShift b /\
  pb_IOOptShift b = pb_LogicalBSShift b /\ pb_IOMinShift b = pb_LogicalBSShift b /\
  pb_MaxSectors b * 512 <= bufSize < (pb_MaxSectors b + 1) * 512 /\
  (Z.testbit (up_Types p) 1 = true <-> d_discarder d = true \/ d_zeroer d = true) /\
  (pd_MaxDiscardSectors (up_Discard p) <> 0 <-> d_discarder d = true) /\
  (pd_MaxWriteZeroesSectors (up_Discard p) <> 0 <-> d_zeroer d = true) /\
  (Z.testbit (up_Types p) 1 = true -> pd_DiscardGranularity (up_Discard p) = blockSize cfg) /\
  of_bytes (bytes_of p) = Some p /\ up_Len p = Z.of_nat (length (bytes_of p)).
Proof.
  intros Hw Hs Hv Hb p b. destruct (accepted_shift cfg size Hw Hs Hv) as (k & Hk & Ek & Esh).
  assert (Hmx : u32 bufSize = bufSize) by goint.
  assert (Hwf : go_wf p = true) by (apply params_wf; [done..|goint]).
  assert (Eb : b = mk_paramBasic 0 k k k k (bufSize / 512) 0 (size / 512) 0).
  { unfold b, p, params_for. rewrite Esh, Hmx. by destruct (_ || _). }
  rewrite Eb. cbn [pb_DevSectors pb_LogicalBSShift pb_PhysicalBSShift pb_IOOptShift pb_IOMinShift
    pb_MaxSectors].
  do 6 (split; [first [reflexivity|lia|by eapply accepted_sectors]|]).
  split_and!.
  1-4: unfold p, params_for; destruct (d_discarder d), (d_zeroer d); vm_compute; naive_solver.
  - rewrite <- (app_nil_r (bytes_of p)). by apply of_bytes_of.
  - rewrite (bytes_of_length p Hwf). unfold p, params_for. by destruct (_ || _).
Qed.

Definition sample_device (dis zer : bool) : Device :=
  mk_Device 0 3 7 None zero_info dis zer true [] false.

Lemma setParams_exact_witness :
  let p := params_for (sample_device true false) (2 ^ 30) (mk_config 4096 128 (2 ^ 17)) (u32 (2 ^ 17) / 512) in
  pb_DevSectors (up_Basic p) * 512 = 2 ^ 30 /\ 2 ^ pb_LogicalBSShift (up_Basic p) = 4096.
Proof.
  destruct (setParams_exact (sample_device true false) (2 ^ 30) (mk_config 4096 128 (2 ^ 17)) (2 ^ 17))
    as (H1 & H2 & _); [| | |lia|split; [exact H1|exact H2]].
  - apply (bool_decide_unpack _). vm_compute. exact I.
  - apply (bool_decide_unpack _). vm_compute. exact I.
  - vm_compute. reflexivity.
Defined.

(** ** The character device *)

Definition tries (tr : list event) : list string :=
  omap (fun e => match e with TryOpen p => Some p | _ => None end) tr.

Definition not_created (path : string) (e : Z) : goerr :=
  Wrap ("char device " +:+ path +:+ " not created") (Errno e).
Definition open_failed (path : string) (e : Z) : goerr := Wrap ("open " +:+ path) (Errno e).

Lemma tries_snoc tr e : tries (tr ++ [e]) = tries tr ++ match e with TryOpen p => [p] | _ => [] end.
Proof. unfold tries. rewrite omap_snoc. by destruct e. Qed.
Lemma acquired_snoc tr e :
  acquired (tr ++ [e]) = acquired tr ++ match e with Acquire fd => [fd] | _ => [] end.
Proof. unfold acquired. rewrite omap_snoc. by destruct e. Qed.

(** One [open], whatever the kernel answers. *)
Lemma sys_open_eq {K} `{Kernel K} path fl (s : st K) :
  exists k, sys_open path fl s =
    match (k_open path fl (kern s)).1 with
    | Ok fd => Val (Ok fd, mk_st k ((trace s ++ [TryOpen path]) ++ [Acquire fd]))
    | Err e => Val (Err e, mk_st k (trace s ++ [TryOpen path]))
    end.
Proof.
  exists (k_open path fl (kern s)).2. unfold sys_open, acquire, log, call, mbind, M_bind. cbn.
  by destruct (k_open path fl (kern s)) as [[fd|e] k].
Qed.

Lemma open_tries_spec {K} `{Kernel K} path n : forall err (s : st K),
  exists x s' k, open_tries n path err s = Val (x, s') /\ (k <= n)%nat /\
    tries (trace s') = tries (trace s) ++ replicate k path /\
    match x with
    | Ok fd => (0 < k)%nat /\ acquired (trace s') = acquired (trace s) ++ [fd]
    | Err e => acquired (trace s') = acquired (trace s) /\
        (k = n /\ e = not_created path (match n with O => err | _ => ENOENT end) \/
         (0 < k)%nat /\ exists e', e' <> ENOENT /\ e = open_failed path e')
    end.
Proof.
  induction n as [|n IH]; intros err s.
  { exists (Err (not_created path err)), s, 0%nat. rewrite app_nil_r.
    split_and!; [done|lia|done|done|by left]. }
  cbn [open_tries]. unfold mbind, M_bind.
  destruct (sys_open_eq path (Z.lor O_RDWR O_CLOEXEC) s) as [k1 E]. rewrite E. clear E.
  destruct (k_open _ _ _).1 as [fd|e].
  { eexists _, _, 1%nat. split; [reflexivity|]. cbn. rewrite !tries_snoc, !acquired_snoc, !app_nil_r.
    split_and!; [lia|done|lia|done]. }
  unfold is_errno. case_bool_decide as He.
  - destruct (IH e (mk_st (k_sleep k1) (trace s ++ [TryOpen path]))) as (x & s' & k & E & Hk & Ht & Hx).
    exists x, s', (S k). split; [exact E|]. cbn [trace] in *.
    rewrite tries_snoc in Ht. rewrite acquired_snoc, app_nil_r in Hx.
    split; [lia|]. split; [by rewrite Ht, <- app_assoc|].
    destruct x as [fd|e']; [split; [lia|apply Hx]|]. destruct Hx as [Ha Hx]. split; [done|].
    destruct Hx as [[-> ->]|[H0 Hx]]; [left|right; split; [lia|done]].
    split; [done|]. subst e. by destruct n.
  - eexists _, _, 1%nat. split; [reflexivity|]. cbn. rewrite tries_snoc, acquired_snoc, app_nil_r.
    split_and!; [lia|done|done|]. right. split; [lia|]. by exists e.
Qed.

(** C34: [openCharDev] always returns.  It tries to open [/dev/ublkc<id>] and no
    other path, at least once and at most 50 times; it retries only while the
    node does not exist, keeps exactly the descriptor of the successful try,
    and reports "not created" only after 50 tries that all failed with ENOENT;
    any other error ends the loop at once. *)
Theorem openCharDev_bounded {K} `{Kernel K} d (s : st K) :
  let path := "/dev/ublkc" +:+ pretty (d_id d) in
  exists d' e s' n, openCharDev d s = Val (d', e, s') /\ (1 <= n <= 50)%nat /\
    tries (trace s') = tries (trace s) ++ replicate n path /\
    match e with
    | None => exists fd, d' = set_charFD fd d /\ acquired (trace s') = acquired (trace s) ++ [fd]
    | Some e => d' = d /\ acquired (trace s') = acquired (trace s) /\
        (n = 50%nat /\ e = not_created path ENOENT \/
         exists e', e' <> ENOENT /\ e = open_failed path e')
    end.
Proof.
  intros path. unfold openCharDev, mbind, M_bind. fold path.
  destruct (open_tries_spec path 50 0 s) as (x & s' & n & E & Hn & Ht & Hx). rewrite E.
  destruct x as [fd|e].
  - destruct Hx as [H0 Ha]. eexists _, _, _, n. split; [reflexivity|]. split; [lia|].
    split; [done|]. by exists fd.
  - eexists _, _, _, n. split; [reflexivity|]. destruct Hx as [Ha Hx].
    split; [destruct Hx as [[-> _]|[? _]]; lia|]. split; [done|]. split; [done|]. split; [done|].
    destruct Hx as [[-> ->]|[_ Hx]]; [by left|by right].
Qed.

(** ** The commands of a device's life *)

Section Commands.
Context {K : Type} `{Kernel K}.

(** [after P m Q]: if [m] returns from a state satisfying [P], [Q] holds. *)
Definition after {A} (P : st K -> Prop) (m : M K A) (Q : A -> st K -> Prop) : Prop :=
  forall s, P s -> match m s with Val (a, s') => Q a s' | _ => True end.

Lemma after_ret {A} P (a : A) (Q : A -> st K -> Prop) :
  (forall s, P s -> Q a s) -> after P (mret a) Q.
Proof. intros Hq s Hp. by apply Hq. Qed.
Lemma after_bind {A C} P (m : M K A) R (f : A -> M K C) Q :
  after P m R -> (forall a, after (R a) (f a) Q) -> after P (m ≫= f) Q.
Proof.
  intros Hm Hf s Hp. specialize (Hm s Hp). unfold mbind, M_bind.
  destruct (m s) as [[a s']| |]; [by apply Hf|done|done].
Qed.
Lemma after_pure {A} (X : Prop) P (m : M K A) Q :
  (X -> after P m Q) -> after (fun s => X /\ P s) m Q.
Proof. intros Hm s [Hx Hp]. by apply Hm. Qed.
Lemma after_conseq {A} (P : st K -> Prop) (m : M K A) Q Q' :
  after P m Q' -> (forall a s, Q' a s -> Q a s) -> after P m Q.
Proof. intros Hm Hq s Hp. specialize (Hm s Hp). destruct (m s) as [[a s']| |]; eauto. Qed.

(** The control commands so far. *)
Definition ops (l : list Z) (s : st K) : Prop := ctrl_ops (trace s) = l.

(** A computation that sends none. *)
Definition calm {A} (m : M K A) : Prop := forall l, after (ops l) m (fun _ => ops l).

Lemma calm_ret {A} (a : A) : calm (mret a).
Proof. intros l. by apply after_ret. Qed.
Lemma calm_bind {A C} (m : M K A) (f : A -> M K C) :
  calm m -> (forall a, calm (f a)) -> calm (m ≫= f).
Proof. intros Hm Hf l. eapply after_bind; [apply Hm|]. intros a. apply Hf. Qed.
Lemma calm_log e : (forall op c, e <> Ctrl op c) -> calm (log e).
Proof.
  intros He l s Hs. unfold ops, ctrl_ops in *. cbn. rewrite omap_snoc.
  destruct e; try (by rewrite app_nil_r). by destruct (He op cmd).
Qed.
Lemma calm_quiet {A} (m : M K A) : quiet m -> calm m.
Proof.
  intros Hq l s Hs. specialize (Hq s). destruct (m s) as [[a s']| |]; [|done..].
  unfold ops. by rewrite Hq.
Qed.
Lemma calm_gets {A} (f : K -> A) : calm (gets f).
Proof. apply calm_quiet, quiet_gets. Qed.
Lemma calm_modify f : calm (modify f).
Proof. apply calm_quiet, quiet_modify. Qed.
Lemma calm_call {A} (f : K -> A * K) : calm (call f).
Proof. apply calm_quiet, quiet_call. Qed.
Lemma calm_must {A} (o : option A) : calm (must o).
Proof. apply calm_quiet, quiet_must. Qed.
End Commands.

Create HintDb calm discriminated.
#[export] Hint Resolve calm_ret calm_gets calm_modify calm_call calm_must : calm.

Ltac solve_calm :=
  repeat first
    [ progress (auto with calm)
    | apply calm_bind; [|intros ?]
    | apply calm_log; by intros
    | apply calm_quiet; solve [auto with quiet]
    | case_match ].

Section CommandLemmas.
Context {K : Type} `{Kernel K} (fuel : nat).

Lemma calm_on_shm {A} r (f : shm -> A * shm) : calm (on_shm (K := K) r f).
Proof. unfold on_shm. solve_calm. Qed.
Lemma calm_ring_close r : calm (RingOps.Close (K := K) r).
Proof.
  unfold RingOps.Close. apply calm_bind; [|intros e1; apply calm_bind; [|solve_calm]].
  - generalize [r_mmapSQ r; r_mmapCQ r; r_mmapSQEs r]. intros ms.
    induction ms as [|[h|] ms IH]; cbn; unfold sys_munmap; solve_calm.
  - generalize [r_epollFD r; r_cancelFD r; r_fd r]. intros fds.
    induction fds as [|fd fds IH]; cbn; unfold sys_close; solve_calm.
Qed.
Hint Resolve calm_ring_close : calm.
Lemma calm_setup n fl sz : calm (setup (K := K) n fl sz).
Proof.
  unfold setup, mmapRings, setupCancel, sys_uring_setup, sys_mmap, acquire, epoll_add_each. solve_calm.
Qed.
Lemma calm_cleanup t : calm (cleanup (K := K) t).
Proof. unfold cleanup, sys_munmap. solve_calm. Qed.
Hint Resolve calm_setup calm_cleanup : calm.
Lemma calm_init charFD t : calm (init (K := K) charFD t).
Proof. unfold init, RingOps.New, mmapDescs, sys_mmap, arm. solve_calm. Qed.
Lemma calm_run_start t : calm (run_start (K := K) t).
Proof. unfold run_start. solve_calm. Qed.
Lemma calm_open_tries n path err : calm (open_tries (K := K) n path err).
Proof. revert err. induction n; intros; cbn; unfold sys_open, acquire; solve_calm. Qed.
Hint Resolve calm_on_shm calm_open_tries : calm.

(** A control command is logged at most once, and has been when it succeeds. *)
Definition sends (l : list Z) (op : Z) (d : Device) (x : Device * option goerr) (s : st K) : Prop :=
  (d_useIoctl x.1 = d_useIoctl d /\ d_id x.1 = d_id d) /\
  exists ms, ms `sublist_of` [op] /\ (x.2 = None -> ms = [op]) /\ ops (l ++ ms) s.

Lemma after_ctrlCommand l op cmd d :
  after (ops l) (ctrlCommand (K := K) fuel op cmd d) (sends l op d).
Proof.
  unfold ctrlCommand. eapply after_bind; [apply calm_must|]. intros r.
  eapply after_bind; [apply calm_on_shm|]. intros [[ptr|] r1].
  2:{ apply after_ret. intros s Hs. split; [done|]. exists []. rewrite app_nil_r.
      split_and!; [apply sublist_nil_l|done|done]. }
  eapply after_bind; [apply calm_on_shm|]. intros [].
  eapply after_bind with (R := fun _ => ops (l ++ [op])).
  { intros s Hs. unfold ops, ctrl_ops in *. cbn. by rewrite omap_snoc, Hs. }
  intros []. assert (Hok : forall (e : option goerr) d', d_useIoctl d' = d_useIoctl d -> d_id d' = d_id d ->
    after (ops (l ++ [op])) (mret (d', e)) (sends l op d)).
  { intros e d' H1 H2. apply after_ret. intros s Hs. split; [done|]. by exists [op]. }
  eapply after_bind; [apply calm_quiet, quiet_Submit|]. intros [r2 [n|e]]; [|by apply Hok].
  eapply after_bind; [apply calm_quiet, quiet_WaitCQE|]. intros [c|e]; [|by apply Hok].
  eapply after_bind; [apply calm_quiet, quiet_Seen|]. intros []. case_decide; by apply Hok.
Qed.

(** The commands of [remove], in the encoding the device settled on. *)
Lemma after_remove l d :
  after (ops l) (remove (K := K) fuel d)
    (fun _ s => exists ms, ops (l ++ ms) s /\
       ms `sublist_of` [ctrlOp d uCmdStopDev cmdStopDev; ctrlOp d uCmdDelDev cmdDelDev]).
Proof.
  unfold remove. eapply after_bind; [apply after_ctrlCommand|]. intros [d1 e].
  apply after_pure. cbn [fst]. intros [E1 E2] s (ms & Hms & _ & Hs). revert s Hs.
  change (after (ops (l ++ ms)) (if decide (0 <= d_id d1) then delDev fuel d1 else mret (d1, None))
    (fun _ s => exists ms, ops (l ++ ms) s /\
       ms `sublist_of` [ctrlOp d uCmdStopDev cmdStopDev; ctrlOp d uCmdDelDev cmdDelDev])).
  case_decide.
  - eapply after_conseq; [apply after_ctrlCommand|]. intros x s [_ (ms' & Hms' & _ & Hs)].
    exists (ms ++ ms'). rewrite app_assoc. split; [done|].
    unfold ctrlOp in Hms'. rewrite E1 in Hms'. by apply (sublist_app ms [_] ms' [_]).
  - apply after_ret. intros s Hs. exists ms. split; [done|].
    etransitivity; [exact Hms|]. apply sublist_skip, sublist_nil_l.
Qed.
End CommandLemmas.
#[export] Hint Resolve calm_on_shm calm_ring_close calm_setup calm_cleanup calm_init
  calm_run_start calm_open_tries : calm.

(** A step whose command list is known only once it ran. *)
Lemma after_exists {K} {A X} (P : X -> st K -> Prop) (m : M K A) Q :
  (forall x, after (P x) m Q) -> after (fun s => exists x, P x s) m Q.
Proof. intros Hm s [x Hx]. by apply (Hm x). Qed.

Section NewCommands.
Context {K : Type} `{Kernel K} (fuel : nat) {B : Type} (be : Backend B).

(** Continue after a command: only its success leads on. *)
Lemma after_command {A} l op d (m : M K (Device * option goerr))
    (f : Device * option goerr -> M K A) Q :
  after (ops l) m (sends l op d) ->
  (forall d', d_useIoctl d' = d_useIoctl d -> d_id d' = d_id d ->
     after (ops (l ++ [op])) (f (d', None)) Q) ->
  (forall d' e, after (fun _ => True) (f (d', Some e)) Q) ->
  after (ops l) (m ≫= f) Q.
Proof.
  intros Hm Hok Herr. eapply after_bind; [exact Hm|]. intros [d' [e|]].
  - intros s _. by apply Herr.
  - intros s [[E1 E2] (ms & _ & Hms & Hs)]. rewrite (Hms eq_refl) in Hs. by apply Hok.
Qed.

Lemma after_startDev l d :
  after (ops l) (startDev fuel d) (sends l (ctrlOp d uCmdStartDev cmdStartDev) d).
Proof. eapply after_bind; [apply calm_gets|]. intros pid. apply after_ctrlCommand. Qed.
Lemma after_setParams l size cfg mx d :
  after (ops l) (setParams fuel size cfg mx d) (sends l (ctrlOp d uCmdSetParams cmdSetParams) d).
Proof. eapply after_bind; [apply calm_call|]. intros addr. apply after_ctrlCommand. Qed.

Lemma after_fail (P : st K -> Prop) msg e d b (Q : result goerr (Device * B) -> st K -> Prop) :
  (forall e s, Q (Err e) s) -> after P (fail_with fuel be msg e d b) Q.
Proof.
  intros Hq s _. unfold fail_with, mbind, M_bind.
  destruct (shutdown fuel be d b s) as [[? ?]| |]; [|done..]. apply Hq.
Qed.

(** The encoding a device uses, as the commands of its creation show it. *)
Definition creation_ops (d : Device) (ms : list Z) : Prop :=
  if d_useIoctl d then ms = [uCmdAddDev; uCmdSetParams; uCmdStartDev]
  else exists pre, pre `sublist_of` [uCmdAddDev] /\ ms = pre ++ [cmdAddDev; cmdSetParams; cmdStartDev].

Lemma after_new_worker l cfg bufSize d b :
  after (ops l) (new_worker fuel be cfg bufSize d b)
    (fun x s => match x with
       | Ok (d', _) => d_useIoctl d' = d_useIoctl d /\ ops (l ++ [ctrlOp d uCmdStartDev cmdStartDev]) s
       | Err _ => True
       end).
Proof.
  unfold new_worker. eapply after_bind; [apply calm_init|]. intros [t [e|]]; [by apply after_fail|].
  eapply after_bind; [apply calm_run_start|]. intros [t' [e|]]; [by apply after_fail|].
  eapply after_command; [apply after_startDev| |intros d' e; by apply after_fail].
  intros d' E1 E2. by apply after_ret.
Qed.

(** The commands of [addDev]. *)
Definition added_ops (l : list Z) (x : Device * option goerr) (s : st K) : Prop :=
  x.2 = None ->
  if d_useIoctl x.1 then ops (l ++ [uCmdAddDev]) s
  else exists pre, pre `sublist_of` [uCmdAddDev] /\ ops (l ++ pre ++ [cmdAddDev]) s.

Lemma calm_read_info addr : calm (read_info (K := K) addr).
Proof. unfold read_info. solve_calm. Qed.

Lemma after_addDev l q depth mx d : after (ops l) (addDev fuel q depth mx d) (added_ops l).
Proof.
  unfold addDev. eapply after_bind; [apply calm_call|]. intros addr.
  eapply after_bind; [apply after_ctrlCommand|]. intros [d1 [e|]].
  - intros s [_ (ms & Hms & _ & Hs)]. revert s Hs.
    apply (after_bind (ops (l ++ ms)) _ (fun _ => ops (l ++ ms))); [apply calm_read_info|].
    intros i. eapply after_bind; [apply calm_modify|]. intros [].
    eapply after_command; [apply after_ctrlCommand| |intros d' e'; by apply after_ret].
    intros d2 _ _. eapply after_bind; [apply calm_read_info|]. intros i2. apply after_ret.
    intros s Hs _. exists ms. by rewrite app_assoc.
  - intros s [_ (ms & _ & Hms & Hs)]. rewrite (Hms eq_refl) in Hs. revert s Hs.
    apply (after_bind (ops (l ++ [uCmdAddDev])) _ (fun _ => ops (l ++ [uCmdAddDev])));
      [apply calm_read_info|].
    intros i. apply after_ret. intros s Hs _. done.
Qed.

(** What follows ADD_DEV uses the encoding it settled on. *)
Lemma after_new_queue l size cfg bufSize d b :
  after (ops l) (new_queue fuel be size cfg bufSize d b)
    (fun x s => match x with
       | Ok (d', _) => d_useIoctl d' = d_useIoctl d /\
           ops (l ++ [ctrlOp d uCmdSetParams cmdSetParams; ctrlOp d uCmdStartDev cmdStartDev]) s
       | Err _ => True
       end).
Proof.
  unfold new_queue, openCharDev. eapply after_bind with (R := fun x s => d_useIoctl x.1 = d_useIoctl d /\ ops l s).
  { eapply after_bind; [apply calm_open_tries|]. intros [fd|e]; by apply after_ret. }
  intros [d1 [e|]]; [by apply after_fail|]. apply after_pure. cbn [fst]. intros E1.
  eapply after_command; [apply after_setParams| |intros d' e; by apply after_fail].
  intros d2 E2 _. eapply after_conseq; [apply after_new_worker|].
  intros [[d3 b3]|e] s; [|done]. intros [E3 Hs]. split; [congruence|].
  rewrite <- app_assoc in Hs. unfold ctrlOp in *. by rewrite E2, E1 in Hs.
Qed.

(** The post-condition on a successful [New]. *)
Definition New_ops (l : list Z) (x : result goerr (Device * B)) (s : st K) : Prop :=
  match x with
  | Ok (d, _) => exists ms, creation_ops d ms /\ ops (l ++ ms) s
  | Err _ => True
  end.

Lemma after_new_device l size cfg d b :
  after (ops l) (new_device fuel be size cfg d b) (New_ops l).
Proof.
  unfold new_device. eapply after_bind; [apply after_addDev|]. intros [d1 [e|]]; [by apply after_fail|].
  intros s Ha. specialize (Ha eq_refl). cbn [fst] in Ha.
  destruct (d_useIoctl d1) eqn:Eu.
  - revert s Ha. eapply after_conseq; [apply after_new_queue|]. intros [[d' b']|e] s; [|done].
    intros [E Hs]. unfold ctrlOp in Hs. rewrite Eu, <- app_assoc in Hs.
    eexists. split; [|exact Hs]. unfold creation_ops. by rewrite E, Eu.
  - destruct Ha as (pre & Hpre & Ha). revert s Ha.
    eapply after_conseq; [apply after_new_queue|]. intros [[d' b']|e] s; [|done].
    intros [E Hs]. unfold ctrlOp in Hs. rewrite Eu, <- !app_assoc in Hs.
    eexists. split; [|exact Hs]. unfold creation_ops. rewrite E, Eu. by exists pre.
Qed.

Lemma after_New l backend size opts :
  after (ops l) (New fuel be backend size opts) (New_ops l).
Proof.
  unfold New. destruct (isNilBackend backend); [by apply after_ret|].
  destruct backend as [|kind isNil b]; [by apply after_ret|].
  destruct (validate _ _); [by apply after_ret|].
  eapply after_bind with (R := fun _ => ops l); [|intros [d|e]; [apply after_new_device|by apply after_ret]].
  unfold openDevice, sys_open, acquire, NewSQE128, sys_close.
  match goal with |- after _ ?m _ => enough (Hc : calm m) by exact (Hc l) end. solve_calm.
Qed.
End NewCommands.

(** C18: The control commands of a device come in the order the driver
    requires and in one encoding.  A successful [New] sends ADD_DEV, then
    SET_PARAMS, then START_DEV and nothing else: all ioctl-encoded when the
    ioctl-encoded ADD_DEV succeeded, and otherwise all legacy, after the
    refused attempt.  The removal part of [Close] sends at most STOP_DEV and
    then DEL_DEV, in the encoding the device settled on. *)
Theorem commands_in_order {K} `{Kernel K} fuel {B} (be : Backend B) backend size opts l :
  after (ops l) (New fuel be backend size opts)
    (fun x s => match x with
       | Ok (d, _) => exists ms, creation_ops d ms /\ ops (l ++ ms) s
       | Err _ => True
       end) /\
  (forall d, after (ops l) (remove fuel d)
    (fun _ s => exists ms, ops (l ++ ms) s /\
       ms `sublist_of` [ctrlOp d uCmdStopDev cmdStopDev; ctrlOp d uCmdDelDev cmdDelDev])).
Proof. split; [apply after_New|intros d; apply after_remove]. Qed.

(** ** Sizes and offsets *)

(** A request inside a device of [size] bytes, of at most 1 GiB per request as
    [setParams] allows. *)
Definition in_device (size : Z) (d : ioDesc) : Prop :=
  0 <= id_StartSector d /\ 0 <= id_NrSectors d <= Z.shiftl 1 21 /\
  (id_StartSector d + id_NrSectors d) * 512 <= size.

#[export] Instance in_device_dec size d : Decision (in_device size d).
Proof. unfold in_device. apply _. Defined.



(** ** One control command *)

(** The kernel's documented behaviour on a ring without SQPOLL: what the
    program stores is what is there, and outside [io_uring_enter] the kernel
    touches neither the submission ring nor its entries. *)
Class RingLaws (K : Type) `{Kernel K} := {
  rl_set fd m k : k_shm fd (k_set_shm fd m k) = m;
  rl_async_sqw fd k : sqw (k_shm fd (k_async k)) = sqw (k_shm fd k);
  rl_async_sqes fd k : sqes (k_shm fd (k_async k)) = sqes (k_shm fd k);
  rl_async_layout r fd k : ring_layout r (k_shm fd k) -> ring_layout r (k_shm fd (k_async k))
}.

#[export] Instance sim_ring_laws : RingLaws sim.
Proof. split; try done. intros fd m k. cbn. by rewrite lookup_insert_eq. Qed.

Section Exchange.
Context {K : Type} `{RingLaws K} (fuel : nat).

(** A queue operation on the ring memory, as a function on the kernel state. *)
Lemma on_shm_eq {A} r (f : shm -> A * shm) k tr :
  on_shm r f (mk_st k tr) =
  let '(a, m) := f (k_shm (r_fd r) (k_async k)) in
  Val (a, mk_st (k_set_shm (r_fd r) m (k_async k)) tr).
Proof.
  unfold on_shm, load_shm, store_shm, modify, gets, mbind, M_bind. cbn. by destruct (f _).
Qed.

(** What the program stored in the submission ring is what it finds. *)
Lemma stored_sq r fd m k (Hl : ring_layout r m) :
  let m' := k_shm fd (k_async (k_set_shm fd m k)) in
  sqw m' = sqw m /\ sqes m' = sqes m /\ ring_layout r m'.
Proof.
  cbn. rewrite rl_async_sqw, rl_async_sqes, rl_set. split; [done|]. split; [done|].
  apply rl_async_layout. by rewrite rl_set.
Qed.

(** The answer to a command, from the completion that [WaitCQE] returned. *)
Definition answer (c : CQE) : option goerr :=
  if decide (c_Res c < 0) then Some (Wrap "ublk control cmd" (Errno (u64 (i32 (- c_Res c))))) else None.

(** The rest of [ctrlCommand] once its entry is in the queue. *)
Definition exchange (d : Device) (r : Ring) (s : st K) : out (Device * option goerr * st K) :=
  match WaitCQE fuel r s with
  | Val (Ok c, s) => match Seen r s with
                     | Val (_, s) => Val (d, answer c, s)
                     | Panic => Panic
                     | Stuck => Stuck
                     end
  | Val (Err e, s) => Val (d, Some e, s)
  | Panic => Panic
  | Stuck => Stuck
  end.

(** Taking an entry and filling it in, as the kernel memory sees it. *)
Lemma prepare_ctrl r m m1 e :
  sq_inv r m -> 0 < sq_room r m ->
  GetSQE128 r m = (Some (slot r (r_sqeLocalTail r)), pushed r,
                   st_sqe (slot r (r_sqeLocalTail r)) zero_SQE128 m) /\
  (sqw m1 = sqw m -> sqes m1 = sqes (st_sqe (slot r (r_sqeLocalTail r)) zero_SQE128 m) ->
   ring_layout (pushed r) m1 ->
   let m2 := st_sqe (slot r (r_sqeLocalTail r)) e m1 in
   sq_inv (pushed r) m2 /\ pending (pushed r) m2 = pending r m ++ [e] /\
   published (pushed r) m2 = published r m).
Proof.
  intros Hi Hr. split.
  - unfold GetSQE128. rewrite nextSQE_room; [done|apply Hi|].
    unfold sq_room in Hr. pose proof (is_u_u32 (r_sqeLocalHead r - k_head r m)). unfold is_u in *. lia.
  - intros Ew Es Hl m2. set (mp := st_sqe (slot r (r_sqeLocalTail r)) e m).
    assert (Ew2 : sqw m2 = sqw mp) by (by cbn; rewrite Ew).
    assert (Es2 : sqes m2 = sqes mp) by (cbn; rewrite Es; cbn; apply insert_insert_eq).
    rewrite <- (pending_push r m e Hi Hr), <- (published_push r m e Hi Hr). fold mp.
    split_and!; [|by apply pending_ext|by apply published_ext].
    apply (sq_inv_ext _ mp); [done..|by destruct Hl; constructor|by apply sq_inv_push].
Qed.

Lemma ctrlCommand_run op cmd d r k tr :
  d_ctrlRing d = Some r ->
  let m := k_shm (r_fd r) (k_async k) in
  sq_inv r m -> 0 < sq_room r m -> published r m = [] -> pending r m = [] ->
  exists r' k1, same_ring r r' /\
    published r' (k_shm (r_fd r) k1) = [ctrl_sqe (d_ctrlFD d) op cmd] /\
    ctrlCommand fuel op cmd d (mk_st k tr) =
      let d' := set_ctrlRing (Some r') d in
      let '(x, k2) := entered r "io_uring_enter submit" 1 0 k1 in
      let s := mk_st k2 (tr ++ [Ctrl op cmd]) in
      match x with
      | Err e => Val (d', Some e, s)
      | Ok _ => exchange d' r' s
      end.
Proof.
  intros Er m Hi Hroom Hpub Hpend. set (ptr := slot r (r_sqeLocalTail r)).
  set (e := ctrl_sqe (d_ctrlFD d) op cmd). set (ma := st_sqe ptr zero_SQE128 m).
  set (ka := k_set_shm (r_fd r) ma (k_async k)). set (m1 := k_shm (r_fd r) (k_async ka)).
  assert (Hla : ring_layout (pushed r) ma) by (destruct (sq_layout _ _ Hi); by constructor).
  destruct (stored_sq (pushed r) (r_fd r) ma (k_async k) Hla) as (W1 & S1 & L1). fold ka m1 in W1, S1, L1.
  destruct (prepare_ctrl r m m1 e Hi Hroom) as [Eg Hfill].
  destruct (Hfill W1 S1 L1) as (Hi2 & Hp2 & Hq2). fold ptr in Eg, Hi2, Hp2, Hq2.
  set (m2 := st_sqe ptr e m1) in *. set (kb := k_set_shm (r_fd r) m2 (k_async ka)).
  destruct (stored_sq (pushed r) (r_fd r) m2 (k_async ka) (sq_layout _ _ Hi2)) as (W3 & S3 & L3).
  fold kb in W3, S3, L3. set (m3 := k_shm (r_fd r) (k_async kb)) in *.
  assert (Hi3 : sq_inv (pushed r) m3) by (by apply (sq_inv_ext _ m2)).
  destruct (flush_spec (pushed r) kb (tr ++ [Ctrl op cmd]) Hi3)
    as (r' & m' & Hi' & Hfd & Hp' & Hq' & Ef).
  change (r_fd (pushed r)) with (r_fd r) in *. fold m3 in Hq', Ef.
  assert (Epend : pending (pushed r) m3 = [e]) by (rewrite (pending_ext _ m2), Hp2, Hpend by done; done).
  assert (Epub : published (pushed r) m3 = []) by (rewrite (published_ext _ m2), Hq2, Hpub by done; done).
  rewrite Epend, Epub in Hq'. rewrite Epend in Ef.
  exists r', (k_set_shm (r_fd r) m' (k_async kb)). split; [|split].
  - apply (same_ring_trans _ (pushed r)); [by eexists _, _|].
    pose proof (flushSQ_same (pushed r) m3) as Hs.
    unfold flush in Ef. rewrite on_shm_eq in Ef. change (r_fd (pushed r)) with (r_fd r) in Ef. fold m3 in Ef.
    destruct (flushSQ (pushed r) m3) as [[n r0] m0]. by injection Ef as _ <- _.
  - by rewrite rl_set.
  - unfold ctrlCommand, exchange, mbind, M_bind, must, mret, M_ret. rewrite Er, on_shm_eq. fold m.
    rewrite Eg. fold ma ka. rewrite on_shm_eq. change (r_fd (pushed r)) with (r_fd r).
    change (d_ctrlFD (set_ctrlRing (Some (pushed r)) d)) with (d_ctrlFD d). fold m1 e. fold m2. fold kb.
    unfold log. cbn [kern trace]. unfold Submit, mbind, M_bind, mret, M_ret.
    rewrite Ef. change (Z.of_nat (length [e])) with 1. rewrite decide_False by done.
    unfold call, entered. cbn [kern trace]. rewrite Hfd.
    destruct (k_enter (r_fd r) 1 0 _) as [[n|err] k2]; [|reflexivity].
    destruct (WaitCQE fuel r' _) as [[[c|err] s3]| |]; [|reflexivity..].
    destruct (Seen r' s3) as [[[] s4]| |]; [|reflexivity..]. unfold answer. by case_decide.
Qed.
End Exchange.

(** What the kernel decodes from a control entry. *)
Lemma ctrl_sqe_decodes fd op cmd :
  go_wf cmd = true -> of_bytes (s_Cmd (ctrl_sqe fd op cmd)) = Some cmd.
Proof.
  intros Hw. cbn [ctrl_sqe s_Cmd]. pose proof (bytes_of_length cmd Hw) as Hl.
  change (Sizeof ctrlCmd) with 32 in Hl. unfold copy, copied, zeros at 1 2. rewrite length_replicate.
  rewrite take_ge by lia. by apply of_bytes_of.
Qed.

(** Waiting for the answer: a completion that arrives within the fuel's rounds
    is the answer, and is consumed. *)
Lemma exchange_answer {K} `{Kernel K} fuel d r k tr n k' c :
  r_cancelled r = false -> waits r k n k' -> PeekCQE r (k_shm (r_fd r) k') = Some c -> (n < fuel)%nat ->
  exchange fuel d r (mk_st k tr) =
  Val (d, answer c, mk_st (k_set_shm (r_fd r) (SeenCQE r (k_shm (r_fd r) (k_async k'))) (k_async k')) tr).
Proof.
  intros Hc Hw Hp Hn. unfold exchange.
  assert (E : WaitCQE fuel r (mk_st k tr) = Val (Ok c, mk_st k' tr)).
  { apply WaitCQE_iff; [done|]. by exists n. }
  rewrite E. unfold Seen. by rewrite on_shm_eq.
Qed.

(** C17: A control command is one exchange with the kernel.  On an idle control
    ring [ctrlCommand] enters the kernel exactly once, when the submission
    queue holds exactly one entry: it names the control device, carries the
    opcode, and its command area decodes to the command that was passed.  If
    the kernel refuses the entry its error is returned.  If it accepts the entry
    and, after any number of rounds that found nothing, provides a completion,
    the command returns (with fuel for those rounds) the answer of that
    completion and consumes it: an error with its errno exactly when its result
    is negative. *)
Theorem ctrlCommand_exchange {K} `{RingLaws K} fuel op cmd d r k tr :
  d_ctrlRing d = Some r -> r_cancelled r = false -> go_wf cmd = true ->
  let m := k_shm (r_fd r) (k_async k) in
  sq_inv r m -> 0 < sq_room r m -> published r m = [] -> pending r m = [] ->
  exists r' k1 e, same_ring r r' /\ published r' (k_shm (r_fd r) k1) = [e] /\
    s_Opcode e = OpUringCmd /\ s_Fd e = i32 (d_ctrlFD d) /\ s_Off e = op /\
    of_bytes (s_Cmd e) = Some cmd /\
    (forall err k2, k_enter (r_fd r) 1 0 k1 = (Err err, k2) ->
       ctrlCommand fuel op cmd d (mk_st k tr) =
       Val (set_ctrlRing (Some r') d, Some (Wrap "io_uring_enter submit" (Errno err)),
            mk_st k2 (tr ++ [Ctrl op cmd]))) /\
    (forall x k2 n k' c, k_enter (r_fd r) 1 0 k1 = (Ok x, k2) -> waits r' k2 n k' ->
       PeekCQE r' (k_shm (r_fd r) k') = Some c -> (n < fuel)%nat ->
       let m' := k_shm (r_fd r) (k_async k') in
       ctrlCommand fuel op cmd d (mk_st k tr) =
       Val (set_ctrlRing (Some r') d, answer c,
            mk_st (k_set_shm (r_fd r) (SeenCQE r' m') (k_async k')) (tr ++ [Ctrl op cmd]))).
Proof.
  intros Er Hc Hwf m Hi Hroom Hpub Hpend.
  destruct (ctrlCommand_run fuel op cmd d r k tr Er Hi Hroom Hpub Hpend) as (r' & k1 & Hs & Hp & E).
  exists r', k1, (ctrl_sqe (d_ctrlFD d) op cmd). unfold entered in E.
  split_and!; [done..|by apply ctrl_sqe_decodes| |].
  - intros err k2 Ee. by rewrite Ee in E.
  - intros x k2 n k' c Ee Hw Hpk Hn m'. rewrite Ee in E. rewrite E.
    assert (Hfd : r_fd r' = r_fd r) by (by destruct Hs as (h & t & ->)).
    rewrite (exchange_answer fuel _ r' k2 _ n k' c); [by rewrite Hfd|by destruct Hs as (h & t & ->)|..];
      [done|by rewrite Hfd|done].
Qed.

Definition sample_ctrl : Device := mk_Device 0 9 (-1) (Some (sample_ring 4)) zero_info false false true [] false.

Lemma ctrlCommand_exchange_witness : exists r' k1 e,
  published r' (k_shm 3 k1) = [e] /\ s_Off e = uCmdStopDev /\
  of_bytes (s_Cmd e) = Some (dev_cmd sample_ctrl 0 0 0).
Proof.
  destruct (ctrlCommand_exchange 3 uCmdStopDev (dev_cmd sample_ctrl 0 0 0) sample_ctrl (sample_ring 4)
              (sim_with_ring (sample_shm 4) 4) [] eq_refl eq_refl eq_refl)
    as (r' & k1 & e & _ & Hp & _ & _ & Ho & Hc & _).
  - exact (sample_sq_inv 2 ltac:(lia)).
  - vm_compute. reflexivity.
  - vm_compute. reflexivity.
  - vm_compute. reflexivity.
  - exists r', k1, e. split; [exact Hp|]. split; [exact Ho|exact Hc].
Defined.

