(* ===== verification/DiskLike.v ===== *)
(** * What a backend promises to the worker

    Two interfaces between a backend and the code that uses it.  [MemLike] is
    exact agreement with the in-memory backend of [example/main.go] once the
    instrumentation is projected away: same bytes, same results, same panics.
    [DiskLike] is what a block device needs: on whole sectors inside the store,
    a read returns the stored bytes and a write replaces them.  A client is
    verified once against the interface; each backend discharges it.

    [bdev] is a device as the kernel's block layer sees it, and [serve_on] one
    request on it.  A device over a [DiskLike] backend is an abstract disk
    ([serve_disk]), whatever the backend is made of: memory, or another device. *)

From S2P Require Import Prelude GoLayout Types Uring Backend Worker.

(** ** Agreement with the in-memory backend *)

(** What a caller sees of a call, with the state projected by [f]. *)
Definition see_read {C D} (f : C -> D) (x : list Z * ret * C) : list Z * ret * D :=
  let '(p, r, c) := x in (p, r, f c).
Definition see_write {C D} (f : C -> D) (x : ret * C) : ret * D := let '(r, c) := x in (r, f c).
Definition see_io {A C D} (f : C -> D) (x : A * worker * C) : A * worker * D :=
  let '(res, w, c) := x in (res, w, f c).

Class MemLike {C : Type} (be : Backend C) (data : C -> list Z) : Prop := {
  ml_ReadAt : forall p off c, see_read data <$> ReadAt be p off c = Mem.ReadAt p off (data c);
  ml_WriteAt : forall p off c, see_write data <$> WriteAt be p off c = Mem.WriteAt p off (data c);
  ml_DiscardAt : DiscardAt be = None;
  ml_WriteZeroesAt : WriteZeroesAt be = None }.

#[export] Instance mem_MemLike : MemLike Mem.memBackend id.
Proof.
  constructor; [| |done..]; intros p off c; cbn; unfold Mem.ReadAt, Mem.WriteAt, id;
    by destruct (sub _ _ _).
Qed.

Section MemLikeIO.
Context {C : Type} (be : Backend C) (data : C -> list Z) `{!MemLike be data}.

(** The worker cannot tell such a backend from the in-memory one. *)
Lemma handleIO_MemLike w tag c :
  see_io data <$> handleIO be w tag c = handleIO Mem.memBackend w tag (data c).
Proof.
  unfold handleIO. destruct (getDesc w tag) as [d|]; [|done]. cbn [mbind option_bind].
  rewrite ml_DiscardAt, ml_WriteZeroesAt. cbn [Mem.memBackend DiscardAt WriteZeroesAt].
  repeat (case_decide; [first [done|idtac]|]); [| |done].
  all: repeat (case_decide; [done|]); destruct (buffer w tag _) as [[off buf]|]; [|done];
    cbn [mbind option_bind Mem.memBackend ReadAt WriteAt].
  - rewrite <- (ml_ReadAt buf _ c). by destruct (ReadAt be buf _ c) as [[[p r] c']|].
  - rewrite <- (ml_WriteAt buf _ c). by destruct (WriteAt be buf _ c) as [[r c']|].
Qed.
End MemLikeIO.

(** ** Devices *)

(** A device: its worker, the descriptors the kernel wrote, its capacity and
    its backend's state. *)
Record bdev (B : Type) := mk_bdev { bd_w : worker; bd_ds : list ioDesc; bd_size : Z; bd_b : B }.
Arguments mk_bdev {B}.
Arguments bd_w {B}.
Arguments bd_ds {B}.
Arguments bd_size {B}.
Arguments bd_b {B}.

(** One request: the kernel delivers it, the worker serves it, and the kernel
    takes the reply of a read from the tag's buffer. *)
Definition serve_on {B} (be : Backend B) (q : request) (x : bdev B) : option (Z * list Z * bdev B) :=
  '(res, w, b) ← handleIO be (deliver q (bd_ds x) (bd_w x)) (q_tag q) (bd_b x);
  let x := mk_bdev w (<[Z.to_nat (q_tag q) := q_desc q]> (bd_ds x)) (bd_size x) b in
  if decide (op_of (q_desc q) = opRead)
  then s ← sub (q_tag q * w_bufSize w) (len_of (q_desc q)) (w_bufPool w); Some (res, s, x)
  else Some (res, [], x).

Fixpoint serve_list {B} (be : Backend B) (qs : list request) (x : bdev B) :
    option (list (Z * list Z) * bdev B) :=
  match qs with
  | [] => Some ([], x)
  | q :: qs =>
      '(res, reply, x) ← serve_on be q x;
      '(outs, x) ← serve_list be qs x;
      Some ((res, reply) :: outs, x)
  end.

(** The device with its backend's state projected. *)
Definition view_dev {B D} (f : B -> D) (x : bdev B) : bdev D :=
  mk_bdev (bd_w x) (bd_ds x) (bd_size x) (f (bd_b x)).
Definition see_served {A B D} (f : B -> D) (y : A * bdev B) : A * bdev D :=
  let '(a, x) := y in (a, view_dev f x).

Section MemLikeServe.
Context {C : Type} (be : Backend C) (data : C -> list Z) `{!MemLike be data}.

Lemma serve_on_MemLike q x :
  see_served data <$> serve_on be q x = serve_on Mem.memBackend q (view_dev data x).
Proof.
  unfold serve_on. cbn [view_dev bd_w bd_ds bd_size bd_b].
  rewrite <- (handleIO_MemLike be data).
  destruct (handleIO be _ _ _) as [[[res w] c]|]; [|done].
  cbn [mbind option_bind fmap option_fmap option_map see_io].
  case_decide; [|done]. by destruct (sub _ _ _).
Qed.

Lemma serve_list_MemLike qs : forall x,
  see_served data <$> serve_list be qs x = serve_list Mem.memBackend qs (view_dev data x).
Proof.
  induction qs as [|q qs IH]; intros x; [done|]. cbn [serve_list].
  rewrite <- serve_on_MemLike. destruct (serve_on be q x) as [[[res reply] x']|]; [|done].
  cbn [mbind option_bind fmap option_fmap option_map see_served]. rewrite <- IH.
  by destruct (serve_list be qs x') as [[outs x'']|].
Qed.
End MemLikeServe.

(** ** Disks *)

(** What is observed of a backend's state: the stored bytes, the states it may
    be in, and how many reads and writes it has received. *)
Record view (B : Type) := mk_view {
  v_disk : B -> list Z; v_good : B -> Prop; v_reads : B -> nat; v_writes : B -> nat }.
Arguments mk_view {B}.
Arguments v_disk {B}.
Arguments v_good {B}.
Arguments v_reads {B}.
Arguments v_writes {B}.

(** A range of whole sectors inside a store of [size] bytes. *)
Record in_store (size off len : Z) : Prop := {
  is_off : 0 <= off; is_len : 0 < len; is_end : off + len <= size;
  is_off_sector : off mod 512 = 0; is_len_sector : len mod 512 = 0 }.

Notation lenZ l := (Z.of_nat (length l)).

Class DiskLike {B : Type} (be : Backend B) (v : view B) : Prop := {
  dl_read : forall p off b, v_good v b -> in_store (lenZ (v_disk v b)) off (lenZ p) ->
    exists s b', sub off (lenZ p) (v_disk v b) = Some s /\
      ReadAt be p off b = Some (s, (lenZ p, None), b') /\ v_good v b' /\
      v_disk v b' = v_disk v b /\ v_reads v b' = S (v_reads v b) /\ v_writes v b' = v_writes v b;
  dl_write : forall p off b, v_good v b -> in_store (lenZ (v_disk v b)) off (lenZ p) ->
    exists b', WriteAt be p off b = Some ((lenZ p, None), b') /\ v_good v b' /\
      v_disk v b' = splice off p (v_disk v b) /\ v_reads v b' = v_reads v b /\
      v_writes v b' = S (v_writes v b) }.

(** A device in working order. *)
Record attached {B} (x : bdev B) : Prop := {
  at_worker : worker_wf (bd_w x);
  at_bufSize : 512 <= w_bufSize (bd_w x) < 2 ^ 31;
  at_descs : Forall (fun d => go_wf d = true) (bd_ds x);
  at_depth : lenZ (bd_ds x) = w_depth (bd_w x);
  at_cap : bd_size x <= 2 ^ 63 }.

(** A device in working order over a backend observed by [v]. *)
Record dev_ok {B} (v : view B) (x : bdev B) : Prop := {
  dk_attached : attached x;
  dk_size : bd_size x = lenZ (v_disk v (bd_b x));
  dk_good : v_good v (bd_b x) }.

(** Two devices that differ in content only. *)
Definition same_shape {B} (x x' : bdev B) : Prop :=
  bd_size x' = bd_size x /\ w_depth (bd_w x') = w_depth (bd_w x) /\
  w_bufSize (bd_w x') = w_bufSize (bd_w x).

Lemma same_shape_trans {B} (x y z : bdev B) : same_shape x y -> same_shape y z -> same_shape x z.
Proof. unfold same_shape. naive_solver congruence. Qed.

Lemma sector_range q w size :
  request_ok w size q -> in_store size (off_of (q_desc q)) (len_of (q_desc q)).
Proof.
  intros [_ _ _ Hf Hl Hr _]. pose proof (off_of_nonneg _ Hf).
  constructor; [done|lia|done|apply Z_mod_mult..].
Qed.

(** What is put into a tag's buffer is what the kernel takes from it. *)
Lemma window_reply w tag s len :
  worker_wf w -> 0 <= tag < w_depth w -> lenZ s = len -> len <= w_bufSize w ->
  sub (tag * w_bufSize w) len (splice (tag * w_bufSize w) s (w_bufPool w)) = Some s.
Proof.
  intros Hw Ht <- Hl. destruct (window_in_pool w tag Hw Ht). apply sub_splice; lia.
Qed.

Section DiskLikeIO.
Context {B : Type} (be : Backend B) (v : view B) `{!DiskLike be v}.

Lemma handleIO_disk_read w tag d b :
  worker_wf w -> 0 <= tag < w_depth w -> getDesc w tag = Some d -> desc_fits d ->
  op_of d = opRead -> len_of d <= w_bufSize w -> v_good v b ->
  in_store (lenZ (v_disk v b)) (off_of d) (len_of d) ->
  exists s b', sub (off_of d) (len_of d) (v_disk v b) = Some s /\
    handleIO be w tag b =
      Some (len_of d, set_pool (splice (tag * w_bufSize w) s (w_bufPool w)) w, b') /\
    v_good v b' /\ v_disk v b' = v_disk v b /\ v_reads v b' = S (v_reads v b) /\
    v_writes v b' = v_writes v b.
Proof.
  intros Hw Ht Hg Hd Hop Hl Hb Hin. pose proof (is_len _ _ _ Hin).
  unfold handleIO. rewrite Hg. cbn [mbind option_bind].
  rewrite desc_fits_off, desc_fits_len by done. fold (op_of d).
  rewrite decide_True, decide_False, decide_False by (done || lia).
  destruct (buffer_spec w tag (len_of d) Hw Ht) as (p & -> & Hp & _); [lia|]. cbn [mbind option_bind].
  rewrite <- Hp in Hin. destruct (dl_read p (off_of d) b Hb Hin) as (s & b' & Es & -> & Hrest).
  rewrite Hp in Es. exists s, b'. split; [done|]. cbn [mbind option_bind].
  rewrite Hp, io_result_cases, decide_True by done. done.
Qed.

Lemma handleIO_disk_write w tag d s b :
  worker_wf w -> 0 <= tag < w_depth w -> getDesc w tag = Some d -> desc_fits d ->
  op_of d = opWrite -> len_of d <= w_bufSize w -> v_good v b ->
  in_store (lenZ (v_disk v b)) (off_of d) (len_of d) ->
  sub (tag * w_bufSize w) (len_of d) (w_bufPool w) = Some s ->
  exists b', handleIO be w tag b = Some (len_of d, w, b') /\
    v_good v b' /\ v_disk v b' = splice (off_of d) s (v_disk v b) /\
    v_reads v b' = v_reads v b /\ v_writes v b' = S (v_writes v b).
Proof.
  intros Hw Ht Hg Hd Hop Hl Hb Hin Hs. pose proof (is_len _ _ _ Hin).
  unfold handleIO. rewrite Hg. cbn [mbind option_bind].
  rewrite desc_fits_off, desc_fits_len by done. fold (op_of d). rewrite Hop.
  rewrite decide_False, decide_True, decide_False, decide_False by (done || lia).
  destruct (buffer_spec w tag (len_of d) Hw Ht) as (p & -> & Hp & Hsub); [lia|].
  rewrite Hs in Hsub. injection Hsub as <-. cbn [mbind option_bind].
  rewrite <- Hp in Hin. destruct (dl_write s (off_of d) b Hb Hin) as (b' & -> & Hrest).
  exists b'. cbn [mbind option_bind]. rewrite Hp, io_result_cases, decide_True by done. done.
Qed.

(** A device over a [DiskLike] backend serves a request as a disk does, and
    makes one call of the backend for it. *)
Lemma serve_disk q x :
  dev_ok v x -> request_ok (bd_w x) (bd_size x) q ->
  exists res reply x' disk',
    disk_exec q (v_disk v (bd_b x)) = Some (res, reply, disk') /\ 0 <= res /\
    serve_on be q x = Some (res, reply, x') /\ dev_ok v x' /\ same_shape x x' /\
    v_disk v (bd_b x') = disk' /\
    if decide (op_of (q_desc q) = opRead)
    then v_reads v (bd_b x') = S (v_reads v (bd_b x)) /\ v_writes v (bd_b x') = v_writes v (bd_b x)
    else v_reads v (bd_b x') = v_reads v (bd_b x) /\ v_writes v (bd_b x') = S (v_writes v (bd_b x)).
Proof.
  intros [[Hw Hbs Hds Hlen Hcap] Hsz Hb] Hq. pose proof (sector_range _ _ _ Hq) as Hin.
  destruct (deliver_facts q _ _ _ Hw Hq Hds Hlen) as (Hw1 & Hg & Hdep & Hbs1 & Hbuf).
  destruct Hq as [Ht Hop Hwf Hf Hl Hr Hdata]. rewrite Hsz in Hin.
  unfold serve_on, disk_exec. rewrite <- Hbs1, <- Hdep in *.
  destruct (decide (op_of (q_desc q) = opRead)) as [Hr0|Hr0].
  - clear Hop. rename Hr0 into Hop. rewrite decide_False by (by rewrite Hop).
    destruct (handleIO_disk_read _ _ (q_desc q) (bd_b x) Hw1 Ht Hg Hf Hop) as
      (s & b' & Es & -> & Hb' & Hd' & Hr' & Hw'); [lia|done..|].
    rewrite Es. cbn [mbind option_bind set_pool w_bufSize w_bufPool].
    pose proof (sub_length _ _ _ _ Es) as Hls.
    rewrite window_reply by (done || lia). cbn [mbind option_bind]. eexists _, _, _, _. split_and!; [done|lia|done| | |done..].
    + constructor; cbn; [constructor; cbn; [|lia| | |done]|by rewrite Hd'|done].
      * apply (same_but_buffer_wf (q_tag q) (deliver q (bd_ds x) (bd_w x))); [done..|].
        right. exists s. split; [lia|reflexivity].
      * apply Forall_insert; done.
      * rewrite length_insert. lia.
    + by split_and!.
  - destruct Hop as [Hop|Hop]; [done|]. rewrite decide_True by done.
    destruct (handleIO_disk_write _ _ (q_desc q) (q_data q) (bd_b x) Hw1 Ht Hg Hf Hop) as
      (b' & -> & Hb' & Hd' & Hr' & Hw'); [lia|done|done|by apply Hbuf|].
    cbn [mbind option_bind]. pose proof (is_off _ _ _ Hin).
    eexists _, _, _, _. split_and!; [done|lia|done| | |done..].
    + constructor; cbn; [constructor; cbn; [done|lia| | |done]| |done].
      * apply Forall_insert; done.
      * rewrite length_insert. lia.
      * rewrite Hd', splice_length; [done|lia|rewrite Hdata by done; lia].
    + by split_and!.
Qed.

(** A sequence of requests on such a device and on the disk. *)
Lemma serve_list_disk qs : forall x,
  dev_ok v x -> Forall (request_ok (bd_w x) (bd_size x)) qs ->
  exists outs x' disk', disk_all qs (v_disk v (bd_b x)) = Some (outs, disk') /\
    serve_list be qs x = Some (outs, x') /\ dev_ok v x' /\ same_shape x x' /\
    v_disk v (bd_b x') = disk'.
Proof.
  induction qs as [|q qs IH]; intros x Hx Hqs; [by eexists _, _, _|].
  apply Forall_cons in Hqs as [Hq Hqs].
  destruct (serve_disk q x Hx Hq) as (res & reply & x1 & disk1 & E1 & _ & E2 & Hx1 & Hsh & Hd1 & _).
  destruct (IH x1 Hx1) as (outs & x2 & disk2 & E3 & E4 & Hx2 & Hsh2 & Hd2).
  { destruct Hsh as (-> & Hdep & Hbs). eapply Forall_impl; [exact Hqs|].
    intros q' [H1 H2 H3 H4 H5 H6 H7]. constructor; try done; by rewrite ?Hdep, ?Hbs. }
  exists ((res, reply) :: outs), x2, disk2. cbn [disk_all serve_list]. rewrite E1, E2.
  cbn [mbind option_bind]. rewrite <- Hd1, E3, E4. cbn [mbind option_bind].
  split_and!; [done..|by eapply same_shape_trans|done].
Qed.
End DiskLikeIO.
