(* ===== verification/BlockLayer.v ===== *)
(** * Block device files

    The examples open a device's block file with O_DIRECT and use pread and
    pwrite on it.  The kernel's block layer between the file and the worker is
    not in the repository: [BlockFile] has the two calls as parameters, and
    [BlockFileLaws] states what is documented of them.  A call is split into
    requests of whole sectors that the driver sends to the server, in any order,
    possibly more than once; it succeeds when every request does, and a call
    that succeeds has transferred what it says it has.

    [fdBackend] of [example/chain] forwards a backend's calls to such a file.
    The theorem is the composition: over a device whose backend is [DiskLike],
    the file is read and written as the backend's store, and the forwarding
    backend is again [DiskLike].  Devices can be stacked to any height. *)

From stdpp Require Import pretty.
From S2P Require Import Prelude GoLayout Types Uring Backend Worker DiskLike.

(** ** Requests of a call *)

Record part := mk_part { p_tag : Z; p_desc : ioDesc }.
Definition p_off (p : part) : Z := off_of (p_desc p).
Definition p_len (p : part) : Z := len_of (p_desc p).
Definition p_has (p : part) (i : Z) : Prop := p_off p <= i < p_off p + p_len p.

Section Parts.
Context {B : Type} (be : Backend B).

(** The requests of a write of [data] at [off], and their results. *)
Fixpoint run_writes (off : Z) (data : list Z) (ps : list part) (x : bdev B) :
    option (list Z * bdev B) :=
  match ps with
  | [] => Some ([], x)
  | p :: ps =>
      s ← sub (p_off p - off) (p_len p) data;
      '(res, _, x) ← serve_on be (mk_request (p_tag p) (p_desc p) s) x;
      '(rs, x) ← run_writes off data ps x;
      Some (res :: rs, x)
  end.

(** The requests of a read at [off] into [buf]: the reply of a request that
    succeeds is copied to its place. *)
Fixpoint run_reads (off : Z) (ps : list part) (buf : list Z) (x : bdev B) :
    option (list Z * list Z * bdev B) :=
  match ps with
  | [] => Some ([], buf, x)
  | p :: ps =>
      '(res, reply, x) ← serve_on be (mk_request (p_tag p) (p_desc p) []) x;
      let buf := if decide (0 <= res) then splice (p_off p - off) reply buf else buf in
      '(rs, buf, x) ← run_reads off ps buf x;
      Some (res :: rs, buf, x)
  end.
End Parts.

(** A request of a call on [len] bytes at [off]. *)
Record part_ok {B} (op off len : Z) (x : bdev B) (p : part) : Prop := {
  po_tag : 0 <= p_tag p < w_depth (bd_w x);
  po_wf : go_wf (p_desc p) = true;
  po_op : op_of (p_desc p) = op;
  po_len : 0 < p_len p <= w_bufSize (bd_w x);
  po_lo : off <= p_off p;
  po_hi : p_off p + p_len p <= off + len }.

Definition parts_ok {B} (op off len : Z) (x : bdev B) (ps : list part) : Prop :=
  Forall (part_ok op off len x) ps /\
  forall i, off <= i < off + len -> exists p, p ∈ ps /\ p_has p i.

(** What a call may return, given the results of its requests. *)
Definition outcome (off len : Z) (ps : list part) (rs : list Z) (r : ret) : Prop :=
  (Forall (Z.le 0) rs -> r = (len, None)) /\
  (snd r = None -> 0 < fst r <= len /\
     forall i, off <= i < off + fst r -> exists p res, (p, res) ∈ zip ps rs /\ 0 <= res /\ p_has p i).

Class BlockFile (B : Type) := {
  pread : list Z -> Z -> bdev B -> option (list Z * ret * bdev B);
  pwrite : list Z -> Z -> bdev B -> option (ret * bdev B);
  pread_length : forall p off x p' r x', pread p off x = Some (p', r, x') -> length p' = length p }.

Class BlockFileLaws {B : Type} (be : Backend B) `{!BlockFile B} : Prop := {
  pwrite_law : forall data off x, attached x -> in_store (bd_size x) off (lenZ data) ->
    exists ps, parts_ok opWrite off (lenZ data) x ps /\
      match run_writes be off data ps x with
      | Some (rs, x') => exists r, pwrite data off x = Some (r, x') /\ outcome off (lenZ data) ps rs r
      | None => pwrite data off x = None
      end;
  pread_law : forall buf off x, attached x -> in_store (bd_size x) off (lenZ buf) ->
    exists ps, parts_ok opRead off (lenZ buf) x ps /\
      match run_reads be off ps buf x with
      | Some (rs, buf', x') => exists r buf'', pread buf off x = Some (buf'', r, x') /\
          outcome off (lenZ buf) ps rs r /\
          (snd r = None -> take (Z.to_nat (fst r)) buf'' = take (Z.to_nat (fst r)) buf')
      | None => pread buf off x = None
      end }.

(** ** A file over a [DiskLike] backend *)

#[export] Instance p_has_dec p i : Decision (p_has p i).
Proof. unfold p_has. apply _. Defined.

Lemma part_request {B} op off len data (x : bdev B) p :
  attached x -> part_ok op off len x p -> off + len <= bd_size x -> op = opRead \/ op = opWrite ->
  (op = opWrite -> lenZ data = p_len p) ->
  request_ok (bd_w x) (bd_size x) (mk_request (p_tag p) (p_desc p) data).
Proof.
  intros [Hw Hbs Hds Hlen Hcap] [Ht Hwf Hop Hl Hlo Hhi] Hsz Hrw Hdata. unfold p_len, p_off in *.
  assert (Hfit : desc_fits (p_desc p)).
  { destruct (p_desc p) as [fl nr start addr]. unfold len_of, off_of, desc_fits, go_wf in *. cbn in *.
    rewrite !andb_true_iff, !bool_decide_eq_true in Hwf. unfold is_u in *. cbn in *. lia. }
  constructor; cbn; [done|by rewrite Hop|done|done|done|lia|by rewrite Hop].
Qed.

Lemma same_shape_parts {B} op off len (x x' : bdev B) ps :
  same_shape x x' -> Forall (part_ok op off len x) ps -> Forall (part_ok op off len x') ps.
Proof.
  intros (_ & Hd & Hb) Hps. eapply Forall_impl; [exact Hps|]. intros p [H1 H2 H3 H4 H5 H6].
  constructor; try done; by rewrite ?Hd, ?Hb.
Qed.

Lemma parts_ok_nonempty {B} op off len (x : bdev B) ps : 0 < len -> parts_ok op off len x ps -> (0 < length ps)%nat.
Proof.
  intros Hl [_ Hcov]. destruct (Hcov off) as (p & Hp & _); [lia|]. by destruct ps; [set_solver|cbn; lia].
Qed.

Lemma has_in_range {B} op off len (x : bdev B) ps i :
  parts_ok op off len x ps ->
  Exists (fun p => p_has p i) ps <-> off <= i < off + len.
Proof.
  intros [Hps Hcov]. rewrite Exists_exists, Forall_forall in *. split.
  - intros (p & Hp & Hi). destruct (Hps p Hp). unfold p_has in Hi. lia.
  - intros Hi. destruct (Hcov i Hi) as (p & Hp & Hpi). eauto.
Qed.

Section FileDisk.
Context {B : Type} (be : Backend B) (v : view B) `{!DiskLike be v}.

Lemma run_writes_disk off data ps : forall x,
  dev_ok v x -> 0 <= off -> off + lenZ data <= bd_size x ->
  Forall (part_ok opWrite off (lenZ data) x) ps ->
  exists rs x', run_writes be off data ps x = Some (rs, x') /\ Forall (Z.le 0) rs /\
    dev_ok v x' /\ same_shape x x' /\
    v_reads v (bd_b x') = v_reads v (bd_b x) /\
    v_writes v (bd_b x') = (length ps + v_writes v (bd_b x))%nat /\
    forall i : nat, v_disk v (bd_b x') !! i =
      if decide (Exists (fun p => p_has p (Z.of_nat i)) ps)
      then data !! (i - Z.to_nat off)%nat else v_disk v (bd_b x) !! i.
Proof.
  induction ps as [|p ps IH]; intros x Hx Ho Hsz Hps.
  { by exists [], x. }
  apply Forall_cons in Hps as [Hp Hps]. cbn [run_writes].
  pose proof (po_lo _ _ _ _ _ Hp). pose proof (po_hi _ _ _ _ _ Hp). pose proof (po_len _ _ _ _ _ Hp).
  destruct (sub (p_off p - off) (p_len p) data) as [s|] eqn:Es; [|rewrite sub_Some in Es by lia; done].
  pose proof (sub_length _ _ _ _ Es) as Hs. cbn [mbind option_bind].
  pose proof (part_request _ _ _ s x p (dk_attached _ _ Hx) Hp Hsz (or_intror eq_refl) (fun _ => Hs)) as Hq.
  destruct (serve_disk be v _ x Hx Hq) as (res & reply & x1 & d1 & E1 & Hres & -> & Hx1 & Hsh & Hd1 & Hcnt).
  cbn [mbind option_bind q_desc] in *. pose proof (po_op _ _ _ _ _ Hp) as Hop.
  unfold disk_exec in E1. cbn [q_desc q_data] in E1. rewrite decide_True in E1 by done.
  injection E1 as _ _ E1. rewrite decide_False in Hcnt by (by rewrite Hop).
  destruct (IH x1) as (rs & x2 & -> & Hrs & Hx2 & Hsh2 & Hr2 & Hw2 & Hd2).
  { done. } { done. } { by destruct Hsh as (-> & _). } { by eapply same_shape_parts. }
  exists (res :: rs), x2. split_and!; [done|by constructor|done|by eapply same_shape_trans|lia|cbn [length]; lia|].
  intros i. rewrite Hd2, Hd1, <- E1. pose proof (dk_size _ _ Hx). fold (p_off p).
  rewrite splice_lookup by (unfold p_len, p_off in *; lia).
  destruct (decide (Exists _ ps)) as [Hin|Hnin].
  { by rewrite decide_True by (by apply Exists_cons_tl). }
  destruct (decide (p_has p (Z.of_nat i))) as [Hi|Hi]; unfold p_has in Hi.
  - rewrite !decide_True by (by apply Exists_cons_hd || lia).
    rewrite (sub_lookup _ _ _ _ _ Es) by lia. f_equal. lia.
  - rewrite !decide_False; [done|by rewrite Exists_cons; intros [|]|lia].
Qed.

Lemma run_reads_disk off ps : forall buf x,
  dev_ok v x -> 0 <= off -> off + lenZ buf <= bd_size x ->
  Forall (part_ok opRead off (lenZ buf) x) ps ->
  exists rs buf' x', run_reads be off ps buf x = Some (rs, buf', x') /\ Forall (Z.le 0) rs /\
    dev_ok v x' /\ same_shape x x' /\ length buf' = length buf /\
    v_disk v (bd_b x') = v_disk v (bd_b x) /\
    v_reads v (bd_b x') = (length ps + v_reads v (bd_b x))%nat /\
    v_writes v (bd_b x') = v_writes v (bd_b x) /\
    forall i : nat, buf' !! i =
      if decide (Exists (fun p => p_has p (off + Z.of_nat i)) ps)
      then v_disk v (bd_b x) !! (Z.to_nat off + i)%nat else buf !! i.
Proof.
  induction ps as [|p ps IH]; intros buf x Hx Ho Hsz Hps.
  { by exists [], buf, x. }
  apply Forall_cons in Hps as [Hp Hps]. cbn [run_reads].
  pose proof (po_lo _ _ _ _ _ Hp). pose proof (po_hi _ _ _ _ _ Hp). pose proof (po_len _ _ _ _ _ Hp).
  pose proof (po_op _ _ _ _ _ Hp) as Hop.
  assert (Hq : request_ok (bd_w x) (bd_size x) (mk_request (p_tag p) (p_desc p) [])).
  { apply (part_request _ _ _ _ x p (dk_attached _ _ Hx) Hp Hsz); [by left|done]. }
  destruct (serve_disk be v _ x Hx Hq) as (res & reply & x1 & d1 & E1 & Hres & -> & Hx1 & Hsh & Hd1 & Hcnt).
  cbn [mbind option_bind q_desc] in *. unfold disk_exec in E1. cbn [q_desc q_data] in E1.
  rewrite decide_False, decide_True in E1 by (done || by rewrite Hop).
  destruct (sub _ _ _) as [s|] eqn:Es; [|done]. injection E1 as _ <- E1. rewrite <- E1 in Hd1.
  rewrite decide_True in Hcnt by done. rewrite decide_True by done.
  fold (p_off p) (p_len p) in *. pose proof (sub_length _ _ _ _ Es) as Hs.
  assert (Hl1 : length (splice (p_off p - off) s buf) = length buf) by (apply splice_length; lia).
  destruct (IH (splice (p_off p - off) s buf) x1)
    as (rs & buf' & x2 & -> & Hrs & Hx2 & Hsh2 & Hl2 & Hd2 & Hr2 & Hw2 & Hb2).
  { done. } { done. } { rewrite Hl1. by destruct Hsh as (-> & _). } { rewrite Hl1. by eapply same_shape_parts. }
  exists (res :: rs), buf', x2. cbn [mbind option_bind length].
  split_and!; [done|by constructor|done|by eapply same_shape_trans|congruence|congruence|lia|lia|].
  intros i. rewrite Hb2, Hd1. rewrite splice_lookup by lia.
  destruct (decide (Exists _ ps)) as [Hin|Hnin].
  { by rewrite decide_True by (by apply Exists_cons_tl). }
  destruct (decide (p_has p (off + Z.of_nat i))) as [Hi|Hi]; unfold p_has in Hi.
  - rewrite !decide_True by (by apply Exists_cons_hd || lia).
    rewrite (sub_lookup _ _ _ _ _ Es) by lia. f_equal. lia.
  - rewrite !decide_False; [done|by rewrite Exists_cons; intros [|]|lia].
Qed.

Context `{!BlockFile B} `{!BlockFileLaws be}.

(** A pwrite of whole sectors inside the device stores its bytes, returns their
    number, and reaches the backend at least once. *)
Lemma pwrite_disk data off x :
  dev_ok v x -> in_store (bd_size x) off (lenZ data) ->
  exists x', pwrite data off x = Some ((lenZ data, None), x') /\ dev_ok v x' /\ same_shape x x' /\
    v_disk v (bd_b x') = splice off data (v_disk v (bd_b x)) /\
    v_reads v (bd_b x') = v_reads v (bd_b x) /\ (v_writes v (bd_b x) < v_writes v (bd_b x'))%nat.
Proof.
  intros Hx Hin. pose proof (dk_size _ _ Hx) as Hsize. pose proof Hin as [Ho Hl He _ _].
  destruct (pwrite_law data off x (dk_attached _ _ Hx) Hin) as (ps & Hps & Hrun).
  destruct (run_writes_disk off data ps x Hx Ho He (proj1 Hps))
    as (rs & x' & E & Hrs & Hx' & Hsh & Hr & Hw & Hd).
  rewrite E in Hrun. destruct Hrun as (r & Ew & Hall & _). rewrite (Hall Hrs) in Ew.
  exists x'. split_and!; [done..| |done|].
  - apply list_eq. intros i. rewrite Hd, splice_lookup by lia.
    destruct (decide (Exists _ _)) as [H1|H1]; rewrite (has_in_range _ _ _ _ _ _ Hps) in H1;
      [by rewrite decide_True by lia|by rewrite decide_False by lia].
  - pose proof (parts_ok_nonempty _ _ _ _ _ Hl Hps). lia.
Qed.

(** A pread of whole sectors inside the device returns the stored bytes. *)
Lemma pread_disk buf off x :
  dev_ok v x -> in_store (bd_size x) off (lenZ buf) ->
  exists s x', sub off (lenZ buf) (v_disk v (bd_b x)) = Some s /\
    pread buf off x = Some (s, (lenZ buf, None), x') /\ dev_ok v x' /\ same_shape x x' /\
    v_disk v (bd_b x') = v_disk v (bd_b x) /\
    (v_reads v (bd_b x) < v_reads v (bd_b x'))%nat /\ v_writes v (bd_b x') = v_writes v (bd_b x).
Proof.
  intros Hx Hin. pose proof (dk_size _ _ Hx) as Hsize. pose proof Hin as [Ho Hl He _ _].
  destruct (pread_law buf off x (dk_attached _ _ Hx) Hin) as (ps & Hps & Hrun).
  destruct (run_reads_disk off ps buf x Hx Ho He (proj1 Hps))
    as (rs & buf' & x' & E & Hrs & Hx' & Hsh & Hlen & Hd & Hr & Hw & Hb).
  rewrite E in Hrun. destruct Hrun as (r & buf'' & Er & [Hall _] & Htake).
  pose proof (Hall Hrs) as ->. cbn [fst snd] in Htake. specialize (Htake eq_refl).
  pose proof (pread_length _ _ _ _ _ _ Er) as Hl''. rewrite Nat2Z.id in Htake.
  rewrite !take_ge in Htake by lia. subst buf''.
  destruct (sub off (lenZ buf) (v_disk v (bd_b x))) as [s|] eqn:Es;
    [|rewrite sub_Some in Es by lia; done].
  pose proof (sub_length _ _ _ _ Es) as Hls. exists s, x'.
  assert (s = buf') as ->.
  { apply list_eq_same_length with (length s); [lia..|]. intros i a b Hi Ha Hb'.
    rewrite (sub_lookup _ _ _ _ _ Es) in Ha by lia.
    rewrite Hb, decide_True in Hb' by (apply (has_in_range _ _ _ _ _ _ Hps); lia). congruence. }
  pose proof (parts_ok_nonempty _ _ _ _ _ Hl Hps). split_and!; [done..|lia|done].
Qed.
End FileDisk.

(** ** The forwarding backend of [example/chain] *)

(** An atomic counter follows a count as long as both step together. *)
Lemma i64_succ c (n : nat) : c = i64 (Z.of_nat n) -> i64 (c + 1) = i64 (Z.of_nat (n + 1)).
Proof. intros ->. goint. Qed.

Module Fd.
Section Fd.
Context {B : Type} `{!BlockFile B}.

(** [fd] is the device behind the descriptor. *)
Record fdBackend := mk_fdBackend { fd : bdev B; reads : Z; writes : Z }.

Definition errorf (op : string) (off len : Z) (err : string) : string :=
  "fdBackend " +:+ op +:+ " off=" +:+ pretty off +:+ " len=" +:+ pretty len +:+ ": " +:+ err.

Definition ReadAt (p : list Z) (off : Z) (f : fdBackend) : option (list Z * ret * fdBackend) :=
  let reads := i64 (reads f + 1) in
  '(p', (n, err), x) ← pread p off (fd f);
  let f := mk_fdBackend x reads (writes f) in
  match err with
  | Some e => Some (p', (n, Some (errorf "pread" off (lenZ p) e)), f)
  | None => Some (p', (n, None), f)
  end.

Definition WriteAt (p : list Z) (off : Z) (f : fdBackend) : option (ret * fdBackend) :=
  let writes := i64 (writes f + 1) in
  '((n, err), x) ← pwrite p off (fd f);
  let f := mk_fdBackend x (reads f) writes in
  match err with
  | Some e => Some ((n, Some (errorf "pwrite" off (lenZ p) e)), f)
  | None => Some ((n, None), f)
  end.

Lemma fd_ReadAt_keeps p off f p' r f' : ReadAt p off f = Some (p', r, f') -> length p' = length p.
Proof.
  unfold ReadAt. destruct (pread p off (fd f)) as [[[q [n err]] x]|] eqn:E; [|done].
  apply pread_length in E. cbn. destruct err; intros [= <- _ _]; done.
Qed.

Definition backend : Backend fdBackend := mk_Backend ReadAt WriteAt None None fd_ReadAt_keeps.
End Fd.
Arguments fdBackend : clear implicits.

(** What the proxy shows of its store: the bytes of the device below.  In a
    good state its counters follow its log, and the device below has received
    at least as many calls. *)
Definition fd_view {B} (v : view B) : view (fdBackend B * log) := mk_view
  (fun s => v_disk v (bd_b (fd s.1)))
  (fun s => dev_ok v (fd s.1) /\
     reads s.1 = i64 (Z.of_nat (nreads s.2)) /\ writes s.1 = i64 (Z.of_nat (nwrites s.2)) /\
     (nreads s.2 <= v_reads v (bd_b (fd s.1)))%nat /\ (nwrites s.2 <= v_writes v (bd_b (fd s.1)))%nat)
  (fun s => nreads s.2) (fun s => nwrites s.2).

(** The composition: forwarding to a device over a disk is again a disk. *)
#[global] Instance fd_DiskLike {B} (be : Backend B) (v : view B)
  `{!DiskLike be v} `{!BlockFile B} `{!BlockFileLaws be} : DiskLike (logged backend) (fd_view v).
Proof.
  constructor; intros p off [f l] (Hx & Hr & Hw & Hnr & Hnw) Hin; cbn [fst snd fd_view v_disk v_reads v_writes v_good] in *;
    rewrite <- (dk_size _ _ Hx) in Hin.
  - destruct (pread_disk be v p off _ Hx Hin) as (s & x' & Es & Er & Hx' & Hsh & Hd & Hlt & Hw').
    exists s. eexists. split; [done|]. cbn [logged Backend.ReadAt]. unfold logged_ReadAt.
    cbn [backend Backend.ReadAt fst]. unfold ReadAt. rewrite Er. cbn [mbind option_bind].
    split; [done|]. cbn [fst snd fd reads writes]. rewrite nreads_snoc, nwrites_snoc. cbn [is_read is_write].
    split_and!; [done|by apply i64_succ|by rewrite Nat.add_0_r|lia|lia|done|lia|lia].
  - destruct (pwrite_disk be v p off _ Hx Hin) as (x' & Ew & Hx' & Hsh & Hd & Hr' & Hlt).
    eexists. cbn [logged Backend.WriteAt]. unfold logged_WriteAt.
    cbn [backend Backend.WriteAt fst]. unfold WriteAt. rewrite Ew. cbn [mbind option_bind].
    split; [done|]. cbn [fst snd fd reads writes]. rewrite nreads_snoc, nwrites_snoc. cbn [is_read is_write].
    split_and!; [done|by rewrite Nat.add_0_r|by apply i64_succ|lia|lia|done|lia|lia].
Qed.
End Fd.

(** ** A block layer

    One request per sector, all with tag 0, and an error if any of them fails:
    a concrete pair of calls that satisfies the laws. *)
Section SectorFile.
Context {B : Type} (be : Backend B).

Definition sector_part (op off i : Z) : part := mk_part 0 (mk_ioDesc op 1 (off / 512 + i) 0).
Definition sector_parts (op off len : Z) : list part := sector_part op off <$> seqZ 0 (len / 512).

Definition sector_result (len : Z) (rs : list Z) : ret :=
  if decide (Forall (Z.le 0) rs) then (len, None) else (-1, Some "input/output error").

Definition sector_pwrite (data : list Z) (off : Z) (x : bdev B) : option (ret * bdev B) :=
  '(rs, x) ← run_writes be off data (sector_parts opWrite off (lenZ data)) x;
  Some (sector_result (lenZ data) rs, x).

Definition sector_pread (buf : list Z) (off : Z) (x : bdev B) : option (list Z * ret * bdev B) :=
  '(rs, buf', x) ← run_reads be off (sector_parts opRead off (lenZ buf)) buf x;
  Some (copy buf buf', sector_result (lenZ buf) rs, x).

Lemma sector_pread_length p off x p' r x' :
  sector_pread p off x = Some (p', r, x') -> length p' = length p.
Proof.
  unfold sector_pread. destruct (run_reads _ _ _ _ _) as [[[rs q] y]|]; [|done].
  cbn. intros [= <- _ _]. apply copy_length.
Qed.

#[local] Instance sector_file : BlockFile B :=
  Build_BlockFile B sector_pread sector_pwrite sector_pread_length.

Lemma run_writes_results off data ps : forall x rs x',
  run_writes be off data ps x = Some (rs, x') -> length rs = length ps.
Proof.
  induction ps as [|p ps IH]; intros x rs x'; cbn [run_writes]; [by intros [= <- _]|].
  destruct (sub _ _ _) as [s|]; [|done]. cbn [mbind option_bind].
  destruct (serve_on be _ x) as [[[res reply] x1]|]; [|done]. cbn [mbind option_bind].
  destruct (run_writes be off data ps x1) as [[rs1 x2]|] eqn:E; [|done].
  intros [= <- _]. cbn. by rewrite (IH _ _ _ E).
Qed.

Lemma serve_on_reply q x res reply x' :
  op_of (q_desc q) = opRead -> serve_on be q x = Some (res, reply, x') -> lenZ reply = len_of (q_desc q).
Proof.
  intros Hop. unfold serve_on. destruct (handleIO be _ _ _) as [[[r w] b]|]; [|done].
  cbn [mbind option_bind]. rewrite decide_True by done.
  destruct (sub _ _ _) as [s|] eqn:E; [|done]. intros [= _ <- _]. by eapply sub_length.
Qed.

Lemma run_reads_results off len (x0 : bdev B) ps : forall buf x rs buf' x',
  lenZ buf = len -> Forall (part_ok opRead off len x0) ps ->
  run_reads be off ps buf x = Some (rs, buf', x') -> length rs = length ps /\ length buf' = length buf.
Proof.
  induction ps as [|p ps IH]; intros buf x rs buf' x' Hl Hps; cbn [run_reads]; [by intros [= <- <- _]|].
  apply Forall_cons in Hps as [[_ _ Hop Hlen Hlo Hhi] Hps].
  destruct (serve_on be _ x) as [[[res reply] x1]|] eqn:Es; [|done].
  pose proof (serve_on_reply (mk_request _ _ _) _ _ _ _ Hop Es) as Hr. cbn [mbind option_bind q_desc] in *.
  set (buf1 := if decide (0 <= res) then _ else _).
  assert (Hl1 : length buf1 = length buf).
  { unfold buf1. case_decide; [|done]. unfold p_len, p_off in *. apply splice_length; lia. }
  clearbody buf1. destruct (run_reads be off ps buf1 x1) as [[[rs1 b1] x2]|] eqn:E; [|done].
  intros [= <- <- _]. destruct (IH buf1 _ _ _ _ ltac:(lia) Hps E) as [H1 H2]. cbn [length]. lia.
Qed.

Lemma sector_parts_ok op off len (x : bdev B) :
  op = opRead \/ op = opWrite -> attached x -> in_store (bd_size x) off len ->
  parts_ok op off len x (sector_parts op off len).
Proof.
  intros Hop [Hw Hbs _ _ Hcap] [Ho Hl He Hom Hlm]. pose proof (ww_depth _ Hw). split.
  - unfold sector_parts. apply Forall_fmap, Forall_forall. intros i Hi. apply elem_of_seqZ in Hi.
    constructor; cbn; unfold p_len, p_off, len_of, off_of; cbn; [lia| | |lia..].
    + unfold go_wf. cbn. rewrite !andb_true_iff, !bool_decide_eq_true. unfold is_u. cbn.
      destruct Hop as [-> | ->]; unfold opRead, opWrite; lia.
    + destruct Hop as [-> | ->]; reflexivity.
  - intros i Hi. exists (sector_part op off ((i - off) / 512)). split.
    + apply list_elem_of_fmap. eexists. split; [done|]. apply elem_of_seqZ. lia.
    + unfold p_has, p_off, p_len, off_of, len_of. cbn. lia.
Qed.

Lemma sector_outcome op off len (x : bdev B) ps rs :
  0 < len -> parts_ok op off len x ps -> length rs = length ps ->
  outcome off len ps rs (sector_result len rs).
Proof.
  intros Hl [_ Hcov] Hlen. unfold outcome, sector_result. case_decide as Hall; cbn [fst snd]; [|done].
  split; [done|]. intros _. split; [lia|]. intros i Hi. destruct (Hcov i Hi) as (p & Hp & Hpi).
  apply list_elem_of_lookup in Hp as [j Hj].
  destruct (lookup_lt_is_Some_2 rs j) as [res Hres]; [apply lookup_lt_Some in Hj; lia|].
  exists p, res. split_and!; [|by eapply Forall_lookup in Hres|done].
  apply list_elem_of_lookup. exists j. rewrite lookup_zip_with, Hj, Hres. done.
Qed.

Lemma sector_file_laws : BlockFileLaws be.
Proof.
  constructor; intros buf off x Hx Hin; pose proof (is_len _ _ _ Hin).
  - exists (sector_parts opWrite off (lenZ buf)).
    pose proof (sector_parts_ok opWrite off _ x (or_intror eq_refl) Hx Hin) as Hps. split; [done|].
    cbn [pwrite sector_file]. unfold sector_pwrite.
    destruct (run_writes _ _ _ _ _) as [[rs x']|] eqn:E; [|done].
    eexists. split; [done|]. eapply sector_outcome; [done..|]. by eapply run_writes_results.
  - exists (sector_parts opRead off (lenZ buf)).
    pose proof (sector_parts_ok opRead off _ x (or_introl eq_refl) Hx Hin) as Hps. split; [done|].
    cbn [pread sector_file]. unfold sector_pread.
    destruct (run_reads _ _ _ _ _) as [[[rs buf'] x']|] eqn:E; [|done].
    destruct (run_reads_results off (lenZ buf) x _ _ _ _ _ _ eq_refl (proj1 Hps) E) as [Hrs Hb].
    eexists _, _. split; [done|]. split; [by eapply sector_outcome|]. intros _.
    by rewrite copy_all by lia.
Qed.
End SectorFile.
