(* ===== verification/ExBackends.v ===== *)
(** * The backends of the example programs

    Six programs under [example/] come with a backend of their own: the
    in-memory store with counters ([chain], [stress]), with a trace of its calls
    ([flushbench]), with counters and optional logging ([fsdemo]), without
    either ([sigkill]), and the store that fails a share of its calls
    ([fault]).  Each is a [Backend] over its own record; a slice expression out
    of range panics.  Mutexes order concurrent calls and have no counterpart in
    this sequential model; atomic counters wrap at 64 bits.

    The theorems: all but the last are [MemLike], so a device cannot tell them
    from the reference backend; their counters and traces record exactly the
    calls made; the faulty one injects an error exactly when its draw is below
    the rate and is the reference backend otherwise. *)

From Stdlib Require Import SpecFloat.
From S2P Require Import Prelude GoLayout Types Uring Backend Worker DiskLike.

(** [copy(p, data[off:off+int64(len(p))]), nil] with the rest of the state [c]. *)
Definition read_slice {C} (p : list Z) (off : Z) (data : list Z) (c : C) :
    option (list Z * ret * C) :=
  s ← sub off (lenZ p) data; Some (copy p s, (copied p s, None), c).

(** [copy(data[off:off+int64(len(p))], p), nil], the new [data] put back by [k]. *)
Definition write_slice {C} (p : list Z) (off : Z) (data : list Z) (k : list Z -> C) :
    option (ret * C) :=
  s ← sub off (lenZ p) data; Some ((copied s p, None), k (splice off (copy s p) data)).

Lemma read_slice_length {C} p off data (c : C) p' r c' :
  read_slice p off data c = Some (p', r, c') -> length p' = length p.
Proof.
  unfold read_slice. destruct (sub _ _ _); [|done]. cbn. intros [= <- _ _]. apply copy_length.
Qed.

Lemma see_read_slice {C} (f : C -> list Z) p off data c :
  f c = data -> see_read f <$> read_slice p off data c = Mem.ReadAt p off data.
Proof. intros <-. unfold read_slice, Mem.ReadAt. by destruct (sub _ _ _). Qed.

Lemma see_write_slice {C} (f : C -> list Z) p off data k :
  (forall d, f (k d) = d) -> see_write f <$> write_slice p off data k = Mem.WriteAt p off data.
Proof.
  intros Hk. unfold write_slice, Mem.WriteAt. destruct (sub _ _ _); [|done]. cbn. by rewrite Hk.
Qed.

(** Discharge [MemLike] for a backend whose methods are the two slices. *)
Ltac mem_like data :=
  constructor; [| |done..]; intros p off b; cbn;
    [by apply (see_read_slice data)|by apply (see_write_slice data)].

(** ** [example/chain] *)
Module ChainMem.

Record memBackend := mk_memBackend {
  data : list Z; reads : Z; writes : Z; readBytes : Z; writeBytes : Z }.

Definition ReadAt (p : list Z) (off : Z) (b : memBackend) : option (list Z * ret * memBackend) :=
  let b := mk_memBackend (data b) (i64 (reads b + 1)) (writes b)
             (i64 (readBytes b + i64 (lenZ p))) (writeBytes b) in
  read_slice p off (data b) b.

Definition WriteAt (p : list Z) (off : Z) (b : memBackend) : option (ret * memBackend) :=
  let b := mk_memBackend (data b) (reads b) (i64 (writes b + 1))
             (readBytes b) (i64 (writeBytes b + i64 (lenZ p))) in
  write_slice p off (data b)
    (fun d => mk_memBackend d (reads b) (writes b) (readBytes b) (writeBytes b)).

(** A copy of [n] bytes of the store. *)
Definition slice (off n : Z) (b : memBackend) : option (list Z) :=
  s ← sub off n (data b); Some (copy (zeros (Z.to_nat n)) s).

Definition backend : Backend memBackend := mk_Backend ReadAt WriteAt None None
  (fun p off b => read_slice_length p off (data b) _).

#[global] Instance chain_mem_like : MemLike backend data.
Proof. mem_like data. Qed.
End ChainMem.

(** ** [example/stress] *)
Module StressMem.

Definition devSize : Z := 2 * 1024 * 1024.
Definition blkSize : Z := 4096.

Record memBackend := mk_memBackend { data : list Z; reads : Z; writes : Z }.

Definition newMemBackend : memBackend := mk_memBackend (zeros (Z.to_nat devSize)) 0 0.

Definition ReadAt (p : list Z) (off : Z) (b : memBackend) : option (list Z * ret * memBackend) :=
  let b := mk_memBackend (data b) (i64 (reads b + 1)) (writes b) in
  read_slice p off (data b) b.

Definition WriteAt (p : list Z) (off : Z) (b : memBackend) : option (ret * memBackend) :=
  let b := mk_memBackend (data b) (reads b) (i64 (writes b + 1)) in
  write_slice p off (data b) (fun d => mk_memBackend d (reads b) (writes b)).

Definition backend : Backend memBackend := mk_Backend ReadAt WriteAt None None
  (fun p off b => read_slice_length p off (data b) _).

#[global] Instance stress_mem_like : MemLike backend data.
Proof. mem_like data. Qed.
End StressMem.

(** ** [example/sigkill] *)
Module SigkillMem.

Record memBackend := mk_memBackend { data : list Z }.

Definition ReadAt (p : list Z) (off : Z) (b : memBackend) : option (list Z * ret * memBackend) :=
  read_slice p off (data b) b.

Definition WriteAt (p : list Z) (off : Z) (b : memBackend) : option (ret * memBackend) :=
  write_slice p off (data b) mk_memBackend.

Definition backend : Backend memBackend := mk_Backend ReadAt WriteAt None None
  (fun p off b => read_slice_length p off (data b) _).

#[global] Instance sigkill_mem_like : MemLike backend data.
Proof. mem_like data. Qed.
End SigkillMem.

(** ** [example/fsdemo] *)
Module Logging.

(** [printed] is what [log.Printf] has written: operation, offset, length. *)
Record loggingBackend := mk_loggingBackend {
  data : list Z; reads : Z; writes : Z; readBytes : Z; writeBytes : Z; verbose : bool;
  printed : list (string * Z * Z) }.

Definition print (op : string) (off len : Z) (b : loggingBackend) : list (string * Z * Z) :=
  if verbose b then printed b ++ [(op, off, len)] else printed b.

Definition ReadAt (p : list Z) (off : Z) (b : loggingBackend) : option (list Z * ret * loggingBackend) :=
  let b := mk_loggingBackend (data b) (i64 (reads b + 1)) (writes b)
             (i64 (readBytes b + i64 (lenZ p))) (writeBytes b) (verbose b) (print "R" off (lenZ p) b) in
  read_slice p off (data b) b.

Definition WriteAt (p : list Z) (off : Z) (b : loggingBackend) : option (ret * loggingBackend) :=
  let b := mk_loggingBackend (data b) (reads b) (i64 (writes b + 1))
             (readBytes b) (i64 (writeBytes b + i64 (lenZ p))) (verbose b) (print "W" off (lenZ p) b) in
  write_slice p off (data b)
    (fun d => mk_loggingBackend d (reads b) (writes b) (readBytes b) (writeBytes b) (verbose b) (printed b)).

(** The numbers [stats] prints: calls and KiB, reads then writes. *)
Definition stats (b : loggingBackend) : Z * Z * Z * Z :=
  (reads b, Z.quot (readBytes b) 1024, writes b, Z.quot (writeBytes b) 1024).

Definition backend : Backend loggingBackend := mk_Backend ReadAt WriteAt None None
  (fun p off b => read_slice_length p off (data b) _).

#[global] Instance logging_mem_like : MemLike backend data.
Proof. mem_like data. Qed.
End Logging.

(** ** [example/flushbench] *)
Module Tracing.

Record event := mk_event { at_ : Z; op : string; off : Z; size : Z }.
Record trace := mk_trace { ev : list event }.
Record tracingBackend := mk_tracingBackend { data : list Z; tr : trace; reads : Z; writes : Z }.

Section Tracing.
(** [time.Since(t.t0)] at the [n]-th push. *)
Context (since : nat -> Z).

Definition push (op : string) (off size : Z) (t : trace) : trace :=
  mk_trace (ev t ++ [mk_event (since (length (ev t))) op off size]).

Definition ReadAt (p : list Z) (off : Z) (b : tracingBackend) : option (list Z * ret * tracingBackend) :=
  let b := mk_tracingBackend (data b) (push "R" off (lenZ p) (tr b)) (i64 (reads b + 1)) (writes b) in
  read_slice p off (data b) b.

Definition WriteAt (p : list Z) (off : Z) (b : tracingBackend) : option (ret * tracingBackend) :=
  let b := mk_tracingBackend (data b) (push "W" off (lenZ p) (tr b)) (reads b) (i64 (writes b + 1)) in
  write_slice p off (data b) (fun d => mk_tracingBackend d (tr b) (reads b) (writes b)).

Definition backend : Backend tracingBackend := mk_Backend ReadAt WriteAt None None
  (fun p off b => read_slice_length p off (data b) _).

#[global] Instance tracing_mem_like : MemLike backend data.
Proof. mem_like data. Qed.
End Tracing.
End Tracing.

(** ** [example/fault] *)
Module Faulty.

Definition devSize : Z := 16 * 1024 * 1024.
Definition blkSize : Z := 4096.

(** [drawn] counts the calls of [rand.Uint64N]. *)
Record faultyBackend := mk_faultyBackend {
  data : list Z; readFail : Z; writeFail : Z;
  reads : Z; writes : Z; readErrs : Z; writeErrs : Z; drawn : nat }.

Definition newFaulty : faultyBackend :=
  mk_faultyBackend (zeros (Z.to_nat devSize)) 0 0 0 0 0 0 0.

(** [float64] multiplication, and the conversion to [uint64]: truncation, with
    no defined result outside the range. *)
Definition f64_mul : spec_float -> spec_float -> spec_float := SFmul 53 1024.
Definition f64_million : spec_float := S754_finite false 8589934592000000 (-33).
Definition f64_to_u64 (x : spec_float) : option Z :=
  match x with
  | S754_zero _ => Some 0
  | S754_finite s m e =>
      let t := if s then - (Z.shiftl (Z.pos m) e) else Z.shiftl (Z.pos m) e in
      if decide (is_u 64 t) then Some t else None
  | _ => None
  end.

Definition set_rates (r w : Z) (b : faultyBackend) : faultyBackend :=
  mk_faultyBackend (data b) r w (reads b) (writes b) (readErrs b) (writeErrs b) (drawn b).
Definition setReadFail (rate : spec_float) (b : faultyBackend) : option faultyBackend :=
  n ← f64_to_u64 (f64_mul rate f64_million); Some (set_rates n (writeFail b) b).
Definition setWriteFail (rate : spec_float) (b : faultyBackend) : option faultyBackend :=
  n ← f64_to_u64 (f64_mul rate f64_million); Some (set_rates (readFail b) n b).

Definition EIO_error : string := "input/output error".

Section Faulty.
(** The [n]-th result of [rand.Uint64N(1_000_000)]. *)
Context (rnd : nat -> Z).

Definition ReadAt (p : list Z) (off : Z) (b : faultyBackend) : option (list Z * ret * faultyBackend) :=
  let b := mk_faultyBackend (data b) (readFail b) (writeFail b) (i64 (reads b + 1)) (writes b)
             (readErrs b) (writeErrs b) (S (drawn b)) in
  if decide (rnd (pred (drawn b)) < readFail b) then
    let b := mk_faultyBackend (data b) (readFail b) (writeFail b) (reads b) (writes b)
               (i64 (readErrs b + 1)) (writeErrs b) (drawn b) in
    Some (p, (0, Some EIO_error), b)
  else read_slice p off (data b) b.

Definition WriteAt (p : list Z) (off : Z) (b : faultyBackend) : option (ret * faultyBackend) :=
  let b := mk_faultyBackend (data b) (readFail b) (writeFail b) (reads b) (i64 (writes b + 1))
             (readErrs b) (writeErrs b) (S (drawn b)) in
  if decide (rnd (pred (drawn b)) < writeFail b) then
    let b := mk_faultyBackend (data b) (readFail b) (writeFail b) (reads b) (writes b)
               (readErrs b) (i64 (writeErrs b + 1)) (drawn b) in
    Some ((0, Some EIO_error), b)
  else write_slice p off (data b)
         (fun d => mk_faultyBackend d (readFail b) (writeFail b) (reads b) (writes b)
                     (readErrs b) (writeErrs b) (drawn b)).

Lemma faulty_ReadAt_keeps p off b p' r b' : ReadAt p off b = Some (p', r, b') -> length p' = length p.
Proof. unfold ReadAt. case_decide; [by intros [= <- _ _]|apply read_slice_length]. Qed.

Definition backend : Backend faultyBackend := mk_Backend ReadAt WriteAt None None faulty_ReadAt_keeps.
End Faulty.

(** The rates the scenarios set. *)
Definition f64_0_10 : spec_float := S754_finite false 7205759403792794 (-56).
Definition f64_1_0 : spec_float := S754_finite false 4503599627370496 (-52).

Lemma setWriteFail_0_10 b : setWriteFail f64_0_10 b = Some (set_rates (readFail b) 100000 b).
Proof. unfold setWriteFail. by replace (f64_to_u64 _) with (Some 100000) by (vm_compute; reflexivity). Qed.
Lemma setWriteFail_1_0 b : setWriteFail f64_1_0 b = Some (set_rates (readFail b) 1000000 b).
Proof. unfold setWriteFail. by replace (f64_to_u64 _) with (Some 1000000) by (vm_compute; reflexivity). Qed.
Lemma setReadFail_1_0 b : setReadFail f64_1_0 b = Some (set_rates 1000000 (writeFail b) b).
Proof. unfold setReadFail. by replace (f64_to_u64 _) with (Some 1000000) by (vm_compute; reflexivity). Qed.
End Faulty.

(** ** Agreement *)

(** C23: The backends of [chain], [stress], [sigkill], [fsdemo] and [flushbench]
    are equivalent to the in-memory backend: for every device and every sequence
    of requests, in range or not, serving them over one of these backends gives
    the same results, the same replies, the same worker state and the same
    stored bytes as serving them over the reference backend, and panics exactly
    when that does.  Counting, tracing and logging change nothing a client of
    the device can see. *)
Theorem example_backends_agree qs :
  (forall x, see_served ChainMem.data <$> serve_list ChainMem.backend qs x =
     serve_list Mem.memBackend qs (view_dev ChainMem.data x)) /\
  (forall x, see_served StressMem.data <$> serve_list StressMem.backend qs x =
     serve_list Mem.memBackend qs (view_dev StressMem.data x)) /\
  (forall x, see_served SigkillMem.data <$> serve_list SigkillMem.backend qs x =
     serve_list Mem.memBackend qs (view_dev SigkillMem.data x)) /\
  (forall x, see_served Logging.data <$> serve_list Logging.backend qs x =
     serve_list Mem.memBackend qs (view_dev Logging.data x)) /\
  (forall since x, see_served Tracing.data <$> serve_list (Tracing.backend since) qs x =
     serve_list Mem.memBackend qs (view_dev Tracing.data x)).
Proof. split_and!; intros; by apply serve_list_MemLike; apply _. Qed.

(** ** Instrumentation *)

(** One call, and a sequence of them, on a backend. *)
Definition do_call {C} (be : Backend C) (c : call) (s : C) : option C :=
  match c with
  | CallRead len off => '(_, _, s) ← ReadAt be (zeros (Z.to_nat len)) off s; Some s
  | CallWrite p off => '(_, s) ← WriteAt be p off s; Some s
  | CallDiscard _ _ | CallZero _ _ _ => None
  end.
Fixpoint do_calls {C} (be : Backend C) (cs : list call) (s : C) : option C :=
  match cs with
  | [] => Some s
  | c :: cs => s ← do_call be c s; do_calls be cs s
  end.

(** What a call adds to the counters: calls and bytes. *)
Definition call_len (c : call) : Z :=
  match c with CallRead len _ => Z.of_nat (Z.to_nat len) | CallWrite p _ => lenZ p | _ => 0 end.
Definition total (g : call -> Z) (cs : list call) : Z := foldr (fun c n => g c + n) 0 cs.
Definition rd (c : call) : Z := if is_read c then 1 else 0.
Definition wr (c : call) : Z := if is_write c then 1 else 0.
Definition rd_len (c : call) : Z := if is_read c then call_len c else 0.
Definition wr_len (c : call) : Z := if is_write c then call_len c else 0.
Definition event_of (c : call) : string * Z * Z :=
  match c with
  | CallRead len off => ("R", off, call_len c)
  | CallWrite _ off => ("W", off, call_len c)
  | _ => ("", 0, 0)
  end.

Section Counters.
Context {C : Type} (be : Backend C).

Lemma counter_follows (f : C -> Z) (g : call -> Z) :
  (forall c s s', do_call be c s = Some s' -> is_i 64 (f s) -> f s' = i64 (f s + g c)) ->
  forall cs s s', is_i 64 (f s) -> do_calls be cs s = Some s' -> f s' = i64 (f s + total g cs).
Proof.
  intros Hstep. induction cs as [|c cs IH]; intros s s' Hi; cbn [do_calls total foldr].
  - intros [= <-]. rewrite Z.add_0_r. by rewrite i64_id.
  - destruct (do_call be c s) as [s1|] eqn:E; [|done]. cbn [mbind option_bind]. intros E2.
    pose proof (Hstep c s s1 E Hi) as H1. rewrite (IH s1 s'); [|rewrite H1; apply is_i_i64|done].
    rewrite H1. fold (total g cs). goint.
Qed.

Lemma list_follows {A} (I : C -> Prop) (f : C -> list A) (g : list A -> call -> list A) :
  (forall c s s', do_call be c s = Some s' -> I s -> I s' /\ f s' = f s ++ g (f s) c) ->
  forall cs s s', I s -> do_calls be cs s = Some s' -> f s' = foldl (fun l c => l ++ g l c) (f s) cs.
Proof.
  intros Hstep. induction cs as [|c cs IH]; intros s s' HI; cbn [do_calls foldl]; [by intros [= <-]|].
  destruct (do_call be c s) as [s1|] eqn:E; [|done]. cbn [mbind option_bind]. intros E2.
  destruct (Hstep c s s1 E HI) as [HI1 <-]. by apply IH.
Qed.
End Counters.

Lemma foldl_map {A} (g : call -> A) cs : forall l, foldl (fun l c => l ++ [g c]) l cs = l ++ (g <$> cs).
Proof.
  induction cs as [|c cs IH]; intros l; cbn; [by rewrite app_nil_r|]. by rewrite IH, <- app_assoc.
Qed.
Lemma foldl_same {A} cs (l : list A) : foldl (fun l (_ : call) => l ++ []) l cs = l.
Proof. revert l. induction cs as [|c cs IH]; intros l; cbn; [done|]. by rewrite app_nil_r. Qed.

(** The events of a sequence of calls, stamped by the clock from the [n]-th on. *)
Fixpoint stamped (since : nat -> Z) (n : nat) (cs : list call) : list Tracing.event :=
  match cs with
  | [] => []
  | c :: cs => let '(o, f, l) := event_of c in
               Tracing.mk_event (since n) o f l :: stamped since (S n) cs
  end.

Lemma foldl_stamped since cs : forall l,
  foldl (fun l c => l ++ stamped since (length l) [c]) l cs = l ++ stamped since (length l) cs.
Proof.
  induction cs as [|c cs IH]; intros l; cbn [foldl]; [by rewrite app_nil_r|]. rewrite IH.
  cbn [stamped]. destruct (event_of c) as [[o f] n]. rewrite length_app, <- app_assoc. cbn.
  by rewrite Nat.add_1_r.
Qed.

(** Solve a per-call obligation: compute the call, case on its slice. *)
Ltac one_call :=
  intros [len o|p o|? ?|? ? ?] s s'; cbn -[sub splice copy copied i64 Z.to_nat]; try done;
  unfold ChainMem.ReadAt, ChainMem.WriteAt, StressMem.ReadAt, StressMem.WriteAt, Logging.ReadAt,
    Logging.WriteAt, Tracing.ReadAt, Tracing.WriteAt, read_slice, write_slice; cbv zeta;
  (match goal with |- context [sub ?a ?b ?c] => destruct (sub a b c) end; [|done]);
  cbn -[splice copy copied i64 Z.to_nat]; intros [= <-];
  cbn -[splice copy copied i64 Z.to_nat]; unfold zeros; rewrite ?length_replicate; intros.
Ltac count f g E :=
  match type of E with
  | do_calls ?be ?cs ?s0 = Some ?b =>
    let H := fresh in
    assert (H : forall c s s', do_call be c s = Some s' -> is_i 64 (f s) -> f s' = i64 (f s + g c))
      by (clear; one_call; unfold rd, wr, rd_len, wr_len; cbn -[i64 Z.to_nat]; goint);
    exact (counter_follows be f g H cs s0 b ltac:(split; cbn; lia) E)
  end.

(** The instrumentation is exact.  After any sequence of calls that does not
    panic, the counters of the [chain], [stress] and [fsdemo] backends are the
    number of reads and writes and the bytes asked for (at 64 bits), the trace
    of [flushbench] has gained exactly one event per call, in order, with its
    kind, offset and length, and [fsdemo] has printed one line per call when
    verbose and none otherwise. *)
Theorem instrumentation_exact cs d :
  (forall b, do_calls ChainMem.backend cs (ChainMem.mk_memBackend d 0 0 0 0) = Some b ->
     ChainMem.reads b = i64 (total rd cs) /\ ChainMem.writes b = i64 (total wr cs) /\
     ChainMem.readBytes b = i64 (total rd_len cs) /\ ChainMem.writeBytes b = i64 (total wr_len cs)) /\
  (forall b, do_calls StressMem.backend cs (StressMem.mk_memBackend d 0 0) = Some b ->
     StressMem.reads b = i64 (total rd cs) /\ StressMem.writes b = i64 (total wr cs)) /\
  (forall since l b,
     do_calls (Tracing.backend since) cs (Tracing.mk_tracingBackend d (Tracing.mk_trace l) 0 0) = Some b ->
     Tracing.reads b = i64 (total rd cs) /\ Tracing.writes b = i64 (total wr cs) /\
     Tracing.ev (Tracing.tr b) = l ++ stamped since (length l) cs) /\
  (forall verbose b,
     do_calls Logging.backend cs (Logging.mk_loggingBackend d 0 0 0 0 verbose []) = Some b ->
     Logging.reads b = i64 (total rd cs) /\ Logging.writes b = i64 (total wr cs) /\
     Logging.readBytes b = i64 (total rd_len cs) /\ Logging.writeBytes b = i64 (total wr_len cs) /\
     Logging.printed b = if verbose then event_of <$> cs else []).
Proof.
  split_and!.
  - intros b E. split_and!.
    + count ChainMem.reads rd E.
    + count ChainMem.writes wr E.
    + count ChainMem.readBytes rd_len E.
    + count ChainMem.writeBytes wr_len E.
  - intros b E. split; [count StressMem.reads rd E|count StressMem.writes wr E].
  - intros since l b E. split_and!.
    + count Tracing.reads rd E.
    + count Tracing.writes wr E.
    + rewrite <- foldl_stamped.
      by eapply (list_follows (Tracing.backend since) (fun _ => True) (fun b => Tracing.ev (Tracing.tr b))
                (fun l c => stamped since (length l) [c])) in E; [|clear; one_call|].
  - intros vb b E. split_and!.
    + count Logging.reads rd E.
    + count Logging.writes wr E.
    + count Logging.readBytes rd_len E.
    + count Logging.writeBytes wr_len E.
    + eapply (list_follows Logging.backend (fun b => Logging.verbose b = vb) Logging.printed
                (fun _ c => if vb then [event_of c] else [])) in E;
        [|clear; one_call; unfold Logging.print; by destruct vb; simplify_eq/=; split; rewrite ?H, ?app_nil_r|done].
      cbn [Logging.printed] in E. rewrite E. destruct vb; [apply (foldl_map event_of cs [])|apply foldl_same].
Qed.

Definition sample_calls : list call := [CallWrite [7; 8] 1; CallRead 3 0].

Lemma instrumentation_exact_witness : exists b,
  do_calls ChainMem.backend sample_calls (ChainMem.mk_memBackend [0; 0; 0; 0] 0 0 0 0) = Some b /\
  ChainMem.reads b = i64 1 /\ ChainMem.writes b = i64 1 /\
  ChainMem.readBytes b = i64 3 /\ ChainMem.writeBytes b = i64 2.
Proof.
  eexists. split; [vm_compute; reflexivity|].
  apply (instrumentation_exact sample_calls [0; 0; 0; 0]). vm_compute. reflexivity.
Defined.

(** ** Injected faults *)

Section FaultyIO.
Context (rnd : nat -> Z).

(** Whether the next call of a kind fails. *)
Definition injected (op : Z) (b : Faulty.faultyBackend) : Prop :=
  rnd (Faulty.drawn b) < if decide (op = opRead) then Faulty.readFail b else Faulty.writeFail b.

Lemma splice_self {A} off (s dst : list A) :
  sub off (lenZ s) dst = Some s -> splice off s dst = dst.
Proof.
  intros E. pose proof E as E'. unfold sub in E'. case_decide as Hb; [|done]. clear E'.
  apply list_eq. intros i. rewrite splice_lookup by lia. case_decide; [|done].
  rewrite (sub_lookup _ _ _ _ _ E) by lia. f_equal. lia.
Qed.

Lemma set_pool_self w : set_pool (w_bufPool w) w = w.
Proof. by destruct w. Qed.

(** A read or write the backend is called for. *)
Record io_for (w : worker) (tag : Z) (d : ioDesc) : Prop := {
  if_wf : worker_wf w; if_tag : 0 <= tag < w_depth w; if_desc : getDesc w tag = Some d;
  if_fits : desc_fits d; if_op : op_of d = opRead \/ op_of d = opWrite;
  if_len : 0 < len_of d <= w_bufSize w }.

Lemma faulty_injects w tag d b :
  io_for w tag d -> injected (op_of d) b ->
  exists b', handleIO (Faulty.backend rnd) w tag b = Some (- EIO, w, b') /\
    Faulty.data b' = Faulty.data b /\ Faulty.drawn b' = S (Faulty.drawn b) /\
    Faulty.readFail b' = Faulty.readFail b /\ Faulty.writeFail b' = Faulty.writeFail b /\
    i64 (Faulty.readErrs b + Faulty.writeErrs b + 1) = i64 (Faulty.readErrs b' + Faulty.writeErrs b').
Proof.
  intros [Hw Ht Hg Hd Hop Hl] Hin. unfold handleIO. rewrite Hg. cbn [mbind option_bind].
  rewrite desc_fits_off, desc_fits_len by done. fold (op_of d). unfold injected in Hin.
  destruct (buffer_spec w tag (len_of d) Hw Ht) as (p & Hbuf & Hp & Hsub); [lia|].
  destruct Hop as [Hop|Hop]; rewrite Hop in *.
  - revert Hin. destruct (decide (opRead = opRead)) as [_|]; [|done]. intros Hin.
    rewrite !decide_False by lia. rewrite Hbuf. cbn [mbind option_bind Faulty.backend ReadAt].
    unfold Faulty.ReadAt. cbn [Faulty.drawn Faulty.readFail pred]. rewrite decide_True by done.
    cbn [mbind option_bind]. rewrite io_result_cases, decide_False by done.
    rewrite splice_self by (by rewrite Hp). rewrite set_pool_self.
    eexists. split; [done|]. cbn. split_and!; [done..|goint].
  - revert Hin. destruct (decide (opWrite = opRead)) as [|_]; [done|]. intros Hin.
    rewrite decide_True by done. rewrite !decide_False by lia. rewrite Hbuf.
    cbn [mbind option_bind Faulty.backend WriteAt].
    unfold Faulty.WriteAt. cbn [Faulty.drawn Faulty.writeFail pred]. rewrite decide_True by done.
    cbn [mbind option_bind]. rewrite io_result_cases, decide_False by done.
    eexists. split; [done|]. cbn. split_and!; [done..|goint].
Qed.

Lemma faulty_passes w tag d b :
  io_for w tag d -> ~ injected (op_of d) b ->
  see_io Faulty.data <$> handleIO (Faulty.backend rnd) w tag b =
  handleIO Mem.memBackend w tag (Faulty.data b).
Proof.
  intros [Hw Ht Hg Hd Hop Hl] Hin. unfold handleIO. rewrite Hg. cbn [mbind option_bind].
  rewrite desc_fits_off, desc_fits_len by done. fold (op_of d). unfold injected in Hin.
  destruct (buffer_spec w tag (len_of d) Hw Ht) as (p & Hbuf & Hp & Hsub); [lia|].
  destruct Hop as [Hop|Hop]; rewrite Hop in *.
  - revert Hin. destruct (decide (opRead = opRead)) as [_|]; [|done]. intros Hin.
    rewrite !decide_False by lia. rewrite Hbuf. cbn [mbind option_bind Faulty.backend Mem.memBackend ReadAt].
    unfold Faulty.ReadAt. cbn [Faulty.drawn Faulty.readFail pred]. rewrite decide_False by done.
    unfold read_slice, Mem.ReadAt. cbn [Faulty.data].
    destruct (sub (off_of d) (lenZ p) (Faulty.data b)); reflexivity.
  - revert Hin. destruct (decide (opWrite = opRead)) as [|_]; [done|]. intros Hin.
    rewrite !(decide_True (P := opWrite = opWrite)) by done.
    rewrite !decide_False by lia. rewrite Hbuf.
    cbn [mbind option_bind Faulty.backend Mem.memBackend WriteAt].
    unfold Faulty.WriteAt. cbn [Faulty.drawn Faulty.writeFail pred]. rewrite decide_False by done.
    unfold write_slice, Mem.WriteAt. cbn [Faulty.data].
    destruct (sub (off_of d) (lenZ p) (Faulty.data b)); reflexivity.
Qed.
End FaultyIO.

(** C30: Fault injection is exact.  For a read or write the worker passes on,
    when the draw is below the rate the request is answered [-EIO], the stored
    bytes and the worker are unchanged and one error is counted; otherwise the
    request is served exactly as by the reference backend.  A rate of 1.0, as
    [setReadFail] and [setWriteFail] store it, fails every call, 0.10 fails the
    draws below 100000, and a fresh backend fails none. *)
Theorem fault_injection_exact rnd w tag d b :
  io_for w tag d -> (forall n, 0 <= rnd n < 1000000) ->
  (injected rnd (op_of d) b ->
     exists b', handleIO (Faulty.backend rnd) w tag b = Some (- EIO, w, b') /\
       Faulty.data b' = Faulty.data b /\
       i64 (Faulty.readErrs b + Faulty.writeErrs b + 1) = i64 (Faulty.readErrs b' + Faulty.writeErrs b')) /\
  (~ injected rnd (op_of d) b ->
     see_io Faulty.data <$> handleIO (Faulty.backend rnd) w tag b =
     handleIO Mem.memBackend w tag (Faulty.data b)) /\
  (Faulty.setReadFail Faulty.f64_1_0 b ≫= Faulty.setWriteFail Faulty.f64_1_0 = Some b ->
     injected rnd (op_of d) b) /\
  (Faulty.setWriteFail Faulty.f64_0_10 b = Some b -> op_of d = opWrite ->
     injected rnd (op_of d) b <-> rnd (Faulty.drawn b) < 100000) /\
  (~ injected rnd (op_of d) Faulty.newFaulty).
Proof.
  intros Hio Hrnd. split_and!.
  - intros Hin. destruct (faulty_injects rnd w tag d b Hio Hin) as (b' & E & Hd & _ & _ & _ & He). eauto.
  - by apply faulty_passes.
  - rewrite Faulty.setReadFail_1_0. cbn [mbind option_bind]. rewrite Faulty.setWriteFail_1_0.
    cbn [Faulty.readFail Faulty.set_rates]. intros [= E]. unfold injected.
    pose proof (f_equal Faulty.readFail E) as E1. pose proof (f_equal Faulty.writeFail E) as E2.
    cbn in E1, E2. rewrite <- E1, <- E2. destruct (decide _); apply Hrnd.
  - rewrite Faulty.setWriteFail_0_10. intros [= E] Hop. unfold injected. rewrite Hop.
    pose proof (f_equal Faulty.writeFail E) as E2. cbn in E2. rewrite decide_False by done.
    by rewrite <- E2.
  - unfold injected. change (Faulty.readFail Faulty.newFaulty) with 0.
    change (Faulty.writeFail Faulty.newFaulty) with 0.
    pose proof (Hrnd (Faulty.drawn Faulty.newFaulty)). destruct (decide _); lia.
Qed.

(** The draw sequence 0, 1, 2, ... *)
Definition sample_rnd (n : nat) : Z := Z.of_nat n mod 1000000.
Definition sample_faulty : Faulty.faultyBackend := Faulty.mk_faultyBackend (zeros 1024) 1000000 1000000 0 0 0 0 0.

Definition fault_write : ioDesc := mk_ioDesc opWrite 1 1 0.

Lemma sample_io_for : io_for (sample_worker fault_write) 0 fault_write.
Proof.
  constructor; [apply sample_worker_wf|cbn; lia|vm_compute; reflexivity| | |];
    unfold desc_fits, len_of; cbn; [lia|by right|lia].
Qed.

Lemma fault_injection_exact_witness : exists b',
  handleIO (Faulty.backend sample_rnd) (sample_worker fault_write) 0 sample_faulty =
    Some (- EIO, sample_worker fault_write, b') /\
  Faulty.data b' = zeros 1024 /\ i64 (0 + 0 + 1) = i64 (Faulty.readErrs b' + Faulty.writeErrs b').
Proof.
  pose proof (fault_injection_exact sample_rnd (sample_worker fault_write) 0 fault_write sample_faulty
                sample_io_for) as H.
  destruct H as (H1 & _ & H3 & _); [intros n; unfold sample_rnd; apply Z.mod_pos_bound; lia|].
  apply H1, H3. vm_compute. reflexivity.
Defined.
