(* ===== verification/Programs.v ===== *)
(** * Programs over the library

    What the example programs have in common: they create a device over a
    backend of their own, open its block file, do I/O on it and close both.
    The code runs in the monad of [Kernel]; the I/O on the open file is a
    function on the [bdev] that the device and its backend form.

    [returns] is the partial triple for code that may also panic, as a program
    whose watchdog fires does: if it returns, the postcondition holds. *)

From S2P Require Import Prelude GoLayout Types Uring Config Backend Worker Kernel Sim RingOps WorkerRun.
From S2P Require Import Device DiskLike.

Definition O_RDONLY : Z := 0.
Definition O_WRONLY : Z := 1.
Definition O_DIRECT : Z := 0x4000.

(** ** Partial triples *)

Section Returns.
Context {K : Type}.

Definition returns {A} (P : st K -> Prop) (m : M K A) (Q : A -> st K -> Prop) : Prop :=
  forall s a s', P s -> m s = Val (a, s') -> Q a s'.

Lemma returns_triple {A} P (m : M K A) Q : triple P m Q -> returns P m Q.
Proof. intros Ht s a s' Hp E. specialize (Ht s Hp). by rewrite E in Ht. Qed.

Lemma returns_ret {A} (P : st K -> Prop) (a : A) (Q : A -> st K -> Prop) :
  (forall s, P s -> Q a s) -> returns P (mret a) Q.
Proof. intros Hq s a' s' Hp [= <- <-]. by apply Hq. Qed.

Lemma returns_bind {A B} P (m : M K A) R (f : A -> M K B) Q :
  returns P m R -> (forall a, returns (R a) (f a) Q) -> returns P (m ≫= f) Q.
Proof.
  intros Hm Hf s b s'' Hp. unfold mbind, M_bind. destruct (m s) as [[a s']| |] eqn:E; [|done..].
  apply Hf. by eapply Hm.
Qed.

Lemma returns_must {A B} P (o : option A) (f : A -> M K B) Q :
  (forall a, o = Some a -> returns P (f a) Q) -> returns P (must o ≫= f) Q.
Proof. intros Hf s b s' Hp. destruct o as [a|]; [|done]. by apply Hf. Qed.

(** A value that is known to be there. *)
Lemma triple_known {A B} P (o : option A) a (f : A -> M K B) Q :
  o = Some a -> triple P (f a) Q -> triple P (must o ≫= f) Q.
Proof. intros -> Hf s Hp. by apply Hf. Qed.

Lemma returns_pure {A} (X : Prop) P (m : M K A) Q :
  (X -> returns P m Q) -> returns (fun s => X /\ P s) m Q.
Proof. intros Hm s a s' [Hx Hp]. by apply Hm. Qed.

Lemma returns_conseq {A} (P P' : st K -> Prop) (m : M K A) Q Q' :
  returns P' m Q' -> (forall s, P s -> P' s) -> (forall a s, Q' a s -> Q a s) -> returns P m Q.
Proof. intros Hm Hp Hq s a s' Hs E. eauto. Qed.

Lemma returns_modify {A} P f (m : M K A) Q :
  (forall k tr, P (mk_st k tr) -> P (mk_st (f k) tr)) -> returns P m Q -> returns P (modify f;; m) Q.
Proof. intros Hf Hm [k tr] a s' Hp. apply Hm. by apply Hf. Qed.
End Returns.

(** ** A device and its block file *)

Definition zero_desc : ioDesc := mk_ioDesc 0 0 0 0.

(** The block device a [Device] and its backend form: the worker of its queue
    and the descriptors, which are zero before the first request. *)
Definition bdev_of {B} (size : Z) (d : Device) (b : B) : option (bdev B) :=
  t ← head (d_workers d);
  Some (mk_bdev (t_w t) (replicate (Z.to_nat (w_depth (t_w t))) zero_desc) size b).

Lemma sample_attached {B} size (b : B) :
  size <= 2 ^ 63 -> attached (mk_bdev (sample_worker zero_desc) [zero_desc] size b).
Proof.
  intros Hs. constructor; [apply sample_worker_wf|cbn; lia|by repeat constructor|reflexivity|exact Hs].
Qed.

Section WithDevice.
Context {K : Type} `{Kernel K} (fuel : nat).

(** Create a device, open its block file, run [body] on it, close both: the
    shape of the probes, with their deferred calls in order. *)
Definition with_device {B A} (be : Backend B) (b : B) (size flags : Z)
    (body : bdev B -> option (A * bdev B)) : M K (result goerr A) :=
  x ← New fuel be (Dynamic KPointer false b) size [];
  match x with
  | Err e => mret (Err (Wrap "ublk.New" e))
  | Ok (d, b) =>
    y ← sys_open (Path d) flags;
    match y with
    | Err e => Device.Close fuel be d b;; mret (Err (Errno e))
    | Ok fd =>
      x ← must (bdev_of size d b);
      '(a, x) ← must (body x);
      sys_close fd;;
      Device.Close fuel be d (bd_b x);;
      mret (Ok a)
    end
  end.

Lemma with_device_refused {B A} (be : Backend B) b size flags (body : bdev B -> option (A * bdev B)) s e s' :
  New fuel be (Dynamic KPointer false b) size [] s = Val (Err e, s') ->
  with_device be b size flags body s = Val (Err (Wrap "ublk.New" e), s').
Proof. intros E. unfold with_device, mbind, M_bind. by rewrite E. Qed.

(** A device [New] has returned, on top of the descriptors [F] and mappings [G]. *)
Definition live_dev (F G : list Z) (d : Device) (s : st K) : Prop :=
  (dev_open d /\ d_closed d = false) /\ holds F G d s.

Context `{!KernelLaws K}.

Lemma default_args size : is_u 64 size -> new_args_wf [] size.
Proof. intros Hs. split; [apply (bool_decide_unpack _); vm_compute; exact I|done]. Qed.

Lemma triple_New_live {B} (be : Backend B) b size F G :
  is_u 64 size ->
  triple (own F G) (New fuel be (Dynamic KPointer false b) size [])
    (fun x s => match x with
       | Ok (d, b') => (b' = b /\ exists t, d_workers d = [t] /\
           configured (queueDepth default_config) (buf_size d default_config) (t_w t)) /\ live_dev F G d s
       | Err _ => own F G s
       end).
Proof.
  intros Hs. destruct (default_args size Hs) as [Hc _].
  eapply triple_conseq; [by apply (triple_New fuel be KPointer false b size [] F G)|done|].
  intros [[d b']|e] s Hp; [|done]. destruct (New_post_open _ _ _ _ _ _ _ Hp) as [Ho Hcl].
  destruct Hp as [(-> & _ & _ & _ & _ & t & Ht & _ & Hw & _) Hh].
  split; [split; [done|by exists t]|by split].
Qed.

Lemma returns_New {B} (be : Backend B) b size F G :
  is_u 64 size ->
  returns (own F G) (New fuel be (Dynamic KPointer false b) size [])
    (fun x s => match x with
       | Ok (d, b') => (b' = b /\ exists t, d_workers d = [t] /\
           configured (queueDepth default_config) (buf_size d default_config) (t_w t)) /\ live_dev F G d s
       | Err _ => own F G s
       end).
Proof. intros Hs. by apply returns_triple, triple_New_live. Qed.

(** A new device serves requests: its block device is in working order when the
    buffer size the kernel reported is at least a sector and below 2 GiB. *)
Lemma bdev_of_new {B} size d (b : B) t :
  d_workers d = [t] -> configured (queueDepth default_config) (buf_size d default_config) (t_w t) ->
  512 <= buf_size d default_config < 2 ^ 31 -> size <= 2 ^ 63 ->
  exists x, bdev_of size d b = Some x /\ attached x /\ bd_size x = size /\ bd_b x = b /\
    w_depth (bd_w x) = queueDepth default_config /\ w_bufSize (bd_w x) = buf_size d default_config.
Proof.
  intros Ht (Hw & Hd & Hb) Hbs Hs. unfold bdev_of. rewrite Ht. eexists. split; [done|].
  split; [|done]. pose proof (ww_depth _ Hw). constructor; cbn [bd_w bd_ds bd_size]; [done|by rewrite Hb| | |done].
  - apply Forall_replicate. done.
  - rewrite length_replicate. lia.
Qed.

(** What the kernel is relied on for: the buffer size it reports when it adds a
    device (0 for none) leaves room for a sector and for a count in 31 bits. *)
Definition sane_buffers {B} (be : Backend B) (b : B) (size : Z) : Prop :=
  forall F G s d b' s', own F G s ->
    New (K := K) fuel be (Dynamic KPointer false b) size [] s = Val (Ok (d, b'), s') ->
    512 <= buf_size d default_config < 2 ^ 31.

(** A device [New] has returned, in working order. *)
Definition works {B} (size : Z) (b : B) (d : Device) (x : bdev B) : Prop :=
  bdev_of size d b = Some x /\ attached x /\ bd_size x = size /\ bd_b x = b /\
  w_depth (bd_w x) = queueDepth default_config /\ w_bufSize (bd_w x) = buf_size d default_config.

Lemma triple_New_works {B} (be : Backend B) b size F G :
  is_u 64 size -> size <= 2 ^ 63 -> sane_buffers be b size ->
  triple (own F G) (New fuel be (Dynamic KPointer false b) size [])
    (fun x s => match x with
       | Ok (d, b') => (b' = b /\ exists x, works size b d x) /\ live_dev F G d s
       | Err _ => own F G s
       end).
Proof.
  intros Hs Hcap Hsane s Ho. pose proof (returns_New be b size F G Hs s) as Hn.
  destruct (default_args size Hs) as [Hc _].
  pose proof (triple_New fuel be KPointer false b size [] F G Hc Hs s Ho) as Ht.
  destruct (New fuel be _ size [] s) as [[x s']| |] eqn:E; [|done|done].
  specialize (Hn x s' Ho eq_refl). destruct x as [[d b']|e]; [|done].
  destruct Hn as [(-> & t & Hw & Hcf) Hl]. split; [|done]. split; [done|].
  by apply (bdev_of_new size d b t), Hcap; [|done|apply (Hsane _ _ _ _ _ _ Ho E)].
Qed.

(** Opening and closing a file while devices are alive. *)
Lemma triple_open_own path flags F G :
  triple (own F G) (sys_open path flags)
    (fun r s => match r with Ok fd => own (F ++ [fd]) G s | Err _ => own F G s end).
Proof.
  eapply triple_conseq; [by apply triple_open|done|]. intros [fd|e] s Hs; [apply Hs|done].
Qed.

Lemma triple_open_dev path flags F G d :
  triple (live_dev F G d) (sys_open path flags)
    (fun r s => match r with Ok fd => live_dev (fd :: F) G d s | Err _ => live_dev F G d s end).
Proof.
  apply triple_pure. intros Ho. eapply triple_conseq; [apply triple_open_own|done|].
  intros [fd|e] s Hs; split; try done. unfold holds. eapply own_proper; [|done|done|exact Hs].
  cbn [app]. by rewrite Permutation_cons_append.
Qed.

Lemma triple_close_dev fd F G d :
  triple (live_dev (fd :: F) G d) (sys_close fd) (fun _ => live_dev F G d).
Proof.
  apply triple_pure. intros Ho.
  eapply triple_conseq; [apply (triple_close' fd ((fd :: F) ++ dev_fds d)
    (F ++ dev_fds d) (G ++ dev_maps d)); done|done|].
  intros a s Hs. by split.
Qed.

Lemma triple_Close_dev {B} (be : Backend B) d b F G :
  triple (live_dev F G d) (Device.Close fuel be d b)
    (fun x s => (dev_fds x.1.1 = [] /\ dev_maps x.1.1 = [] /\ d_closed x.1.1 = true /\ x.1.2 = b) /\ own F G s).
Proof.
  apply triple_pure. intros [Ho Hcl]. unfold Device.Close. rewrite Hcl.
  eapply triple_conseq; [by apply (triple_shutdown fuel be (set_closed d) b F G)|done|].
  intros [[d' b'] e] s [(E1 & E2 & E3 & E4) Hs]. by split_and!.
Qed.

Lemma triple_Close_ret {B A} (be : Backend B) d b (a : A) F G :
  triple (live_dev F G d) (Device.Close fuel be d b;; mret a) (fun a' s => a' = a /\ own F G s).
Proof.
  eapply triple_bind; [apply triple_Close_dev|]. intros y. apply triple_pure. intros _. by apply triple_ret.
Qed.

(** The same, for code that may panic. *)
Lemma returns_open path flags F G :
  returns (own F G) (sys_open path flags)
    (fun r s => match r with Ok fd => own (F ++ [fd]) G s | Err _ => own F G s end).
Proof. apply returns_triple, triple_open_own. Qed.

Lemma returns_open_dev path flags F G d :
  returns (live_dev F G d) (sys_open path flags)
    (fun r s => match r with Ok fd => live_dev (fd :: F) G d s | Err _ => live_dev F G d s end).
Proof. apply returns_triple, triple_open_dev. Qed.

Lemma returns_close_dev fd F G d :
  returns (live_dev (fd :: F) G d) (sys_close fd) (fun _ => live_dev F G d).
Proof. apply returns_triple, triple_close_dev. Qed.

Lemma returns_Close {B} (be : Backend B) d b F G :
  returns (live_dev F G d) (Device.Close fuel be d b)
    (fun x s => (dev_fds x.1.1 = [] /\ dev_maps x.1.1 = [] /\ d_closed x.1.1 = true /\ x.1.2 = b) /\ own F G s).
Proof. apply returns_triple, triple_Close_dev. Qed.

Lemma returns_Close_ret {B A} (be : Backend B) d b (a : A) F G :
  returns (live_dev F G d) (Device.Close fuel be d b;; mret a) (fun _ => own F G).
Proof.
  eapply returns_conseq; [apply returns_triple, triple_Close_ret|done|]. by intros a' s [].
Qed.

Lemma with_device_balanced {B A} (be : Backend B) b size flags (body : bdev B -> option (A * bdev B)) F G :
  is_u 64 size -> returns (own F G) (with_device be b size flags body) (fun _ => own F G).
Proof.
  intros Hs. unfold with_device. eapply returns_bind; [by apply returns_New|].
  intros [[d b']|e]; [|by apply returns_ret]. apply returns_pure. intros _.
  eapply returns_bind; [apply returns_open_dev|]. intros [fd|e].
  - apply returns_must. intros x _. apply returns_must. intros [a x'] _.
    eapply returns_bind; [apply returns_close_dev|]. intros e.
    apply returns_Close_ret.
  - apply returns_Close_ret.
Qed.

Lemma triple_with_device {B A} (be : Backend B) b size flags (body : bdev B -> option (A * bdev B))
    (Q : A -> Prop) F G :
  is_u 64 size -> size <= 2 ^ 63 -> sane_buffers be b size ->
  (forall d x, works size b d x -> exists a x', body x = Some (a, x') /\ Q a) ->
  triple (own F G) (with_device be b size flags body)
    (fun r s => match r with Ok a => Q a | Err _ => True end /\ own F G s).
Proof.
  intros Hs Hcap Hsane Hbody. unfold with_device.
  eapply triple_bind; [by apply triple_New_works|]. intros [[d b']|e]; [|by apply triple_ret].
  apply triple_pure. intros (-> & x & Hx). destruct (Hbody d x Hx) as (a & x' & Eb & Ha).
  pose proof Hx as (Ex & _).
  eapply triple_bind; [apply triple_open_dev|]. intros [fd|e].
  - apply (triple_known _ _ x); [exact Ex|]. apply (triple_known _ _ (a, x')); [exact Eb|].
    eapply triple_bind; [apply triple_close_dev|]. intros e.
    eapply triple_conseq; [apply triple_Close_ret|done|]. intros r s [-> Ho]. done.
  - eapply triple_conseq; [apply triple_Close_ret|done|]. intros r s [-> Ho]. done.
Qed.
End WithDevice.
