(* ===== verification/ChainRun.v ===== *)
(** * The program [example/chain]

    Two stacked devices: the storage device over an in-memory backend, and a
    proxy device whose backend forwards to the storage device's block file.
    The program writes and reads through the proxy and compares with the bytes
    in the storage backend.  Both backends are [logged]: the counts in the
    theorems are those of the logs.

    The theorems: the stack is one disk ([chain_refines_disk]), every step of
    the program succeeds ([chain_steps_pass]), and the program closes what it
    opened in every case ([runChain_balanced]). *)

From stdpp Require Import pretty.
From S2P Require Import Prelude GoLayout Types Uring Config Backend Worker Kernel Sim RingOps WorkerRun.
From S2P Require Import Device DiskLike BlockLayer ExBackends Programs.

Definition chainSize : Z := 16 * 1024 * 1024.
Definition blkSize : Z := 4096.

(** [alignedBuf], with [addr] the address of the allocation: the offset of the
    result in it and its content. *)
Definition alignedBuf (addr n : Z) : option (Z * list Z) :=
  let align := 4096 in
  let raw := zeros (Z.to_nat (n + align)) in
  let off := i64 (u64 (align - addr mod align)) in
  let off := if decide (off = align) then 0 else off in
  s ← sub off n raw;
  Some (off, s).

(** [alignedBlock] of [example/fault]. *)
Definition alignedBlock (addr : Z) : option (Z * list Z) :=
  let n := Faulty.blkSize in
  let align := 4096 in
  let raw := zeros (Z.to_nat (n + align)) in
  let off := i64 (u64 (align - addr mod align)) in
  let off := if decide (off = align) then 0 else off in
  s ← sub off n raw;
  Some (off, s).

(** The three copies of the alignment arithmetic agree. *)
Lemma alignedBuf_alignedAlloc addr n : is_u 64 addr -> alignedBuf addr n = alignedAlloc addr n 4096.
Proof.
  intros Ha. unfold alignedBuf, alignedAlloc. cbn zeta.
  replace (u64 (u64 (4096 - addr mod 4096) mod 4096))
    with (if decide (i64 (u64 (4096 - addr mod 4096)) = 4096) then 0 else i64 (u64 (4096 - addr mod 4096)));
    [done|].
  case_decide; goint.
Qed.

(** The buffers the examples allocate for O_DIRECT are right.  [alignedBuf]
    and [alignedBlock] compute what the library's [alignedAlloc] computes,
    although they get the offset in another way: a zeroed buffer of the asked
    size that starts at a 4096-byte boundary inside the allocation; they never
    panic. *)
Theorem aligned_buffers_agree addr n :
  is_u 64 addr -> 0 <= n ->
  alignedBuf addr n = alignedAlloc addr n 4096 /\
  alignedBlock addr = alignedAlloc addr Faulty.blkSize 4096 /\
  exists off, alignedBuf addr n = Some (off, zeros (Z.to_nat n)) /\ 0 <= off < 4096 /\
    (addr + off) mod 4096 = 0.
Proof.
  intros Ha Hn. rewrite alignedBuf_alignedAlloc by done. split_and!; [done|by apply alignedBuf_alignedAlloc|].
  by apply alignedAlloc_spec.
Qed.

Lemma aligned_buffers_agree_witness :
  alignedBuf 5000 8 = alignedAlloc 5000 8 4096 /\
  alignedBlock 5000 = alignedAlloc 5000 4096 4096 /\
  exists off, alignedBuf 5000 8 = Some (off, zeros 8) /\ 0 <= off < 4096 /\ (5000 + off) mod 4096 = 0.
Proof. apply (aligned_buffers_agree 5000 8); [split; cbn; lia|lia]. Defined.

(** ** The storage backend as a disk *)

Definition storage : Type := ChainMem.memBackend * Backend.log.

Definition chain_view : view storage := mk_view
  (fun s => ChainMem.data s.1)
  (fun s => ChainMem.reads s.1 = i64 (Z.of_nat (nreads s.2)) /\
            ChainMem.writes s.1 = i64 (Z.of_nat (nwrites s.2)))
  (fun s => nreads s.2) (fun s => nwrites s.2).

#[export] Instance chain_DiskLike : DiskLike (logged ChainMem.backend) chain_view.
Proof.
  constructor; intros p off [b l] [Hr Hw] [Ho Hl He _ _]; cbn [fst snd chain_view v_disk v_reads v_writes v_good] in *.
  - destruct (sub off (lenZ p) (ChainMem.data b)) as [s|] eqn:Es; [|rewrite sub_Some in Es by lia; done].
    pose proof (sub_length _ _ _ _ Es) as Hs. exists s. eexists. split; [done|].
    cbn [logged ReadAt]. unfold logged_ReadAt. cbn [ChainMem.backend ReadAt fst].
    unfold ChainMem.ReadAt, read_slice. cbn [ChainMem.data]. rewrite Es. cbn [mbind option_bind].
    rewrite copy_all by lia. unfold copied. rewrite Hs, Z.min_id. split; [done|].
    cbn [fst snd ChainMem.reads ChainMem.writes ChainMem.data]. rewrite nreads_snoc, nwrites_snoc. cbn [is_read is_write].
    split_and!; [by apply i64_succ|by rewrite Nat.add_0_r|done|lia|lia].
  - eexists. cbn [logged WriteAt]. unfold logged_WriteAt. cbn [ChainMem.backend WriteAt fst].
    unfold ChainMem.WriteAt, write_slice. cbn [ChainMem.data]. rewrite sub_Some by lia. cbn [mbind option_bind].
    rewrite copy_all by (rewrite length_take, length_drop; lia).
    unfold copied. rewrite length_take, length_drop.
    replace (Z.min _ (lenZ p)) with (lenZ p) by lia. split; [done|].
    cbn [fst snd ChainMem.reads ChainMem.writes ChainMem.data]. rewrite nreads_snoc, nwrites_snoc. cbn [is_read is_write].
    split_and!; [by rewrite Nat.add_0_r|by apply i64_succ|done|lia|lia].
Qed.

(** ** The steps of [runChain] *)

Inductive chain_err : Type :=
| CreateErr (what : string) (e : goerr)
| OpenErr (what : string) (e : Z)
| RandErr (e : string)
| PwriteErr (off w : Z) (err : option string)
| PreadErr (off r : Z) (err : option string)
| ReadBackMismatch
| StorageMismatch
| LostWrites (storageWrites proxyWrites : Z)
| LostReads (storageReads proxyReads : Z)
| Iteration (i : Z) (e : chain_err)
| Step (name : string) (e : chain_err).

Section Chain.
Context `{!BlockFile storage}.

Definition proxy : Type := Fd.fdBackend storage * Backend.log.
Definition proxy_backend : Backend proxy := logged Fd.backend.
Definition proxy_view : view proxy := Fd.fd_view chain_view.

Context `{!BlockFile proxy}.

(** The two backends, as seen through the proxy device. *)
Definition storage_of (x : bdev proxy) : storage := bd_b (Fd.fd (bd_b x).1).
Definition storageBackend (x : bdev proxy) : ChainMem.memBackend := (storage_of x).1.
Definition proxyBackend (x : bdev proxy) : Fd.fdBackend storage := (bd_b x).1.

(** [rand.Read] and the address [make] returns, at the [k]-th use. *)
Context (rand_Read : nat -> list Z -> result string (list Z)) (alloc : nat -> Z).

Definition roundtrip (k : nat) (off n : Z) (x : bdev proxy) : option (option chain_err * bdev proxy) :=
  '(_, pattern) ← alignedBuf (alloc (2 * k)) n;
  match rand_Read k pattern with
  | Err e => Some (Some (RandErr e), x)
  | Ok pattern =>
    '((w, err), x) ← pwrite pattern off x;
    if decide (err <> None \/ w <> n) then Some (Some (PwriteErr off w err), x)
    else
      '(_, got) ← alignedBuf (alloc (2 * k + 1)) n;
      '(got, (r, err), x) ← pread got off x;
      if decide (err <> None \/ r <> n) then Some (Some (PreadErr off r err), x)
      else if decide (got <> pattern) then Some (Some ReadBackMismatch, x)
      else
        stored ← ChainMem.slice off n (storageBackend x);
        if decide (stored <> pattern) then Some (Some StorageMismatch, x) else Some (None, x)
  end.

Definition checkStats (proxy : Fd.fdBackend storage) (storage : ChainMem.memBackend) : option chain_err :=
  if decide (ChainMem.writes storage < Fd.writes proxy)
  then Some (LostWrites (ChainMem.writes storage) (Fd.writes proxy))
  else if decide (ChainMem.reads storage < Fd.reads proxy)
  then Some (LostReads (ChainMem.reads storage) (Fd.reads proxy))
  else None.

(** [for i := range 16]: [todo] are the values of [i] left. *)
Fixpoint interleaved (todo : list Z) (x : bdev proxy) : option (option chain_err * bdev proxy) :=
  match todo with
  | [] => Some (None, x)
  | i :: todo =>
    let off := i64 (i64 (i64 i * 2) * blkSize) in
    '(err, x) ← roundtrip (4 + Z.to_nat i) off blkSize x;
    match err with
    | Some e => Some (Some (Iteration i e), x)
    | None => interleaved todo x
    end
  end.

Definition steps : list (string * (bdev proxy -> option (option chain_err * bdev proxy))) :=
  [("single-block roundtrip at offset 0", roundtrip 0 0 blkSize);
   ("single-block roundtrip at mid-device offset", roundtrip 1 (chainSize / 2) blkSize);
   ("single-block roundtrip at last block offset", roundtrip 2 (chainSize - blkSize) blkSize);
   ("128 KiB roundtrip (max I/O size)", roundtrip 3 (2 * blkSize) (128 * 1024));
   ("16 interleaved 4 KiB roundtrips", interleaved (seqZ 0 16));
   ("bandwidth delta matches through both stacks",
    fun x => Some (checkStats (proxyBackend x) (storageBackend x), x))].

(** [runStep] panics when the step takes longer than the timeout. *)
Context (hung : string -> bool).

Definition runStep (name : string) (fn : bdev proxy -> option (option chain_err * bdev proxy))
    (x : bdev proxy) : option (option chain_err * bdev proxy) :=
  if hung name then None
  else '(err, x) ← fn x; Some (option_map (Step name) err, x).

Fixpoint run_steps (ss : list (string * (bdev proxy -> option (option chain_err * bdev proxy))))
    (x : bdev proxy) : option (option chain_err * bdev proxy) :=
  match ss with
  | [] => Some (None, x)
  | (name, fn) :: ss =>
    '(err, x) ← runStep name fn x;
    match err with Some e => Some (Some e, x) | None => run_steps ss x end
  end.

(** ** Why they pass *)

Context `{!BlockFileLaws (logged ChainMem.backend)} `{!BlockFileLaws proxy_backend}.
Context (rand_fills : forall k p, exists p', rand_Read k p = Ok p' /\ length p' = length p).
Context (alloc_addr : forall k, is_u 64 (alloc k)).

#[local] Instance proxy_DiskLike : DiskLike proxy_backend proxy_view.
Proof. exact (Fd.fd_DiskLike (logged ChainMem.backend) chain_view). Qed.

(** The stack in working order. *)
Definition chain_ok (x : bdev proxy) : Prop := dev_ok proxy_view x /\ bd_size x = chainSize.

Lemma alignedBuf_ok k n : 0 <= n -> exists off, alignedBuf (alloc k) n = Some (off, zeros (Z.to_nat n)).
Proof.
  intros Hn. rewrite alignedBuf_alignedAlloc by done.
  destruct (alignedAlloc_spec (alloc k) n 4096) as (off & E & _); [done|lia|done|]. eauto.
Qed.

Lemma roundtrip_passes k off n x :
  chain_ok x -> in_store chainSize off n -> exists x', roundtrip k off n x = Some (None, x') /\ chain_ok x'.
Proof.
  intros [Hx Hsz] Hin. pose proof Hin as [Ho Hn He _ _].
  destruct (alignedBuf_ok (2 * k) n) as [o1 E1]; [lia|].
  destruct (alignedBuf_ok (2 * k + 1) n) as [o2 E2]; [lia|].
  unfold roundtrip. rewrite E1. cbn [mbind option_bind].
  destruct (rand_fills k (zeros (Z.to_nat n))) as (p & -> & Hp). unfold zeros in Hp.
  rewrite length_replicate in Hp. assert (Hpn : lenZ p = n) by lia.
  destruct (pwrite_disk proxy_backend proxy_view p off x Hx) as (x1 & -> & Hx1 & Hsh1 & Hd1 & _).
  { by rewrite Hsz, Hpn. }
  cbn [mbind option_bind]. rewrite decide_False by (rewrite Hpn; intros [|]; done). rewrite E2.
  cbn [mbind option_bind]. assert (Hz : lenZ (zeros (Z.to_nat n)) = n).
  { unfold zeros. rewrite length_replicate. lia. }
  destruct (pread_disk proxy_backend proxy_view (zeros (Z.to_nat n)) off x1 Hx1)
    as (s & x2 & Es & -> & Hx2 & Hsh2 & Hd2 & _).
  { destruct Hsh1 as (-> & _). by rewrite Hsz, Hz. }
  pose proof (dk_size _ _ Hx) as Hlen. rewrite Hd1, Hz, <- Hpn, sub_splice in Es by (rewrite <- ?Hlen; lia).
  injection Es as <-. cbn [mbind option_bind]. rewrite Hz.
  rewrite decide_False by (intros [|]; done). rewrite decide_False by auto.
  assert (Esl : ChainMem.slice off n (storageBackend x2) = Some p).
  { unfold ChainMem.slice. replace (ChainMem.data (storageBackend x2)) with (v_disk proxy_view (bd_b x2)) by done.
    rewrite Hd2, Hd1, <- Hpn, sub_splice by (rewrite <- ?Hlen; lia). cbn [mbind option_bind].
    f_equal. apply copy_all. unfold zeros. rewrite length_replicate. lia. }
  rewrite Esl. cbn [mbind option_bind]. rewrite decide_False by auto. exists x2. split; [done|]. split; [done|].
  destruct Hsh1 as (H1 & _), Hsh2 as (H2 & _). congruence.
Qed.

Lemma interleaved_passes todo : forall x,
  chain_ok x -> Forall (fun i => 0 <= i < 16) todo ->
  exists x', interleaved todo x = Some (None, x') /\ chain_ok x'.
Proof.
  induction todo as [|i todo IH]; intros x Hx Hi; cbn [interleaved]; [by eauto|].
  apply Forall_cons in Hi as [Hi Htodo].
  replace (i64 (i64 (i64 i * 2) * blkSize)) with (i * 8192) by (unfold blkSize; goint).
  destruct (roundtrip_passes (4 + Z.to_nat i) (i * 8192) blkSize x Hx) as (x1 & -> & Hx1).
  { unfold chainSize, blkSize. constructor; lia. }
  cbn [mbind option_bind]. by apply IH.
Qed.

(** The counters agree with the logs, and no forwarded call is lost. *)
Lemma checkStats_passes x :
  chain_ok x -> lenZ (storage_of x).2 < 2 ^ 63 -> checkStats (proxyBackend x) (storageBackend x) = None.
Proof.
  intros [[_ _ (Hdev & Hr & Hw & Hnr & Hnw)] _] Hlog. destruct (dk_good _ _ Hdev) as [Hsr Hsw].
  set (ls := (storage_of x).2) in *. set (lp := (bd_b x).2) in *.
  assert (Er : Fd.reads (proxyBackend x) = i64 (Z.of_nat (nreads lp))) by exact Hr.
  assert (Ew : Fd.writes (proxyBackend x) = i64 (Z.of_nat (nwrites lp))) by exact Hw.
  assert (Esr : ChainMem.reads (storageBackend x) = i64 (Z.of_nat (nreads ls))) by exact Hsr.
  assert (Esw : ChainMem.writes (storageBackend x) = i64 (Z.of_nat (nwrites ls))) by exact Hsw.
  change (nreads lp <= nreads ls)%nat in Hnr. change (nwrites lp <= nwrites ls)%nat in Hnw.
  assert (H1 : (nreads ls <= length ls)%nat) by apply length_filter.
  assert (H2 : (nwrites ls <= length ls)%nat) by apply length_filter.
  unfold checkStats. rewrite Er, Ew, Esr, Esw. rewrite !i64_id by (unfold is_i; lia).
  by rewrite !decide_False by lia.
Qed.

Ltac pass k off n H :=
  let x' := fresh "x" in let H' := fresh "Hx" in
  destruct (roundtrip_passes k off n _ H) as (x' & -> & H');
    [unfold chainSize, blkSize; constructor; lia|]; cbn [mbind option_bind option_map].

Lemma steps_pass x :
  (forall name, hung name = false) -> chain_ok x ->
  exists err x', run_steps steps x = Some (err, x') /\ chain_ok x' /\
    (lenZ (storage_of x').2 < 2 ^ 63 -> err = None) /\
    (err = None \/ exists e, err = Some (Step "bandwidth delta matches through both stacks" e)).
Proof.
  intros Hh Hx. unfold steps. cbn [run_steps]. unfold runStep. rewrite !Hh.
  pass 0%nat 0 blkSize Hx. pass 1%nat (chainSize / 2) blkSize Hx0.
  pass 2%nat (chainSize - blkSize) blkSize Hx1. pass 3%nat (2 * blkSize) (128 * 1024) Hx2.
  destruct (interleaved_passes (seqZ 0 16) _ Hx3) as (x4 & -> & Hx4).
  { apply Forall_forall. intros i Hi. apply elem_of_seqZ in Hi. lia. }
  cbn [mbind option_bind option_map].
  destruct (checkStats (proxyBackend x4) (storageBackend x4)) as [e|] eqn:E; cbn [option_map].
  - eexists _, x4. split_and!; [done..| |right; by exists e]. intros Hlog. by rewrite checkStats_passes in E.
  - eexists _, x4. split_and!; [done..|by left].
Qed.
End Chain.

(** ** [runChain] *)

Definition storage0 : storage := (ChainMem.mk_memBackend (zeros (Z.to_nat chainSize)) 0 0 0 0, []).

Section RunChain.
Context {K : Type} `{Kernel K} (fuel : nat).
Context `{!BlockFile storage} `{!BlockFile proxy}.
Context (rand_Read : nat -> list Z -> result string (list Z)) (alloc : nat -> Z) (hung : string -> bool).

(** From the proxy device on; [sx] is the block device behind the storage
    device's open file. *)
Definition run_proxy (sx : bdev storage) : M K (option chain_err * storage) :=
  y ← New fuel proxy_backend (Dynamic KPointer false (Fd.mk_fdBackend sx 0 0, [])) chainSize [];
  match y with
  | Err e => mret (Some (CreateErr "create proxy ublk" e), bd_b sx)
  | Ok (p, pb) =>
    z ← sys_open (Path p) (Z.lor O_RDWR O_DIRECT);
    match z with
    | Err e =>
      Device.Close fuel proxy_backend p pb;;
      mret (Some (OpenErr "open proxy block device" e), bd_b sx)
    | Ok pfd =>
      x ← must (bdev_of chainSize p pb);
      '(err, x) ← must (run_steps hung (steps rand_Read alloc) x);
      sys_close pfd;;
      Device.Close fuel proxy_backend p (bd_b x);;
      mret (err, storage_of x)
    end
  end.

Definition runChain : M K (option chain_err) :=
  x ← New fuel (logged ChainMem.backend) (Dynamic KPointer false storage0) chainSize [];
  match x with
  | Err e => mret (Some (CreateErr "create storage ublk" e))
  | Ok (d, b) =>
    y ← sys_open (Path d) (Z.lor O_RDWR O_DIRECT);
    match y with
    | Err e =>
      Device.Close fuel (logged ChainMem.backend) d b;;
      mret (Some (OpenErr "open storage block device" e))
    | Ok sfd =>
      sx ← must (bdev_of chainSize d b);
      '(err, b) ← run_proxy sx;
      sys_close sfd;;
      Device.Close fuel (logged ChainMem.backend) d b;;
      mret err
    end
  end.

Context `{!KernelLaws K}.

Lemma chainSize_u64 : is_u 64 chainSize.
Proof. unfold chainSize. split; lia. Qed.

Lemma run_proxy_balanced sx F G : returns (own F G) (run_proxy sx) (fun _ => own F G).
Proof.
  unfold run_proxy. eapply returns_bind; [by apply returns_New, chainSize_u64|].
  intros [[p pb]|e]; [|by apply returns_ret]. apply returns_pure. intros _.
  eapply returns_bind; [by apply returns_open_dev|]. intros [pfd|e].
  - apply returns_must. intros x _. apply returns_must. intros [err x'] _.
    eapply returns_bind; [apply returns_close_dev|]. intros e.
    apply returns_Close_ret.
  - apply returns_Close_ret.
Qed.

Lemma runChain_returns F G : returns (own F G) runChain (fun _ => own F G).
Proof.
  unfold runChain. eapply returns_bind; [by apply returns_New, chainSize_u64|].
  intros [[d b]|e]; [|by apply returns_ret]. apply returns_pure. intros _.
  eapply returns_bind; [by apply returns_open_dev|]. intros [sfd|e].
  - apply returns_must. intros sx _.
    eapply returns_bind with (R := fun _ => live_dev (sfd :: F) G d).
    + apply returns_pure. intros Ho. eapply returns_conseq; [apply run_proxy_balanced|done|].
      intros x s Hs. by split.
    + intros [err b']. eapply returns_bind; [apply returns_close_dev|]. intros e.
      apply returns_Close_ret.
  - apply returns_Close_ret.
Qed.
End RunChain.

(** ** Theorems *)

(** C2: The stack of two devices is one disk.  For every block layer that keeps
    the documented laws and every sequence of reads and writes in range, served
    by the proxy device over [fdBackend] over the storage device over the
    in-memory backend, the results and replies are those of an abstract byte
    store, and the storage backend ends with the store's content: bytes go
    through both stacks unchanged and at the same offset. *)
Theorem chain_refines_disk `{!BlockFile storage} `{!BlockFileLaws (logged ChainMem.backend)} qs x :
  dev_ok proxy_view x -> Forall (request_ok (bd_w x) (bd_size x)) qs ->
  exists outs x',
    disk_all qs (ChainMem.data (storageBackend x)) = Some (outs, ChainMem.data (storageBackend x')) /\
    serve_list proxy_backend qs x = Some (outs, x') /\ dev_ok proxy_view x'.
Proof.
  intros Hx Hqs.
  pose proof (Fd.fd_DiskLike (logged ChainMem.backend) chain_view : DiskLike proxy_backend proxy_view) as Hd.
  destruct (serve_list_disk proxy_backend proxy_view qs x Hx Hqs)
    as (outs & x' & disk' & E1 & E2 & Hx' & _ & E3).
  exists outs, x'. rewrite <- E3 in E1. by split_and!.
Qed.

(** A stack of [size] bytes with one tag and 4096-byte buffers on both levels. *)
Definition stack_of (size : Z) : bdev proxy :=
  mk_bdev (sample_worker zero_desc) [zero_desc] size
    (Fd.mk_fdBackend
       (mk_bdev (sample_worker zero_desc) [zero_desc] size
          (ChainMem.mk_memBackend (zeros (Z.to_nat size)) 0 0 0 0, [])) 0 0, []).

Lemma stack_ok size : 0 <= size <= 2 ^ 63 -> dev_ok proxy_view (stack_of size).
Proof.
  intros Hs. assert (Hl : size = lenZ (zeros (Z.to_nat size))).
  { unfold zeros. rewrite length_replicate. lia. }
  constructor; [apply sample_attached; lia|exact Hl|]. split; [|done].
  constructor; [apply sample_attached; lia|exact Hl|done].
Qed.

Lemma chain_refines_disk_witness : exists outs x',
  disk_all sample_requests (zeros 1024) = Some (outs, ChainMem.data (storageBackend x')) /\
  serve_list (proxy_backend (BlockFile0 := sector_file (logged ChainMem.backend)))
    sample_requests (stack_of 1024) = Some (outs, x') /\ dev_ok proxy_view x'.
Proof.
  apply (chain_refines_disk (BlockFile0 := sector_file _)
           (BlockFileLaws0 := sector_file_laws _) sample_requests (stack_of 1024)).
  - apply stack_ok. lia.
  - repeat constructor; vm_compute; first [done|lia|naive_solver].
Defined.

(** The probe passes.  With any block layer that keeps the documented laws
    on both levels, when [rand.Read] fills its buffer and no step times out, the
    steps of [runChain] run to the end: every write, read-back and comparison
    succeeds, at the first, a middle and the last block, at the largest request
    size and in the interleaved run, and [checkStats] finds at least as many
    calls at the storage backend as at the proxy (while the 64-bit counters
    have not wrapped). *)
Theorem chain_steps_pass `{!BlockFile storage} `{!BlockFile proxy}
  `{!BlockFileLaws (logged ChainMem.backend)} `{!BlockFileLaws proxy_backend} rand_Read alloc hung x :
  (forall k p, exists p', rand_Read k p = Ok p' /\ length p' = length p) ->
  (forall k, is_u 64 (alloc k)) -> (forall name, hung name = false) ->
  dev_ok proxy_view x -> bd_size x = chainSize ->
  exists err x', run_steps hung (steps rand_Read alloc) x = Some (err, x') /\
    (lenZ (storage_of x').2 < 2 ^ 63 -> err = None).
Proof.
  intros Hr Ha Hh Hx Hsz.
  destruct (steps_pass rand_Read alloc hung Hr Ha x Hh (conj Hx Hsz)) as (err & x' & E & _ & Hn & _). eauto.
Qed.

Lemma chain_steps_pass_witness :
  let f1 := sector_file (logged ChainMem.backend) in
  let f2 := sector_file (proxy_backend (BlockFile0 := f1)) in
  exists err x', run_steps (fun _ => false) (steps (BlockFile1 := f2) (fun _ p => Ok p) (fun _ => 0))
      (stack_of chainSize) = Some (err, x') /\ (lenZ (storage_of x').2 < 2 ^ 63 -> err = None).
Proof.
  cbv zeta. apply (chain_steps_pass (BlockFile0 := sector_file _) (BlockFile1 := sector_file _)
    (BlockFileLaws0 := sector_file_laws _) (BlockFileLaws1 := sector_file_laws _)).
  - intros k p. by exists p.
  - intros k. split; lia.
  - done.
  - apply stack_ok. unfold chainSize. lia.
  - reflexivity.
Defined.

(** [runChain] is balanced.  Whatever the kernel answers, whichever device
    or file cannot be created, and whether the steps pass or fail, when
    [runChain] returns it has closed both devices and both files: exactly the
    descriptors and mappings open before are open after. *)
Theorem runChain_balanced {K} `{KernelLaws K} fuel `{!BlockFile storage} `{!BlockFile proxy}
  rand_Read alloc hung F G :
  returns (own F G) (runChain fuel rand_Read alloc hung) (fun _ => own F G).
Proof. by apply runChain_returns. Qed.

(** A kernel that refuses ADD_DEV: the control device and its ring are opened,
    and closed again. *)
Lemma refused_New (b : storage) :
  match New 3 (logged ChainMem.backend) (Dynamic KPointer false b) chainSize []
          (boot [] [uCmdAddDev; cmdAddDev]) with
  | Val (Err _, s) => length (acquired (trace s)) = 4%nat
  | _ => False
  end.
Proof. vm_compute. reflexivity. Qed.

Lemma runChain_balanced_witness :
  let f1 := sector_file (logged ChainMem.backend) in
  let f2 := sector_file (proxy_backend (BlockFile0 := f1)) in
  exists err s,
    runChain (K := sim) (BlockFile0 := f1) (BlockFile1 := f2) 3 (fun _ p => Ok p) (fun _ => 0)
      (fun _ => false) (boot [] [uCmdAddDev; cmdAddDev]) = Val (err, s) /\
    length (acquired (trace s)) = 4%nat /\ own [] [] s.
Proof.
  cbv zeta. pose proof (refused_New storage0) as E.
  destruct (New _ _ _ _ _ _) as [[[x|e] s]| |] eqn:En; [destruct E| |destruct E..].
  exists (Some (CreateErr "create storage ublk" e)), s.
  assert (Er : runChain (K := sim) (BlockFile0 := sector_file (logged ChainMem.backend))
    (BlockFile1 := sector_file (proxy_backend (BlockFile0 := sector_file (logged ChainMem.backend))))
    3 (fun _ p => Ok p) (fun _ => 0) (fun _ => false) (boot [] [uCmdAddDev; cmdAddDev]) =
    Val (Some (CreateErr "create storage ublk" e), s)).
  { unfold runChain, mbind, M_bind. rewrite En. reflexivity. }
  split; [exact Er|]. split; [exact E|].
  exact (runChain_balanced 3 (fun _ p => Ok p) (fun _ => 0) (fun _ => false) [] [] _ _ s (boot_own _ _) Er).
Defined.
