(* ===== verification/FaultRun.v ===== *)
(** * The program [example/fault]

    Four scenarios over the backend that fails a share of its calls: the loops
    of writes and reads and what they conclude from the errors they see, and
    the program around them.  The backend is [Faulty] of [ExBackends]; what
    the kernel makes of its errors is the law of [BlockLayer].

    The theorems: with a rate of 1.0 every call on the block file fails, so the
    two total scenarios succeed; with a lower rate the caller sees an error
    only where the backend injected one, and every attempt reaches the
    backend; every scenario closes what it opened. *)

From S2P Require Import Prelude GoLayout Types Uring Config Backend Worker Kernel Sim RingOps WorkerRun.
From S2P Require Import Device DiskLike BlockLayer ExBackends Programs ChainRun.

Import Faulty (faultyBackend, newFaulty, devSize, blkSize, setReadFail, setWriteFail, f64_0_10, f64_1_0).

Inductive fault_err : Type :=
| DeviceErr (e : goerr)
| SawFewer (writes attempts : Z)
| NoneInjected
| Swallowed
| OnlySome (saw attempts : Z)
| CloseErr (e : goerr)
| CloseHung
| Scenario (name : string) (e : fault_err).

(** ** The loops *)

Section Loops.
Context `{!BlockFile faultyBackend}.

(** [if _, err := unix.Pwrite(fd, buf, off); err != nil { callerSawErr++ }] for
    each offset. *)
Fixpoint try_writes (buf : list Z) (offs : list Z) (saw : Z) (x : bdev faultyBackend) :
    option (Z * bdev faultyBackend) :=
  match offs with
  | [] => Some (saw, x)
  | off :: offs =>
    '((_, err), x) ← pwrite buf off x;
    try_writes buf offs (if decide (err <> None) then saw + 1 else saw) x
  end.

Fixpoint try_reads (buf : list Z) (offs : list Z) (saw : Z) (x : bdev faultyBackend) :
    option (Z * bdev faultyBackend) :=
  match offs with
  | [] => Some (saw, x)
  | off :: offs =>
    '(buf, (_, err), x) ← pread buf off x;
    try_reads buf offs (if decide (err <> None) then saw + 1 else saw) x
  end.

(** The offsets [lowRate] writes to. *)
Definition lowRate_off (i : Z) : Z := i64 (i64 (Z.rem i ((devSize - blkSize) / blkSize)) * blkSize).

(** The scenarios between opening and closing the file; [addr] is the address
    [alignedBlock] gets. *)
Definition lowRate_body (addr : Z) (x : bdev faultyBackend) :
    option (option fault_err * bdev faultyBackend) :=
  '(_, buf) ← alignedBlock addr;
  let attempts := 200 in
  '(saw, x) ← try_writes buf (lowRate_off <$> seqZ 0 attempts) 0 x;
  let b := bd_b x in
  Some (if decide (Faulty.writes b < attempts) then Some (SawFewer (Faulty.writes b) attempts)
        else if decide (Faulty.writeErrs b = 0) then Some NoneInjected
        else if decide (saw = 0) then Some Swallowed
        else None, x).

Definition totalWriteFail_body (addr : Z) (x : bdev faultyBackend) :
    option (option fault_err * bdev faultyBackend) :=
  '(_, buf) ← alignedBlock addr;
  let attempts := 5 in
  '(saw, x) ← try_writes buf (replicate (Z.to_nat attempts) 0) 0 x;
  Some (if decide (saw < attempts) then Some (OnlySome saw attempts) else None, x).

Definition totalReadFail_body (addr : Z) (x : bdev faultyBackend) :
    option (option fault_err * bdev faultyBackend) :=
  '(_, buf) ← alignedBlock addr;
  let attempts := 5 in
  '(saw, x) ← try_reads buf (replicate (Z.to_nat attempts) 0) 0 x;
  Some (if decide (saw < attempts) then Some (OnlySome saw attempts) else None, x).
End Loops.

(** ** The program *)

Section Scenarios.
Context {K : Type} `{Kernel K} (fuel : nat) (rnd : nat -> Z) (addr : Z) `{!BlockFile faultyBackend}.

Definition verdict (x : result goerr (option fault_err)) : option fault_err :=
  match x with Err e => Some (DeviceErr e) | Ok v => v end.

Definition lowRate : M K (option fault_err) :=
  b ← must (setWriteFail f64_0_10 newFaulty);
  x ← with_device fuel (Faulty.backend rnd) b devSize (Z.lor O_RDWR O_DIRECT) (lowRate_body addr);
  mret (verdict x).

Definition totalWriteFail : M K (option fault_err) :=
  b ← must (setWriteFail f64_1_0 newFaulty);
  x ← with_device fuel (Faulty.backend rnd) b devSize (Z.lor O_RDWR O_DIRECT) (totalWriteFail_body addr);
  mret (verdict x).

Definition totalReadFail : M K (option fault_err) :=
  b ← must (setReadFail f64_1_0 newFaulty);
  x ← with_device fuel (Faulty.backend rnd) b devSize (Z.lor O_RDONLY O_DIRECT) (totalReadFail_body addr);
  mret (verdict x).

(** [slow]: the watchdog fires before [Close] returns. *)
Definition closeWithErrors (slow : bool) : M K (option fault_err) :=
  b ← must (setWriteFail f64_1_0 newFaulty);
  x ← New fuel (Faulty.backend rnd) (Dynamic KPointer false b) devSize [];
  match x with
  | Err e => mret (Some (DeviceErr (Wrap "ublk.New" e)))
  | Ok (d, b) =>
    y ← sys_open (Path d) (Z.lor O_WRONLY O_DIRECT);
    match y with
    | Err e => Device.Close fuel (Faulty.backend rnd) d b;; mret (Some (DeviceErr (Errno e)))
    | Ok fd =>
      '(_, buf) ← must (alignedBlock addr);
      x ← must (bdev_of devSize d b);
      '(_, x) ← must (try_writes buf (replicate 10 0) 0 x);
      sys_close fd;;
      '(_, _, err) ← Device.Close fuel (Faulty.backend rnd) d (bd_b x);
      mret (if slow then Some CloseHung
            else match err with Some e => Some (CloseErr e) | None => None end)
    end
  end.

(** [runStep] panics when a scenario hangs. *)
Definition runScenario (hung : string -> bool) (name : string) (fn : M K (option fault_err)) :
    M K (option fault_err) :=
  if hung name then must None
  else err ← fn; mret (option_map (Scenario name) err).

Definition scenarios (slow : bool) : list (string * M K (option fault_err)) :=
  [("low-rate write errors propagate to caller", lowRate);
   ("total write failure causes every Pwrite to fail", totalWriteFail);
   ("total read failure causes every Pread to fail", totalReadFail);
   ("Close succeeds with pending backend errors", closeWithErrors slow)].

(** The loop of [main]: the first error ends the program. *)
Fixpoint run_scenarios (hung : string -> bool) (ss : list (string * M K (option fault_err))) :
    M K (option fault_err) :=
  match ss with
  | [] => mret None
  | (name, fn) :: ss =>
    err ← runScenario hung name fn;
    match err with Some e => mret (Some e) | None => run_scenarios hung ss end
  end.
End Scenarios.

(** ** The backend under a block file *)

Section FaultyFile.
Context (rnd : nat -> Z).

(** A device over the faulty backend. *)
Definition faulty_dev (rf wf : Z) (x : bdev faultyBackend) : Prop :=
  attached x /\ bd_size x = lenZ (Faulty.data (bd_b x)) /\
  Faulty.readFail (bd_b x) = rf /\ Faulty.writeFail (bd_b x) = wf.

(** What one request does to the counters. *)
Record faulty_step (op rate : Z) (x x' : bdev faultyBackend) (res : Z) : Prop := {
  fs_shape : same_shape x x';
  fs_drawn : Faulty.drawn (bd_b x') = S (Faulty.drawn (bd_b x));
  fs_res : 0 <= res <-> ~ rnd (Faulty.drawn (bd_b x)) < rate;
  fs_data : res < 0 -> Faulty.data (bd_b x') = Faulty.data (bd_b x);
  fs_writes : op = opWrite -> Faulty.writes (bd_b x') = i64 (Faulty.writes (bd_b x) + 1);
  fs_errs : op = opWrite -> Faulty.writeErrs (bd_b x') =
    if decide (rnd (Faulty.drawn (bd_b x)) < rate) then i64 (Faulty.writeErrs (bd_b x) + 1)
    else Faulty.writeErrs (bd_b x) }.

Lemma faulty_ReadAt p off b s :
  sub off (lenZ p) (Faulty.data b) = Some s ->
  exists r b', Faulty.ReadAt rnd p off b = Some (if decide (rnd (Faulty.drawn b) < Faulty.readFail b)
      then p else s, r, b') /\
    (r = (lenZ p, None) <-> ~ rnd (Faulty.drawn b) < Faulty.readFail b) /\
    Faulty.data b' = Faulty.data b /\ Faulty.drawn b' = S (Faulty.drawn b) /\
    Faulty.readFail b' = Faulty.readFail b /\ Faulty.writeFail b' = Faulty.writeFail b.
Proof.
  intros Es. unfold Faulty.ReadAt. cbn [Faulty.drawn Faulty.readFail pred]. case_decide as Hd.
  - eexists _, _. split; [done|]. cbn. split_and!; [|done..]. split; [done|]. tauto.
  - unfold read_slice. cbn [Faulty.data]. rewrite Es. cbn [mbind option_bind].
    pose proof (sub_length _ _ _ _ Es). rewrite copy_all by lia.
    eexists _, _. split; [done|]. cbn. split_and!; [|done..]. split; [done|]. intros _.
    unfold copied. by replace (Z.min (lenZ p) (lenZ s)) with (lenZ p) by lia.
Qed.

Lemma faulty_WriteAt p off b :
  0 <= off -> off + lenZ p <= lenZ (Faulty.data b) ->
  exists r b', Faulty.WriteAt rnd p off b = Some (r, b') /\
    (r = (lenZ p, None) <-> ~ rnd (Faulty.drawn b) < Faulty.writeFail b) /\
    Faulty.data b' = (if decide (rnd (Faulty.drawn b) < Faulty.writeFail b) then Faulty.data b
                      else splice off p (Faulty.data b)) /\
    Faulty.drawn b' = S (Faulty.drawn b) /\
    Faulty.readFail b' = Faulty.readFail b /\ Faulty.writeFail b' = Faulty.writeFail b /\
    Faulty.writes b' = i64 (Faulty.writes b + 1) /\
    Faulty.writeErrs b' = if decide (rnd (Faulty.drawn b) < Faulty.writeFail b)
                          then i64 (Faulty.writeErrs b + 1) else Faulty.writeErrs b.
Proof.
  intros Ho Hl. unfold Faulty.WriteAt. cbn [Faulty.drawn Faulty.writeFail pred]. case_decide as Hd.
  - eexists _, _. split; [done|]. cbn. split_and!; [|done..]. split; [done|]. tauto.
  - unfold write_slice. cbn [Faulty.data]. rewrite sub_Some by lia. cbn [mbind option_bind].
    rewrite copy_all by (rewrite length_take, length_drop; lia).
    eexists _, _. split; [done|]. cbn. split_and!; [|done..]. split; [done|]. intros _.
    unfold copied. rewrite length_take, length_drop.
    by replace (Z.min _ (lenZ p)) with (lenZ p) by lia.
Qed.

(** One request: it is served, and fails exactly when its draw is below the rate. *)
Lemma faulty_serve rf wf q x :
  faulty_dev rf wf x -> request_ok (bd_w x) (bd_size x) q ->
  exists res reply x', serve_on (Faulty.backend rnd) q x = Some (res, reply, x') /\ faulty_dev rf wf x' /\
    faulty_step (op_of (q_desc q)) (if decide (op_of (q_desc q) = opRead) then rf else wf) x x' res.
Proof.
  intros (Ha & Hsz & Hrf & Hwf) Hq. pose proof Ha as [Hw Hbs Hds Hlen Hcap].
  pose proof (sector_range _ _ _ Hq) as Hin. pose proof Hin as [Ho _ He _ _].
  destruct (deliver_facts q _ _ _ Hw Hq Hds Hlen) as (Hw1 & Hg & Hdep & Hbs1 & Hbuf).
  destruct Hq as [Ht Hop Hwfd Hf Hl Hr Hdata].
  assert (Hres : forall r : ret, 0 <= (if decide (r = (len_of (q_desc q), None)) then len_of (q_desc q) else - EIO)
    <-> r = (len_of (q_desc q), None)) by (intros r; destruct (decide _); unfold EIO; split; done || lia).
  assert (Hatt : forall w' b', worker_wf w' -> w_depth w' = w_depth (bd_w x) ->
    w_bufSize w' = w_bufSize (bd_w x) ->
    attached (mk_bdev w' (<[Z.to_nat (q_tag q) := q_desc q]> (bd_ds x)) (bd_size x) (b' : faultyBackend))).
  { intros w' b' H1 H2 H3. constructor; cbn; [done|by rewrite H3| | |done].
    - apply Forall_insert; done.
    - by rewrite length_insert, H2. }
  unfold serve_on, handleIO. rewrite Hg. cbn [mbind option_bind].
  rewrite desc_fits_off, desc_fits_len by done. fold (op_of (q_desc q)).
  rewrite <- Hbs1, <- Hdep in *.
  destruct (buffer_spec _ (q_tag q) (len_of (q_desc q)) Hw1 Ht) as (p & Eb & Hp & Hps); [lia|].
  destruct (decide (op_of (q_desc q) = opRead)) as [Er|Er].
  - rewrite !decide_False by lia. rewrite Eb. cbn [mbind option_bind Faulty.backend ReadAt].
    destruct (sub (off_of (q_desc q)) (lenZ p) (Faulty.data (bd_b x))) as [s|] eqn:Es;
      [|rewrite sub_Some in Es by lia; done].
    destruct (faulty_ReadAt p _ (bd_b x) s Es) as (r & b' & -> & Hr' & Hd' & Hn' & Hrf' & Hwf').
    cbn [mbind option_bind set_pool w_bufSize w_bufPool]. set (s' := if decide _ then p else s).
    assert (Hs' : lenZ s' = len_of (q_desc q)).
    { unfold s'. pose proof (sub_length _ _ _ _ Es). case_decide; lia. }
    rewrite window_reply by (done || lia). cbn [mbind option_bind].
    rewrite Hp in Hr'. eexists _, _, _. split; [done|]. split.
    + split; [|cbn [bd_b bd_size]; by rewrite Hd', Hrf', Hwf'].
      apply Hatt; [|done..]. apply (same_but_buffer_wf (q_tag q) (deliver q (bd_ds x) (bd_w x))); [done..|].
      right. exists s'. split; [lia|reflexivity].
    + constructor; cbn [bd_b]; [by split_and!|done| |by rewrite Hd'|by rewrite Er..].
      by rewrite io_result_cases, Hres, Hr', Hrf.
  - destruct Hop as [|Hop]; [done|]. rewrite decide_True by done. rewrite !decide_False by lia.
    rewrite Eb. cbn [mbind option_bind Faulty.backend WriteAt].
    destruct (faulty_WriteAt p (off_of (q_desc q)) (bd_b x))
      as (r & b' & -> & Hr' & Hd' & Hn' & Hrf' & Hwf' & Hws & Hes); [done|lia|].
    cbn [mbind option_bind]. rewrite Hp in Hr'. eexists _, _, _. split; [done|]. split.
    + split; [by apply Hatt|]. cbn [bd_b bd_size]. rewrite Hd', Hrf', Hwf'. split_and!; [|done..].
      case_decide; [done|]. rewrite splice_length by lia. done.
    + constructor; cbn [bd_b]; [by split_and!|done| | |done|by rewrite <- Hwf].
      * by rewrite io_result_cases, Hres, Hr', Hwf.
      * rewrite io_result_cases by done. intros Hneg. rewrite Hd'.
        destruct (decide (rnd _ < _)) as [|Hdd]; [done|]. exfalso. apply Hr' in Hdd. apply Hres in Hdd. lia.
Qed.

(** The draws below [rate] among the [n] from the [lo]-th on. *)
Definition hits (rate : Z) (lo n : nat) : nat := length (filter (fun k => rnd k < rate) (seq lo n)).

Lemma hits_add rate lo a b : hits rate lo (a + b) = (hits rate lo a + hits rate (lo + a) b)%nat.
Proof. unfold hits. by rewrite seq_app, filter_app, length_app. Qed.
Lemma hits_1 rate lo : hits rate lo 1 = if decide (rnd lo < rate) then 1%nat else 0%nat.
Proof. unfold hits. cbn [seq]. rewrite filter_cons. by case_decide. Qed.
Lemma hits_le rate lo n : (hits rate lo n <= n)%nat.
Proof. unfold hits. rewrite <- (length_seq n lo) at 2. apply length_filter. Qed.
Lemma hits_all rate lo n : (forall k, rnd k < rate) -> hits rate lo n = n.
Proof.
  intros Hr. induction n as [|n IH] in lo |- *; [done|].
  change (S n) with (1 + n)%nat. rewrite hits_add, IH, hits_1, decide_True by done. done.
Qed.

(** The requests that failed. *)
Definition failed (rs : list Z) : nat := length (filter (fun r => r < 0) rs).

Lemma failed_none rs : failed rs = 0%nat -> Forall (Z.le 0) rs.
Proof.
  induction rs as [|r rs IH]; [done|]. unfold failed in *. rewrite filter_cons.
  case_decide; cbn [length]; intros; [lia|constructor; [lia|by apply IH]].
Qed.
Lemma failed_all rs : failed rs = length rs -> Forall (fun r => r < 0) rs.
Proof.
  induction rs as [|r rs IH]; [done|]. unfold failed in *. rewrite filter_cons.
  pose proof (length_filter (fun r => r < 0) rs). case_decide; cbn [length]; intros; [constructor; [done|apply IH; lia]|lia].
Qed.

Lemma outcome_error off len ps rs r :
  0 < len -> length rs = length ps -> outcome off len ps rs r ->
  (snd r <> None -> (0 < failed rs)%nat) /\ (failed rs = length ps -> snd r <> None).
Proof.
  intros Hl Hlen [Hall Hsome]. split.
  - intros Hr. destruct (failed rs) eqn:E; [|lia]. exfalso. apply Hr. by rewrite (Hall (failed_none rs E)).
  - intros Hf Hr. destruct (Hsome Hr) as [Hn Hcov].
    destruct (Hcov off) as (p & res & Hin & Hres & _); [lia|].
    apply elem_of_zip_r in Hin. rewrite <- Hlen in Hf. apply failed_all in Hf.
    rewrite Forall_forall in Hf. specialize (Hf res Hin). lia.
Qed.

(** The counters of writes and injected errors stand at [n] and [e]. *)
Definition counts (n e : nat) (x : bdev faultyBackend) : Prop :=
  Faulty.writes (bd_b x) = i64 (Z.of_nat n) /\ Faulty.writeErrs (bd_b x) = i64 (Z.of_nat e).

Lemma counts_step wf n e x x' res :
  faulty_step opWrite wf x x' res -> counts n e x ->
  counts (n + 1) (e + hits wf (Faulty.drawn (bd_b x)) 1) x'.
Proof.
  intros [_ _ _ _ Hw He] [Hn Hc]. split.
  - rewrite Hw by done. by apply i64_succ.
  - rewrite He, hits_1 by done. case_decide; [by apply i64_succ|by rewrite Nat.add_0_r].
Qed.

Lemma faulty_run_writes rf wf off data ps : forall n e x,
  faulty_dev rf wf x -> counts n e x -> 0 <= off -> off + lenZ data <= bd_size x ->
  Forall (part_ok opWrite off (lenZ data) x) ps ->
  exists rs x', run_writes (Faulty.backend rnd) off data ps x = Some (rs, x') /\
    faulty_dev rf wf x' /\ same_shape x x' /\
    Faulty.drawn (bd_b x') = (Faulty.drawn (bd_b x) + length ps)%nat /\
    failed rs = hits wf (Faulty.drawn (bd_b x)) (length ps) /\
    counts (n + length ps) (e + hits wf (Faulty.drawn (bd_b x)) (length ps)) x'.
Proof.
  induction ps as [|p ps IH]; intros n e x Hx Hc Ho Hsz Hps.
  { exists [], x. cbn. rewrite !Nat.add_0_r. by split_and!. }
  apply Forall_cons in Hps as [Hp Hps]. cbn [run_writes].
  pose proof (po_lo _ _ _ _ _ Hp). pose proof (po_hi _ _ _ _ _ Hp). pose proof (po_len _ _ _ _ _ Hp).
  destruct (sub (p_off p - off) (p_len p) data) as [s|] eqn:Es; [|rewrite sub_Some in Es by lia; done].
  pose proof (sub_length _ _ _ _ Es) as Hs. cbn [mbind option_bind].
  pose proof (part_request _ _ _ s x p (proj1 Hx) Hp Hsz (or_intror eq_refl) (fun _ => Hs)) as Hq.
  destruct (faulty_serve rf wf _ x Hx Hq) as (res & reply & x1 & -> & Hx1 & Hstep).
  cbn [q_desc] in Hstep. rewrite (po_op _ _ _ _ _ Hp) in Hstep. rewrite decide_False in Hstep by done.
  pose proof (counts_step _ _ _ _ _ _ Hstep Hc) as Hc1. destruct Hstep as [Hsh Hd Hres _ _ _].
  destruct (IH (n + 1)%nat (e + hits wf (Faulty.drawn (bd_b x)) 1)%nat x1) as (rs & x2 & E & Hx2 & Hsh2 & Hd2 & Hf2 & Hc2).
  { done. } { done. } { done. } { by destruct Hsh as (-> & _). } { by eapply same_shape_parts. }
  cbn [mbind option_bind]. rewrite E. cbn [mbind option_bind length]. exists (res :: rs), x2.
  rewrite Hd in Hf2, Hc2, Hd2.
  replace (S (length ps)) with (1 + length ps)%nat by lia. rewrite hits_add.
  replace (Faulty.drawn (bd_b x) + 1)%nat with (S (Faulty.drawn (bd_b x))) by lia.
  split_and!; [done|done|by eapply same_shape_trans|lia| |].
  - unfold failed in *. rewrite filter_cons, hits_1.
    repeat case_decide; cbn [length]; rewrite ?Hf2; try lia; tauto || lia.
  - by rewrite <- !Nat.add_assoc in Hc2.
Qed.

Lemma faulty_run_reads rf wf off ps : forall buf x,
  faulty_dev rf wf x -> 0 <= off -> off + lenZ buf <= bd_size x ->
  Forall (part_ok opRead off (lenZ buf) x) ps ->
  exists rs buf' x', run_reads (Faulty.backend rnd) off ps buf x = Some (rs, buf', x') /\
    faulty_dev rf wf x' /\ same_shape x x' /\
    failed rs = hits rf (Faulty.drawn (bd_b x)) (length ps).
Proof.
  induction ps as [|p ps IH]; intros buf x Hx Ho Hsz Hps; [by exists [], buf, x|].
  apply Forall_cons in Hps as [Hp Hps]. cbn [run_reads].
  pose proof (po_lo _ _ _ _ _ Hp). pose proof (po_hi _ _ _ _ _ Hp). pose proof (po_len _ _ _ _ _ Hp).
  pose proof (po_op _ _ _ _ _ Hp) as Hop.
  assert (Hq : request_ok (bd_w x) (bd_size x) (mk_request (p_tag p) (p_desc p) [])).
  { apply (part_request _ _ _ _ x p (proj1 Hx) Hp Hsz); [by left|done]. }
  destruct (faulty_serve rf wf _ x Hx Hq) as (res & reply & x1 & Es & Hx1 & Hstep).
  pose proof (serve_on_reply _ (mk_request _ _ _) _ _ _ _ Hop Es) as Hr. rewrite Es.
  cbn [mbind option_bind q_desc] in *. rewrite Hop, decide_True in Hstep by done.
  destruct Hstep as [Hsh Hd Hres _ _ _]. fold (p_len p) in Hr.
  set (buf1 := if decide (0 <= res) then _ else _).
  assert (Hl1 : length buf1 = length buf) by (unfold buf1; case_decide; [apply splice_length; lia|done]).
  clearbody buf1. destruct (IH buf1 x1) as (rs & buf2 & x2 & -> & Hx2 & Hsh2 & Hf2).
  { done. } { done. } { rewrite Hl1. by destruct Hsh as (-> & _). } { rewrite Hl1. by eapply same_shape_parts. }
  cbn [mbind option_bind length]. exists (res :: rs), buf2, x2.
  replace (S (length ps)) with (1 + length ps)%nat by lia. rewrite hits_add.
  replace (Faulty.drawn (bd_b x) + 1)%nat with (S (Faulty.drawn (bd_b x))) by lia. rewrite Hd in Hf2.
  split_and!; [done|done|by eapply same_shape_trans|].
  unfold failed in *. rewrite filter_cons, hits_1.
  repeat case_decide; cbn [length]; rewrite ?Hf2; try lia; tauto || lia.
Qed.

Context `{!BlockFile faultyBackend} `{!BlockFileLaws (Faulty.backend rnd)}.

(** A pwrite on the block file: it reaches the backend, an error is due to an
    injected one, and it fails when every request does. *)
Lemma faulty_pwrite rf wf n e buf off x :
  faulty_dev rf wf x -> counts n e x -> in_store (bd_size x) off (lenZ buf) ->
  exists r x' m, pwrite buf off x = Some (r, x') /\ faulty_dev rf wf x' /\ same_shape x x' /\
    (0 < m)%nat /\ Faulty.drawn (bd_b x') = (Faulty.drawn (bd_b x) + m)%nat /\
    counts (n + m) (e + hits wf (Faulty.drawn (bd_b x)) m) x' /\
    (snd r <> None -> (0 < hits wf (Faulty.drawn (bd_b x)) m)%nat) /\
    (hits wf (Faulty.drawn (bd_b x)) m = m -> snd r <> None).
Proof.
  intros Hx Hc Hin. pose proof Hin as [Ho Hl He _ _].
  destruct (pwrite_law buf off x (proj1 Hx) Hin) as (ps & Hps & Hrun).
  destruct (faulty_run_writes rf wf off buf ps n e x Hx Hc Ho He (proj1 Hps))
    as (rs & x' & E & Hx' & Hsh & Hd & Hf & Hc').
  rewrite E in Hrun. destruct Hrun as (r & Ew & Hout). pose proof (parts_ok_nonempty _ _ _ _ _ Hl Hps).
  destruct (outcome_error off (lenZ buf) ps rs r Hl) as [H1 H2]; [by eapply run_writes_results|done|].
  rewrite Hf in H1, H2. by exists r, x', (length ps).
Qed.

Lemma faulty_pread rf wf buf off x :
  faulty_dev rf wf x -> in_store (bd_size x) off (lenZ buf) -> (forall k, rnd k < rf) ->
  exists buf' r x', pread buf off x = Some (buf', r, x') /\ faulty_dev rf wf x' /\ same_shape x x' /\
    length buf' = length buf /\ snd r <> None.
Proof.
  intros Hx Hin Hrf. pose proof Hin as [Ho Hl He _ _].
  destruct (pread_law buf off x (proj1 Hx) Hin) as (ps & Hps & Hrun).
  destruct (faulty_run_reads rf wf off ps buf x Hx Ho He (proj1 Hps)) as (rs & buf1 & x' & E & Hx' & Hsh & Hf).
  rewrite E in Hrun. destruct Hrun as (r & buf2 & Er & Hout & _).
  destruct (run_reads_results _ off (lenZ buf) x _ _ _ _ _ _ eq_refl (proj1 Hps) E) as [Hrs _].
  destruct (outcome_error off (lenZ buf) ps rs r Hl Hrs Hout) as [_ H2]. rewrite hits_all in Hf by done.
  exists buf2, r, x'. split_and!; [done..|by eapply pread_length|by apply H2].
Qed.

(** ** The loops of the scenarios *)

Lemma try_writes_spec rf wf buf offs : forall saw n e x,
  faulty_dev rf wf x -> counts n e x -> 0 < lenZ buf ->
  Forall (fun off => in_store (bd_size x) off (lenZ buf)) offs ->
  exists k x' m, try_writes buf offs saw x = Some (saw + Z.of_nat k, x') /\
    faulty_dev rf wf x' /\ (length offs <= m)%nat /\
    counts (n + m) (e + hits wf (Faulty.drawn (bd_b x)) m) x' /\
    (k <= hits wf (Faulty.drawn (bd_b x)) m)%nat /\
    ((forall i, rnd i < wf) -> k = length offs).
Proof.
  induction offs as [|off offs IH]; intros saw n e x Hx Hc Hl Hoffs; cbn [try_writes].
  { exists 0%nat, x, 0%nat. cbn. rewrite Z.add_0_r, !Nat.add_0_r. by split_and!. }
  apply Forall_cons in Hoffs as [Hoff Hoffs].
  destruct (faulty_pwrite rf wf n e buf off x Hx Hc Hoff)
    as ([w err] & x1 & m1 & -> & Hx1 & Hsh & Hm1 & Hd1 & Hc1 & Herr & Hall).
  cbn [mbind option_bind fst snd] in *.
  destruct (IH (if decide (err <> None) then saw + 1 else saw) (n + m1)%nat
              (e + hits wf (Faulty.drawn (bd_b x)) m1)%nat x1) as (k & x2 & m2 & -> & Hx2 & Hm2 & Hc2 & Hk & Hal2).
  { done. } { done. } { done. } { by destruct Hsh as (-> & _). }
  rewrite Hd1 in Hc2, Hk. rewrite <- !Nat.add_assoc, <- hits_add in Hc2.
  exists (if decide (err <> None) then S k else k), x2, (m1 + m2)%nat. cbn [length]. rewrite hits_add.
  split_and!; [|done|lia|by rewrite <- hits_add| |].
  - do 2 f_equal. case_decide; lia.
  - case_decide as He; [specialize (Herr He); lia|lia].
  - intros Hr. rewrite decide_True; [by rewrite Hal2|]. by apply Hall, hits_all.
Qed.

Lemma try_reads_fail rf wf offs : forall buf saw x,
  faulty_dev rf wf x -> Forall (fun off => in_store (bd_size x) off (lenZ buf)) offs ->
  (forall i, rnd i < rf) ->
  exists x', try_reads buf offs saw x = Some (saw + Z.of_nat (length offs), x') /\ faulty_dev rf wf x'.
Proof.
  induction offs as [|off offs IH]; intros buf saw x Hx Hoffs Hr; cbn [try_reads].
  { exists x. by rewrite Z.add_0_r. }
  apply Forall_cons in Hoffs as [Hoff Hoffs].
  destruct (faulty_pread rf wf buf off x Hx Hoff Hr) as (buf1 & [w err] & x1 & -> & Hx1 & Hsh & Hl1 & Herr).
  cbn [mbind option_bind snd] in *. rewrite decide_True by done.
  destruct (IH buf1 (saw + 1) x1) as (x2 & -> & Hx2).
  { done. } { destruct Hsh as (-> & _). by rewrite Hl1. } { done. }
  exists x2. split; [|done]. do 2 f_equal. cbn [length]. lia.
Qed.
End FaultyFile.

(** ** Theorems *)

Lemma newFaulty_dev r w (x : bdev faultyBackend) :
  attached x -> bd_size x = devSize -> bd_b x = Faulty.set_rates r w newFaulty ->
  faulty_dev r w x /\ counts 0 0 x /\ Faulty.drawn (bd_b x) = 0%nat.
Proof.
  intros Ha Hs Hb. unfold counts. split_and!; [|by rewrite Hb..]. unfold faulty_dev. rewrite Hs, Hb.
  split_and!; [done| |done..]. cbn [Faulty.data Faulty.set_rates newFaulty]. unfold zeros.
  rewrite length_replicate. unfold devSize. lia.
Qed.

Lemma alignedBlock_ok addr :
  is_u 64 addr -> exists off, alignedBlock addr = Some (off, zeros (Z.to_nat blkSize)).
Proof.
  intros Ha. destruct (alignedAlloc_spec addr blkSize 4096) as (off & E & _); [unfold blkSize; lia|lia|done|].
  exists off. rewrite <- E. by apply alignedBuf_alignedAlloc.
Qed.

Lemma block_in_store off :
  0 <= off -> off + blkSize <= devSize -> off mod blkSize = 0 ->
  in_store devSize off (lenZ (zeros (Z.to_nat blkSize))).
Proof.
  intros Ho He Hm. unfold zeros. rewrite length_replicate. unfold blkSize, devSize in *.
  rewrite Z2Nat.id by lia. constructor; [done|lia|done|lia|reflexivity].
Qed.

Lemma lowRate_off_ok i :
  0 <= i < 200 -> 0 <= lowRate_off i /\ lowRate_off i + blkSize <= devSize /\ lowRate_off i mod blkSize = 0.
Proof.
  intros Hi. unfold lowRate_off. replace (Z.rem i ((devSize - blkSize) / blkSize)) with i.
  - unfold devSize, blkSize. rewrite (i64_id i) by (unfold is_i; lia). rewrite i64_id by (unfold is_i; lia).
    split_and!; [lia|lia|apply Z_mod_mult].
  - symmetry. apply Z.rem_small. unfold devSize, blkSize. lia.
Qed.

Lemma total_fail_runs `{!BlockFile faultyBackend} rnd `{!BlockFileLaws (Faulty.backend rnd)} addr x :
  (forall n, 0 <= rnd n < 1000000) -> is_u 64 addr -> attached x -> bd_size x = devSize ->
  (setWriteFail f64_1_0 newFaulty = Some (bd_b x) -> exists x', totalWriteFail_body addr x = Some (None, x')) /\
  (setReadFail f64_1_0 newFaulty = Some (bd_b x) -> exists x', totalReadFail_body addr x = Some (None, x')).
Proof.
  intros Hr Ha Hx Hs. destruct (alignedBlock_ok addr Ha) as [o Eb].
  assert (Hoffs : Forall (fun off => in_store (bd_size x) off (lenZ (zeros (Z.to_nat blkSize)))) (replicate 5 0)).
  { rewrite Hs. apply Forall_replicate. apply block_in_store; unfold blkSize, devSize; [lia|lia|reflexivity]. }
  assert (Hl : 0 < lenZ (zeros (Z.to_nat blkSize))) by (apply Forall_inv in Hoffs; apply Hoffs).
  split.
  - rewrite Faulty.setWriteFail_1_0. intros [= E]. symmetry in E.
    destruct (newFaulty_dev _ _ x Hx Hs E) as (Hd & Hc & _).
    unfold totalWriteFail_body. rewrite Eb. cbn [mbind option_bind].
    destruct (try_writes_spec rnd _ _ _ _ 0 0 0 x Hd Hc Hl Hoffs) as (k & x' & m & E1 & _ & _ & _ & _ & Hall).
    rewrite (Hall (fun i => proj2 (Hr i))), length_replicate in E1.
    change (Z.to_nat 5) with 5%nat. rewrite E1. by exists x'.
  - rewrite Faulty.setReadFail_1_0. intros [= E]. symmetry in E.
    destruct (newFaulty_dev _ _ x Hx Hs E) as (Hd & _ & _).
    unfold totalReadFail_body. rewrite Eb. cbn [mbind option_bind].
    destruct (try_reads_fail rnd _ _ _ _ 0 x Hd Hoffs (fun i => proj2 (Hr i))) as (x' & E1 & _).
    rewrite length_replicate in E1. change (Z.to_nat 5) with 5%nat. rewrite E1. by exists x'.
Qed.

(** The writes of [closeWithErrors] return. *)
Lemma close_writes_run `{!BlockFile faultyBackend} rnd `{!BlockFileLaws (Faulty.backend rnd)} x :
  attached x -> bd_size x = devSize -> setWriteFail f64_1_0 newFaulty = Some (bd_b x) ->
  exists saw x', try_writes (zeros (Z.to_nat blkSize)) (replicate 10 0) 0 x = Some (saw, x').
Proof.
  intros Hx Hs. rewrite Faulty.setWriteFail_1_0. intros [= E]. symmetry in E.
  destruct (newFaulty_dev _ _ x Hx Hs E) as (Hd & Hc & _).
  assert (Hoff : in_store devSize 0 (lenZ (zeros (Z.to_nat blkSize))))
    by (apply block_in_store; unfold blkSize, devSize; [lia|lia|reflexivity]).
  destruct (try_writes_spec rnd _ _ (zeros (Z.to_nat blkSize)) (replicate 10 0) 0 0 0 x Hd Hc)
    as (k & x' & m & E1 & _).
  - apply Hoff.
  - rewrite Hs. by apply Forall_replicate.
  - by eexists _, _.
Qed.

(** Total failure is reported.  When every call of the backend fails, every
    pwrite and pread on the block file returns an error, whatever the block
    layer splits or retries: with the rate 1.0 the loops of [totalWriteFail] and
    [totalReadFail] count five errors out of five and return [nil]. *)
Theorem total_failures_reported `{!BlockFile faultyBackend} rnd `{!BlockFileLaws (Faulty.backend rnd)} addr x :
  (forall n, 0 <= rnd n < 1000000) -> is_u 64 addr -> attached x -> bd_size x = devSize ->
  (setWriteFail f64_1_0 newFaulty = Some (bd_b x) -> exists x', totalWriteFail_body addr x = Some (None, x')) /\
  (setReadFail f64_1_0 newFaulty = Some (bd_b x) -> exists x', totalReadFail_body addr x = Some (None, x')).
Proof. by apply total_fail_runs. Qed.

(** A device of [devSize] bytes over the backend [b]. *)
Definition sample_fault_dev (b : faultyBackend) : bdev faultyBackend :=
  mk_bdev (sample_worker zero_desc) [zero_desc] devSize b.

Lemma total_failures_reported_witness :
  let f := sector_file (Faulty.backend sample_rnd) in
  (exists x', totalWriteFail_body 0 (sample_fault_dev (Faulty.set_rates 0 1000000 newFaulty)) = Some (None, x')) /\
  (exists x', totalReadFail_body 0 (sample_fault_dev (Faulty.set_rates 1000000 0 newFaulty)) = Some (None, x')).
Proof.
  cbv zeta. assert (Hr : forall n, 0 <= sample_rnd n < 1000000) by (intros n; apply Z.mod_pos_bound; lia).
  assert (Ha : is_u 64 0) by (split; lia).
  assert (Hat : forall b, attached (sample_fault_dev b))
    by (intros b; apply sample_attached; unfold devSize; lia).
  split.
  - exact (proj1 (total_failures_reported (BlockFile0 := sector_file (Faulty.backend sample_rnd)) sample_rnd
      (BlockFileLaws0 := sector_file_laws _) 0
      (sample_fault_dev (Faulty.set_rates 0 1000000 newFaulty)) Hr Ha (Hat _) eq_refl)
      (Faulty.setWriteFail_1_0 newFaulty)).
  - exact (proj2 (total_failures_reported (BlockFile0 := sector_file (Faulty.backend sample_rnd)) sample_rnd
      (BlockFileLaws0 := sector_file_laws _) 0
      (sample_fault_dev (Faulty.set_rates 1000000 0 newFaulty)) Hr Ha (Hat _) eq_refl)
      (Faulty.setReadFail_1_0 newFaulty)).
Defined.

(** What the writes of [lowRate] lead to, and the verdict. *)
Lemma lowRate_runs `{!BlockFile faultyBackend} rnd `{!BlockFileLaws (Faulty.backend rnd)} addr x :
  is_u 64 addr -> attached x -> bd_size x = devSize -> setWriteFail f64_0_10 newFaulty = Some (bd_b x) ->
  exists m k x', lowRate_body addr x =
    Some (if decide (i64 (Z.of_nat m) < 200) then Some (SawFewer (i64 (Z.of_nat m)) 200)
          else if decide (i64 (Z.of_nat (hits rnd 100000 0 m)) = 0) then Some NoneInjected
          else if decide (Z.of_nat k = 0) then Some Swallowed else None, x') /\
    (200 <= m)%nat /\ (k <= hits rnd 100000 0 m)%nat.
Proof.
  intros Ha Hx Hs. rewrite Faulty.setWriteFail_0_10. intros [= E]. symmetry in E.
  destruct (newFaulty_dev _ _ x Hx Hs E) as (Hd & Hc & H0). destruct (alignedBlock_ok addr Ha) as [o Eb].
  assert (Hoffs : Forall (fun off => in_store (bd_size x) off (lenZ (zeros (Z.to_nat blkSize))))
                    (lowRate_off <$> seqZ 0 200)).
  { rewrite Hs. apply Forall_fmap, Forall_forall. intros i Hi. apply elem_of_seqZ in Hi.
    destruct (lowRate_off_ok i) as (H1 & H2 & H3); [lia|]. by apply block_in_store. }
  assert (Hl : 0 < lenZ (zeros (Z.to_nat blkSize))) by (unfold zeros; rewrite length_replicate; unfold blkSize; lia).
  destruct (try_writes_spec rnd _ _ _ _ 0 0 0 x Hd Hc Hl Hoffs)
    as (k & x' & m & E1 & Hd' & Hm & [Hw He] & Hk & _).
  rewrite H0 in *. rewrite length_fmap, length_seqZ in Hm. cbn [Nat.add] in Hw, He.
  unfold lowRate_body. rewrite Eb. cbn [mbind option_bind]. rewrite E1. cbn [mbind option_bind].
  exists m, k, x'. rewrite Hw, He. split; [done|]. split; [lia|done].
Qed.

(** A low rate is judged correctly.  With the rate 0.10 the 200 writes of
    [lowRate], all to whole blocks inside the device, each reach the backend at
    least once, so the first check never fails; the caller sees at most as many
    errors as the backend injected, which are the draws below 100000; and (while
    the 64-bit counters have not wrapped) the verdict is exactly: an error if
    none was injected, an error if some were injected and none was seen, and
    [nil] otherwise. *)
Theorem lowRate_verdict `{!BlockFile faultyBackend} rnd `{!BlockFileLaws (Faulty.backend rnd)} addr x :
  is_u 64 addr -> attached x -> bd_size x = devSize -> setWriteFail f64_0_10 newFaulty = Some (bd_b x) ->
  exists v x' m saw, lowRate_body addr x = Some (v, x') /\ (200 <= m)%nat /\
    (saw <= hits rnd 100000 0 m)%nat /\
    (Z.of_nat m < 2 ^ 63 ->
     v = if decide (hits rnd 100000 0 m = 0%nat) then Some NoneInjected
         else if decide (saw = 0%nat) then Some Swallowed else None).
Proof.
  intros Ha Hx Hs Hb. destruct (lowRate_runs rnd addr x Ha Hx Hs Hb) as (m & k & x' & E & Hm & Hk).
  eexists _, x', m, k. split; [exact E|]. split; [done|]. split; [done|]. intros Hlt.
  pose proof (hits_le rnd 100000 0 m).
  rewrite !i64_id by (unfold is_i; lia). rewrite decide_False by lia.
  destruct (decide (hits rnd 100000 0 m = 0%nat)), (decide (k = 0%nat)); repeat case_decide; done || lia.
Qed.

Lemma lowRate_verdict_witness :
  let f := sector_file (Faulty.backend sample_rnd) in
  exists v x' m saw,
    lowRate_body 0 (sample_fault_dev (Faulty.set_rates 0 100000 newFaulty)) = Some (v, x') /\
    (200 <= m)%nat /\ (saw <= hits sample_rnd 100000 0 m)%nat /\
    (Z.of_nat m < 2 ^ 63 ->
     v = if decide (hits sample_rnd 100000 0 m = 0%nat) then Some NoneInjected
         else if decide (saw = 0%nat) then Some Swallowed else None).
Proof.
  cbv zeta. assert (Ha : is_u 64 0) by (split; lia).
  assert (Hat : forall b, attached (sample_fault_dev b))
    by (intros b; apply sample_attached; unfold devSize; lia).
  exact (lowRate_verdict (BlockFile0 := sector_file (Faulty.backend sample_rnd)) sample_rnd
    (BlockFileLaws0 := sector_file_laws _) 0 (sample_fault_dev (Faulty.set_rates 0 100000 newFaulty))
    Ha (Hat _) eq_refl (Faulty.setWriteFail_0_10 newFaulty)).
Defined.

(** ** Resources *)

Section Balanced.
Context {K : Type} `{KernelLaws K} (fuel : nat) (rnd : nat -> Z) (addr : Z) `{!BlockFile faultyBackend}.

Lemma devSize_u64 : is_u 64 devSize.
Proof. unfold devSize. split; lia. Qed.

Lemma scenario_balanced (o : option faultyBackend) flags
    (body : bdev faultyBackend -> option (option fault_err * bdev faultyBackend)) F G :
  returns (K := K) (own F G)
    (b ← must o; x ← with_device fuel (Faulty.backend rnd) b devSize flags body; mret (verdict x))
    (fun _ => own F G).
Proof.
  apply returns_must. intros b _. eapply returns_bind; [by apply with_device_balanced, devSize_u64|].
  intros x. by apply returns_ret.
Qed.

Lemma closeWithErrors_balanced slow F G :
  returns (K := K) (own F G) (closeWithErrors fuel rnd addr slow) (fun _ => own F G).
Proof.
  unfold closeWithErrors. apply returns_must. intros b _.
  eapply returns_bind; [by apply returns_New, devSize_u64|].
  intros [[d b']|e]; [|by apply returns_ret]. apply returns_pure. intros _.
  eapply returns_bind; [by apply returns_open_dev|]. intros [fd|e]; [|apply returns_Close_ret].
  apply returns_must. intros [o buf] _. apply returns_must. intros x _.
  apply returns_must. intros [saw x'] _.
  eapply returns_bind; [apply returns_close_dev|]. intros e.
  eapply returns_bind; [apply returns_Close|]. intros [[d' b''] err]. apply returns_pure. intros _.
  by apply returns_ret.
Qed.

Lemma run_scenarios_balanced hung ss F G :
  Forall (fun nf => returns (K := K) (own F G) nf.2 (fun _ => own F G)) ss ->
  returns (K := K) (own F G) (run_scenarios hung ss) (fun _ => own F G).
Proof.
  induction 1 as [|[name fn] ss Hfn Hss IH]; cbn [run_scenarios]; [by apply returns_ret|].
  eapply returns_bind with (R := fun _ => own F G).
  - unfold runScenario. destruct (hung name); [by intros s a s' _|].
    eapply returns_bind; [exact Hfn|]. intros err. by apply returns_ret.
  - intros [e|]; [by apply returns_ret|exact IH].
Qed.
End Balanced.

(** The fault program is balanced.  Whatever the kernel answers, whatever
    the draws and whichever scenario fails, when the program's loop over its
    scenarios returns, every device and file of every scenario is closed: a
    device whose backend fails every call is shut down completely. *)
Theorem fault_program_balanced {K} `{KernelLaws K} fuel rnd addr `{!BlockFile faultyBackend} hung slow F G :
  returns (own F G) (run_scenarios hung (scenarios fuel rnd addr slow)) (fun _ => own F G).
Proof.
  apply run_scenarios_balanced. unfold scenarios. rewrite !Forall_cons. cbn [snd].
  split_and!; [by apply scenario_balanced..|by apply closeWithErrors_balanced|by constructor].
Qed.

Lemma refused_faulty (b : faultyBackend) :
  match New 3 (Faulty.backend sample_rnd) (Dynamic KPointer false b) devSize []
          (boot [] [uCmdAddDev; cmdAddDev]) with
  | Val (Err _, s) => length (acquired (trace s)) = 4%nat
  | _ => False
  end.
Proof. vm_compute. reflexivity. Qed.

Lemma lowRate_refused {K} `{Kernel K} fuel rnd addr `{!BlockFile faultyBackend} hung name ss b s e s' :
  setWriteFail f64_0_10 newFaulty = Some b -> hung name = false ->
  New fuel (Faulty.backend rnd) (Dynamic KPointer false b) devSize [] s = Val (Err e, s') ->
  run_scenarios (K := K) hung ((name, lowRate fuel rnd addr) :: ss) s =
  Val (Some (Scenario name (DeviceErr (Wrap "ublk.New" e))), s').
Proof.
  intros Eb Hh En. cbn [run_scenarios]. unfold runScenario, lowRate. rewrite Hh, Eb.
  unfold mbind, M_bind. cbn [must]. unfold mret, M_ret.
  by rewrite (with_device_refused fuel (Faulty.backend rnd) b devSize _ _ _ _ _ En).
Qed.

Lemma fault_program_balanced_witness :
  let f := sector_file (Faulty.backend sample_rnd) in
  exists err s, run_scenarios (fun _ => false) (scenarios (K := sim) 3 sample_rnd 0 false)
      (boot [] [uCmdAddDev; cmdAddDev]) = Val (err, s) /\
    length (acquired (trace s)) = 4%nat /\ own [] [] s.
Proof.
  intros f. pose proof (refused_faulty (Faulty.set_rates 0 100000 newFaulty)) as E.
  destruct (New _ _ _ _ _ _) as [[[x|e] s]| |] eqn:En; [destruct E| |destruct E..].
  assert (Er : run_scenarios (fun _ => false) (scenarios (K := sim) 3 sample_rnd 0 false)
      (boot [] [uCmdAddDev; cmdAddDev]) =
    Val (Some (Scenario "low-rate write errors propagate to caller" (DeviceErr (Wrap "ublk.New" e))), s)).
  { exact (lowRate_refused 3 sample_rnd 0 (fun _ => false) _ _ _ _ e s
             (Faulty.setWriteFail_0_10 newFaulty) eq_refl En). }
  eexists _, s. split; [exact Er|]. split; [exact E|].
  exact (fault_program_balanced 3 sample_rnd 0 (fun _ => false) false [] [] _ _ s (boot_own _ _) Er).
Defined.
