(* ===== verification/FlushRun.v ===== *)
(** * The trace report of [example/flushbench]

    [printSince] summarises the backend calls recorded since a mark: how many
    there were, the longest gap between two consecutive ones, and a sample of
    them.  The loops are as in the program, by index into the event slice; an
    index out of range is [None].

    The theorem is that they compute the list functions one expects, never
    index out of range, and how many lines are printed. *)

From S2P Require Import Prelude GoLayout Backend Worker DiskLike ExBackends.

Import Tracing (event, at_, op, off, size, trace, ev).

Definition printSamples : Z := 10.

(** [d.Truncate(time.Microsecond)] of a duration in nanoseconds. *)
Definition trunc_us (d : Z) : Z := d - Z.rem d 1000.

(** What is printed: a message, or a header with the number of calls and the
    longest gap, followed by one line per sample. *)
Inductive report : Type :=
| NoCalls
| NoneInWindow
| Report (calls maxGap : Z) (lines : list (Z * string * Z * Z)).

Definition line_of (e : event) : Z * string * Z * Z := (trunc_us (at_ e), op e, off e, size e).

(** [for i, e := range t.ev { if e.at >= mark { first = i; break } }] *)
Fixpoint find_first (mark i : Z) (l : list event) : Z :=
  match l with
  | [] => -1
  | e :: l => if decide (mark <= at_ e) then i else find_first mark (i + 1) l
  end.

(** [for i := first + 1; i <= last; i++]: [todo] are the values of [i] left. *)
Fixpoint gap_loop (evs : list event) (todo : list Z) (maxGap : Z) : option Z :=
  match todo with
  | [] => Some maxGap
  | i :: todo =>
    e ← evs !! Z.to_nat i;
    e' ← evs !! Z.to_nat (i - 1);
    let gap := i64 (at_ e - at_ e') in
    gap_loop evs todo (if decide (maxGap < gap) then gap else maxGap)
  end.

(** [for i := first; i <= last; i += step]; one unit of fuel per iteration. *)
Fixpoint sample_loop (fuel : nat) (evs : list event) (i last step : Z) : option (list event) :=
  match fuel with
  | O => None
  | S fuel =>
    if decide (i <= last) then
      e ← evs !! Z.to_nat i;
      rest ← sample_loop fuel evs (i + step) last step;
      Some (e :: rest)
    else Some []
  end.

Definition printSince (mark : Z) (t : trace) : option report :=
  if decide (lenZ (ev t) = 0) then Some NoCalls
  else
    let first := find_first mark 0 (ev t) in
    if decide (first < 0) then Some NoneInWindow
    else
      let last := lenZ (ev t) - 1 in
      maxGap ← gap_loop (ev t) (seqZ (first + 1) (last - first)) 0;
      let step := if decide (printSamples < last - first + 1)
                  then Z.quot (last - first + 1) printSamples else 1 in
      samples ← sample_loop (S (length (ev t))) (ev t) first last step;
      Some (Report (last - first + 1) (trunc_us maxGap) (line_of <$> samples)).

(** ** What it means *)

(** The events from the first one at or after the mark on. *)
Fixpoint since_mark (mark : Z) (l : list event) : list event :=
  match l with
  | [] => []
  | e :: l' => if decide (mark <= at_ e) then l else since_mark mark l'
  end.

(** The times between consecutive events. *)
Fixpoint gaps (l : list event) : list Z :=
  match l with
  | e :: (e' :: _) as l' => i64 (at_ e' - at_ e) :: gaps l'
  | _ => []
  end.

(** Every [step]-th event, from the first on. *)
Definition every (step : Z) (l : list event) : list event :=
  omap (fun k => l !! Z.to_nat (k * step)) (seqZ 0 ((lenZ l - 1) / step + 1)).

Definition stride (n : Z) : Z := if decide (printSamples < n) then n / printSamples else 1.

Lemma since_mark_suffix mark l :
  (length (since_mark mark l) <= length l)%nat /\
  drop (length l - length (since_mark mark l)) l = since_mark mark l.
Proof.
  induction l as [|e l [IH1 IH2]]; [done|]. cbn [since_mark]. case_decide.
  - split; [done|]. by rewrite Nat.sub_diag.
  - cbn [length]. split; [lia|]. by rewrite Nat.sub_succ_l by done.
Qed.

Lemma find_first_spec mark l : forall i,
  find_first mark i l =
  if decide (since_mark mark l = []) then -1 else i + (lenZ l - lenZ (since_mark mark l)).
Proof.
  induction l as [|e l IH]; intros i; cbn [find_first since_mark]; [done|].
  pose proof (proj1 (since_mark_suffix mark l)).
  destruct (decide (mark <= at_ e)); [rewrite decide_False by done; lia|].
  rewrite IH. case_decide; [done|]. cbn [length]. lia.
Qed.

Lemma gap_loop_spec rest : forall pre e m,
  gap_loop (pre ++ e :: rest) (seqZ (lenZ pre + 1) (lenZ rest)) m =
  Some (foldl Z.max m (gaps (e :: rest))).
Proof.
  induction rest as [|e' rest IH]; intros pre e m; [done|].
  rewrite seqZ_cons by (cbn [length]; lia). cbn [gap_loop].
  replace (Z.to_nat (lenZ pre + 1)) with (length pre + 1)%nat by lia.
  replace (Z.to_nat (lenZ pre + 1 - 1)) with (length pre + 0)%nat by lia.
  rewrite !lookup_app_r by lia.
  replace (length pre + 1 - length pre)%nat with 1%nat by lia.
  replace (length pre + 0 - length pre)%nat with 0%nat by lia. cbn [lookup list_lookup mbind option_bind].
  specialize (IH (pre ++ [e]) e'). rewrite <- app_assoc in IH. cbn [app] in IH.
  replace (Z.succ (lenZ pre + 1)) with (lenZ (pre ++ [e]) + 1) by (rewrite length_app; cbn [length]; lia).
  replace (Z.pred (lenZ (e' :: rest))) with (lenZ rest) by (cbn [length]; lia).
  rewrite IH. f_equal. cbn [gaps foldl]. f_equal. case_decide; lia.
Qed.

Lemma omap_seqZ_shift {A} (f : Z -> option A) a n :
  omap f (seqZ (1 + a) n) = omap (fun k => f (1 + k)) (seqZ a n).
Proof.
  rewrite <- fmap_add_seqZ. induction (seqZ a n) as [|k l IH]; [done|]. cbn. by rewrite IH.
Qed.

Lemma omap_ext' {A C} (f g : A -> option C) (l : list A) : (forall x, f x = g x) -> omap f l = omap g l.
Proof. intros Hfg. induction l as [|x l IH]; [done|]. cbn. by rewrite Hfg, IH. Qed.

Lemma sample_loop_spec fuel : forall evs i step,
  0 < step -> 0 <= i <= lenZ evs - 1 + step -> lenZ evs - i < Z.of_nat fuel -> (0 < fuel)%nat ->
  sample_loop fuel evs i (lenZ evs - 1) step =
  Some (omap (fun k => evs !! Z.to_nat (i + k * step)) (seqZ 0 ((lenZ evs - 1 - i) / step + 1))).
Proof.
  induction fuel as [|fuel IH]; intros evs i step Hs Hi Hf Hpos; [lia|]. cbn [sample_loop].
  case_decide as Hil.
  - destruct (lookup_lt_is_Some_2 evs (Z.to_nat i)) as [e Ee]; [lia|]. rewrite Ee. cbn [mbind option_bind].
    rewrite IH by lia. cbn [mbind option_bind].
    assert (Hq : 0 <= (lenZ evs - 1 - i) / step) by (apply Z.div_pos; lia).
    rewrite (seqZ_cons 0 ((lenZ evs - 1 - i) / step + 1)) by lia. cbn [omap list_omap].
    rewrite Z.mul_0_l, Z.add_0_r, Ee. do 2 f_equal.
    change (Z.succ 0) with (1 + 0). rewrite omap_seqZ_shift.
    replace (lenZ evs - 1 - (i + step)) with ((lenZ evs - 1 - i) + (-1) * step) by lia.
    rewrite Z.div_add by lia.
    replace (Z.pred ((lenZ evs - 1 - i) / step + 1)) with ((lenZ evs - 1 - i) / step + -1 + 1) by lia.
    apply omap_ext'. intros k. f_equal. f_equal. lia.
  - assert ((lenZ evs - 1 - i) / step = -1) as ->; [|done].
    symmetry. apply (Z.div_unique _ _ _ (lenZ evs - 1 - i + step)); lia.
Qed.

(** Picking from a suffix. *)
Lemma every_suffix evs w pre step :
  evs = pre ++ w -> 0 < step ->
  omap (fun k => evs !! Z.to_nat (lenZ pre + k * step)) (seqZ 0 ((lenZ w - 1) / step + 1)) = every step w.
Proof.
  intros -> Hs. unfold every.
  assert (Hk : Forall (fun k => 0 <= k) (seqZ 0 ((lenZ w - 1) / step + 1))).
  { apply Forall_forall. intros k Hk. apply elem_of_seqZ in Hk. lia. }
  induction Hk as [|k l Hk0 _ IH]; [done|]. cbn [omap list_omap].
  rewrite lookup_app_r by nia. replace (Z.to_nat (lenZ pre + k * step) - length pre)%nat
    with (Z.to_nat (k * step)) by nia. destruct (w !! Z.to_nat (k * step)); by rewrite IH.
Qed.

Lemma every_length step w :
  0 < step -> w <> [] -> lenZ (every step w) = (lenZ w - 1) / step + 1.
Proof.
  intros Hs Hw. unfold every.
  assert (H1 : 0 < lenZ w) by (destruct w; [done|cbn [length]; lia]).
  assert (Hq : 0 <= (lenZ w - 1) / step) by (apply Z.div_pos; lia).
  assert (Hk : Forall (fun k => is_Some (w !! Z.to_nat (k * step))) (seqZ 0 ((lenZ w - 1) / step + 1))).
  { apply Forall_forall. intros k Hk. apply elem_of_seqZ in Hk. apply lookup_lt_is_Some_2.
    assert (k * step <= (lenZ w - 1) / step * step) by nia.
    pose proof (Z.mul_div_le (lenZ w - 1) step Hs). nia. }
  assert (Hlen : forall l, Forall (fun k => is_Some (w !! Z.to_nat (k * step))) l ->
    length (omap (fun k => w !! Z.to_nat (k * step)) l) = length l).
  { induction 1 as [|k l [e He] _ IH]; [done|]. cbn [omap list_omap]. rewrite He. cbn [length]. by rewrite IH. }
  rewrite (Hlen _ Hk), length_seqZ. lia.
Qed.

Lemma stride_pos n : 0 < n -> 0 < stride n.
Proof. intros Hn. unfold stride, printSamples. case_decide; lia. Qed.

(** How many lines a window of [n] events gives. *)
Lemma stride_lines n :
  0 < n ->
  (n <= printSamples -> (n - 1) / stride n + 1 = n) /\
  (printSamples < n -> printSamples <= (n - 1) / stride n + 1 <= 2 * printSamples - 1).
Proof.
  intros Hn. unfold stride, printSamples. split; intros H10.
  - rewrite decide_False by lia. rewrite Z.div_1_r. lia.
  - rewrite decide_True by lia. set (q := n / 10). assert (Hq : 10 * q <= n <= 10 * q + 9 /\ 0 < q) by (unfold q; lia).
    clearbody q. split.
    + assert (9 <= (n - 1) / q); [apply Z.div_le_lower_bound; nia|lia].
    + assert ((n - 1) / q < 19); [apply Z.div_lt_upper_bound; nia|lia].
Qed.

(** The report on the window [w] of [n] events in all. *)
Definition about (n : nat) (w : list event) : report :=
  match n, w with
  | O, _ => NoCalls
  | _, [] => NoneInWindow
  | _, w => Report (lenZ w) (trunc_us (foldl Z.max 0 (gaps w))) (line_of <$> every (stride (lenZ w)) w)
  end.
(** The report on the events [l] since [mark]. *)
Definition summarise (mark : Z) (l : list event) : report := about (length l) (since_mark mark l).

Lemma printSince_spec mark t : printSince mark t = Some (summarise mark (ev t)).
Proof.
  unfold summarise, about.
  unfold printSince. destruct (decide (ev t = [])) as [->|Hne]; [done|].
  assert (H0 : lenZ (ev t) <> 0) by (destruct (ev t); [done|cbn [length]; lia]).
  rewrite (decide_False (P := lenZ (ev t) = 0)) by done. rewrite find_first_spec.
  destruct (since_mark_suffix mark (ev t)) as [Hle Hdrop].
  destruct (since_mark mark (ev t)) as [|e w'] eqn:Ew; [by destruct (ev t)|].
  rewrite (decide_False (P := e :: w' = [])) by done. rewrite decide_False by lia.
  match goal with |- _ = Some ?m => replace m with
    (Report (lenZ (e :: w')) (trunc_us (foldl Z.max 0 (gaps (e :: w'))))
       (line_of <$> every (stride (lenZ (e :: w'))) (e :: w'))) by (by destruct (ev t)) end.
  set (pre := take (length (ev t) - length (e :: w')) (ev t)).
  assert (Hev : ev t = pre ++ e :: w') by (rewrite <- Hdrop; symmetry; apply take_drop).
  assert (Hpre : lenZ pre = 0 + (lenZ (ev t) - lenZ (e :: w'))) by (unfold pre; rewrite length_take; lia).
  rewrite <- Hpre. replace (lenZ (ev t) - 1 - lenZ pre) with (lenZ w') by (rewrite Hpre; cbn [length]; lia).
  rewrite Hev at 1. rewrite gap_loop_spec. cbn [mbind option_bind].
  replace (lenZ w' + 1) with (lenZ (e :: w')) by (cbn [length]; lia).
  set (n := lenZ (e :: w')). assert (Hn : 0 < n) by (unfold n; cbn [length]; lia).
  assert (Hst : (if decide (printSamples < n) then Z.quot n printSamples else 1) = stride n).
  { unfold stride, printSamples. case_decide; [|done]. apply Z.quot_div_nonneg; lia. }
  rewrite Hst. pose proof (stride_pos n Hn). rewrite sample_loop_spec by lia.
  cbn [mbind option_bind]. replace (lenZ (ev t) - 1 - lenZ pre) with (n - 1) by lia.
  pose proof (every_suffix (ev t) (e :: w') pre (stride n) Hev ltac:(done)) as Hs. fold n in Hs.
  by rewrite Hs.
Qed.

(** C33: [printSince] reports what it says.  It never indexes out of range and its
    sampling loop ends.  Without events, or without one at or after the mark, it
    says so; otherwise it reports the number of events from the first such one
    on, the largest time between two consecutive ones among these (0 if there is
    one event), and every [step]-th of them: all of a window of at most
    [printSamples] events, and between [printSamples] and
    [2 * printSamples - 1] of a larger one. *)
Theorem printSince_report mark t :
  printSince mark t = Some (summarise mark (ev t)) /\
  (forall w, w = since_mark mark (ev t) -> w <> [] ->
     (lenZ w <= printSamples -> lenZ (every (stride (lenZ w)) w) = lenZ w) /\
     (printSamples < lenZ w ->
        printSamples <= lenZ (every (stride (lenZ w)) w) <= 2 * printSamples - 1)).
Proof.
  split; [apply printSince_spec|].
  intros w _ Hw. assert (Hn : 0 < lenZ w) by (destruct w; [done|cbn [length]; lia]).
  rewrite every_length by (by apply stride_pos || done). by apply stride_lines.
Qed.

(** A trace of [n] reads, one per millisecond. *)
Definition sample_trace (n : Z) : trace :=
  Tracing.mk_trace ((fun i => Tracing.mk_event (i * 1000000) "R" (i * 4096) 4096) <$> seqZ 0 n).

(** Nineteen events give nineteen lines; twenty give ten. *)
Lemma printSince_report_witness :
  printSince 0 (sample_trace 0) = Some NoCalls /\
  printSince (2 ^ 40) (sample_trace 3) = Some NoneInWindow /\
  (printSamples <= lenZ (every (stride 19) (ev (sample_trace 19))) <= 2 * printSamples - 1) /\
  lenZ (every (stride 19) (ev (sample_trace 19))) = 19 /\
  lenZ (every (stride 20) (ev (sample_trace 20))) = 10.
Proof.
  split; [rewrite (proj1 (printSince_report 0 (sample_trace 0))); reflexivity|].
  split; [rewrite (proj1 (printSince_report (2 ^ 40) (sample_trace 3))); reflexivity|].
  split; [apply (proj2 (printSince_report 0 (sample_trace 19)) (ev (sample_trace 19))); vm_compute; done|].
  split; vm_compute; reflexivity.
Defined.
