(* ===== verification/StressRun.v ===== *)
(** * The program [example/stress]

    Four stressors, each a loop that creates devices, does I/O on them and
    closes them, and counts what went wrong.  The number of passes of a loop is
    how often its context was still alive; the writes of the writer goroutines
    are a sequence of writes on the block file, which is what any interleaving
    of them is; the watchdogs are booleans, and a [Close] that outlasts its own is
    taken to finish within the pass.  The block file is the pair of
    calls of [BlockLayer], without laws: the writes go through the page cache.

    The theorems: the offsets of the writers are blocks inside the device; no
    stressor leaks a descriptor or a mapping, however many passes it makes and
    whatever fails; the counts of a summary are consistent. *)

From S2P Require Import Prelude GoLayout Types Uring Config Backend Worker Kernel Sim RingOps WorkerRun.
From S2P Require Import Device DiskLike BlockLayer ExBackends Programs.

Import StressMem (memBackend, newMemBackend, devSize, blkSize).

(** ** Helpers *)

(** [rand.Int(rand.Reader, big.NewInt(max))]: [draw] gives the value; it panics
    when [max] is not positive. *)
Definition rand_Int (draw : Z -> Z) (max : Z) : option Z :=
  if decide (0 < max) then Some (draw max) else None.

Definition randOffset (draw : Z -> Z) (maxOff : Z) : option Z :=
  n ← rand_Int draw (Z.quot (i64 maxOff) blkSize); Some (i64 (i64 n * blkSize)).

Definition jitter (draw : Z -> Z) (minD maxD : Z) : option Z :=
  n ← rand_Int draw (i64 (maxD - minD)); Some (i64 (minD + i64 n)).

Definition millisecond : Z := 1000000.
Definition second : Z := 1000 * millisecond.

(** The budget of one mode: the duration split over [n] stressors, at least a
    second. *)
Definition perMode (duration n : Z) : Z :=
  let per := Z.quot duration n in if decide (per < second) then second else per.

Record summary := mk_summary { iterations : Z; ioErrors : Z; closeErrs : Z }.

Definition zero_summary : summary := mk_summary 0 0 0.
Definition addIter (sm : summary) : summary := mk_summary (i64 (iterations sm + 1)) (ioErrors sm) (closeErrs sm).
Definition addIO (sm : summary) : summary := mk_summary (iterations sm) (i64 (ioErrors sm + 1)) (closeErrs sm).
Definition addClose (bad : bool) (sm : summary) : summary :=
  if bad then mk_summary (iterations sm) (ioErrors sm) (i64 (closeErrs sm + 1)) else sm.

(** [time.Duration.Truncate(time.Millisecond)] *)
Definition trunc_ms (d : Z) : Z := i64 (d - Z.rem d millisecond).

(** What [main] logs about a mode, and at the end. *)
Inductive mode_line : Type :=
| Plan (modes budget workers parallel : Z)
| Skipped (name : string)
| Started (name : string) (budget : Z)
| Finished (name : string) (sm : summary) (dur : Z)
| SummaryHeader
| Summarised (name : string) (sm : summary) (dur : Z)
| CloseWarning (n : Z)
| Pass.

Definition totalClose (sms : list (string * summary * Z)) : Z :=
  foldl (fun t x => i64 (t + closeErrs x.1.2)) 0 sms.

(** ** The stressors *)

Section Stress.
Context {K : Type} `{Kernel K} (fuel : nat) `{!BlockFile memBackend}.

Abbreviation be := StressMem.backend.
Definition new : M K (result goerr (Device * memBackend)) :=
  New fuel be (Dynamic KPointer false newMemBackend) devSize [].

(** [dev.Close()], and whether it returned an error. *)
Definition close (d : Device) (b : memBackend) : M K (Device * memBackend * bool) :=
  '(d, b, err) ← Device.Close fuel be d b;
  mret (d, b, match err with Some _ => true | None => false end).

(** One pass of [churn]. *)
Definition churn_pass (sm : summary) : M K summary :=
  x ← new;
  match x with
  | Err _ => modify k_sleep;; mret (addIO sm)
  | Ok (d, b) =>
    y ← sys_open (Path d) O_WRONLY;
    b ← (match y with
         | Ok fd =>
           x ← must (bdev_of devSize d b);
           '(_, x) ← must (pwrite (zeros (Z.to_nat blkSize)) 0 x);
           sys_close fd;;
           mret (bd_b x)
         | Err _ => mret b
         end);
    '(_, _, bad) ← close d b;
    mret (addIter (addClose bad sm))
  end.

(** [Close] from [n] goroutines: the bodies run one after the other. *)
Fixpoint close_many (n : nat) (d : Device) (b : memBackend) (sm : summary) : M K summary :=
  match n with
  | O => mret sm
  | S n =>
    '(d, b, bad) ← close d b;
    close_many n d b (addClose bad sm)
  end.

Definition concurrentClose_pass (workers : nat) (sm : summary) : M K summary :=
  x ← new;
  match x with
  | Err _ => mret (addIO sm)
  | Ok (d, b) =>
    sm ← close_many workers d b sm;
    mret (addIter sm)
  end.

(** Open the block file [n] times; failures are skipped. *)
Fixpoint open_fds (n : nat) (path : string) : M K (list Z) :=
  match n with
  | O => mret []
  | S n =>
    y ← sys_open path O_WRONLY;
    fds ← open_fds n path;
    mret (match y with Ok fd => fd :: fds | Err _ => fds end)
  end.

Fixpoint close_fds (fds : list Z) : M K () :=
  match fds with [] => mret () | fd :: fds => sys_close fd;; close_fds fds end.

(** The writes of the writers, in the order they happen. *)
Fixpoint hammer (draws : list (Z -> Z)) (x : bdev memBackend) : option (bdev memBackend) :=
  match draws with
  | [] => Some x
  | draw :: draws =>
    off ← randOffset draw (devSize - blkSize);
    '(_, x) ← pwrite (zeros (Z.to_nat blkSize)) off x;
    hammer draws x
  end.

(** What the environment decides in one pass: the writers' draws, the draw of
    the pause, whether the writers and the [Close] calls outlast their
    watchdogs. *)
Record weather := mk_weather {
  w_draws : list (Z -> Z); w_pause : Z -> Z; w_stuck : bool; w_slow : bool }.

(** [time.Sleep(jitter(minD, maxD))] *)
Definition pause (w : weather) (minD maxD : Z) : M K () :=
  must (jitter (w_pause w) minD maxD);; modify k_sleep.

Definition ioWhileClose_pass (workers : nat) (w : weather) (sm : summary) : M K summary :=
  x ← new;
  match x with
  | Err _ => mret (addIO sm)
  | Ok (d, b) =>
    fds ← open_fds workers (Path d);
    x ← must (bdev_of devSize d b);
    x ← must (hammer (if decide (fds = []) then [] else w_draws w) x);
    pause w (2 * millisecond) (20 * millisecond);;
    close_fds fds;;
    let sm := addClose (w_stuck w) sm in
    '(_, _, bad) ← close d (bd_b x);
    mret (addIter (addClose (w_slow w || bad) sm))
  end.

(** The devices [manyDevices] keeps, with their files, and the counts so far. *)
Fixpoint open_devs (n : nat) (sm : summary) : M K (list (Device * memBackend * Z) * summary) :=
  match n with
  | O => mret ([], sm)
  | S n =>
    x ← new;
    match x with
    | Err _ => open_devs n (addIO sm)
    | Ok (d, b) =>
      y ← sys_open (Path d) O_WRONLY;
      match y with
      | Err _ => close d b;; open_devs n (addIO sm)
      | Ok fd =>
        '(ds, sm) ← open_devs n sm;
        mret ((d, b, fd) :: ds, sm)
      end
    end
  end.

Fixpoint hammer_all (draws : list (Z -> Z)) (ds : list (Device * memBackend * Z)) :
    option (list (Device * memBackend * Z)) :=
  match ds with
  | [] => Some []
  | (d, b, fd) :: ds =>
    x ← bdev_of devSize d b;
    x ← hammer draws x;
    ds ← hammer_all draws ds;
    Some ((d, bd_b x, fd) :: ds)
  end.

Fixpoint close_devs (slow : bool) (ds : list (Device * memBackend * Z)) (sm : summary) : M K summary :=
  match ds with
  | [] => mret sm
  | (d, b, _) :: ds =>
    '(_, _, bad) ← close d b;
    close_devs slow ds (addClose (slow || bad) sm)
  end.

Definition manyDevices_pass (parallel : nat) (w : weather) (sm : summary) : M K summary :=
  '(ds, sm) ← open_devs parallel sm;
  if decide (length ds = 0%nat) then mret sm
  else
    ds ← must (hammer_all (w_draws w) ds);
    pause w (5 * millisecond) (30 * millisecond);;
    close_fds (snd <$> ds);;
    let sm := addClose (w_stuck w) sm in
    sm ← close_devs (w_slow w) ds sm;
    mret (addIter sm).

(** [for ctx.Err() == nil]: one pass per element of [ws]. *)
Fixpoint passes {W} (pass : W -> summary -> M K summary) (ws : list W) (sm : summary) : M K summary :=
  match ws with
  | [] => mret sm
  | w :: ws => sm ← pass w sm; passes pass ws sm
  end.

Definition churn (ws : list weather) : M K summary := passes (fun _ => churn_pass) ws zero_summary.
Definition ioWhileClose (workers : nat) (ws : list weather) : M K summary :=
  passes (ioWhileClose_pass workers) ws zero_summary.
Definition concurrentClose (workers : nat) (ws : list weather) : M K summary :=
  passes (fun _ => concurrentClose_pass workers) ws zero_summary.
Definition manyDevices (parallel : nat) (ws : list weather) : M K summary :=
  passes (manyDevices_pass parallel) ws zero_summary.

(** The stressors of [main], for the flags [-workers] and [-parallel]. *)
Definition stressors (workers parallel : nat) (wss : list (list weather)) : list (string * M K summary) :=
  zip_with (fun nf ws => (fst nf, snd nf ws))
    [("churn", churn); ("ioWhileClose", ioWhileClose workers);
     ("concurrentClose", concurrentClose workers); ("many", manyDevices parallel)] wss.

(** The loop of [main] over the modes: what it logs and the summaries, each with
    its name and duration.  A mode is skipped when the program was interrupted
    before it; [elapsed] is how long it took. *)
Fixpoint run_modes (budget : Z) (elapsed : string -> Z) (interrupted : string -> bool)
    (ms : list (string * M K summary)) : M K (list mode_line * list (string * summary * Z)) :=
  match ms with
  | [] => mret ([], [])
  | (name, fn) :: ms =>
    if interrupted name then
      '(ls, sms) ← run_modes budget elapsed interrupted ms;
      mret (Skipped name :: ls, sms)
    else
      sm ← fn;
      let dur := elapsed name in
      '(ls, sms) ← run_modes budget elapsed interrupted ms;
      mret (Started name budget :: Finished name sm (trunc_ms dur) :: ls, (name, sm, dur) :: sms)
  end.
End Stress.

(** ** Offsets and pauses *)

(** The writers stay inside the device.  For every value [rand.Int] may
    return, [randOffset(devSize - blkSize)] does not panic and is the offset of
    a whole block inside the device; every block but the last is reached by some
    draw.  The pauses of [jitter] lie in [min, max). *)
Theorem randOffset_in_device draw :
  (forall max, 0 < max -> 0 <= draw max < max) ->
  (exists off, randOffset draw (devSize - blkSize) = Some off /\ 0 <= off /\
     off mod blkSize = 0 /\ off + 2 * blkSize <= devSize) /\
  (forall off, 0 <= off -> off mod blkSize = 0 -> off + 2 * blkSize <= devSize ->
     exists n, 0 <= n < 511 /\ randOffset (fun _ => n) (devSize - blkSize) = Some off) /\
  (forall minD maxD, is_i 64 minD -> is_i 64 maxD -> minD < maxD -> is_i 64 (maxD - minD) ->
     exists d, jitter draw minD maxD = Some d /\ minD <= d < maxD).
Proof.
  intros Hd. unfold randOffset, jitter, rand_Int.
  replace (Z.quot (i64 (devSize - blkSize)) blkSize) with 511 by (vm_compute; reflexivity).
  split_and!.
  - rewrite decide_True by lia. cbn [mbind option_bind]. specialize (Hd 511 ltac:(lia)).
    exists (draw 511 * blkSize). unfold devSize, blkSize in *.
    rewrite !i64_id by (rewrite ?i64_id; unfold is_i; lia).
    split_and!; [done|lia|apply Z_mod_mult|lia].
  - intros off Ho Hm He. exists (off / blkSize). unfold devSize, blkSize in *.
    split; [lia|]. rewrite decide_True by lia. cbn [mbind option_bind].
    rewrite !i64_id by (rewrite ?i64_id; unfold is_i; lia). f_equal. lia.
  - intros minD maxD H1 H2 Hlt H3. rewrite (i64_id (maxD - minD)) by done. rewrite decide_True by lia.
    cbn [mbind option_bind]. specialize (Hd (maxD - minD) ltac:(lia)).
    exists (minD + draw (maxD - minD)). unfold is_i in *.
    rewrite !i64_id by (rewrite ?i64_id; unfold is_i; lia). split; [done|lia].
Qed.

Lemma randOffset_in_device_witness :
  (exists off, randOffset (fun _ => 0) (devSize - blkSize) = Some off /\ 0 <= off /\
     off mod blkSize = 0 /\ off + 2 * blkSize <= devSize) /\
  (exists n, 0 <= n < 511 /\ randOffset (fun _ => n) (devSize - blkSize) = Some (510 * blkSize)) /\
  (exists d, jitter (fun _ => 0) (2 * millisecond) (20 * millisecond) = Some d /\
     2 * millisecond <= d < 20 * millisecond).
Proof.
  destruct (randOffset_in_device (fun _ => 0)) as (H1 & H2 & H3); [lia|].
  split; [exact H1|]. split.
  - apply H2; unfold blkSize, devSize; [lia|reflexivity|lia].
  - apply H3; unfold is_i, millisecond; lia.
Defined.

(** ** Counting *)

Definition summary_wf (sm : summary) : Prop :=
  is_i 64 (iterations sm) /\ is_i 64 (ioErrors sm) /\ is_i 64 (closeErrs sm).

(** [sm'] is [sm] with [i] iterations, [j] I/O errors and [k] close errors more. *)
Definition tally (i j k : Z) (sm sm' : summary) : Prop :=
  sm' = mk_summary (i64 (iterations sm + i)) (i64 (ioErrors sm + j)) (i64 (closeErrs sm + k)).

Lemma tally_wf i j k sm sm' : tally i j k sm sm' -> summary_wf sm'.
Proof. intros ->. split_and!; apply is_i_i64. Qed.
Lemma tally_refl sm : summary_wf sm -> tally 0 0 0 sm sm.
Proof.
  destruct sm as [a b c]. intros (H1 & H2 & H3). unfold tally. cbn in *.
  rewrite !Z.add_0_r, !i64_id by done. done.
Qed.
Lemma tally_trans i j k i' j' k' sm sm1 sm2 :
  tally i j k sm sm1 -> tally i' j' k' sm1 sm2 -> tally (i + i') (j + j') (k + k') sm sm2.
Proof. intros -> ->. unfold tally. cbn. f_equal; goint. Qed.
Lemma tally_addIter sm : summary_wf sm -> tally 1 0 0 sm (addIter sm).
Proof.
  destruct sm as [a b c]. intros (H1 & H2 & H3). unfold tally, addIter. cbn in *.
  rewrite !Z.add_0_r, (i64_id b), (i64_id c) by done. done.
Qed.
Lemma tally_addIO sm : summary_wf sm -> tally 0 1 0 sm (addIO sm).
Proof.
  destruct sm as [a b c]. intros (H1 & H2 & H3). unfold tally, addIO. cbn in *.
  rewrite !Z.add_0_r, (i64_id a), (i64_id c) by done. done.
Qed.
Lemma tally_addClose bad sm : summary_wf sm -> tally 0 0 (Z.b2z bad) sm (addClose bad sm).
Proof.
  destruct bad; [|apply tally_refl]. destruct sm as [a b c]. intros (H1 & H2 & H3).
  unfold tally, addClose. cbn in *. rewrite !Z.add_0_r, (i64_id a), (i64_id b) by done. done.
Qed.
Create HintDb tally.
#[local] Hint Resolve tally_refl tally_addIter tally_addIO tally_addClose tally_wf : tally.

(** A pass: at most one iteration, at most [c] close errors if it is one, and
    between one and [m] events in all. *)
Definition pass_ok (c m : Z) (sm sm' : summary) : Prop :=
  exists i j k, tally i j k sm sm' /\ 0 <= i <= 1 /\ 0 <= j /\ 0 <= k <= c * i /\ 1 <= i + j <= m.

(** [n] passes from zero. *)
Definition passes_ok (c m n : Z) (sm : summary) : Prop :=
  exists i j k, sm = mk_summary (i64 i) (i64 j) (i64 k) /\ 0 <= i <= n /\ 0 <= j /\
    0 <= k <= c * i /\ n <= i + j <= m * n.

Lemma pass_ok_wf c m sm sm' : pass_ok c m sm sm' -> summary_wf sm'.
Proof. intros (i & j & k & Ht & _). by eapply tally_wf. Qed.

Lemma pass_fails c m sm : 1 <= m -> 0 <= c -> summary_wf sm -> pass_ok c m sm (addIO sm).
Proof. intros Hm Hc Hs. exists 0, 1, 0. split; [by apply tally_addIO|]. lia. Qed.

Lemma pass_ends c m k sm sm' :
  1 <= m -> 0 <= k <= c -> tally 0 0 k sm sm' -> pass_ok c m sm (addIter sm').
Proof.
  intros Hm Hk Ht. exists (0 + 1), (0 + 0), (k + 0).
  split; [eapply tally_trans; [exact Ht|eauto with tally]|]. lia.
Qed.

(** ** No leaks *)

Section Balanced.
Context {K : Type} `{KernelLaws K} (fuel : nat) `{!BlockFile memBackend}.

Lemma stress_size_u64 : is_u 64 devSize.
Proof. unfold devSize. split; lia. Qed.

Lemma returns_new F G :
  returns (own F G) (new (K := K) fuel)
    (fun x s => match x with Ok (d, _) => live_dev F G d s | Err _ => own F G s end).
Proof.
  unfold new. eapply returns_conseq; [by apply returns_New, stress_size_u64|done|].
  intros [[d b]|e] s Hs; [apply Hs|exact Hs].
Qed.

Lemma returns_close d b F G :
  returns (live_dev F G d) (close (K := K) fuel d b) (fun x s => d_closed x.1.1 = true /\ own F G s).
Proof.
  eapply returns_bind; [apply returns_Close|]. intros [[d' b'] e]. apply returns_pure.
  intros (_ & _ & Hc & _). by apply returns_ret.
Qed.

(** A closed device stays closed, and its [Close] does nothing. *)
Lemma close_many_closed n : forall d b sm s,
  d_closed d = true -> close_many (K := K) fuel n d b sm s = Val (sm, s).
Proof.
  induction n as [|n IH]; intros d b sm s Hc; [done|]. cbn [close_many].
  unfold close, Device.Close. rewrite Hc. unfold mbind, M_bind, mret, M_ret. by apply IH.
Qed.

Lemma returns_close_many n d b sm F G :
  (0 < n)%nat -> summary_wf sm ->
  returns (live_dev F G d) (close_many (K := K) fuel n d b sm)
    (fun sm' s => (exists k, 0 <= k <= 1 /\ tally 0 0 k sm sm') /\ own F G s).
Proof.
  intros Hn Hs. destruct n as [|n]; [lia|]. cbn [close_many].
  eapply returns_bind; [apply returns_close|]. intros [[d' b'] bad]. apply returns_pure. cbn [fst].
  intros Hc s sm' s' Ho. rewrite close_many_closed by done. intros [= <- <-]. split; [|done].
  exists (Z.b2z bad). split; [destruct bad; cbn; lia|by apply tally_addClose].
Qed.

Lemma concurrentClose_pass_ok workers sm F G :
  (0 < workers)%nat -> summary_wf sm ->
  returns (K := K) (own F G) (concurrentClose_pass fuel workers sm) (fun sm' s => pass_ok 1 1 sm sm' /\ own F G s).
Proof.
  intros Hw Hs. unfold concurrentClose_pass. eapply returns_bind; [apply returns_new|].
  intros [[d b]|e]; [|apply returns_ret; intros s Ho; split; [by apply pass_fails|done]].
  eapply returns_bind; [by apply returns_close_many|]. intros sm'. apply returns_pure.
  intros (k & Hk & Ht). apply returns_ret. intros s Ho. split; [by eapply pass_ends|done].
Qed.

Lemma churn_pass_ok sm F G :
  summary_wf sm ->
  returns (K := K) (own F G) (churn_pass fuel sm) (fun sm' s => pass_ok 1 1 sm sm' /\ own F G s).
Proof.
  intros Hs. unfold churn_pass. eapply returns_bind; [apply returns_new|]. intros [[d b]|e].
  2:{ apply returns_modify; [done|]. apply returns_ret. intros s Ho. split; [by apply pass_fails|done]. }
  eapply returns_bind; [by apply returns_open_dev|]. intros y.
  eapply returns_bind with (R := fun _ => live_dev F G d).
  - destruct y as [fd|e]; [|by apply returns_ret]. apply returns_must. intros x _.
    apply returns_must. intros [r x'] _. eapply returns_bind; [apply returns_close_dev|].
    intros e. by apply returns_ret.
  - intros b'. eapply returns_bind; [apply returns_close|]. intros [[d' b''] bad]. apply returns_pure.
    intros _. apply returns_ret. intros s Ho. split; [|done].
    apply (pass_ends 1 1 (Z.b2z bad)); [lia|destruct bad; cbn; lia|by apply tally_addClose].
Qed.

(** Files of a live device, opened and closed. *)
Lemma returns_open_fds path d n : forall F G,
  returns (K := K) (live_dev F G d) (open_fds n path) (fun fds => live_dev (fds ++ F) G d).
Proof.
  induction n as [|n IH]; intros F G; cbn [open_fds]; [by apply returns_ret|].
  eapply returns_bind; [by apply returns_open_dev|]. intros [fd|e].
  - eapply returns_bind; [apply IH|]. intros fds. apply returns_ret. intros s [Ho Hs]. split; [done|].
    unfold holds in *. eapply own_proper; [|done|done|exact Hs].
    rewrite <- !app_assoc. cbn [app]. by rewrite <- Permutation_middle.
  - eapply returns_bind; [apply IH|]. intros fds. by apply returns_ret.
Qed.

Lemma returns_close_fds d fds : forall F G,
  returns (K := K) (live_dev (fds ++ F) G d) (close_fds fds) (fun _ => live_dev F G d).
Proof.
  induction fds as [|fd fds IH]; intros F G; cbn [close_fds]; [by apply returns_ret|].
  eapply returns_bind; [apply (returns_close_dev fd (fds ++ F))|]. intros e. apply IH.
Qed.

Lemma returns_pause w minD maxD P :
  (forall k tr, P (mk_st k tr) -> P (mk_st (k_sleep k) tr)) ->
  returns (K := K) P (pause w minD maxD) (fun _ => P).
Proof.
  intros HP. unfold pause. apply returns_must. intros x _ [k tr] a s' Hp [= _ <-]. by apply HP.
Qed.

Lemma ioWhileClose_pass_ok workers w sm F G :
  summary_wf sm ->
  returns (K := K) (own F G) (ioWhileClose_pass fuel workers w sm) (fun sm' s => pass_ok 2 1 sm sm' /\ own F G s).
Proof.
  intros Hs. unfold ioWhileClose_pass. eapply returns_bind; [apply returns_new|].
  intros [[d b]|e]; [|apply returns_ret; intros s Ho; split; [by apply pass_fails|done]].
  eapply returns_bind; [apply returns_open_fds|]. intros fds.
  apply returns_must. intros x _. apply returns_must. intros x' _.
  eapply returns_bind; [by apply returns_pause|]. intros [].
  eapply returns_bind; [apply returns_close_fds|]. intros [].
  eapply returns_bind; [apply returns_close|]. intros [[d' b'] bad]. apply returns_pure. intros _.
  apply returns_ret. intros s Ho. split; [|done].
  apply (pass_ends 2 1 (Z.b2z (w_stuck w) + Z.b2z (w_slow w || bad))); [lia|destruct (w_stuck w), (w_slow w), bad; cbn; lia|].
  apply (tally_trans 0 0 _ 0 0 _ _ (addClose (w_stuck w) sm)); [by apply tally_addClose|].
  eauto with tally.
Qed.

(** Several live devices. *)
Definition live_list (F G : list Z) (ds : list Device) (s : st K) : Prop :=
  Forall (fun d => dev_open d /\ d_closed d = false) ds /\
  own (F ++ (ds ≫= dev_fds)) (G ++ (ds ≫= dev_maps)) s.

Lemma live_list_cons F G d ds s :
  live_list F G (d :: ds) s <->
  Forall (fun d => dev_open d /\ d_closed d = false) ds /\
  live_dev (F ++ (ds ≫= dev_fds)) (G ++ (ds ≫= dev_maps)) d s.
Proof.
  unfold live_list, live_dev, holds. rewrite Forall_cons. cbn [mbind list_bind].
  split.
  - intros [[H1 H2] Ho]. split_and!; try apply H1; try done.
    eapply own_proper; [| |done|exact Ho]; rewrite <- ?app_assoc; f_equiv; apply Permutation_app_comm.
  - intros (H2 & H1 & Ho). split_and!; try apply H1; try done.
    eapply own_proper; [| |done|exact Ho]; rewrite <- ?app_assoc; f_equiv; apply Permutation_app_comm.
Qed.

Definition devs_of (ds : list (Device * memBackend * Z)) : list Device := (fun x => x.1.1) <$> ds.
Definition fds_of (ds : list (Device * memBackend * Z)) : list Z := snd <$> ds.

Lemma open_devs_ok n : forall sm F G,
  summary_wf sm ->
  returns (K := K) (own F G) (open_devs fuel n sm)
    (fun x s => (exists j, tally 0 j 0 sm x.2 /\ 0 <= j /\ j + lenZ x.1 = Z.of_nat n) /\
                live_list (fds_of x.1 ++ F) G (devs_of x.1) s).
Proof.
  induction n as [|n IH]; intros sm F G Hs; cbn [open_devs].
  { apply returns_ret. intros s Ho. split; [exists 0; split; [by apply tally_refl|cbn; lia]|].
    split; [constructor|]. cbn. by rewrite !app_nil_r. }
  assert (Hfail : forall F G, returns (K := K) (own F G) (open_devs fuel n (addIO sm))
    (fun x s => (exists j, tally 0 j 0 sm x.2 /\ 0 <= j /\ j + lenZ x.1 = Z.of_nat (S n)) /\
                live_list (fds_of x.1 ++ F) G (devs_of x.1) s)).
  { intros F' G'. pose proof (tally_addIO sm Hs) as Ht1.
    eapply returns_conseq; [apply IH; by eapply tally_wf|done|].
    intros x s [(j & Ht & Hj & Hl) Ho]. split; [|done]. exists (1 + j).
    split; [by apply (tally_trans 0 1 0 0 j 0 _ (addIO sm))|lia]. }
  eapply returns_bind; [apply returns_new|]. intros [[d b]|e]; [|apply Hfail].
  eapply returns_bind; [by apply returns_open_dev|]. intros [fd|e].
  - apply returns_pure. intros Hd. unfold holds. eapply returns_bind; [by apply IH|].
    intros [ds sm']. apply returns_pure. cbn [fst snd]. intros (j & Ht & Hj & Hl).
    apply returns_ret. intros s [Hds Ho]. cbn [fst snd]. split; [exists j; split; [done|cbn [length]; lia]|].
    split; [by constructor|]. cbn [devs_of fds_of fmap list_fmap mbind list_bind fst snd].
    fold (devs_of ds). fold (fds_of ds).
    eapply own_proper; [| |done|exact Ho].
    + rewrite <- ?app_assoc. cbn [app]. by rewrite <- ?app_assoc, <- Permutation_middle.
    + by rewrite <- !app_assoc.
  - eapply returns_bind; [apply returns_close|]. intros x. apply returns_pure. intros _. apply Hfail.
Qed.

Lemma hammer_all_keeps draws ds : forall ds',
  hammer_all draws ds = Some ds' -> devs_of ds' = devs_of ds /\ fds_of ds' = fds_of ds.
Proof.
  induction ds as [|[[d b] fd] ds IH]; intros ds'; cbn [hammer_all]; [by intros [= <-]|].
  destruct (bdev_of devSize d b) as [x|]; [|done]. cbn [mbind option_bind].
  destruct (hammer draws x) as [x'|]; [|done]. cbn [mbind option_bind].
  destruct (hammer_all draws ds) as [ds1|]; [|done]. cbn [mbind option_bind]. intros [= <-].
  destruct (IH ds1 eq_refl) as [E1 E2]. unfold devs_of, fds_of in *. cbn. by rewrite E1, E2.
Qed.

Lemma close_fds_own fds : forall F G,
  returns (K := K) (own (fds ++ F) G) (close_fds fds) (fun _ => own F G).
Proof.
  induction fds as [|fd fds IH]; intros F G; cbn [close_fds]; [by apply returns_ret|].
  eapply returns_bind; [|intros e; apply IH].
  apply returns_triple, (triple_close' fd ((fd :: fds) ++ F) (fds ++ F)). done.
Qed.

Lemma close_devs_ok slow ds : forall sm F G,
  summary_wf sm ->
  returns (K := K) (live_list F G (devs_of ds)) (close_devs fuel slow ds sm)
    (fun sm' s => (exists k, 0 <= k <= lenZ ds /\ tally 0 0 k sm sm') /\ own F G s).
Proof.
  induction ds as [|[[d b] fd] ds IH]; intros sm F G Hs; cbn [close_devs].
  { apply returns_ret. intros s [_ Ho]. cbn in Ho. rewrite !app_nil_r in Ho.
    split; [|done]. exists 0. split; [cbn; lia|by apply tally_refl]. }
  eapply returns_bind with (R := fun _ => live_list F G (devs_of ds)).
  - intros s a s' Hl Ec. cbn in Hl. apply live_list_cons in Hl as [Hds Hl].
    split; [done|]. by eapply (returns_close d b _ _ s a s' Hl Ec).
  - intros [[d' b'] bad]. pose proof (tally_addClose (slow || bad) sm Hs) as Ht.
    eapply returns_conseq; [apply IH; by eapply tally_wf|done|].
    intros sm' s [(k & Hk & Ht') Ho]. split; [|done]. exists (Z.b2z (slow || bad) + k).
    split; [destruct (slow || bad); cbn [length Z.b2z]; lia|].
    by apply (tally_trans 0 0 _ 0 0 k _ (addClose (slow || bad) sm)).
Qed.

Lemma manyDevices_pass_ok parallel w sm F G :
  (0 < parallel)%nat -> summary_wf sm ->
  returns (K := K) (own F G) (manyDevices_pass fuel parallel w sm)
    (fun sm' s => pass_ok (Z.of_nat parallel + 1) (Z.of_nat parallel + 1) sm sm' /\ own F G s).
Proof.
  intros Hp Hs. unfold manyDevices_pass. eapply returns_bind; [by apply open_devs_ok|].
  intros [ds sm1]. apply returns_pure. cbn [fst snd]. intros (j & Ht & Hj & Hl). case_decide as Hz.
  { destruct ds; [|done]. apply returns_ret. intros s [_ Ho]. cbn in Ho. rewrite !app_nil_r in Ho.
    split; [|done]. exists 0, j, 0. split; [done|]. cbn in Hl. lia. }
  apply returns_must. intros ds' Eh. destruct (hammer_all_keeps _ _ _ Eh) as [Ed Ef].
  assert (Hlen : length ds' = length ds) by (rewrite <- (length_fmap snd ds'), <- (length_fmap snd ds);
    change (length (fds_of ds') = length (fds_of ds)); by rewrite Ef).
  eapply returns_bind; [by apply returns_pause|]. intros [].
  eapply returns_bind with (R := fun _ => live_list F G (devs_of ds)).
  { intros s a s' [Hds Ho] Ec. split; [done|]. rewrite <- app_assoc in Ho.
    eapply (close_fds_own (fds_of ds')); [|exact Ec]. by rewrite Ef. }
  intros []. rewrite <- Ed. pose proof (tally_addClose (w_stuck w) sm1 (tally_wf _ _ _ _ _ Ht)) as Ht1.
  eapply returns_bind; [apply close_devs_ok; by eapply tally_wf|]. intros sm2. apply returns_pure.
  intros (k & Hk & Ht2). apply returns_ret. intros s Ho. split; [|done].
  exists (0 + 0 + 0 + 1), (j + 0 + 0 + 0), (0 + Z.b2z (w_stuck w) + k + 0). split.
  - eapply tally_trans; [eapply tally_trans; [by eapply tally_trans|exact Ht2]|eauto with tally].
  - destruct (w_stuck w); cbn [Z.b2z]; lia.
Qed.

(** Passes, one after the other. *)
Lemma passes_balanced {W} (pass : W -> summary -> M K summary) c m ws :
  (forall w sm F G, summary_wf sm ->
     returns (own F G) (pass w sm) (fun sm' s => pass_ok c m sm sm' /\ own F G s)) ->
  0 <= c -> 1 <= m ->
  forall F G, returns (own F G) (passes pass ws zero_summary)
    (fun sm s => passes_ok c m (lenZ ws) sm /\ own F G s).
Proof.
  intros Hpass Hc Hm F G.
  assert (Hgen : forall n sm, passes_ok c m n sm -> returns (own F G) (passes pass ws sm)
    (fun sm' s => passes_ok c m (n + lenZ ws) sm' /\ own F G s)).
  { induction ws as [|w ws IH]; intros n sm Hok; cbn [passes].
    { apply returns_ret. intros s Ho. split; [|done]. cbn [length]. by rewrite Z.add_0_r. }
    assert (Hwf : summary_wf sm) by (destruct Hok as (i & j & k & -> & _); split_and!; apply is_i_i64).
    eapply returns_bind; [by apply Hpass|]. intros sm1. apply returns_pure. intros Hp.
    eapply returns_conseq; [apply (IH (n + 1))|done|].
    - destruct Hok as (i & j & k & -> & Hi & Hj & Hk & Hn). destruct Hp as (i' & j' & k' & -> & Hi' & Hj' & Hk' & Hn').
      exists (i + i'), (j + j'), (k + k'). split; [cbn; f_equal; goint|]. nia.
    - intros a s. cbn [length]. by replace (n + 1 + lenZ ws) with (n + Z.of_nat (S (length ws))) by lia. }
  apply (Hgen 0). exists 0, 0, 0. split; [reflexivity|]. lia.
Qed.
End Balanced.

(** ** Theorems *)

Section Modes.
Context {K : Type} `{KernelLaws K} (fuel : nat) `{!BlockFile memBackend}.

Lemma churn_balanced ws F G :
  returns (K := K) (own F G) (churn fuel ws) (fun sm s => passes_ok 1 1 (lenZ ws) sm /\ own F G s).
Proof. apply passes_balanced; [|lia..]. intros w sm F' G'. apply churn_pass_ok. Qed.
Lemma ioWhileClose_balanced workers ws F G :
  returns (K := K) (own F G) (ioWhileClose fuel workers ws) (fun sm s => passes_ok 2 1 (lenZ ws) sm /\ own F G s).
Proof. apply passes_balanced; [|lia..]. intros w sm F' G'. apply ioWhileClose_pass_ok. Qed.

Lemma run_modes_balanced budget elapsed interrupted ms F G :
  Forall (fun nf => returns (K := K) (own F G) nf.2 (fun _ => own F G)) ms ->
  returns (K := K) (own F G) (run_modes budget elapsed interrupted ms) (fun _ => own F G).
Proof.
  induction 1 as [|[name fn] ms Hfn Hms IH]; cbn [run_modes]; [by apply returns_ret|].
  destruct (interrupted name).
  - eapply returns_bind; [exact IH|]. intros [ls sms]. by apply returns_ret.
  - eapply returns_bind; [exact Hfn|]. intros sm.
    eapply returns_bind; [exact IH|]. intros [ls sms]. by apply returns_ret.
Qed.

Context (workers parallel : nat) (Hworkers : (0 < workers)%nat) (Hparallel : (0 < parallel)%nat).

Lemma concurrentClose_balanced ws F G :
  returns (K := K) (own F G) (concurrentClose fuel workers ws)
    (fun sm s => passes_ok 1 1 (lenZ ws) sm /\ own F G s).
Proof. apply passes_balanced; [|lia..]. intros w sm F' G'. by apply concurrentClose_pass_ok. Qed.
Lemma manyDevices_balanced ws F G :
  returns (K := K) (own F G) (manyDevices fuel parallel ws)
    (fun sm s => passes_ok (Z.of_nat parallel + 1) (Z.of_nat parallel + 1) (lenZ ws) sm /\ own F G s).
Proof. apply passes_balanced; [|lia..]. intros w sm F' G'. by apply manyDevices_pass_ok. Qed.

Lemma stressors_balanced wss F G :
  Forall (fun nf => returns (K := K) (own F G) nf.2 (fun _ => own F G)) (stressors fuel workers parallel wss).
Proof.
  pose proof (churn_balanced) as H1. pose proof ioWhileClose_balanced as H2.
  pose proof concurrentClose_balanced as H3. pose proof manyDevices_balanced as H4.
  unfold stressors. destruct wss as [|w1 [|w2 [|w3 [|w4 wss]]]]; cbn [zip_with];
    repeat first [apply Forall_nil_2|apply Forall_cons_2]; cbn [snd fst];
    (eapply returns_conseq; [first [apply H1|apply H2|apply H3|apply H4]|done|]; intros sm s Hs; apply Hs).
Qed.
End Modes.

(** A pass of [concurrentClose] without goroutines: nobody closes the device. *)
Lemma concurrentClose_pass_zero {K} `{KernelLaws K} fuel sm F G :
  returns (K := K) (own F G) (concurrentClose_pass fuel 0 sm)
    (fun sm' s => (sm' = addIO sm /\ own F G s) \/ (sm' = addIter sm /\ exists d, live_dev F G d s)).
Proof.
  unfold concurrentClose_pass. eapply returns_bind; [apply returns_new|].
  intros [[d b]|e]; cbn [close_many]; apply returns_ret; intros s Hs; [|by left].
  right. split; [done|]. by exists d.
Qed.


Lemma refused_stress (b : memBackend) :
  match New 3 StressMem.backend (Dynamic KPointer false b) devSize [] (boot [] [uCmdAddDev; cmdAddDev]) with
  | Val (Err _, s) => length (acquired (trace s)) = 4%nat
  | _ => False
  end.
Proof. vm_compute. reflexivity. Qed.

Lemma churn_refused {K} `{Kernel K} fuel `{!BlockFile memBackend} w s e k tr :
  new (K := K) fuel s = Val (Err e, mk_st k tr) ->
  run_modes second (fun _ => 0) (fun _ => false) (stressors fuel 8 4 [[w]]) s =
  Val ([Started "churn" second; Finished "churn" (mk_summary 0 1 0) 0], [("churn", mk_summary 0 1 0, 0)],
       mk_st (k_sleep k) tr).
Proof.
  intros En. unfold stressors. cbn [zip_with run_modes fst snd]. unfold churn. cbn [passes].
  unfold churn_pass, mbind, M_bind. by rewrite En.
Qed.

