(* ===== verification/Host.v ===== *)
(** * Programs that drive a device from outside

    [fsdemo] and [flushbench] put a file system on their device: they run
    [mkfs.ext4], [mount] and [sync], write and read files, and wait.  None of
    that code is in the repository.  It is the parameter [Host]: an operation
    makes the kernel send requests to the device, which the device answers, and
    has a result that may depend on the answers.

    [P] is the monad of such a program: the host, the device with its backend,
    a log of the operations with their results and requests, and what the
    program printed.  A backend that panics ends the process, deferred calls
    included.  [runs] is the total triple for it.

    [ran] is what such a program promises: operations and printed lines in
    order, up to the first error.

    The main lemma is [runs_host]: over a backend that agrees with the in-memory
    one, a host that keeps to the device's limits always gets its requests
    served, by exactly one backend call each. *)

From S2P Require Import Prelude GoLayout Types Uring Config Backend Worker Kernel Sim RingOps WorkerRun.
From S2P Require Import Device DiskLike ExBackends Programs.

(** ** The host *)

Definition herr : Type := string.

Inductive hop : Type :=
| Run (name : string) (args : list string)
| MkdirTemp (dir pattern : string)
| Remove (path : string)
| WriteFile (path : string) (data : list Z) (perm : Z)
| ReadFile (path : string)
| Create (path : string)
| FWrite (f : Z) (data : list Z)
| FSync (f : Z)
| FClose (f : Z)
| Sleep (ns : Z)
| Since
| AwaitSignal.

#[export] Instance hop_eq_dec : EqDecision hop.
Proof. solve_decision. Defined.

(** What each operation returns. *)
Definition ans (o : hop) : Type :=
  match o with
  | MkdirTemp _ _ => result herr string
  | ReadFile _ => result herr (list Z)
  | Create _ => result herr Z
  | Sleep _ | AwaitSignal => ()
  | Since => Z
  | _ => option herr
  end.

(** The requests an operation makes the kernel send, and its result once they
    are answered. *)
Class Host (H : Type) := {
  h_requests : hop -> H -> list request;
  h_answer : forall o : hop, list (Z * list Z) -> H -> ans o * H }.

(** An operation, its result and its requests. *)
Inductive hev : Type := Ev (o : hop) (a : ans o) (qs : list request).
Definition ev_op (e : hev) : hop := let 'Ev o _ _ := e in o.
Definition ev_reqs (e : hev) : list request := let 'Ev _ _ qs := e in qs.

(** ** Calls of the backend *)

(** The call a request leads to. *)
Definition call_of (q : request) : Backend.call :=
  if decide (op_of (q_desc q) = opRead) then CallRead (len_of (q_desc q)) (off_of (q_desc q))
  else CallWrite (q_data q) (off_of (q_desc q)).

(** [b'] is the backend [b] after a call that returned. *)
Definition called {B} (be : Backend B) (c : Backend.call) (b b' : B) : Prop :=
  match c with
  | CallRead len off => exists p p' r, lenZ p = len /\ ReadAt be p off b = Some (p', r, b')
  | CallWrite p off => exists r, WriteAt be p off b = Some (r, b')
  | _ => False
  end.

Fixpoint called_all {B} (be : Backend B) (cs : list Backend.call) (b b' : B) : Prop :=
  match cs with
  | [] => b' = b
  | c :: cs => exists b1, called be c b b1 /\ called_all be cs b1 b'
  end.

Definition calls_of (l : list hev) : list Backend.call := call_of <$> (l ≫= ev_reqs).

Lemma calls_of_app l l' : calls_of (l ++ l') = calls_of l ++ calls_of l'.
Proof. unfold calls_of. by rewrite bind_app, fmap_app. Qed.
Lemma calls_of_snoc l o a qs : calls_of (l ++ [Ev o a qs]) = calls_of l ++ (call_of <$> qs).
Proof. rewrite calls_of_app. unfold calls_of at 2. cbn. by rewrite app_nil_r. Qed.

(** A read or write in range makes the one call it asks for. *)
Lemma serve_called {B} (be : Backend B) q x res reply x' :
  attached x -> request_ok (bd_w x) (bd_size x) q -> serve_on be q x = Some (res, reply, x') ->
  called be (call_of q) (bd_b x) (bd_b x').
Proof.
  intros [Hw Hbs Hds Hlen Hcap] Hq.
  destruct (deliver_facts q _ _ _ Hw Hq Hds Hlen) as (Hw1 & Hg & Hdep & Hbs1 & Hbuf).
  destruct Hq as [Ht Hop Hwf Hf Hl Hr Hdata].
  unfold serve_on, call_of, handleIO. rewrite Hg. cbn [mbind option_bind].
  rewrite desc_fits_off, desc_fits_len by done. fold (op_of (q_desc q)).
  rewrite <- Hbs1, <- Hdep in *.
  destruct (buffer_spec _ (q_tag q) (len_of (q_desc q)) Hw1 Ht) as (p & Ep & Hp & Hsub); [lia|].
  destruct (decide (op_of (q_desc q) = opRead)) as [Er|Er].
  - clear Hsub Hbuf. rewrite !decide_False by lia. rewrite Ep. cbn [mbind option_bind].
    destruct (ReadAt be p _ (bd_b x)) as [[[p' r] b']|] eqn:E; [|done]. cbn [mbind option_bind].
    cbn [set_pool w_bufSize w_bufPool].
    destruct (sub (q_tag q * _) _ _) as [rep|]; [|done]. cbn [mbind option_bind]. intros [= <- <- <-]. by exists p, p', r.
  - destruct Hop as [Hop|Hop]; [done|]. rewrite (decide_True (P := op_of _ = opWrite)) by done.
    rewrite !decide_False by lia. rewrite Ep. cbn [mbind option_bind].
    rewrite (Hbuf Hop) in Hsub. injection Hsub as <-.
    destruct (WriteAt be _ _ (bd_b x)) as [[r b']|] eqn:E; [|done]. cbn [mbind option_bind].
    intros [= <- <- <-]. by exists r.
Qed.

Section Served.
Context {B : Type} (be : Backend B) (data : B -> list Z) `{!MemLike be data}.

(** A device in working order whose capacity is its store. *)
Definition mem_dev (x : bdev B) : Prop := attached x /\ bd_size x = lenZ (data (bd_b x)).

(** Such a device serves a request in range as a disk does. *)
Lemma serve_mem q x :
  mem_dev x -> request_ok (bd_w x) (bd_size x) q ->
  exists res reply x', disk_exec q (data (bd_b x)) = Some (res, reply, data (bd_b x')) /\
    serve_on be q x = Some (res, reply, x') /\ mem_dev x' /\ same_shape x x' /\
    called be (call_of q) (bd_b x) (bd_b x').
Proof.
  intros [Ha Hsz] Hq. destruct Ha as [Hw Hbs Hds Hlen Hcap] eqn:Ea. clear Ea. pose proof Hq as Hq'. rewrite Hsz in Hq'.
  destruct (serve_refines q _ _ _ Hw Hds Hlen Hq') as (res & reply & w' & data' & E1 & E2 & Hw' & Hdep & Hbs' & Hl).
  assert (E3 : serve_on Mem.memBackend q (view_dev data x) =
    Some (res, reply, mk_bdev w' (<[Z.to_nat (q_tag q) := q_desc q]> (bd_ds x)) (bd_size x) data')).
  { unfold serve in E2. unfold serve_on. cbn [view_dev bd_w bd_ds bd_size bd_b].
    destruct (handleIO _ _ _ _) as [[[r0 w0] d0]|]; [|done]. cbn [mbind option_bind] in *.
    case_decide; [|by simplify_eq]. destruct (sub _ _ _); [|done]. by simplify_eq/=. }
  rewrite <- (serve_on_MemLike be data) in E3.
  destruct (serve_on be q x) as [[[res1 reply1] x']|] eqn:E4; [|done].
  cbn in E3. injection E3 as -> -> Ew Eds Esz Edata.
  exists res, reply, x'. split_and!; [by rewrite Edata|done|split|by split_and!; congruence|].
  - constructor; rewrite ?Ew, ?Eds, ?Esz, ?Hbs'; try done.
    + apply Forall_insert; [done|apply Hq].
    + by rewrite length_insert, Hdep.
  - by rewrite Esz, Edata, Hl.
  - by eapply serve_called.
Qed.

Lemma same_shape_request (x x' : bdev B) q :
  same_shape x x' -> request_ok (bd_w x) (bd_size x) q -> request_ok (bd_w x') (bd_size x') q.
Proof.
  intros (Hs & Hd & Hb) [H1 H2 H3 H4 H5 H6 H7]. constructor; try done; by rewrite ?Hd, ?Hb, ?Hs.
Qed.

Lemma serve_list_mem qs : forall x,
  mem_dev x -> Forall (request_ok (bd_w x) (bd_size x)) qs ->
  exists outs x', disk_all qs (data (bd_b x)) = Some (outs, data (bd_b x')) /\
    serve_list be qs x = Some (outs, x') /\ mem_dev x' /\ same_shape x x' /\
    called_all be (call_of <$> qs) (bd_b x) (bd_b x').
Proof.
  induction qs as [|q qs IH]; intros x Hx Hqs; [by exists [], x|].
  apply Forall_cons in Hqs as [Hq Hqs].
  destruct (serve_mem q x Hx Hq) as (res & reply & x1 & E1 & E2 & Hx1 & Hsh & Hc).
  destruct (IH x1) as (outs & x2 & E3 & E4 & Hx2 & Hsh2 & HJ2); [done| |].
  { eapply Forall_impl; [exact Hqs|]. intros q'. by apply same_shape_request. }
  exists ((res, reply) :: outs), x2. cbn [disk_all serve_list]. rewrite E1, E2. cbn [mbind option_bind].
  rewrite E3, E4. split_and!; [done..|by eapply same_shape_trans|by exists (bd_b x1)].
Qed.
End Served.

(** ** Programs *)

Record pst (H B O : Type) := mk_pst {
  p_host : H; p_dev : bdev B; p_log : list hev; p_out : list O }.
Arguments mk_pst {H B O}.
Arguments p_host {H B O}.
Arguments p_dev {H B O}.
Arguments p_log {H B O}.
Arguments p_out {H B O}.

Definition P (H B O A : Type) : Type := pst H B O -> option (A * pst H B O).

#[export] Instance P_ret {H B O} : MRet (P H B O) := fun A a s => Some (a, s).
#[export] Instance P_bind {H B O} : MBind (P H B O) := fun A C f m s =>
  match m s with Some (a, s') => f a s' | None => None end.

Section Programs.
Context {H B O : Type} `{Host H} (be : Backend B).

(** An operation of the host: its requests are served, then it returns. *)
Definition host (o : hop) : P H B O (ans o) := fun s =>
  let qs := h_requests o (p_host s) in
  '(outs, x) ← serve_list be qs (p_dev s);
  let '(a, h) := h_answer o outs (p_host s) in
  Some (a, mk_pst h x (p_log s ++ [Ev o a qs]) (p_out s)).

(** Print a value computed from the backend; computing it may panic. *)
Definition print (f : B -> option O) : P H B O () := fun s =>
  line ← f (bd_b (p_dev s));
  Some ((), mk_pst (p_host s) (p_dev s) (p_log s) (p_out s ++ [line])).

(** An assignment to a field of the backend. *)
Definition store (f : B -> B) : P H B O () := fun s =>
  Some ((), mk_pst (p_host s) (mk_bdev (bd_w (p_dev s)) (bd_ds (p_dev s)) (bd_size (p_dev s)) (f (bd_b (p_dev s))))
              (p_log s) (p_out s)).

(** [defer d()]: [d] runs when [m] has returned, whatever it returned. *)
Definition deferred {A D} (d : P H B O D) (m : P H B O A) : P H B O A := r ← m; d;; mret r.
End Programs.

(** ** Total triples *)

Section Runs.
Context {H B O : Type}.

Definition runs {A} (Pre : pst H B O -> Prop) (m : P H B O A) (Post : A -> pst H B O -> Prop) : Prop :=
  forall s, Pre s -> exists a s', m s = Some (a, s') /\ Post a s'.

Lemma runs_ret {A} (Pre : pst H B O -> Prop) (a : A) (Post : A -> pst H B O -> Prop) :
  (forall s, Pre s -> Post a s) -> runs Pre (mret a) Post.
Proof. intros Hp s Hs. exists a, s. split; [done|by apply Hp]. Qed.

Lemma runs_bind {A C} Pre (m : P H B O A) Mid (f : A -> P H B O C) Post :
  runs Pre m Mid -> (forall a, runs (Mid a) (f a) Post) -> runs Pre (m ≫= f) Post.
Proof.
  intros Hm Hf s Hs. destruct (Hm s Hs) as (a & s1 & E & H1). destruct (Hf a s1 H1) as (c & s2 & E2 & H2).
  exists c, s2. split; [|done]. unfold mbind, P_bind. by rewrite E.
Qed.

Lemma runs_conseq {A} (Pre Pre' : pst H B O -> Prop) (m : P H B O A) Post Post' :
  runs Pre' m Post' -> (forall s, Pre s -> Pre' s) -> (forall a s, Post' a s -> Post a s) -> runs Pre m Post.
Proof. intros Hm Hp Hq s Hs. destruct (Hm s (Hp s Hs)) as (a & s' & E & Ha). eauto. Qed.

Lemma runs_deferred {A D} Pre (d : P H B O D) (m : P H B O A) Mid Post :
  runs Pre m Mid -> (forall a, runs (Mid a) d (fun _ => Post a)) -> runs Pre (deferred d m) Post.
Proof.
  intros Hm Hd. eapply runs_bind; [exact Hm|]. intros a. eapply runs_bind; [apply Hd|].
  intros x. by apply runs_ret.
Qed.
End Runs.

Lemma runs_ex {H B O A X} (Pre : X -> pst H B O -> Prop) (m : P H B O A) Post :
  (forall x, runs (Pre x) m Post) -> runs (fun s => exists x, Pre x s) m Post.
Proof. intros Hm s [x Hs]. by apply (Hm x). Qed.

Section RunsHost.
Context {H B O : Type} `{Host H} (be : Backend B) (data : B -> list Z) `{!MemLike be data}.

(** A host that keeps to the limits of [x0]: whole sectors in range, at most the
    buffer's size, a tag of the queue. *)
Definition host_ok (x0 : bdev B) : Prop :=
  forall o (h : H), Forall (request_ok (bd_w x0) (bd_size x0)) (h_requests o h).

(** The state between two operations: the log and the output so far, a device
    in working order, and [J] of the log and the backend. *)
Record between (J : list hev -> B -> Prop) (x0 : bdev B) (l : list hev) (out : list O) (s : pst H B O) : Prop := {
  bt_dev : mem_dev data (p_dev s);
  bt_shape : same_shape x0 (p_dev s);
  bt_log : p_log s = l;
  bt_out : p_out s = out;
  bt_J : J l (bd_b (p_dev s)) }.

(** [J] becomes [J'] when an operation has been served. *)
Definition carries (o : hop) (J J' : list hev -> B -> Prop) : Prop :=
  forall l a qs b b', J l b -> called_all be (call_of <$> qs) b b' -> J' (l ++ [Ev o a qs]) b'.

Lemma runs_host J J' x0 l out o :
  host_ok x0 -> carries o J J' ->
  runs (between J x0 l out) (host be o) (fun a s => exists qs, between J' x0 (l ++ [Ev o a qs]) out s).
Proof.
  intros Hok HJ s [Hd Hsh Hl Ho Hj]. unfold host. set (qs := h_requests o (p_host s)).
  destruct (serve_list_mem be data qs (p_dev s)) as (outs & x' & _ & -> & Hx & Hs & Hc).
  - done.
  - eapply Forall_impl; [apply (Hok o (p_host s))|]. intros q. by apply same_shape_request.
  - cbn [mbind option_bind]. destruct (h_answer o outs (p_host s)) as [a h'].
    eexists a, _. split; [done|]. exists qs. constructor; cbn; [done| |by rewrite Hl|done|].
    + by eapply same_shape_trans.
    + by eapply HJ.
Qed.

(** A line printed, when [J] determines it. *)
Lemma runs_print J x0 l out f line :
  (forall b, J l b -> f b = Some line) ->
  runs (between J x0 l out) (print f) (fun _ => between J x0 l (out ++ [line])).
Proof.
  intros Hf s [Hd Hsh Hl Ho HJ]. unfold print. rewrite (Hf _ HJ).
  eexists (), _. split; [done|]. by constructor; cbn; rewrite ?Ho.
Qed.

Lemma runs_store (J J' : list hev -> B -> Prop) x0 l out f :
  (forall b, data (f b) = data b) -> (forall b, J l b -> J' l (f b)) ->
  runs (between J x0 l out) (store f) (fun _ => between J' x0 l out).
Proof.
  intros Hd Hf s [[[Hw Hbs Hds Hlen Hcap] Hsz] Hsh Hl Ho HJ]. eexists (), _. split; [done|].
  constructor; cbn; [|done..|by apply Hf]. split; [by constructor|]. cbn. by rewrite Hd.
Qed.
End RunsHost.

(** ** Scripts *)

(** What a program of this kind promises: a list of operations and printed
    lines, done in order up to the first error. *)
Inductive todo (O : Type) : Type :=
| Do (o : hop)
| Tell (f : list hev -> O).
Arguments Do {O} o.
Arguments Tell {O} f.

Section Scripts.
Context {E O : Type} (error_of : hev -> option E).

(** [ran steps l out r l' out']: from the log [l] and the output [out] the steps
    lead to [l'] and [out'] with the error [r], if any. *)
Inductive ran : list (todo O) -> list hev -> list O -> option E -> list hev -> list O -> Prop :=
| ran_end l out : ran [] l out None l out
| ran_fail o a qs e steps l out :
    error_of (Ev o a qs) = Some e -> ran (Do o :: steps) l out (Some e) (l ++ [Ev o a qs]) out
| ran_ok o a qs steps l out r l' out' :
    error_of (Ev o a qs) = None -> ran steps (l ++ [Ev o a qs]) out r l' out' ->
    ran (Do o :: steps) l out r l' out'
| ran_tell f steps l out r l' out' :
    ran steps l (out ++ [f l]) r l' out' -> ran (Tell f :: steps) l out r l' out'.
End Scripts.

(** A run without an error has done every operation, none of them failing. *)
Lemma ran_done {E O} (error_of : hev -> option E) (steps : list (todo O)) l out r l' out' :
  ran error_of steps l out r l' out' -> r = None ->
  l `prefix_of` l' /\
  forall o, Do o ∈ steps -> exists a qs, Ev o a qs ∈ l' /\ error_of (Ev o a qs) = None.
Proof.
  intros Hr Er. induction Hr as [| |o a qs steps l out r l' out' He Hr IH|f steps l out r l' out' Hr IH].
  - split; [done|set_solver].
  - done.
  - destruct (IH Er) as [Hp Hd]. split; [by etrans; [apply prefix_app_r|exact Hp]|]. intros o' Ho.
    apply elem_of_cons in Ho as [Ho|Ho]; [|by apply Hd]. injection Ho as ->.
    exists a, qs. split; [|done].
    eapply elem_of_prefix; [|exact Hp]. set_solver.
  - destruct (IH Er) as [Hp Hd]. split; [done|]. intros o Ho. apply Hd. set_solver.
Qed.

Section RunsScript.
Context {H B E O : Type} `{Host H} (be : Backend B) (data : B -> list Z) `{!MemLike be data}.
Context (error_of : hev -> option E).

(** The program has done these steps. *)
Definition ends (J : list hev -> B -> Prop) (x0 : bdev B) (steps : list (todo O)) (l : list hev) (out : list O)
    (r : option E) (s : pst H B O) : Prop :=
  exists l' out', ran error_of steps l out r l' out' /\ between data J x0 l' out' s.

Lemma runs_end J x0 l out :
  runs (between data J x0 l out) (mret None) (ends J x0 [] l out).
Proof. apply runs_ret. intros s Hs. exists l, out. split; [constructor|done]. Qed.

Lemma runs_do J J1 Jend x0 o steps l out (k : ans o -> P H B O (option E)) :
  host_ok (H := H) x0 -> carries be o J J1 ->
  (forall a qs e, error_of (Ev o a qs) = Some e ->
     runs (between data J1 x0 (l ++ [Ev o a qs]) out) (k a)
       (fun r s => r = Some e /\ between data Jend x0 (l ++ [Ev o a qs]) out s)) ->
  (forall a qs, error_of (Ev o a qs) = None ->
     runs (between data J1 x0 (l ++ [Ev o a qs]) out) (k a) (ends Jend x0 steps (l ++ [Ev o a qs]) out)) ->
  runs (between data J x0 l out) (host be o ≫= k) (ends Jend x0 (Do o :: steps) l out).
Proof.
  intros Hok HJ Hfail Hgo. eapply runs_bind; [by apply (runs_host be data J J1)|].
  intros a. apply runs_ex. intros qs. destruct (error_of (Ev o a qs)) as [e|] eqn:Ee.
  - eapply runs_conseq; [by apply (Hfail a qs e)|done|]. intros r s [-> Hs].
    eexists _, _. split; [by apply ran_fail|exact Hs].
  - eapply runs_conseq; [by apply (Hgo a qs)|done|]. intros r s (l' & out' & Hr & Hs).
    exists l', out'. split; [by eapply ran_ok|done].
Qed.

Lemma runs_tell J Jend x0 f g steps l out (m : P H B O (option E)) :
  (forall b, J l b -> f b = Some (g l)) ->
  runs (between data J x0 l (out ++ [g l])) m (ends Jend x0 steps l (out ++ [g l])) ->
  runs (between data J x0 l out) (print f;; m) (ends Jend x0 (Tell g :: steps) l out).
Proof.
  intros Hf Hm. eapply runs_bind; [by apply runs_print|]. intros [].
  eapply runs_conseq; [exact Hm|done|]. intros r s (l' & out' & Hr & Hs).
  exists l', out'. split; [by apply ran_tell|done].
Qed.
End RunsScript.

(** ** The whole program *)

Section Hosted.
Context {K : Type} `{HK : Kernel K} (fuel : nat) {H B E O : Type} `{Host H} (be : Backend B).

(** Create the device, run [body] on it, close it; an error of [Close] is
    printed or ignored. *)
Definition hosted (new_err : goerr -> E) (b : B) (size : Z) (body : string -> P H B O (option E)) (h : H) :
    M K (option E * list hev * list O) :=
  x ← New fuel be (Dynamic KPointer false b) size [];
  match x with
  | Err e => mret (Some (new_err (Wrap "ublk.New" e)), [], [])
  | Ok (d, b) =>
    x ← must (bdev_of size d b);
    '(r, s) ← must (body (Path d) (mk_pst h x [] []));
    Device.Close fuel be d (bd_b (p_dev s));;
    mret (r, p_log s, p_out s)
  end.

Lemma hosted_balanced `{!KernelLaws K} new_err b size body h F G :
  is_u 64 size -> returns (own F G) (hosted new_err b size body h) (fun _ => own F G).
Proof.
  intros Hs. unfold hosted. eapply returns_bind; [by apply returns_New|].
  intros [[d b']|e]; [|by apply returns_ret]. apply returns_pure. intros _.
  apply returns_must. intros x _. apply returns_must. intros [r s] _. apply returns_Close_ret.
Qed.
End Hosted.

(** ** A host for examples *)

(** Every operation succeeds; commands write sector 1 of the device, waiting
    reads it, files read as [file], and the clock counts up. *)
Definition sample_requests_of (o : hop) : list request :=
  match o with
  | Run _ _ => [mk_request 0 (mk_ioDesc opWrite 1 1 0) (replicate 512 7)]
  | AwaitSignal => [mk_request 0 (mk_ioDesc opRead 1 1 0) []]
  | _ => []
  end.

Definition sample_host (file : list Z) : Host Z := {|
  h_requests o _ := sample_requests_of o;
  h_answer o _ h :=
    (match o return ans o with
     | MkdirTemp _ _ => Ok "/tmp/d"
     | ReadFile _ => Ok file
     | Create _ => Ok 3
     | Sleep _ | AwaitSignal => ()
     | Since => h
     | Run _ _ | Remove _ | WriteFile _ _ _ | FWrite _ _ | FSync _ | FClose _ => None
     end, h + 1) |}.

Lemma sample_host_ok {B} file (b : B) :
  @host_ok Z B (sample_host file) (mk_bdev (sample_worker zero_desc) [zero_desc] 1024 b).
Proof.
  intros o h. destruct o; cbn; repeat constructor; vm_compute; first [done|lia|naive_solver].
Qed.
