(* ===== verification/Demos.v ===== *)
(** * The programs [example/main.go] and [example/fsdemo]

    [Main] creates a device over the in-memory backend, waits for a signal and
    closes it.  [FsDemo] makes a file system on its device, mounts it, writes a
    file, reads it back from the disk and lets the user play, printing the
    backend's counters between the phases.

    The theorem on [fsdemo]: it follows its script up to the first error and
    then undoes what it did, in reverse order; every line of statistics counts
    exactly the requests served until then, and the calls it prints one by one
    are those of the interactive phase. *)

From S2P Require Import Prelude GoLayout Types Uring Config Backend Worker Kernel Sim RingOps WorkerRun.
From S2P Require Import Device DiskLike ExBackends Programs Host.

(** ** [example/main.go] *)
Module Main.

Definition size : Z := 256 * 1024 * 1024.

Lemma size_u64 : is_u 64 size.
Proof. unfold size. split; lia. Qed.

Section Main.
Context {K : Type} `{Kernel K} (fuel : nat).

(** The exit status. *)
Definition main : M K Z :=
  x ← New fuel Mem.memBackend (Dynamic KPointer false (zeros (Z.to_nat size))) size [];
  match x with
  | Err _ => mret 1
  | Ok (d, b) =>
    modify k_sleep;;
    '(_, _, err) ← Device.Close fuel Mem.memBackend d b;
    mret (match err with Some _ => 1 | None => 0 end)
  end.

Lemma main_balanced `{!KernelLaws K} F G : triple (own F G) main (fun _ => own F G).
Proof.
  unfold main. eapply triple_bind; [by apply triple_New_live, size_u64|].
  intros [[d b]|e]; [|by apply triple_ret]. apply triple_pure. intros _.
  eapply (triple_bind _ _ (fun _ => live_dev F G d)); [by intros [k tr]|]. intros [].
  eapply triple_bind; [by apply triple_Close_dev|]. intros [[d' b'] err]. apply triple_pure. intros _. by apply triple_ret.
Qed.
End Main.
End Main.

(** ** [example/fsdemo] *)
Module FsDemo.

Definition devSize : Z := 64 * 1024 * 1024.

Inductive fs_err : Type :=
| DeviceErr (e : goerr)
| Wrapped (what : string) (e : herr)
| Bare (e : herr)
| Mismatch (want got : Z).

Definition codes (s : string) : list Z := (fun c => Z.of_N (Ascii.N_of_ascii c)) <$> String.list_ascii_of_string s.

(** [bytes.Repeat([]byte("hello from ublk-backed ext4\n"), 100)] *)
Definition content : list Z :=
  concat (replicate 100 (codes ("hello from ublk-backed ext4" +:+ String (Ascii.ascii_of_nat 10) ""))).

Definition drop_caches : string := "/proc/sys/vm/drop_caches".
(** [0o644] *)
Definition perm : Z := 420.
Definition pattern : string := "ublk-fsdemo-*".
Definition fpath (mountpoint : string) : string := mountpoint +:+ "/greeting.txt".

(** What is printed: a phase and the four numbers of [stats]. *)
Definition line : Type := string * (Z * Z * Z * Z).

Import Logging (loggingBackend, mk_loggingBackend).

Definition newBackend : loggingBackend := mk_loggingBackend (zeros (Z.to_nat devSize)) 0 0 0 0 false [].

Definition set_verbose (v : bool) (b : loggingBackend) : loggingBackend :=
  mk_loggingBackend (Logging.data b) (Logging.reads b) (Logging.writes b) (Logging.readBytes b)
    (Logging.writeBytes b) v (Logging.printed b).

Section FsDemo.
Context {H : Type} `{Host H}.

Abbreviation Prog := (P H loggingBackend line).
Abbreviation host := (Host.host (O := line) Logging.backend).

Definition shell (name : string) (args : list string) : Prog (option herr) := host (Run name args).
Definition stats (phase : string) : Prog () := print (fun b => Some (phase, Logging.stats b)).

(** [run] from the file on: the device is mounted. *)
Definition mounted (mountpoint : string) : Prog (option fs_err) :=
  stats "after mount";;
  err ← host (WriteFile (fpath mountpoint) content perm);
  match err with
  | Some e => mret (Some (Wrapped "write" e))
  | None =>
    err ← shell "sync" ["-f"; mountpoint];
    match err with
    | Some e => mret (Some (Wrapped "sync" e))
    | None =>
      stats "after write + sync";;
      host (WriteFile drop_caches (codes "3") 0);;
      x ← host (ReadFile (fpath mountpoint));
      match x with
      | Err e => mret (Some (Wrapped "read" e))
      | Ok got =>
        if decide (got = content) then
          stats "after drop_caches + read";;
          store (set_verbose true);;
          host AwaitSignal;;
          store (set_verbose false);;
          stats "final";;
          mret None
        else mret (Some (Mismatch (lenZ content) (lenZ got)))
      end
    end
  end.

(** [run] between [New] and the deferred [Close]. *)
Definition body (path : string) : Prog (option fs_err) :=
  stats "idle";;
  err ← shell "mkfs.ext4" ["-q"; "-F"; path];
  match err with
  | Some e => mret (Some (Wrapped "mkfs.ext4" e))
  | None =>
    stats "after mkfs.ext4";;
    x ← host (MkdirTemp "" pattern);
    match x with
    | Err e => mret (Some (Bare e))
    | Ok mountpoint =>
      deferred (host (Remove mountpoint))
        (err ← shell "mount" [path; mountpoint];
         match err with
         | Some e => mret (Some (Wrapped "mount" e))
         | None => deferred (shell "umount" [mountpoint]) (mounted mountpoint)
         end)
    end
  end.

Context {K : Type} `{HK : Kernel K} (fuel : nat).

Definition run (h : H) : M K (option fs_err * list hev * list line) :=
  hosted fuel Logging.backend DeviceErr newBackend devSize body h.
End FsDemo.

(** ** What [fsdemo] promises *)

(** The numbers of [stats] after the calls [cs]. *)
Definition stats_of (cs : list Backend.call) : Z * Z * Z * Z :=
  (i64 (total rd cs), Z.quot (i64 (total rd_len cs)) 1024, i64 (total wr cs), Z.quot (i64 (total wr_len cs)) 1024).

(** The error an operation's result makes [run] return; those of [drop_caches]
    are printed, those of [umount] too. *)
Definition error_of (e : hev) : option fs_err :=
  let 'Ev o a _ := e in
  match o return ans o -> option fs_err with
  | Run name _ => fun a => Wrapped name <$> a
  | MkdirTemp _ _ => fun a => match a with Err e => Some (Bare e) | Ok _ => None end
  | WriteFile path _ _ => fun a => if decide (path = drop_caches) then None else Wrapped "write" <$> a
  | ReadFile _ => fun a =>
      match a with
      | Err e => Some (Wrapped "read" e)
      | Ok got => if decide (got = content) then None else Some (Mismatch (lenZ content) (lenZ got))
      end
  | _ => fun _ => None
  end a.

Definition tell (phase : string) : todo line := Tell (fun l => (phase, stats_of (calls_of l))).
Definition make (path : string) : list (todo line) :=
  [tell "idle"; Do (Run "mkfs.ext4" ["-q"; "-F"; path]); tell "after mkfs.ext4"; Do (MkdirTemp "" pattern)].
Definition use (mp : string) : list (todo line) :=
  [tell "after mount"; Do (WriteFile (fpath mp) content perm); Do (Run "sync" ["-f"; mp]);
   tell "after write + sync"; Do (WriteFile drop_caches (codes "3") 0); Do (ReadFile (fpath mp));
   tell "after drop_caches + read"; Do AwaitSignal; tell "final"].

(** From the directory on: it is removed at the end, and the file system is
    unmounted before that if it was mounted. *)
Definition in_dir (path mp : string) (l : list hev) (out : list line)
    (r : option fs_err) (l' : list hev) (out' : list line) : Prop :=
  exists r2 l2, ran error_of [Do (Run "mount" [path; mp])] l out r2 l2 out /\
  match r2 with
  | Some _ => (r, out') = (r2, out) /\ exists a qs, l' = l2 ++ [Ev (Remove mp) a qs]
  | None => exists l3 a1 qs1 a2 qs2, ran error_of (use mp) l2 out r l3 out' /\
      l' = l3 ++ [Ev (Run "umount" [mp]) a1 qs1] ++ [Ev (Remove mp) a2 qs2]
  end.

(** The script, with what is undone on each way out. *)
Definition promised (path : string) (r : option fs_err) (l : list hev) (out : list line) : Prop :=
  exists r1 l1 out1, ran error_of (make path) [] [] r1 l1 out1 /\
  match r1 with
  | Some _ => (r, l, out) = (r1, l1, out1)
  | None => exists mp qs, last l1 = Some (Ev (MkdirTemp "" pattern) (Ok mp) qs) /\ in_dir path mp l1 out1 r l out
  end.

(** The operations during which calls are printed. *)
Definition waits (l : list hev) : list hev := filter (fun e => ev_op e = AwaitSignal) l.

Definition counted (cs : list Backend.call) (b : loggingBackend) : Prop :=
  Logging.reads b = i64 (total rd cs) /\ Logging.readBytes b = i64 (total rd_len cs) /\
  Logging.writes b = i64 (total wr cs) /\ Logging.writeBytes b = i64 (total wr_len cs).

Lemma total_snoc g cs c : total g (cs ++ [c]) = total g cs + g c.
Proof. induction cs as [|c' cs IH]; cbn; [lia|]. unfold total in IH. rewrite IH. lia. Qed.

Lemma called_counted cs c b b' :
  counted cs b -> called Logging.backend c b b' ->
  counted (cs ++ [c]) b' /\ Logging.verbose b' = Logging.verbose b /\
  Logging.printed b' = Logging.printed b ++ (if Logging.verbose b then [event_of c] else []).
Proof.
  unfold counted. rewrite !total_snoc. generalize (total rd cs) (total rd_len cs) (total wr cs) (total wr_len cs).
  intros t1 t2 t3 t4 (H1 & H2 & H3 & H4) Hc.
  destruct c as [len off|p off| |]; [| |done..].
  - destruct Hc as (p & p' & r & Hp & E). cbn in E. unfold Logging.ReadAt, read_slice in E.
    destruct (sub _ _ _); [|done]. cbn -[i64] in E. injection E as _ _ <-. cbn -[i64 Z.to_nat].
    unfold Logging.print, rd, rd_len, wr, wr_len, call_len. cbn [is_read is_write]. rewrite H1, H2, H3, H4, Hp.
    split_and!; [goint|goint|goint|goint|done|]. destruct (Logging.verbose b); [|by rewrite app_nil_r]. by rewrite Z2Nat.id by lia.
  - destruct Hc as (r & E). cbn in E. unfold Logging.WriteAt, write_slice in E.
    destruct (sub _ _ _); [|done]. cbn -[i64] in E. injection E as _ <-. cbn -[i64 Z.to_nat].
    unfold Logging.print, rd, rd_len, wr, wr_len, call_len. cbn [is_read is_write]. rewrite H1, H2, H3, H4.
    split_and!; [goint|goint|goint|goint|done|]. destruct (Logging.verbose b); [done|by rewrite app_nil_r].
Qed.

Lemma called_all_counted cs' : forall cs b b',
  counted cs b -> called_all Logging.backend cs' b b' ->
  counted (cs ++ cs') b' /\ Logging.verbose b' = Logging.verbose b /\
  Logging.printed b' = Logging.printed b ++ (if Logging.verbose b then event_of <$> cs' else []).
Proof.
  induction cs' as [|c cs' IH]; intros cs b b' Hb.
  - intros ->. rewrite !app_nil_r. destruct (Logging.verbose b); by rewrite app_nil_r.
  - intros (b1 & Hc & Hcs). destruct (called_counted cs c b b1 Hb Hc) as (H1 & Hv & Hp).
    destruct (IH _ _ _ H1 Hcs) as (H2 & Hv2 & Hp2). rewrite <- app_assoc in H2.
    split_and!; [done|congruence|]. rewrite Hp2, Hp, Hv. destruct (Logging.verbose b); cbn; by rewrite <- app_assoc.
Qed.

(** The invariant of [fsdemo]. *)
Definition fs_inv (v : bool) (l : list hev) (b : loggingBackend) : Prop :=
  counted (calls_of l) b /\ Logging.verbose b = v /\ Logging.printed b = event_of <$> calls_of (waits l).

Lemma fs_carries o v :
  (v = true <-> o = AwaitSignal) -> carries Logging.backend o (fs_inv v) (fs_inv v).
Proof.
  intros Hv l a qs b b' (Hc & Hb & Hp) Hcs. destruct (called_all_counted _ _ _ _ Hc Hcs) as (H1 & H2 & H3).
  unfold fs_inv. rewrite calls_of_snoc. split_and!; [done|congruence|].
  unfold waits in *. rewrite filter_app, calls_of_app, fmap_app, H3, Hp, Hb. f_equal.
  destruct v.
  - rewrite filter_cons_True by (by apply Hv). unfold calls_of. cbn. by rewrite app_nil_r.
  - rewrite filter_cons_False by (cbn; intros Ho; by apply Hv in Ho). done.
Qed.

Lemma fs_verbose v v' l b : fs_inv v l b -> fs_inv v' l (set_verbose v' b).
Proof. intros ((H1 & H2 & H3 & H4) & Hv & Hp). by split_and!. Qed.

Lemma fs_stats v phase l b :
  fs_inv v l b -> (Some (phase, Logging.stats b) : option line) = Some (phase, stats_of (calls_of l)).
Proof. intros ((H1 & H2 & H3 & H4) & _). unfold Logging.stats, stats_of. by rewrite H1, H2, H3, H4. Qed.

Lemma codes_app s t : codes (s +:+ t) = codes s ++ codes t.
Proof. induction s as [|c s IH]; [done|]. exact (f_equal (cons _) IH). Qed.

Lemma fpath_not_proc mp : fpath mp <> drop_caches.
Proof.
  intros E%(f_equal codes). unfold fpath in E. rewrite codes_app in E.
  change (codes drop_caches) with (codes "/proc/sys/v" ++ codes "m/drop_caches") in E.
  by apply app_inj_2 in E as [_ E].
Qed.

Section Follows.
Context {H : Type} `{Host H} (x0 : bdev loggingBackend) (Hok : host_ok (H := H) x0).

Abbreviation state := (between (H := H) (O := line) Logging.data).
Abbreviation ended := (ends (H := H) Logging.data error_of (fs_inv false) x0).

(** One operation outside the interactive phase. *)
Lemma runs_quiet o steps l out (k : ans o -> P H loggingBackend line (option fs_err)) :
  o <> AwaitSignal ->
  (forall a qs e, error_of (Ev o a qs) = Some e -> k a = mret (Some e)) ->
  (forall a qs, error_of (Ev o a qs) = None ->
     runs (state (fs_inv false) x0 (l ++ [Ev o a qs]) out) (k a) (ended steps (l ++ [Ev o a qs]) out)) ->
  runs (state (fs_inv false) x0 l out) (Host.host Logging.backend o ≫= k) (ended (Do o :: steps) l out).
Proof.
  intros Ho Hfail Hgo. apply (runs_do _ _ _ _ (fs_inv false)); [done|by apply fs_carries; split| |exact Hgo].
  intros a qs e He. rewrite (Hfail a qs e He). by apply runs_ret.
Qed.

Lemma runs_stats phase steps l out (m : P H loggingBackend line (option fs_err)) :
  (forall out, runs (state (fs_inv false) x0 l out) m (ended steps l out)) ->
  runs (state (fs_inv false) x0 l out) (stats phase;; m) (ended (tell phase :: steps) l out).
Proof. intros Hm. apply runs_tell; [intros b; apply fs_stats|apply Hm]. Qed.

(** The interactive phase. *)
Definition interactive : P H loggingBackend line (option fs_err) :=
  store (set_verbose true);;
  Host.host Logging.backend AwaitSignal;;
  store (set_verbose false);;
  stats "final";;
  mret None.

Lemma runs_verbose v v' l out (m : P H loggingBackend line (option fs_err)) Post :
  runs (state (fs_inv v') x0 l out) m Post ->
  runs (state (fs_inv v) x0 l out) (store (set_verbose v');; m) Post.
Proof.
  intros Hm. eapply runs_bind; [apply (runs_store Logging.data (fs_inv v) (fs_inv v'))|].
  - done.
  - intros b. apply fs_verbose.
  - intros []. exact Hm.
Qed.

Lemma interactive_spec l out :
  runs (state (fs_inv false) x0 l out) interactive (ended [Do AwaitSignal; tell "final"] l out).
Proof.
  apply (runs_verbose false true).
  apply (runs_do _ _ _ (fs_inv true) (fs_inv true) (fs_inv false) x0 AwaitSignal).
  - done.
  - by apply fs_carries.
  - done.
  - intros a qs _. apply (runs_verbose true false). apply runs_stats. intros out'. apply runs_end.
Qed.

Lemma mounted_spec mp l out :
  runs (state (fs_inv false) x0 l out) (mounted mp) (ended (use mp) l out).
Proof.
  pose proof (fpath_not_proc mp) as Hf. apply runs_stats. intros out1.
  refine (runs_quiet (WriteFile (fpath mp) content perm) _ _ _ _ _ _ _); [done|..].
  { intros [e|] qs e'; cbn [error_of]; rewrite decide_False by done; [by intros [= <-]|done]. }
  intros [e|] qs; cbn [error_of]; rewrite decide_False by done; [done|intros _].
  refine (runs_quiet (Run "sync" ["-f"; mp]) _ _ _ _ _ _ _); [done|by intros [e|] qs1 e' [= <-]|].
  intros [e|] qs1; [done|intros _]. apply runs_stats. intros out2.
  refine (runs_quiet (WriteFile drop_caches (codes "3") 0) _ _ _ _ _ _ _); [done|by intros|].
  intros a2 qs2 _. refine (runs_quiet (ReadFile (fpath mp)) _ _ _ _ _ _ _); [done|..].
  { intros [got|e] qs3 e'; cbn [error_of]; [destruct (decide (got = content)); [done|]|]; by intros [= <-]. }
  intros [got|e] qs3; cbn [error_of]; [destruct (decide (got = content)); [intros _|done]|done].
  apply runs_stats. intros out3. apply interactive_spec.
Qed.

Lemma quiet_host l out o :
  o <> AwaitSignal ->
  runs (state (fs_inv false) x0 l out) (Host.host Logging.backend o)
    (fun a s => exists qs, state (fs_inv false) x0 (l ++ [Ev o a qs]) out s).
Proof. intros Ho. apply runs_host; [apply _|done|by apply fs_carries; split]. Qed.

Lemma in_dir_spec path mp l out :
  runs (state (fs_inv false) x0 l out)
    (deferred (Host.host Logging.backend (Remove mp))
       (err ← shell "mount" [path; mp];
        match err with
        | Some e => mret (Some (Wrapped "mount" e))
        | None => deferred (shell "umount" [mp]) (mounted mp)
        end))
    (fun r s => exists l' out', in_dir path mp l out r l' out' /\ state (fs_inv false) x0 l' out' s).
Proof.
  eapply runs_deferred with (Mid := fun r s => exists l1 out1,
    (forall a qs, in_dir path mp l out r (l1 ++ [Ev (Remove mp) a qs]) out1) /\ state (fs_inv false) x0 l1 out1 s).
  - eapply runs_bind; [by apply (quiet_host _ _ (Run "mount" [path; mp]))|]. intros [e|]; apply runs_ex; intros qs.
    + apply runs_ret. intros s Hs. eexists _, _. split; [|exact Hs]. intros a qs'.
      exists (Some (Wrapped "mount" e)), (l ++ [Ev (Run "mount" [path; mp]) (Some e) qs]).
      split; [by apply ran_fail|]. split; [done|by exists a, qs'].
    + eapply runs_deferred; [apply mounted_spec|]. intros r.
      apply runs_ex. intros l3. apply runs_ex. intros out3. intros s [Hr Hs].
      destruct (quiet_host l3 out3 (Run "umount" [mp]) ltac:(done) s Hs) as (a1 & s1 & E1 & qs1 & Hs1).
      exists a1, s1. split; [exact E1|]. eexists _, _. split; [|exact Hs1]. intros a2 qs2.
      exists None, (l ++ [Ev (Run "mount" [path; mp]) None qs]).
      split; [by eapply ran_ok; [|constructor]|]. exists l3, a1, qs1, a2, qs2. split; [done|].
      by rewrite <- app_assoc.
  - intros r. apply runs_ex. intros l1. apply runs_ex. intros out1. intros s [Hr Hs].
    destruct (quiet_host l1 out1 (Remove mp) ltac:(done) s Hs) as (a & s1 & E1 & qs & Hs1).
    exists a, s1. split; [exact E1|]. eexists _, _. by split.
Qed.

Lemma body_spec path :
  runs (state (fs_inv false) x0 [] []) (body path)
    (fun r s => exists l out, promised path r l out /\ state (fs_inv false) x0 l out s).
Proof.
  eapply runs_bind; [apply runs_print; intros b; apply (fs_stats false "idle")|]. intros [].
  eapply runs_bind; [by apply (quiet_host _ _ (Run "mkfs.ext4" ["-q"; "-F"; path]))|]. intros [e|]; apply runs_ex; intros qs.
  { apply runs_ret. intros s Hs. eexists _, _. split; [|exact Hs].
    eexists (Some _), _, _. split; [|reflexivity]. by apply ran_tell, ran_fail. }
  eapply runs_bind; [apply runs_print; intros b; apply (fs_stats false "after mkfs.ext4")|]. intros [].
  eapply runs_bind; [by apply (quiet_host _ _ (MkdirTemp "" pattern))|]. intros [mp|e]; apply runs_ex; intros qs2.
  2:{ apply runs_ret. intros s Hs. eexists _, _. split; [|exact Hs].
      eexists (Some _), _, _. split; [|reflexivity].
      by apply ran_tell; eapply ran_ok; [|by apply ran_tell, ran_fail]. }
  eapply runs_conseq; [apply in_dir_spec|done|]. intros r s (l & out & Hd & Hs).
  exists l, out. split; [|done]. exists None. eexists _, _. split; [|exists mp, qs2; split; [|exact Hd]; done].
  by apply ran_tell; eapply ran_ok; [|apply ran_tell; eapply ran_ok; [|constructor]].
Qed.
End Follows.

(** A run that returns [nil] has read the file back. *)
Lemma promised_reads_back path l out :
  promised path None l out -> exists mp qs, Ev (ReadFile (fpath mp)) (Ok content) qs ∈ l.
Proof.
  intros ([e|] & l1 & out1 & _ & Hd); [done|]. destruct Hd as (mp & qs & _ & [e|] & l2 & _ & Hd).
  { by destruct Hd. }
  destruct Hd as (l3 & a1 & qs1 & a2 & qs2 & Hr & ->). destruct (ran_done _ _ _ _ _ _ _ Hr eq_refl) as [_ Hd].
  destruct (Hd (ReadFile (fpath mp))) as (a & qs3 & Hin & He); [by do 5 right; left|].
  exists mp, qs3. apply elem_of_app. left. cbn [error_of] in He. destruct a as [got|e]; [|done].
  destruct (decide (got = content)) as [->|]; [exact Hin|done].
Qed.

(** C27: [fsdemo] keeps its promises.  On a fresh device whose requests stay in
    range, whatever the commands and system calls answer, [run] returns; it has
    performed exactly its script up to the first operation that failed, with
    that operation's error as its result (a failing [drop_caches] or [umount]
    changes nothing), and then undone what it did: the file system is unmounted
    if and only if it was mounted, and before the directory is removed, which is
    removed if and only if it was made.  Every line of statistics shows exactly
    the number of reads and writes and the KiB of the requests served until
    then; the calls printed one by one are those of the interactive phase, in
    order; and success means that the file was read back as written. *)
Theorem fsdemo_follows_script {H} `{Host H} path (x : bdev loggingBackend) (h : H) d :
  mem_dev Logging.data x -> host_ok (H := H) x -> bd_b x = mk_loggingBackend d 0 0 0 0 false [] ->
  exists r s, body path (mk_pst h x [] []) = Some (r, s) /\
    promised path r (p_log s) (p_out s) /\
    Logging.printed (bd_b (p_dev s)) = event_of <$> calls_of (waits (p_log s)) /\
    (r = None -> exists mp qs, Ev (ReadFile (fpath mp)) (Ok content) qs ∈ p_log s).
Proof.
  intros Hx Hok Hb. destruct (body_spec x Hok path (mk_pst h x [] [])) as (r & s & E & l & out & Hp & Hs).
  { constructor; cbn; [done|by split_and!|done..|]. rewrite Hb. unfold fs_inv, counted. split_and!; reflexivity. }
  destruct Hs as [_ _ Hl Ho (_ & _ & HJ)]. exists r, s. rewrite Hl, Ho. split_and!; [done..|].
  intros ->. by eapply promised_reads_back.
Qed.

(** A device of two sectors. *)
Definition small_dev : bdev loggingBackend :=
  mk_bdev (sample_worker zero_desc) [zero_desc] 1024 (mk_loggingBackend (zeros 1024) 0 0 0 0 false []).

Lemma small_run :
  match @body Z (sample_host content) "/dev/ublkb0" (mk_pst 0 small_dev [] []) with
  | Some (None, s) => last (p_out s) = Some ("final", (1, 0, 3, 1)) /\
      Logging.printed (bd_b (p_dev s)) = [("R", 512, 512)]
  | _ => False
  end.
Proof. vm_compute. split; reflexivity. Qed.

Lemma fsdemo_follows_script_witness :
  exists s, @body Z (sample_host content) "/dev/ublkb0" (mk_pst 0 small_dev [] []) = Some (None, s) /\
    promised "/dev/ublkb0" None (p_log s) (p_out s) /\
    last (p_out s) = Some ("final", (1, 0, 3, 1)) /\
    Logging.printed (bd_b (p_dev s)) = [("R", 512, 512)].
Proof.
  destruct (@fsdemo_follows_script Z (sample_host content) "/dev/ublkb0" small_dev 0 (zeros 1024)) as (r & s & E & Hp & _).
  - split; [apply sample_attached; lia|reflexivity].
  - apply sample_host_ok.
  - reflexivity.
  - pose proof small_run as Er. rewrite E in Er. destruct r as [e|]; [destruct Er|]. destruct Er as [E1 E2].
    exists s. exact (conj E (conj Hp (conj E1 E2))).
Defined.
End FsDemo.
