(* ===== verification/FlushBench.v ===== *)
(** * The program [example/flushbench]

    Five experiments on a file system on the device: each takes the time, does
    something to files, measures how long that took, and prints the backend
    calls traced since.  The clock is the operation [Since] of the host, and the
    stamps of the trace the function [since] of the backend; that both are one
    strictly increasing clock is the hypothesis [one_clock].

    The theorem: [run] returns [nil] exactly when the file system could be
    mounted, whatever the experiments do, undoes what it did, and prints one
    report per experiment, about exactly the requests served during it. *)

From S2P Require Import Prelude GoLayout Types Uring Config Backend Worker Kernel Sim RingOps WorkerRun.
From S2P Require Import Device DiskLike ExBackends Programs Host FlushRun.

Import Tracing (tracingBackend, mk_tracingBackend, event, ev, tr).

Definition devSize : Z := 64 * 1024 * 1024.
Definition KiB : Z := 1024.

Inductive bench_err : Type :=
| DeviceErr (e : goerr)
| Bare (e : herr).

(** What is printed: the time of a step and its error, or a report. *)
Inductive bench_line : Type :=
| Measured (name : string) (err : option herr) (dur : Z)
| Reported (rep : report).

(** [bytes.Repeat] of one letter. *)
Definition repeat_byte (c n : Z) : list Z := replicate (Z.to_nat n) c.

Definition pattern : string := "ublk-flushbench-*".
Definition drop_caches : string := "/proc/sys/vm/drop_caches".
(** [0o644] *)
Definition perm : Z := 420.
Definition newBackend : tracingBackend :=
  mk_tracingBackend (zeros (Z.to_nat devSize)) (Tracing.mk_trace []) 0 0.

Section Bench.
Context {H : Type} `{Host H} (since : nat -> Z).

Abbreviation Prog := (P H tracingBackend bench_line).
Abbreviation host := (Host.host (H := H) (O := bench_line) (Tracing.backend since)).

Definition shell (name : string) (args : list string) : Prog (option herr) := host (Run name args).

Definition measure (name : string) (fn : Prog (option herr)) : Prog () :=
  start ← host Since;
  err ← fn;
  stop ← host Since;
  print (fun _ => Some (Measured name err (trunc_us (i64 (stop - start))))).

(** [tr.printSince(mark)] *)
Definition print_since (mark : Z) : Prog () := print (fun b => Reported <$> printSince mark (tr b)).

(** [f] and, unless it fails, [g]. *)
Definition and_then (f g : Prog (option herr)) : Prog (option herr) :=
  err ← f; match err with Some e => mret (Some e) | None => g end.

(** The functions measured. *)
Definition write_fsync (mp : string) : Prog (option herr) :=
  x ← host (Create (mp +:+ "/a.bin"));
  match x with
  | Err e => mret (Some e)
  | Ok f =>
    deferred (host (FClose f))
      (and_then (host (FWrite f (repeat_byte 65 (512 * KiB)))) (host (FSync f)))
  end.
Definition write_b (mp : string) : Prog (option herr) :=
  host (WriteFile (mp +:+ "/b.bin") (repeat_byte 66 (2 * KiB * KiB)) perm).
Definition sleep_6s : Prog (option herr) := host (Sleep 6000000000);; mret None.
Definition write_sync (mp : string) : Prog (option herr) :=
  and_then (host (WriteFile (mp +:+ "/c.bin") (repeat_byte 67 (2 * KiB * KiB)) perm)) (shell "sync" ["-f"; mp]).
Definition write_drop (mp : string) : Prog (option herr) :=
  and_then (host (WriteFile (mp +:+ "/d.bin") (repeat_byte 68 (2 * KiB * KiB)) perm))
    (host (WriteFile drop_caches [51] 0)).
Definition sync_drop (mp : string) : Prog (option herr) :=
  and_then (shell "sync" ["-f"; mp]) (host (WriteFile drop_caches [51] 0)).

Fixpoint measure_all (steps : list (string * Prog (option herr))) : Prog () :=
  match steps with
  | [] => mret ()
  | (name, fn) :: steps => measure name fn;; measure_all steps
  end.

(** [mark := time.Since(tr.t0)], the measured steps, [tr.printSince(mark)]. *)
Definition experiment (steps : list (string * Prog (option herr))) : Prog () :=
  mark ← host Since;
  measure_all steps;;
  print_since mark.

Definition experiments (mp : string) : list (list (string * Prog (option herr))) :=
  [[("write(512KiB) + fsync", write_fsync mp)];
   [("write(2MiB)", write_b mp); ("sleep 6s, observe async writeback", sleep_6s)];
   [("write(2MiB) + sync -f", write_sync mp)];
   [("write(2MiB) + drop_caches=3", write_drop mp)];
   [("sync -f; drop_caches=3", sync_drop mp)]].

Fixpoint run_experiments (es : list (list (string * Prog (option herr)))) : Prog (option bench_err) :=
  match es with
  | [] => mret None
  | e :: es => experiment e;; run_experiments es
  end.

(** [run] between [New] and the deferred [Close]. *)
Definition body (path : string) : Prog (option bench_err) :=
  err ← shell "mkfs.ext4" ["-q"; "-F"; path];
  match err with
  | Some e => mret (Some (Bare e))
  | None =>
    x ← host (MkdirTemp "" pattern);
    match x with
    | Err e => mret (Some (Bare e))
    | Ok mp =>
      deferred (host (Remove mp))
        (err ← shell "mount" [path; mp];
         match err with
         | Some e => mret (Some (Bare e))
         | None => deferred (shell "umount" [mp]) (run_experiments (experiments mp))
         end)
    end
  end.

Context {K : Type} `{HK : Kernel K} (fuel : nat).

Definition run (h : H) : M K (option bench_err * list hev * list bench_line) :=
  hosted fuel (Tracing.backend since) DeviceErr newBackend devSize body h.
End Bench.

(** ** What [flushbench] promises *)

Section Promise.
Context (since : nat -> Z).

Definition error_of (e : hev) : option bench_err :=
  let 'Ev o a _ := e in
  match o return ans o -> option bench_err with
  | Run _ _ => fun a => Bare <$> a
  | MkdirTemp _ _ => fun a => match a with Err e => Some (Bare e) | Ok _ => None end
  | _ => fun _ => None
  end a.

Definition is_measured (name : string) (line : bench_line) : Prop :=
  exists err dur, line = Measured name err dur.

(** The experiments, one after the other: a mark, operations, one line for each
    measured step, and a report.  [R] relates the mark, all events so far, the
    events of the experiment and the report. *)
Fixpoint tried (R : Z -> list event -> list event -> report -> Prop) (names : list (list string))
    (l : list hev) (out : list bench_line) (l' : list hev) (out' : list bench_line) : Prop :=
  match names with
  | [] => l' = l /\ out' = out
  | ns :: names => exists mark qs es lines rep,
      let l1 := (l ++ [Ev Since mark qs]) ++ es in
      Forall2 is_measured ns lines /\
      R mark (stamped since 0 (calls_of l1))
        (stamped since (length (calls_of (l ++ [Ev Since mark qs]))) (calls_of es)) rep /\
      tried R names l1 (out ++ lines ++ [Reported rep]) l' out'
  end.

Definition names : list (list string) :=
  [["write(512KiB) + fsync"]; ["write(2MiB)"; "sleep 6s, observe async writeback"];
   ["write(2MiB) + sync -f"]; ["write(2MiB) + drop_caches=3"]; ["sync -f; drop_caches=3"]].

Definition in_dir R (path mp : string) (l : list hev) (r : option bench_err) (l' : list hev)
    (out' : list bench_line) : Prop :=
  exists r2 l2, ran error_of [Do (Run "mount" [path; mp])] l [] r2 l2 (@nil bench_line) /\ r = r2 /\
  match r2 with
  | Some _ => out' = [] /\ exists a qs, l' = l2 ++ [Ev (Remove mp) a qs]
  | None => exists l3 a1 qs1 a2 qs2, tried R names l2 [] l3 out' /\
      l' = l3 ++ [Ev (Run "umount" [mp]) a1 qs1] ++ [Ev (Remove mp) a2 qs2]
  end.

Definition promised R (path : string) (r : option bench_err) (l : list hev) (out : list bench_line) : Prop :=
  exists r1 l1, ran error_of [Do (Run "mkfs.ext4" ["-q"; "-F"; path]); Do (MkdirTemp "" pattern)]
    [] [] r1 l1 (@nil bench_line) /\
  match r1 with
  | Some _ => (r, l, out) = (r1, l1, [])
  | None => exists mp qs, last l1 = Some (Ev (MkdirTemp "" pattern) (Ok mp) qs) /\ in_dir R path mp l1 r l out
  end.

(** The clock of the program and the stamps of the trace agree: what was traced
    before the clock was read has an earlier stamp, what was traced after it a
    later one. *)
Definition one_clock (l : list hev) : Prop :=
  forall l1 t qs l2, l = (l1 ++ [Ev Since t qs]) ++ l2 ->
  forall m, ((m < length (calls_of (l1 ++ [Ev Since t qs])))%nat -> since m < t) /\
            ((length (calls_of (l1 ++ [Ev Since t qs])) <= m < length (calls_of l))%nat -> t <= since m).

(** The report is on the window from the mark, and on the experiment's events. *)
Definition by_mark (mark : Z) (all w : list event) (rep : report) : Prop := rep = summarise mark all.
Definition by_window (mark : Z) (all w : list event) (rep : report) : Prop := rep = about (length all) w.

Lemma stamped_length cs : forall n, length (stamped since n cs) = length cs.
Proof. induction cs as [|c cs IH]; intros n; [done|]. cbn. destruct (event_of c) as [[o f] z]. cbn. by rewrite IH. Qed.

Lemma stamped_app cs1 cs2 : forall n,
  stamped since n (cs1 ++ cs2) = stamped since n cs1 ++ stamped since (n + length cs1)%nat cs2.
Proof.
  induction cs1 as [|c cs1 IH]; intros n; cbn [stamped app length]; [by rewrite Nat.add_0_r|].
  destruct (event_of c) as [[o f] z]. rewrite IH. cbn. do 3 f_equal. lia.
Qed.

Lemma since_mark_stamped mark cs1 cs2 : forall n,
  (forall m, (n <= m < n + length cs1)%nat -> since m < mark) ->
  (forall m, (n + length cs1 <= m < n + length cs1 + length cs2)%nat -> mark <= since m) ->
  since_mark mark (stamped since n (cs1 ++ cs2)) = stamped since (n + length cs1)%nat cs2.
Proof.
  induction cs1 as [|c cs1 IH]; intros n H1 H2; cbn [stamped app length since_mark] in *.
  - rewrite Nat.add_0_r in *. destruct cs2 as [|c cs2]; [done|]. cbn [stamped].
    destruct (event_of c) as [[o f] z]. cbn [since_mark Tracing.at_]. rewrite decide_True; [done|].
    apply H2. cbn [length]. lia.
  - destruct (event_of c) as [[o f] z]. cbn [since_mark Tracing.at_].
    rewrite decide_False by (specialize (H1 n); lia). rewrite IH.
    + f_equal. lia.
    + intros m Hm. apply H1. lia.
    + intros m Hm. apply H2. lia.
Qed.

(** With one clock, the window from the mark is the experiment. *)
Lemma tried_windows L names : forall l out l' out',
  one_clock L -> l' `prefix_of` L ->
  tried by_mark names l out l' out' -> l `prefix_of` l' /\ tried by_window names l out l' out'.
Proof.
  induction names as [|ns names IH]; intros l out l' out' Hc Hp; cbn [tried].
  { intros [-> ->]. by split. }
  intros (mark & qs & es & lines & rep & Hn & Hr & Ht).
  destruct (IH _ _ _ _ Hc Hp Ht) as [Hp1 Ht1]. split.
  { etrans; [|exact Hp1]. rewrite <- app_assoc. by apply prefix_app_r. }
  exists mark, qs, es, lines, rep. split; [done|]. split; [|done].
  unfold by_window. rewrite Hr. unfold summarise. f_equal.
  assert (HL : ((l ++ [Ev Since mark qs]) ++ es) `prefix_of` L) by (by etrans).
  destruct HL as [rest HL]. rewrite <- app_assoc in HL. specialize (Hc l mark qs (es ++ rest) HL).
  rewrite (calls_of_app (l ++ [Ev Since mark qs]) es). apply (since_mark_stamped mark _ _ 0).
  - intros m Hm. apply Hc. lia.
  - intros m Hm. apply Hc. cut (length (calls_of L) = length (calls_of (l ++ [Ev Since mark qs])) +
      length (calls_of es) + length (calls_of rest))%nat; [lia|].
    rewrite HL, (calls_of_app (l ++ [Ev Since mark qs])), (calls_of_app es), !length_app. lia.
Qed.
End Promise.

(** ** Why it keeps the promise *)

Create HintDb steady.

Section Keeps.
Context {H : Type} `{Host H} (since : nat -> Z) (x0 : bdev tracingBackend) (Hok : host_ok (H := H) x0).

(** The trace has one event per request served. *)
Definition traced (l : list hev) (b : tracingBackend) : Prop := ev (tr b) = stamped since 0 (calls_of l).

Abbreviation state := (between (H := H) (O := bench_line) Tracing.data traced x0).
Abbreviation Prog := (P H tracingBackend bench_line).

Lemma called_traced c b b' :
  called (Tracing.backend since) c b b' -> ev (tr b') = ev (tr b) ++ stamped since (length (ev (tr b))) [c].
Proof.
  destruct c as [len off|p off| |]; [| |done..].
  - intros (p & p' & r & <- & E). cbn in E. unfold Tracing.ReadAt, read_slice in E.
    destruct (sub _ _ _); [|done]. cbn -[i64] in E. injection E as _ _ <-. cbn. by rewrite Nat2Z.id.
  - intros (r & E). cbn in E. unfold Tracing.WriteAt, write_slice in E.
    destruct (sub _ _ _); [|done]. cbn -[i64] in E. by injection E as _ <-.
Qed.

Lemma called_all_traced cs : forall b b',
  called_all (Tracing.backend since) cs b b' -> ev (tr b') = ev (tr b) ++ stamped since (length (ev (tr b))) cs.
Proof.
  induction cs as [|c cs IH]; intros b b'; cbn [called_all]; [intros ->; by rewrite app_nil_r|].
  intros (b1 & Hc & Hcs). rewrite (IH _ _ Hcs), (called_traced _ _ _ Hc), <- app_assoc. f_equal.
  rewrite length_app, (stamped_length since [c]). symmetry. apply (stamped_app since [c] cs).
Qed.

Lemma traced_carries o : carries (Tracing.backend since) o traced traced.
Proof.
  intros l a qs b b' Hb Hc. unfold traced in *. rewrite calls_of_snoc, (called_all_traced _ _ _ Hc), Hb.
  by rewrite stamped_length, stamped_app.
Qed.

Lemma bench_host l out o :
  runs (state l out) (Host.host (Tracing.backend since) o) (fun a s => exists qs, state (l ++ [Ev o a qs]) out s).
Proof. apply runs_host; [apply _|done|apply traced_carries]. Qed.

(** Code that only performs operations. *)
Definition steady {A} (m : Prog A) : Prop :=
  forall l out, runs (state l out) m (fun _ s => exists es, state (l ++ es) out s).

Lemma steady_ret {A} (a : A) : steady (mret a).
Proof. intros l out. apply runs_ret. intros s Hs. exists []. by rewrite app_nil_r. Qed.
Lemma steady_host o : steady (Host.host (Tracing.backend since) o).
Proof. intros l out. eapply runs_conseq; [apply bench_host|done|]. intros a s [qs Hs]. eauto. Qed.
Lemma steady_bind {A C} (m : Prog A) (f : A -> Prog C) :
  steady m -> (forall a, steady (f a)) -> steady (m ≫= f).
Proof.
  intros Hm Hf l out. eapply runs_bind; [apply Hm|]. intros a. apply runs_ex. intros es.
  eapply runs_conseq; [apply Hf|done|]. intros c s [es' Hs]. exists (es ++ es'). by rewrite app_assoc.
Qed.
Lemma steady_and_then f g : steady f -> steady g -> steady (and_then f g).
Proof. intros Hf Hg. apply steady_bind; [done|]. intros [e|]; [apply steady_ret|done]. Qed.
Hint Resolve steady_ret steady_and_then : steady.
Hint Extern 1 (steady (Host.host _ ?o)) => exact (steady_host o) : steady.

Lemma experiments_steady mp :
  Forall (Forall (fun nf : string * Prog (option herr) => steady nf.2)) (experiments since mp).
Proof.
  assert (H1 : steady (write_fsync since mp)).
  { apply steady_bind; [eauto with steady|]. intros [f|e]; [|eauto with steady].
    unfold deferred. apply steady_bind; [eauto with steady|]. intros r.
    apply steady_bind; eauto with steady. }
  assert (H2 : steady (sleep_6s since)) by (apply steady_bind; eauto with steady).
  unfold experiments, write_b, write_sync, write_drop, sync_drop, shell.
  repeat constructor; cbn [snd]; eauto with steady.
Qed.

Lemma measure_spec name (fn : Prog (option herr)) l out :
  steady fn ->
  runs (state l out) (measure since name fn)
    (fun _ s => exists es line, is_measured name line /\ state (l ++ es) (out ++ [line]) s).
Proof.
  intros Hf. eapply runs_bind; [apply (bench_host _ _ Since)|]. intros t. apply runs_ex. intros qs.
  eapply runs_bind; [apply Hf|]. intros err. apply runs_ex. intros es.
  eapply runs_bind; [apply (bench_host _ _ Since)|]. intros t'. apply runs_ex. intros qs'.
  eapply runs_conseq; [by apply runs_print|done|]. intros [] s Hs. rewrite <- !app_assoc in Hs.
  eexists _, _. split; [|exact Hs]. by eexists _, _.
Qed.

Lemma measure_all_spec steps : forall l out,
  Forall (fun nf : string * Prog (option herr) => steady nf.2) steps ->
  runs (state l out) (measure_all since steps)
    (fun _ s => exists es lines, Forall2 is_measured (fst <$> steps) lines /\ state (l ++ es) (out ++ lines) s).
Proof.
  induction steps as [|[name fn] steps IH]; intros l out Hs; cbn [measure_all].
  { apply runs_ret. intros s Hl. exists [], []. rewrite !app_nil_r. by split. }
  apply Forall_cons in Hs as [Hf Hs]. eapply runs_bind; [by apply measure_spec|]. intros [].
  apply runs_ex. intros es. apply runs_ex. intros line s [Hm Hl].
  destruct (IH _ _ Hs s Hl) as (a & s' & E & es' & lines & Hn & Hl'). exists a, s'. split; [done|].
  exists (es ++ es'), (line :: lines). rewrite <- !app_assoc in Hl'. split; [by constructor|done].
Qed.

Lemma experiment_spec steps l out :
  Forall (fun nf : string * Prog (option herr) => steady nf.2) steps ->
  runs (state l out) (experiment since steps)
    (fun _ s => exists mark qs es lines, let l1 := (l ++ [Ev Since mark qs]) ++ es in
       Forall2 is_measured (fst <$> steps) lines /\
       state l1 (out ++ lines ++ [Reported (summarise mark (stamped since 0 (calls_of l1)))]) s).
Proof.
  intros Hs. eapply runs_bind; [apply (bench_host _ _ Since)|]. intros mark. apply runs_ex. intros qs.
  eapply runs_bind; [by apply measure_all_spec|]. intros []. apply runs_ex. intros es.
  apply runs_ex. intros lines s [Hn Hl].
  destruct (runs_print Tracing.data traced x0 _ _ (fun b => Reported <$> printSince mark (tr b))
    (Reported (summarise mark (stamped since 0 (calls_of ((l ++ [Ev Since mark qs]) ++ es)))))
    ltac:(intros b Hb; cbv beta; rewrite printSince_spec, Hb; done) s Hl) as ([] & s' & E & Hl').
  exists (), s'. split; [exact E|]. exists mark, qs, es, lines.
  split; [exact Hn|]. rewrite <- (app_assoc out) in Hl'. exact Hl'.
Qed.

Lemma run_experiments_spec es : forall l out,
  Forall (Forall (fun nf : string * Prog (option herr) => steady nf.2)) es ->
  runs (state l out) (run_experiments since es)
    (fun r s => exists l' out', (r = None /\
       tried since by_mark (map (map fst) es) l out l' out') /\ state l' out' s).
Proof.
  induction es as [|e es IH]; intros l out Hs; cbn [run_experiments].
  { apply runs_ret. intros s Hl. by exists l, out. }
  apply Forall_cons in Hs as [He Hs]. eapply runs_bind; [by apply experiment_spec|]. intros [].
  apply runs_ex. intros mark. apply runs_ex. intros qs. apply runs_ex. intros es'. apply runs_ex. intros lines.
  intros s [Hn Hl]. destruct (IH _ _ Hs s Hl) as (r & s' & E & l' & out' & [-> Ht] & Hl').
  exists None, s'. split; [done|]. exists l', out'. split; [|done]. split; [done|].
  by exists mark, qs, es', lines, (summarise mark (stamped since 0 (calls_of ((l ++ [Ev Since mark qs]) ++ es')))).
Qed.

Lemma bench_in_dir path mp l :
  runs (state l [])
    (deferred (Host.host (Tracing.backend since) (Remove mp))
       (err ← shell since "mount" [path; mp];
        match err with
        | Some e => mret (Some (Bare e))
        | None => deferred (shell since "umount" [mp]) (run_experiments since (experiments since mp))
        end))
    (fun r s => exists l' out', in_dir since by_mark path mp l r l' out' /\ state l' out' s).
Proof.
  eapply runs_deferred with (Mid := fun r s => exists l1 out1,
    (forall a qs, in_dir since by_mark path mp l r (l1 ++ [Ev (Remove mp) a qs]) out1) /\ state l1 out1 s).
  - eapply runs_bind; [apply (bench_host _ _ (Run "mount" [path; mp]))|]. intros [e|]; apply runs_ex; intros qs.
    + apply runs_ret. intros s Hs. eexists _, _. split; [|exact Hs]. intros a qs'.
      exists (Some (Bare e)), (l ++ [Ev (Run "mount" [path; mp]) (Some e) qs]).
      split; [by apply ran_fail|]. split_and!; [done..|by exists a, qs'].
    + eapply runs_deferred; [apply run_experiments_spec, experiments_steady|]. intros r.
      apply runs_ex. intros l3. apply runs_ex. intros out3. intros s [[-> Hr] Hs].
      destruct (bench_host l3 out3 (Run "umount" [mp]) s Hs) as (a1 & s1 & E1 & qs1 & Hs1).
      exists a1, s1. split; [exact E1|]. eexists _, _. split; [|exact Hs1]. intros a2 qs2.
      exists None, (l ++ [Ev (Run "mount" [path; mp]) None qs]).
      split; [by eapply ran_ok; [|constructor]|]. split; [done|]. exists l3, a1, qs1, a2, qs2. split; [exact Hr|].
      by rewrite <- app_assoc.
  - intros r. apply runs_ex. intros l1. apply runs_ex. intros out1. intros s [Hr Hs].
    destruct (bench_host l1 out1 (Remove mp) s Hs) as (a & s1 & E1 & qs & Hs1).
    exists a, s1. split; [exact E1|]. eexists _, _. by split.
Qed.

Lemma bench_body_spec path :
  runs (state [] []) (body since path)
    (fun r s => exists l out, promised since by_mark path r l out /\ state l out s).
Proof.
  eapply runs_bind; [apply (bench_host _ _ (Run "mkfs.ext4" ["-q"; "-F"; path]))|].
  intros [e|]; apply runs_ex; intros qs.
  { apply runs_ret. intros s Hs. eexists _, _. split; [|exact Hs].
    eexists (Some _), _. split; [|reflexivity]. by apply ran_fail. }
  eapply runs_bind; [apply (bench_host _ _ (MkdirTemp "" pattern))|]. intros [mp|e]; apply runs_ex; intros qs2.
  2:{ apply runs_ret. intros s Hs. eexists _, _. split; [|exact Hs].
      eexists (Some _), _. split; [|reflexivity]. by eapply ran_ok; [|by apply ran_fail]. }
  eapply runs_conseq; [apply bench_in_dir|done|]. intros r s (l & out & Hd & Hs).
  exists l, out. split; [|done]. exists None. eexists _. split; [|exists mp, qs2; split; [|exact Hd]; done].
  by eapply ran_ok; [|eapply ran_ok; [|constructor]].
Qed.
End Keeps.

Lemma promised_windows since path r l out :
  one_clock since l -> promised since by_mark path r l out -> promised since by_window path r l out.
Proof.
  intros Hc ([e|] & l1 & Hr & Hd); [by exists (Some e), l1|]. exists None, l1. split; [done|].
  destruct Hd as (mp & qs & Hl & [e|] & l2 & Hr2 & -> & Hd); exists mp, qs; split; [done| |done|].
  { by exists (Some e), l2. }
  exists None, l2. split_and!; [done..|]. destruct Hd as (l3 & a1 & qs1 & a2 & qs2 & Ht & ->).
  exists l3, a1, qs1, a2, qs2. split; [|done]. eapply tried_windows; [exact Hc| |exact Ht]. by apply prefix_app_r.
Qed.

(** C28: [flushbench] reports on its experiments.  On a fresh device whose
    requests stay in range, whatever the commands and system calls answer, [run]
    returns; it fails only if the file system cannot be made and mounted, with
    the error of that step, and undoes what it did in reverse order; otherwise it
    prints, for each of the five experiments, one line per measured step and one
    report.  When the program's clock and the stamps of the trace are one
    strictly increasing clock, the report of an experiment is about exactly the
    backend calls made during it: all of them, in order, and none of another
    experiment, of [mkfs.ext4] or of [mount]. *)
Theorem flushbench_reports {H} `{Host H} since path (x : bdev tracingBackend) (h : H) d :
  mem_dev Tracing.data x -> host_ok (H := H) x -> bd_b x = mk_tracingBackend d (Tracing.mk_trace []) 0 0 ->
  exists r s, body since path (mk_pst h x [] []) = Some (r, s) /\
    promised since by_mark path r (p_log s) (p_out s) /\
    (one_clock since (p_log s) -> promised since by_window path r (p_log s) (p_out s)).
Proof.
  intros Hx Hok Hb. destruct (bench_body_spec since x Hok path (mk_pst h x [] [])) as (r & s & E & l & out & Hp & Hs).
  { constructor; cbn; [done|by split_and!|done..|]. by rewrite Hb. }
  destruct Hs as [_ _ Hl Ho _]. exists r, s. rewrite Hl, Ho. split_and!; [done..|].
  intros Hc. by apply promised_windows.
Qed.

(** ** An example *)

(** The time an operation read. *)
Definition time_of (e : hev) : option Z :=
  let 'Ev o a _ := e in match o return ans o -> option Z with Since => Some | _ => fun _ => None end a.

(** Check [one_clock]: [n] calls made so far, of [total]. *)
Fixpoint clock_from (since : nat -> Z) (n total : nat) (l : list hev) : bool :=
  match l with
  | [] => true
  | e :: l =>
    let n' := (n + length (ev_reqs e))%nat in
    match time_of e with
    | Some t => forallb (fun m => since m <? t) (seq 0 n') && forallb (fun m => t <=? since m) (seq n' (total - n'))
    | None => true
    end && clock_from since n' total l
  end.

Lemma clock_from_ok since total l : forall l0 l1 t qs l2,
  clock_from since (length (calls_of l0)) total l = true -> l = (l1 ++ [Ev Since t qs]) ++ l2 ->
  forall m, ((m < length (calls_of (l0 ++ l1 ++ [Ev Since t qs])))%nat -> since m < t) /\
            ((length (calls_of (l0 ++ l1 ++ [Ev Since t qs])) <= m < total)%nat -> t <= since m).
Proof.
  induction l as [|e l IH]; intros l0 l1 t qs l2 Hc El m; [by destruct l1|].
  cbn [clock_from] in Hc. apply andb_prop in Hc as [H1 H2]. destruct l1 as [|e1 l1]; cbn [app] in *.
  - injection El as -> ->. apply andb_prop in H1 as [H1 H3].
    rewrite forallb_forall in H1, H3. rewrite calls_of_snoc, length_app, length_fmap. split; intros Hm.
    + apply Z.ltb_lt, H1, in_seq. cbn. lia.
    + apply Z.leb_le, H3, in_seq. cbn. lia.
  - injection El as <- El. specialize (IH (l0 ++ [e]) l1 t qs l2). destruct e as [o a qs0].
    rewrite calls_of_snoc, length_app, length_fmap, <- (app_assoc l0) in IH. by apply IH.
Qed.

Lemma clock_from_one_clock since l : clock_from since 0 (length (calls_of l)) l = true -> one_clock since l.
Proof. intros Hc l1 t qs l2 El m. exact (clock_from_ok since _ l [] l1 t qs l2 Hc El m). Qed.

Definition small_dev : bdev tracingBackend :=
  mk_bdev (sample_worker zero_desc) [zero_desc] 1024 (mk_tracingBackend (zeros 1024) (Tracing.mk_trace []) 0 0).

(** The sample host's clock at the calls of [mkfs.ext4], [mount], the two
    [sync]s and [umount]. *)
Definition small_since (m : nat) : Z := default 40 ([0; 2; 20; 29; 32] !! m).

Definition report_calls (line : bench_line) : option Z :=
  match line with Reported (Report n _ _) => Some n | Reported _ => Some 0 | Measured _ _ _ => None end.

Lemma small_bench :
  match @body Z (sample_host []) small_since "/dev/ublkb0" (mk_pst 0 small_dev [] []) with
  | Some (None, s) => omap report_calls (p_out s) = [0; 0; 1; 0; 1] /\
      clock_from small_since 0 (length (calls_of (p_log s))) (p_log s) = true
  | _ => False
  end.
Proof. vm_compute. split; reflexivity. Qed.

Lemma flushbench_reports_witness :
  exists s, @body Z (sample_host []) small_since "/dev/ublkb0" (mk_pst 0 small_dev [] []) = Some (None, s) /\
    omap report_calls (p_out s) = [0; 0; 1; 0; 1] /\
    promised small_since by_window "/dev/ublkb0" None (p_log s) (p_out s).
Proof.
  destruct (@flushbench_reports Z (sample_host []) small_since "/dev/ublkb0" small_dev 0 (zeros 1024))
    as (r & s & E & _ & Hp).
  - split; [apply sample_attached; lia|reflexivity].
  - apply sample_host_ok.
  - reflexivity.
  - pose proof small_bench as Er. rewrite E in Er. destruct r as [e|]; [destruct Er|]. destruct Er as [E1 E2].
    exists s. exact (conj E (conj E1 (Hp (clock_from_one_clock _ _ E2)))).
Defined.
