(* ===== verification/Balance.v ===== *)
(** * No program leaks a device

    The example programs that create devices and are not stress tests, together:
    each returns with exactly the descriptors and mappings it started with.  (The
    stressors have their own theorem in [StressRun], the parent of [sigkill] in
    [SigkillRun].) *)

From S2P Require Import Prelude GoLayout Types Uring Config Backend Worker Kernel Sim RingOps WorkerRun.
From S2P Require Import Device DiskLike BlockLayer ExBackends Programs ChainRun FaultRun FlushRun Host Demos FlushBench.

Lemma demo_sizes : is_u 64 FsDemo.devSize /\ is_u 64 FlushBench.devSize.
Proof. unfold FsDemo.devSize, FlushBench.devSize. split; split; lia. Qed.

(** The programs leak nothing.  Whatever the kernel, the block layer and the
    host answer, when [main] of [example/main.go], [run] of [fsdemo], [run] of
    [flushbench], [runChain] of [chain] or the scenarios of [fault] return, every
    descriptor and mapping of every device they created is released: also when
    an operation on the mounted file system failed half way, when the second of
    two stacked devices could not be created, or when the backend failed every
    call.  [main] does not panic either. *)
Theorem programs_balanced {K} `{KernelLaws K} fuel {T} `{Host T} since (h : T)
    `{!BlockFile storage} `{!BlockFile proxy} `{!BlockFile Faulty.faultyBackend} rand_Read alloc rnd addr hung slow F G :
  triple (K := K) (own F G) (Main.main fuel) (fun _ => own F G) /\
  returns (K := K) (own F G) (FsDemo.run fuel h) (fun _ => own F G) /\
  returns (K := K) (own F G) (FlushBench.run since fuel h) (fun _ => own F G) /\
  returns (K := K) (own F G) (runChain fuel rand_Read alloc hung) (fun _ => own F G) /\
  returns (K := K) (own F G) (run_scenarios hung (scenarios fuel rnd addr slow)) (fun _ => own F G).
Proof.
  destruct demo_sizes as [Hs1 Hs2]. split_and!.
  - by apply Main.main_balanced.
  - by apply hosted_balanced.
  - by apply hosted_balanced.
  - by apply runChain_balanced.
  - by apply fault_program_balanced.
Qed.

Lemma refused_main (b : list Z) :
  match New 3 Mem.memBackend (Dynamic KPointer false b) Main.size [] (boot [] [uCmdAddDev; cmdAddDev]) with
  | Val (Err _, s) => length (acquired (trace s)) = 4%nat
  | _ => False
  end.
Proof. vm_compute. reflexivity. Qed.

Lemma main_refused {K} `{Kernel K} fuel s e s' :
  New fuel Mem.memBackend (Dynamic KPointer false (zeros (Z.to_nat Main.size))) Main.size [] s = Val (Err e, s') ->
  Main.main fuel s = Val (1, s').
Proof. intros En. unfold Main.main, mbind, M_bind. by rewrite En. Qed.

Lemma programs_balanced_witness :
  exists s, Main.main 3 (boot [] [uCmdAddDev; cmdAddDev]) = Val (1, s) /\
    length (acquired (trace s)) = 4%nat /\ own [] [] s.
Proof.
  pose proof (refused_main (zeros (Z.to_nat Main.size))) as E.
  destruct (New _ _ _ _ _ _) as [[[x|e] s]| |] eqn:En; [destruct E| |destruct E..].
  pose proof (main_refused 3 _ e s En) as Er. exists s. split; [exact Er|]. split; [exact E|].
  pose proof (proj1 (@programs_balanced sim _ _ 3 Z (sample_host []) small_since 0
    (sector_file (logged ChainMem.backend)) (sector_file (proxy_backend (BlockFile0 := sector_file (logged ChainMem.backend))))
    (sector_file (Faulty.backend sample_rnd)) (fun _ p => Ok p) (fun _ => 0) sample_rnd 0
    (fun _ => false) false [] []) (boot [] [uCmdAddDev; cmdAddDev]) (boot_own _ _)) as Hb.
  rewrite Er in Hb. exact Hb.
Defined.
