(* ===== verification/SigkillRun.v ===== *)
(** * The program [example/sigkill]

    The parent runs itself as a child, waits for the child to print the path of
    its device, kills it, and creates a device of its own.  The parent reads the
    child's output with a [bufio.Scanner], which splits it into lines, drops a
    carriage return at the end of a line and refuses lines that do not fit its
    buffer.  What the operating system does to processes and device nodes is the
    record [world].

    The theorems: the announcement the child prints is what the parent reads,
    after any other output, and the node the parent derives from it is the char
    device the library opened; the parent's verdict, and that it never leaves a
    started child without having tried to kill it. *)

From stdpp Require Import pretty.
From S2P Require Import Prelude GoLayout Types Uring Config Backend Worker Kernel Sim RingOps WorkerRun.
From S2P Require Import Device DiskLike BlockLayer ExBackends Programs Host.

Import SigkillMem (memBackend, mk_memBackend).

Definition devSize : Z := 8 * 1024 * 1024.

(** ** Lines *)

Definition nl : Ascii.ascii := Ascii.ascii_of_nat 10.
Definition cr : Ascii.ascii := Ascii.ascii_of_nat 13.

(** [s] without the prefix [pre], if it has it. *)
Fixpoint strip_prefix (pre s : string) : option string :=
  match pre, s with
  | "", _ => Some s
  | String c pre, String c' s => if decide (c = c') then strip_prefix pre s else None
  | _, _ => None
  end.
(** [strings.TrimPrefix] *)
Definition TrimPrefix (s pre : string) : string := default s (strip_prefix pre s).

(** [dropCR] of [bufio] *)
Fixpoint dropCR (s : string) : string :=
  match s with
  | "" => ""
  | String c "" => if decide (c = cr) then "" else s
  | String c s => String c (dropCR s)
  end.

Definition MaxScanTokenSize : nat := 65536.
Definition ready_prefix : string := "CHILD_READY ".

Inductive scanned : Type :=
| Found (path : string)
| AtEnd
| TooLong.

(** The loop of [readReady] over the scanner: [cur] is the unfinished line. *)
Fixpoint scan_ready (cur s : string) : scanned :=
  match s with
  | "" =>
    if decide (cur = "") then AtEnd
    else match strip_prefix ready_prefix (dropCR cur) with Some p => Found p | None => AtEnd end
  | String c s =>
    if decide (c = nl) then
      match strip_prefix ready_prefix (dropCR cur) with Some p => Found p | None => scan_ready "" s end
    else if decide (MaxScanTokenSize <= String.length cur + 1)%nat then TooLong
    else scan_ready (cur +:+ String c "") s
  end.

(** The error wraps [scan.Err()], which is [nil] at the end of the output. *)
Inductive ready_err : Type :=
| NotAnnounced (scan_err : option herr)
| ReadyTimeout.

(** [output] is what the child prints, [ending] the error that ends it, [late]
    whether the five seconds pass first. *)
Definition readReady (output : string) (ending : option herr) (late : bool) : result ready_err string :=
  if late then Err ReadyTimeout
  else
    match scan_ready "" output with
    | Found p => Ok p
    | AtEnd => Err (NotAnnounced ending)
    | TooLong => Err (NotAnnounced (Some "bufio.Scanner: token too long"))
    end.

Definition charPath (blockPath : string) : string := "/dev/ublkc" +:+ TrimPrefix blockPath "/dev/ublkb".

(** [polls] is how often the deadline had not passed; [gone n path] whether the
    [n]-th [os.Stat] of [path] says that it does not exist. *)
Fixpoint poll (gone : nat -> string -> bool) (n polls : nat) (blockPath : string) : option (string * string) :=
  match polls with
  | O => Some (blockPath, charPath blockPath)
  | S polls =>
    if gone n blockPath && gone n (charPath blockPath) then None else poll gone (S n) polls blockPath
  end.
Definition waitGone (gone : nat -> string -> bool) (polls : nat) (blockPath : string) : option (string * string) :=
  poll gone 0 polls blockPath.

(** ** The two processes *)

Section Sigkill.
Context {K : Type} `{Kernel K} (fuel : nat) `{!BlockFile memBackend}.

Abbreviation be := SigkillMem.backend.
Definition newMem : memBackend := mk_memBackend (zeros (Z.to_nat devSize)).

(** [fmt.Println("CHILD_READY", dev.Path())] *)
Definition announcement (d : Device) : string := "CHILD_READY" +:+ " " +:+ Path d +:+ String nl "".

(** [for { _, _ = unix.Pwrite(fd, buf, 0) }], for the [n] writes until the kill. *)
Fixpoint write_forever (n : nat) (x : bdev memBackend) : option (bdev memBackend) :=
  match n with
  | O => Some x
  | S n => '(_, x) ← pwrite (zeros 4096) 0 x; write_forever n x
  end.

(** What the child printed and its exit status, if it exits before the kill. *)
Definition runChild (n : nat) : M K (string * option Z) :=
  x ← New fuel be (Dynamic KPointer false newMem) devSize [];
  match x with
  | Err _ => mret ("", Some 2)
  | Ok (d, b) =>
    y ← sys_open (Path d) O_WRONLY;
    match y with
    | Err _ => mret (announcement d, Some 2)
    | Ok fd =>
      x ← must (bdev_of devSize d b);
      must (write_forever n x);;
      mret (announcement d, None)
    end
  end.

Inductive action : Type := StartChild | KillChild | SignalChild | ReapChild.

(** What the operating system answers. *)
Record world := mk_world {
  executable : result herr string; stdoutPipe : option herr; start : option herr;
  output : string; ending : option herr; late : bool; signal : option herr; stuck_wait : bool;
  gone : nat -> string -> bool; polls : nat }.

Inductive parent_err : Type :=
| OsErr (e : herr)
| StartErr (e : herr)
| ReadyErr (e : ready_err)
| SignalErr (e : herr)
| WaitBlocked
| NewErr (e : goerr)
| CloseErr (e : goerr).

(** The error, what was done to the child, and the warning about its nodes. *)
Definition runParent (w : world) : M K (option parent_err * list action * option (string * string)) :=
  match executable w with
  | Err e => mret (Some (OsErr e), [], None)
  | Ok _ =>
    match stdoutPipe w, start w with
    | Some e, _ => mret (Some (OsErr e), [], None)
    | None, Some e => mret (Some (StartErr e), [], None)
    | None, None =>
      match readReady (output w) (ending w) (late w) with
      | Err e => mret (Some (ReadyErr e), [StartChild; KillChild], None)
      | Ok devPath =>
        modify k_sleep;;
        match signal w with
        | Some e => mret (Some (SignalErr e), [StartChild; SignalChild], None)
        | None =>
          if stuck_wait w then mret (Some WaitBlocked, [StartChild; SignalChild], None)
          else
            let acts := [StartChild; SignalChild; ReapChild] in
            x ← New fuel be (Dynamic KPointer false newMem) devSize [];
            match x with
            | Err e => mret (Some (NewErr e), acts, None)
            | Ok (d, b) =>
              '(_, _, err) ← Device.Close fuel be d b;
              mret (match err with
                    | Some e => (Some (CloseErr e), acts, None)
                    | None => (None, acts, waitGone (gone w) (polls w) devPath)
                    end)
            end
        end
      end
    end
  end.
End Sigkill.

(** ** Strings *)

Abbreviation chars := String.list_ascii_of_string.

Lemma chars_app s t : chars (s +:+ t) = chars s ++ chars t.
Proof. induction s as [|c s IH]; [done|]. exact (f_equal (cons c) IH). Qed.
Lemma string_app_assoc (s t u : string) : (s +:+ t) +:+ u = s +:+ (t +:+ u).
Proof. induction s as [|c s IH]; [done|]. exact (f_equal (String c) IH). Qed.
Lemma string_app_nil_r (s : string) : s +:+ "" = s.
Proof. induction s as [|c s IH]; [done|]. exact (f_equal (String c) IH). Qed.
Lemma string_app_length (s t : string) : String.length (s +:+ t) = (String.length s + String.length t)%nat.
Proof. induction s as [|c s IH]; [done|]. exact (f_equal S IH). Qed.

Lemma strip_prefix_app pre s : strip_prefix pre (pre +:+ s) = Some s.
Proof.
  induction pre as [|c pre IH]; [by destruct s|]. change (String c pre +:+ s) with (String c (pre +:+ s)).
  cbn [strip_prefix]. by rewrite decide_True.
Qed.

Lemma dropCR_id s : cr ∉ chars s -> dropCR s = s.
Proof.
  induction s as [|c s IH]; [done|]. cbn. rewrite not_elem_of_cons. intros [Hc Hs]. destruct s as [|c' s].
  - by rewrite decide_False by done.
  - by rewrite IH.
Qed.

(** A character that does not end a line; so are the decimal digits. *)
Definition is_plain (c : Ascii.ascii) : Prop := c <> nl /\ c <> cr.

Lemma pretty_char_plain x : is_plain (pretty_N_char x).
Proof. unfold pretty_N_char. by repeat case_match. Qed.

Lemma pretty_go_digits k : forall n s, (n < 10 ^ N.of_nat k)%N ->
  exists ds, pretty_N_go n s = ds +:+ s /\ (String.length ds <= k)%nat /\ Forall is_plain (chars ds).
Proof.
  induction k as [|k IH]; intros n s Hn.
  { exists "". assert (n = 0%N) as -> by (cbn in Hn; lia). by rewrite pretty_N_go_0. }
  destruct (decide (n = 0%N)) as [->|Hz].
  { exists "". rewrite pretty_N_go_0. split_and!; [done|cbn; lia|constructor]. }
  rewrite pretty_N_go_step by lia.
  destruct (IH (n / 10)%N (String (pretty_N_char (n mod 10)) s)) as (ds & -> & Hl & Hd).
  { apply N.Div0.div_lt_upper_bound. rewrite Nat2N.inj_succ, N.pow_succ_r' in Hn. done. }
  exists (ds +:+ String (pretty_N_char (n mod 10)) ""). rewrite string_app_assoc, string_app_length, chars_app.
  split_and!; [done|cbn; lia|]. apply Forall_app. split; [done|]. constructor; [apply pretty_char_plain|constructor].
Qed.

Lemma Path_plain d :
  d_id d < 2 ^ 32 -> (String.length (Path d) <= 20)%nat /\ Forall is_plain (chars (Path d)).
Proof.
  intros Hd. unfold Path. case_decide as Hneg; [cbn; split; [lia|constructor]|].
  assert (exists ds, pretty (d_id d) = ds /\ (String.length ds <= 10)%nat /\ Forall is_plain (chars ds))
    as (ds & -> & Hl & Hf).
  { destruct (d_id d) as [|p|p]; [|destruct (pretty_go_digits 10 (N.pos p) "") as (ds & E & Hl & Hf); [cbn; lia|]|lia].
    - exists "0". split_and!; [done|cbn; lia|]. by repeat constructor.
    - exists ds. rewrite string_app_nil_r in E. by split_and!. }
  rewrite string_app_length, chars_app. split; [cbn; lia|]. apply Forall_app. split; [|done].
  by repeat constructor.
Qed.

(** ** Scanning *)

Lemma scan_line l s : forall cur,
  nl ∉ chars l -> (String.length cur + String.length l < MaxScanTokenSize)%nat ->
  scan_ready cur (l +:+ String nl s) =
  match strip_prefix ready_prefix (dropCR (cur +:+ l)) with Some p => Found p | None => scan_ready "" s end.
Proof.
  induction l as [|c l IH]; intros cur Hnl Hlen.
  - change ("" +:+ String nl s) with (String nl s). cbn [scan_ready]. by rewrite decide_True, string_app_nil_r.
  - change (String c l +:+ String nl s) with (String c (l +:+ String nl s)). cbn [scan_ready].
    cbn in Hnl. apply not_elem_of_cons in Hnl as [Hc Hnl]. cbn [String.length] in Hlen.
    rewrite decide_False by congruence. rewrite decide_False by lia. rewrite IH; [|done|].
    + by rewrite string_app_assoc.
    + rewrite string_app_length. cbn [String.length]. lia.
Qed.

(** A line that fits the scanner's buffer and is not the announcement. *)
Record other_line (l : string) : Prop := {
  ol_nl : nl ∉ chars l;
  ol_fits : (String.length l < MaxScanTokenSize)%nat;
  ol_other : strip_prefix ready_prefix (dropCR l) = None }.

(** Lines, followed by [tail]. *)
Definition lines (ls : list string) (tail : string) : string :=
  foldr (fun l t => l +:+ String nl t) tail ls.

Lemma scan_lines ls tail : Forall other_line ls -> scan_ready "" (lines ls tail) = scan_ready "" tail.
Proof.
  induction 1 as [|l ls [Hnl Hf Ho] Hls IH]; [done|].
  unfold lines. cbn [foldr]. fold (lines ls tail). rewrite scan_line by done.
  change ("" +:+ l) with l. by rewrite Ho.
Qed.

Lemma prefix_plain c : c ∈ chars ready_prefix -> is_plain c.
Proof. revert c. apply Forall_forall. by repeat constructor. Qed.

(** C31: What the child announces is what the parent reads.  After any number of
    other lines, each without the announcement and within the scanner's limit
    of 65535 bytes, and whatever follows, [readReady] returns the path of the
    child's device, for every device id the kernel can give; the char device
    whose removal [waitGone] then waits for is the one the library opened for
    that device.  When the child's output ends without an announcement the error
    wraps the scanner's error, which is [nil] at a regular end of file. *)
Theorem ready_roundtrip d ls rest ending :
  d_id d < 2 ^ 32 -> Forall other_line ls ->
  readReady (lines ls (announcement d +:+ rest)) ending false = Ok (Path d) /\
  (0 <= d_id d -> charPath (Path d) = "/dev/ublkc" +:+ pretty (d_id d)) /\
  readReady (lines ls "") ending false = Err (NotAnnounced ending).
Proof.
  intros Hd Hls. unfold readReady. rewrite !scan_lines by done. destruct (Path_plain d Hd) as [Hl Hf].
  rewrite Forall_forall in Hf. split_and!; [|intros Hid|done].
  - replace (announcement d +:+ rest) with ((ready_prefix +:+ Path d) +:+ String nl rest)
      by (unfold announcement; by rewrite !string_app_assoc).
    rewrite scan_line.
    + change ("" +:+ ready_prefix +:+ Path d) with (ready_prefix +:+ Path d).
      rewrite dropCR_id; [by rewrite strip_prefix_app|]. rewrite chars_app, elem_of_app.
      intros [Hin|Hin]; [by apply prefix_plain in Hin as []|by destruct (Hf _ Hin)].
    + rewrite chars_app, elem_of_app.
      intros [Hin|Hin]; [by apply prefix_plain in Hin as []|by destruct (Hf _ Hin)].
    + assert (32 < MaxScanTokenSize)%nat by (apply Nat.ltb_lt; vm_compute; reflexivity).
      rewrite string_app_length. change (String.length ready_prefix) with 12%nat.
      change (String.length "") with 0%nat. lia.
  - unfold charPath, Path, TrimPrefix. rewrite decide_False by lia. by rewrite strip_prefix_app.
Qed.

(** A device with the id 7. *)
Definition device_7 : Device := mk_Device 7 9 (-1) None zero_info false false true [] false.

Lemma starting_other : other_line "starting".
Proof.
  constructor; [apply (bool_decide_unpack _); vm_compute; exact I| |reflexivity].
  apply Nat.ltb_lt. vm_compute. reflexivity.
Qed.

Lemma ready_roundtrip_witness :
  readReady (lines ["starting"] (announcement device_7 +:+ "more")) None false = Ok "/dev/ublkb7" /\
  charPath "/dev/ublkb7" = "/dev/ublkc7" /\
  readReady (lines ["starting"] "") None false = Err (NotAnnounced None).
Proof.
  destruct (ready_roundtrip device_7 ["starting"] "more" None) as (H1 & H2 & H3).
  - cbn. lia.
  - apply Forall_singleton, starting_other.
  - exact (conj H1 (conj (H2 ltac:(cbn; lia)) H3)).
Defined.

(** ** The verdict *)

Section Verdict.
Context {K : Type} `{KernelLaws K} (fuel : nat).

Lemma kill_size_u64 : is_u 64 devSize.
Proof. unfold devSize. split; lia. Qed.

(** The error and the actions, without the warning. *)
Definition verdict_of (o : out (option parent_err * list action * option (string * string) * st K)) :
    option (option parent_err * list action * st K) :=
  match o with Val (e, acts, _, s) => Some (e, acts, s) | _ => None end.

Definition set_nodes (g : nat -> string -> bool) (n : nat) (w : world) : world :=
  mk_world (executable w) (stdoutPipe w) (start w) (output w) (ending w) (late w) (signal w) (stuck_wait w) g n.

(** What holds when the parent returns: a child it started has been sent a kill,
    and success means an announcement, a signal and a reaped child. *)
Definition parent_outcome (w : world) (x : option parent_err * list action * option (string * string)) : Prop :=
  let '(err, acts, warn) := x in
  (StartChild ∈ acts -> KillChild ∈ acts \/ SignalChild ∈ acts) /\
  (err = None -> acts = [StartChild; SignalChild; ReapChild] /\
     exists p, readReady (output w) (ending w) (late w) = Ok p /\ warn = waitGone (gone w) (polls w) p).

Lemma triple_runParent w F G :
  triple (own F G) (runParent (K := K) fuel w) (fun x s => own F G s /\ parent_outcome w x).
Proof.
  unfold runParent.
  destruct (executable w) as [self|e]; [|apply triple_ret; set_solver].
  destruct (stdoutPipe w) as [e|]; [apply triple_ret; set_solver|].
  destruct (start w) as [e|]; [apply triple_ret; set_solver|].
  destruct (readReady _ _ _) as [p|e] eqn:Er; [|apply triple_ret; set_solver].
  eapply (triple_bind _ _ (fun _ => own F G)); [by intros [k tr]|]. intros [].
  destruct (signal w) as [e|]; [apply triple_ret; set_solver|].
  destruct (stuck_wait w); [apply triple_ret; set_solver|].
  eapply triple_bind; [by apply triple_New_live, kill_size_u64|].
  intros [[d b]|e]; [|apply triple_ret; set_solver]. apply triple_pure. intros _.
  eapply triple_bind; [by apply triple_Close_dev|]. intros [[d' b'] [e|]]; apply triple_pure; intros _;
    apply triple_ret; [set_solver|]. intros s Hs. split; [done|]. split; [set_solver|]. eauto.
Qed.

(** On success the parent created a device after the pause, and closed it. *)
Lemma parent_success w s acts warn s' :
  runParent (K := K) fuel w s = Val (None, acts, warn, s') ->
  exists d b s1 db, New fuel SigkillMem.backend (Dynamic KPointer false newMem) devSize []
      (mk_st (k_sleep (kern s)) (trace s)) = Val (Ok (d, b), s1) /\
    Device.Close fuel SigkillMem.backend d b s1 = Val (db, None, s').
Proof.
  unfold runParent. destruct (executable w), (stdoutPipe w), (start w); try done.
  destruct (readReady _ _ _); [|done]. unfold mbind, M_bind, modify.
  destruct (signal w), (stuck_wait w); try done.
  destruct (New _ _ _ _ _ _) as [[[[d b]|e] s1]| |]; [|done..].
  destruct (Device.Close _ _ _ _ _) as [[[[d' b'] [e|]] s2]| |] eqn:Ec; [done| |done..].
  intros E. injection E as _ _ ->. by exists d, b, s1, (d', b').
Qed.

(** C32: The parent's verdict.  Whatever the operating system and the kernel
    answer, [runParent] does not panic; when it returns, the device it created is
    completely released; a child it started has been sent a kill; and success means that
    the child announced its device, was signalled and reaped, and that the
    parent then created and closed a device of its own.  Device nodes of the
    child that linger change nothing but the warning: neither the verdict nor
    the state of the system depends on them. *)
Theorem parent_verdict w F G :
  triple (own F G) (runParent (K := K) fuel w) (fun x s => own F G s /\ parent_outcome w x) /\
  (forall s acts warn s', runParent fuel w s = Val (None, acts, warn, s') ->
     exists d b s1 db, New fuel SigkillMem.backend (Dynamic KPointer false newMem) devSize []
         (mk_st (k_sleep (kern s)) (trace s)) = Val (Ok (d, b), s1) /\
       Device.Close fuel SigkillMem.backend d b s1 = Val (db, None, s')) /\
  (forall s g n, verdict_of (runParent fuel (set_nodes g n w) s) = verdict_of (runParent fuel w s)).
Proof.
  split_and!.
  - apply triple_runParent.
  - apply parent_success.
  - intros s g n. unfold runParent. cbn [set_nodes executable stdoutPipe start output ending late signal stuck_wait gone polls].
    destruct (executable w), (stdoutPipe w), (start w); try done.
    destruct (readReady _ _ _); [|done]. unfold mbind, M_bind, modify. cbn [kern trace].
    destruct (signal w), (stuck_wait w); try done.
    destruct (New _ _ _ _ _ _) as [[[[d b]|e] s1]| |]; [|done..]. unfold mret, M_ret.
    by destruct (Device.Close _ _ _ _ _) as [[[[d' b'] [e|]] s2]| |].
Qed.
End Verdict.

(** The child announces its device and dies; its nodes stay. *)
Definition sample_world : world :=
  mk_world (Ok "/tmp/ublk-sigkill") None None (announcement device_7) None false None false (fun _ _ => false) 50.

Lemma refused_kill (b : memBackend) :
  match New 3 SigkillMem.backend (Dynamic KPointer false b) devSize [] (boot [] [uCmdAddDev; cmdAddDev]) with
  | Val (Err _, s) => length (acquired (trace s)) = 4%nat
  | _ => False
  end.
Proof. vm_compute. reflexivity. Qed.

Lemma parent_refused {K} `{Kernel K} fuel s e s' :
  New fuel SigkillMem.backend (Dynamic KPointer false newMem) devSize []
    (mk_st (k_sleep (kern s)) (trace s)) = Val (Err e, s') ->
  runParent (K := K) fuel sample_world s =
  Val (Some (NewErr e), [StartChild; SignalChild; ReapChild], None, s').
Proof.
  intros En. unfold runParent. cbn [sample_world executable stdoutPipe start output ending late signal stuck_wait].
  replace (readReady _ _ _) with (Ok (E := ready_err) "/dev/ublkb7") by (vm_compute; reflexivity).
  unfold mbind, M_bind, modify. by rewrite En.
Qed.

Lemma parent_verdict_witness :
  exists e s, runParent 3 sample_world (boot [] [uCmdAddDev; cmdAddDev]) =
      Val (Some (NewErr e), [StartChild; SignalChild; ReapChild], None, s) /\
    length (acquired (trace s)) = 4%nat /\ own [] [] s.
Proof.
  pose proof (refused_kill newMem) as E.
  destruct (New _ _ _ _ _ _) as [[[x|e] s]| |] eqn:En; [destruct E| |destruct E..].
  pose proof (parent_refused 3 (boot [] [uCmdAddDev; cmdAddDev]) e s En) as Er.
  exists e, s. split; [exact Er|]. split; [exact E|].
  pose proof (proj1 (parent_verdict 3 sample_world [] []) _ (boot_own [] [uCmdAddDev; cmdAddDev])) as Hv.
  rewrite Er in Hv. exact (proj1 Hv).
Defined.
