(* ===== verification/EndToEnd.v ===== *)
(** * The programs from end to end

    The theorems on the example programs proper ([ChainRun], [FaultRun],
    [Demos], [FlushBench]) start from a device in working order.  Here they are
    joined with [New] and [Close]: a device [New] returns is in working order
    ([triple_New_works] of [Programs]), so that the whole programs do not panic,
    reach the verdict they promise, and release what they opened.

    What the kernel is relied on for is [sane_buffers]: the buffer size it
    reports for a new device.  [limited] is a kernel that satisfies it. *)

From S2P Require Import Prelude GoLayout Types Uring Config Backend Worker Kernel Sim RingOps WorkerRun.
From S2P Require Import Device DiskLike BlockLayer ExBackends Programs ChainRun FaultRun FlushRun Host Demos FlushBench.

(** ** [chain] *)

(** How [runChain] may end: passed, a device or file that could not be created,
    or 64-bit call counters that wrapped. *)
Definition chain_outcome (err : option chain_err) : Prop :=
  match err with
  | None | Some (CreateErr _ _) | Some (OpenErr _ _) => True
  | Some (Step name _) => name = "bandwidth delta matches through both stacks"
  | Some _ => False
  end.

Lemma chain_size : is_u 64 chainSize.
Proof. unfold chainSize. split; lia. Qed.
Lemma chain_cap : chainSize <= 2 ^ 63.
Proof. unfold chainSize. lia. Qed.

Section ChainEnd.
Context {K : Type} `{KernelLaws K} (fuel : nat).
Context `{!BlockFile storage} `{!BlockFile proxy}.
Context `{!BlockFileLaws (logged ChainMem.backend)} `{!BlockFileLaws proxy_backend}.
Context (rand_Read : nat -> list Z -> result string (list Z)) (alloc : nat -> Z) (hung : string -> bool).
Context (rand_fills : forall k p, exists p', rand_Read k p = Ok p' /\ length p' = length p).
Context (alloc_addr : forall k, is_u 64 (alloc k)) (no_timeout : forall name, hung name = false).
Context (storage_sane : sane_buffers (K := K) fuel (logged ChainMem.backend) storage0 chainSize).
Context (proxy_sane : forall sx, sane_buffers (K := K) fuel proxy_backend (Fd.mk_fdBackend sx 0 0, []) chainSize).

Lemma storage_dev_ok d x : works chainSize storage0 d x -> dev_ok chain_view x.
Proof.
  intros (_ & Ha & Hs & Hb & _). constructor; [done| |by rewrite Hb].
  rewrite Hs, Hb. cbn [storage0 chain_view v_disk fst ChainMem.data]. unfold zeros.
  rewrite length_replicate. unfold chainSize. lia.
Qed.

Lemma proxy_dev_ok d sx (x : bdev proxy) :
  dev_ok chain_view sx -> bd_size sx = chainSize ->
  works (B := proxy) chainSize (Fd.mk_fdBackend sx 0 0, []) d x -> dev_ok proxy_view x /\ bd_size x = chainSize.
Proof.
  intros Hsx Hsz (_ & Ha & Hs & Hb & _). split; [|done]. constructor; [done| |rewrite Hb; split; [exact Hsx|split_and!; [done|done|apply Nat.le_0_l..]]].
  rewrite Hs, Hb, <- Hsz. apply (dk_size _ _ Hsx).
Qed.

Lemma triple_run_proxy sx F G :
  dev_ok chain_view sx -> bd_size sx = chainSize ->
  triple (own F G) (run_proxy fuel rand_Read alloc hung sx) (fun y s => chain_outcome y.1 /\ own F G s).
Proof.
  intros Hsx Hsz. unfold run_proxy.
  eapply triple_bind; [apply triple_New_works; [apply _|apply chain_size|apply chain_cap|apply proxy_sane]|].
  intros [[p pb]|e]; [|by apply triple_ret]. apply triple_pure. intros (-> & x & Hx).
  destruct (proxy_dev_ok p sx x Hsx Hsz Hx) as [Hok Hs]. pose proof Hx as (Ex & _).
  destruct (steps_pass rand_Read alloc hung rand_fills alloc_addr x no_timeout (conj Hok Hs))
    as (err & x' & Er & _ & _ & Hout).
  eapply triple_bind; [apply triple_open_dev|]. intros [pfd|e].
  - apply (triple_known _ _ x); [exact Ex|]. apply (triple_known _ _ (err, x')); [exact Er|].
    eapply triple_bind; [apply triple_close_dev|]. intros e.
    eapply triple_conseq; [apply triple_Close_ret|done|]. intros y s [-> Ho]. split; [|done].
    by destruct Hout as [->|[e' ->]].
  - eapply triple_conseq; [apply triple_Close_ret|done|]. intros y s [-> Ho]. done.
Qed.

Lemma triple_runChain F G :
  triple (own F G) (runChain fuel rand_Read alloc hung) (fun err s => chain_outcome err /\ own F G s).
Proof.
  unfold runChain.
  eapply triple_bind; [apply triple_New_works; [apply _|apply chain_size|apply chain_cap|apply storage_sane]|].
  intros [[d b]|e]; [|by apply triple_ret]. apply triple_pure. intros (-> & sx & Hx).
  pose proof Hx as (Ex & _ & Hsz & _).
  eapply triple_bind; [apply triple_open_dev|]. intros [sfd|e].
  - apply (triple_known _ _ sx); [exact Ex|].
    eapply triple_bind with (R := fun y s => chain_outcome y.1 /\ live_dev (sfd :: F) G d s).
    + apply triple_pure. intros Ho. eapply triple_conseq; [by apply triple_run_proxy; [eapply storage_dev_ok|]|done|].
      intros y s [Hy Hs]. split; [done|]. by split.
    + intros [err b']. apply triple_pure. cbn [fst]. intros Hout.
      eapply triple_bind; [apply triple_close_dev|]. intros e.
      eapply triple_conseq; [apply triple_Close_ret|done|]. intros y s [-> Ho]. done.
  - eapply triple_conseq; [apply triple_Close_ret|done|]. intros y s [-> Ho]. done.
Qed.
End ChainEnd.

(** ** [fault] *)

(** How the loop over the scenarios may end: each scenario has its own errors,
    and the two total failures none but those of the device. *)
Definition fault_outcome (err : option fault_err) : Prop :=
  match err with
  | None => True
  | Some (Scenario name e) =>
    match e with
    | FaultRun.DeviceErr _ => True
    | SawFewer _ _ | NoneInjected | Swallowed => name = "low-rate write errors propagate to caller"
    | CloseErr _ | CloseHung => name = "Close succeeds with pending backend errors"
    | OnlySome _ _ | Scenario _ _ => False
    end
  | Some _ => False
  end.

Lemma fault_size : is_u 64 Faulty.devSize.
Proof. unfold Faulty.devSize. split; lia. Qed.
Lemma fault_cap : Faulty.devSize <= 2 ^ 63.
Proof. unfold Faulty.devSize. lia. Qed.

Section FaultEnd.
Context {K : Type} `{KernelLaws K} (fuel : nat) (rnd : nat -> Z) (addr : Z).
Context `{!BlockFile Faulty.faultyBackend} `{!BlockFileLaws (Faulty.backend rnd)}.
Context (rnd_range : forall n, 0 <= rnd n < 1000000) (addr_ok : is_u 64 addr).
Context (hung : string -> bool) (no_timeout : forall name, hung name = false).
Context (faulty_sane : forall b, sane_buffers (K := K) fuel (Faulty.backend rnd) b Faulty.devSize).

(** A scenario over [with_device]: its body's verdict, or a device error. *)
Lemma triple_scenario o b flags body (Q : option fault_err -> Prop) F G :
  o = Some b -> (forall e, Q (Some (FaultRun.DeviceErr e))) ->
  (forall x, attached x -> bd_size x = Faulty.devSize -> bd_b x = b -> exists v x', body x = Some (v, x') /\ Q v) ->
  triple (K := K) (own F G)
    (b ← must o; x ← with_device fuel (Faulty.backend rnd) b Faulty.devSize flags body; mret (verdict x))
    (fun v s => Q v /\ own F G s).
Proof.
  intros Eo Hdev Hbody. apply (triple_known _ _ b); [exact Eo|].
  eapply triple_bind.
  { apply (triple_with_device fuel (Faulty.backend rnd) b Faulty.devSize flags body Q);
      [apply fault_size|apply fault_cap|apply faulty_sane|].
    intros d x (_ & Ha & Hs & Hb & _). by apply Hbody. }
  intros [v|e]; apply triple_pure; intros HQ; apply triple_ret; intros s Ho; (split; [|done]); [exact HQ|apply Hdev].
Qed.

Lemma triple_lowRate F G :
  triple (K := K) (own F G) (lowRate fuel rnd addr)
    (fun v s => fault_outcome (option_map (Scenario "low-rate write errors propagate to caller") v) /\ own F G s).
Proof.
  eapply triple_scenario; [apply Faulty.setWriteFail_0_10|done|].
  intros x Hx Hs Hb. destruct (lowRate_runs rnd addr x addr_ok Hx Hs) as (m & k & x' & E & _).
  { rewrite Hb. apply Faulty.setWriteFail_0_10. }
  eexists _, x'. split; [exact E|]. by repeat case_decide.
Qed.

Lemma triple_totals F G :
  triple (K := K) (own F G) (totalWriteFail fuel rnd addr) (fun v s => fault_outcome
    (option_map (Scenario "total write failure causes every Pwrite to fail") v) /\ own F G s) /\
  triple (K := K) (own F G) (totalReadFail fuel rnd addr) (fun v s => fault_outcome
    (option_map (Scenario "total read failure causes every Pread to fail") v) /\ own F G s).
Proof.
  split; (eapply triple_scenario; [first [apply Faulty.setWriteFail_1_0|apply Faulty.setReadFail_1_0]|done|]);
    intros x Hx Hs Hb; destruct (total_fail_runs rnd addr x rnd_range addr_ok Hx Hs) as [Hw Hr].
  - destruct Hw as [x' E]; [rewrite Hb; apply Faulty.setWriteFail_1_0|]. by exists None, x'.
  - destruct Hr as [x' E]; [rewrite Hb; apply Faulty.setReadFail_1_0|]. by exists None, x'.
Qed.

Lemma triple_closeWithErrors slow F G :
  triple (K := K) (own F G) (closeWithErrors fuel rnd addr slow) (fun v s => fault_outcome
    (option_map (Scenario "Close succeeds with pending backend errors") v) /\ own F G s).
Proof.
  unfold closeWithErrors. apply (triple_known _ _ _ _ _ (Faulty.setWriteFail_1_0 _)).
  eapply triple_bind; [apply triple_New_works; [apply _|apply fault_size|apply fault_cap|apply faulty_sane]|].
  intros [[d b]|e]; [|by apply triple_ret]. apply triple_pure. intros (-> & x & Ex & Ha & Hs & Hb & _).
  destruct (alignedBlock_ok addr addr_ok) as [o Eb].
  destruct (close_writes_run rnd x Ha Hs) as (saw & x' & Ew).
  { rewrite Hb. apply Faulty.setWriteFail_1_0. }
  eapply triple_bind; [apply triple_open_dev|]. intros [fd|e].
  - apply (triple_known _ _ _ _ _ Eb). apply (triple_known _ _ _ _ _ Ex). apply (triple_known _ _ _ _ _ Ew).
    eapply triple_bind; [apply triple_close_dev|]. intros e.
    eapply triple_bind; [apply triple_Close_dev|]. intros [[d' b'] err]. apply triple_pure. intros _.
    apply triple_ret. intros s Ho. split; [|done]. by destruct slow, err.
  - eapply triple_conseq; [apply triple_Close_ret|done|]. intros v s [-> Ho]. done.
Qed.

Lemma triple_run_scenarios ss F G :
  Forall (fun nf => triple (K := K) (own F G) nf.2
            (fun v s => fault_outcome (option_map (Scenario nf.1) v) /\ own F G s)) ss ->
  triple (K := K) (own F G) (run_scenarios hung ss) (fun err s => fault_outcome err /\ own F G s).
Proof.
  induction 1 as [|[name fn] ss Hfn Hss IH]; cbn [run_scenarios]; [by apply triple_ret|].
  eapply triple_bind with (R := fun err s => fault_outcome err /\ own F G s).
  - unfold runScenario. rewrite no_timeout. eapply triple_bind; [exact Hfn|]. intros v. by apply triple_ret.
  - intros [e|]; apply triple_pure; intros He; [by apply triple_ret|exact IH].
Qed.

Lemma triple_fault slow F G :
  triple (K := K) (own F G) (run_scenarios hung (scenarios fuel rnd addr slow))
    (fun err s => fault_outcome err /\ own F G s).
Proof.
  apply triple_run_scenarios. destruct (triple_totals F G) as [Hw Hr].
  repeat constructor; [apply triple_lowRate|exact Hw|exact Hr|apply triple_closeWithErrors].
Qed.
End FaultEnd.

(** ** [fsdemo] and [flushbench] *)

Section HostedEnd.
Context {K : Type} `{KernelLaws K} (fuel : nat) {T B E O : Type} `{Host T} (be : Backend B).

(** A hosted program whose body always returns on a device in working order. *)
Lemma triple_hosted (new_err : goerr -> E) b size (body : string -> P T B O (option E)) (h : T)
    (Q : string -> option E -> list hev -> list O -> Prop) F G :
  is_u 64 size -> size <= 2 ^ 63 -> sane_buffers (K := K) fuel be b size ->
  (forall d x, works size b d x -> exists r s, body (Path d) (mk_pst h x [] []) = Some (r, s) /\
     Q (Path d) r (p_log s) (p_out s)) ->
  triple (K := K) (own F G) (hosted fuel be new_err b size body h)
    (fun '(r, l, out) s => own F G s /\
       ((exists e, r = Some (new_err (Wrap "ublk.New" e)) /\ l = [] /\ out = []) \/
        exists d : Device, Q (Path d) r l out)).
Proof.
  intros Hs Hcap Hsane Hbody. unfold hosted.
  eapply triple_bind; [by apply triple_New_works; [apply _|..]|]. intros [[d b']|e].
  2:{ apply triple_ret. intros s Ho. split; [done|]. left. by exists e. }
  apply triple_pure. intros (-> & x & Hx). destruct (Hbody d x Hx) as (r & s & Eb & HQ).
  pose proof Hx as (Ex & _). apply (triple_known _ _ x); [exact Ex|]. apply (triple_known _ _ (r, s)); [exact Eb|].
  eapply triple_conseq; [apply triple_Close_ret|done|]. intros [[r' l] out] s' [[= -> -> ->] Ho].
  split; [done|]. right. by exists d.
Qed.
End HostedEnd.

Lemma fs_dev d x :
  works FsDemo.devSize FsDemo.newBackend d x -> mem_dev Logging.data x.
Proof.
  intros (_ & Ha & Hs & Hb & _). split; [done|]. rewrite Hs, Hb. cbn [FsDemo.newBackend Logging.data].
  unfold zeros. rewrite length_replicate. unfold FsDemo.devSize. lia.
Qed.

Lemma bench_dev d x :
  works FlushBench.devSize FlushBench.newBackend d x -> mem_dev Tracing.data x.
Proof.
  intros (_ & Ha & Hs & Hb & _). split; [done|]. rewrite Hs, Hb. cbn [FlushBench.newBackend Tracing.data].
  unfold zeros. rewrite length_replicate. unfold FlushBench.devSize. lia.
Qed.

Section DemosEnd.
Context {K : Type} `{KernelLaws K} (fuel : nat) {T : Type} `{Host T} (since : nat -> Z) (h : T).

(** The script of [fsdemo], and that success means the file was read back. *)
Definition fs_outcome (path : string) (r : option FsDemo.fs_err) (l : list hev) (out : list FsDemo.line) : Prop :=
  FsDemo.promised path r l out /\
  (r = None -> exists mp qs, Ev (ReadFile (FsDemo.fpath mp)) (Ok FsDemo.content) qs ∈ l).

Lemma triple_fsdemo F G :
  sane_buffers (K := K) fuel Logging.backend FsDemo.newBackend FsDemo.devSize ->
  (forall d x, works FsDemo.devSize FsDemo.newBackend d x -> host_ok (H := T) x) ->
  triple (K := K) (own F G) (FsDemo.run fuel h)
    (fun '(r, l, out) s => own F G s /\
       ((exists e, r = Some (FsDemo.DeviceErr (Wrap "ublk.New" e)) /\ l = [] /\ out = []) \/
        exists d : Device, fs_outcome (Path d) r l out)).
Proof.
  intros Hsane Hok. apply triple_hosted; [split; unfold FsDemo.devSize; lia|unfold FsDemo.devSize; lia|done|].
  intros d x Hx. pose proof Hx as (_ & _ & _ & Hb & _).
  destruct (FsDemo.body_spec x (Hok d x Hx) (Path d) (mk_pst h x [] [])) as (r & s & E & l & out & Hp & Hs).
  { constructor; cbn; [by eapply fs_dev|by split_and!|done..|]. rewrite Hb.
    unfold FsDemo.fs_inv, FsDemo.counted. split_and!; reflexivity. }
  destruct Hs as [_ _ Hl Ho _]. exists r, s. rewrite Hl, Ho. split; [done|]. split; [done|].
  intros ->. by eapply FsDemo.promised_reads_back.
Qed.

Lemma triple_flushbench F G :
  sane_buffers (K := K) fuel (Tracing.backend since) FlushBench.newBackend FlushBench.devSize ->
  (forall d x, works FlushBench.devSize FlushBench.newBackend d x -> host_ok (H := T) x) ->
  triple (K := K) (own F G) (FlushBench.run since fuel h)
    (fun '(r, l, out) s => own F G s /\
       ((exists e, r = Some (FlushBench.DeviceErr (Wrap "ublk.New" e)) /\ l = [] /\ out = []) \/
        exists d : Device, FlushBench.promised since by_mark (Path d) r l out)).
Proof.
  intros Hsane Hok. apply triple_hosted; [split; unfold FlushBench.devSize; lia|unfold FlushBench.devSize; lia|done|].
  intros d x Hx. pose proof Hx as (_ & _ & _ & Hb & _).
  destruct (bench_body_spec since x (Hok d x Hx) (Path d) (mk_pst h x [] [])) as (r & s & E & l & out & Hp & Hs).
  { constructor; cbn; [by eapply bench_dev|by split_and!|done..|]. by rewrite Hb. }
  destruct Hs as [_ _ Hl Ho _]. exists r, s. rewrite Hl, Ho. done.
Qed.
End DemosEnd.

(** ** A kernel with small buffers

    The concrete kernel, except that what the library reads back from its own
    memory is always the information of device 0 with one-sector buffers. *)
Definition small_info : devInfo := mk_devInfo 1 128 0 0 512 0 0 0 0 0 0 0 0 0.

Definition limited : Kernel sim := {|
  k_open := k_open; k_close := k_close; k_uring_setup := k_uring_setup; k_enter := k_enter;
  k_mmap := k_mmap; k_munmap := k_munmap; k_eventfd := k_eventfd; k_epoll_create := k_epoll_create;
  k_epoll_add := k_epoll_add; k_epoll_wait := k_epoll_wait; k_event_write := k_event_write;
  k_async := k_async; k_shm := k_shm; k_set_shm := k_set_shm; k_bytes := k_bytes; k_pin := k_pin;
  k_user _ _ := bytes_of small_info; k_user_set := k_user_set; k_alloc := k_alloc;
  k_getpid := k_getpid; k_sleep := k_sleep |}.

Lemma limited_laws : @KernelLaws sim limited.
Proof.
  destruct sim_laws as [H1 H2 H3 H4 H5 _]. constructor; try done.
  intros a k. apply (bool_decide_unpack _). vm_compute. exact I.
Qed.

(** On it every device has one-sector buffers. *)
Lemma limited_sane {B} fuel (be : Backend B) b size :
  is_u 64 size -> @sane_buffers sim limited fuel B be b size.
Proof.
  intros Hs F G s d b' s' Ho E. destruct (default_args size Hs) as [Hc _].
  pose proof (@triple_New sim limited fuel B be limited_laws KPointer false b size [] F G Hc Hs s Ho) as Ht.
  rewrite E in Ht. destruct Ht as [(_ & (_ & _ & _ & a & k & Ei) & _) _].
  change (of_bytes (bytes_of small_info) = Some (d_info d)) in Ei.
  assert (Em : di_MaxIOBufBytes (d_info d) = 512).
  { assert (Es : of_bytes (bytes_of small_info) = Some small_info) by (vm_compute; reflexivity).
    rewrite Es in Ei. by injection Ei as <-. }
  unfold buf_size. rewrite Em, decide_False by lia. lia.
Qed.
