(* ===== verification/Mains.v ===== *)
(** * The entry points of the example programs

    [main] of each example, from the flags to the exit status.  The value of a
    flag, the user id and the environment of the run are arguments; [log.Fatal]
    and [os.Exit] end the process with a status, without running deferred calls.

    The theorems: who may run the programs, that they do not panic, what their
    exit status means, and that no way out leaves a device, a descriptor or a
    mapping behind. *)

From S2P Require Import Prelude GoLayout Types Uring Config Backend Worker Kernel Sim RingOps WorkerRun.
From S2P Require Import Device DiskLike BlockLayer ExBackends Programs ChainRun FaultRun FlushRun StressRun Host Demos FlushBench.
From S2P Require Import SigkillRun EndToEnd.

(** How a process ends: [log.Fatal] with the complaint about the user or with
    the error, or a return from [main] after the lines [out]. *)
Inductive process_end (E O : Type) : Type :=
| NotRoot (msg : string)
| Failed (e : E)
| Returned (out : list O).
Arguments NotRoot {E O} msg.
Arguments Failed {E O} e.
Arguments Returned {E O} out.

(** The exit status. *)
Definition status {E O} (x : process_end E O) : Z :=
  match x with Returned _ => 0 | _ => 1 end.

Section Mains.
Context {K : Type} `{Kernel K} (fuel : nat) (uid : Z).

Definition chain_main `{!BlockFile storage} `{!BlockFile proxy} rand_Read alloc hung :
    M K (process_end chain_err string) :=
  if decide (uid <> 0) then mret (NotRoot "chain probe must be run as root")
  else
    err ← runChain fuel rand_Read alloc hung;
    match err with
    | Some e => mret (Failed e)
    | None => mret (Returned ["PASS: chained ublk integrity verified end-to-end"])
    end.

Definition fault_main `{!BlockFile Faulty.faultyBackend} rnd addr hung slow : M K (process_end fault_err string) :=
  if decide (uid <> 0) then mret (NotRoot "fault must be run as root")
  else
    err ← run_scenarios hung (scenarios fuel rnd addr slow);
    match err with
    | Some e => mret (Failed e)
    | None => mret (Returned ["PASS: all fault-injection scenarios behaved as expected"])
    end.

Definition flushbench_main {T} `{Host T} since (h : T) :
    M K (process_end bench_err bench_line * list hev) :=
  if decide (uid <> 0) then mret (NotRoot "flushbench must run as root", [])
  else
    '(err, l, out) ← FlushBench.run since fuel h;
    match err with
    | Some e => mret (Failed e, l)
    | None => mret (Returned out, l)
    end.

(** [fsdemo] does not check the user. *)
Definition fsdemo_main {T} `{Host T} (h : T) : M K (process_end FsDemo.fs_err FsDemo.line * list hev) :=
  '(err, l, out) ← FsDemo.run fuel h;
  match err with
  | Some e => mret (Failed e, l)
  | None => mret (Returned out, l)
  end.

(** [sigkill]: the child half, with what it printed and its exit status (none
    when it is killed first), or the parent. *)
Inductive kill_end : Type :=
| Child (printed : string) (exited : option Z)
| Parent (x : process_end parent_err string).

Definition sigkill_main `{!BlockFile SigkillMem.memBackend} (child : bool) (writes : nat) (w : world) : M K kill_end :=
  if child then
    '(printed, exited) ← runChild fuel writes;
    mret (Child printed exited)
  else if decide (uid <> 0) then mret (Parent (NotRoot "sigkill probe must be run as root"))
  else
    '(err, _, _) ← runParent fuel w;
    match err with
    | Some e => mret (Parent (Failed e))
    | None => mret (Parent (Returned
        ["PASS: SIGKILL recovery works; parent created fresh device after child was killed"]))
    end.

(** [stress], with the flags [-duration], [-workers] and [-parallel], the latter
    two not negative. *)
Definition stress_main `{!BlockFile StressMem.memBackend} (duration : Z) (workers parallel : nat)
    (elapsed : string -> Z) (interrupted : string -> bool) (wss : list (list weather)) :
    M K (process_end goerr mode_line) :=
  if decide (uid <> 0) then mret (NotRoot "stress must be run as root")
  else
    let budget := perMode duration 4 in
    '(ls, sms) ← run_modes budget elapsed interrupted (stressors fuel workers parallel wss);
    let warning := if decide (0 < totalClose sms) then [CloseWarning (totalClose sms)] else [] in
    mret (Returned (Plan 4 budget (Z.of_nat workers) (Z.of_nat parallel) :: ls ++
      SummaryHeader :: ((fun x => Summarised x.1.1 x.1.2 (trunc_ms x.2)) <$> sms) ++ warning ++ [Pass])).
End Mains.

Lemma triple_pure_r {K A} (X : Prop) P (m : M K A) Q :
  (X -> triple P m Q) -> triple (fun s => P s /\ X) m Q.
Proof. intros Hm s [Hp Hx]. by apply Hm. Qed.

(** ** Theorems *)


(** The probes on the kernel with small buffers, as root and not: everything the
    theorem asks for holds there, and [New] returns a device. *)
#[local] Instance sample_f1 : BlockFile storage := sector_file (logged ChainMem.backend).
#[local] Instance sample_f2 : BlockFile proxy := sector_file proxy_backend.
#[local] Instance sample_f3 : BlockFile Faulty.faultyBackend := sector_file (Faulty.backend sample_rnd).
Definition sample_chain : out (process_end chain_err string * st sim) :=
  chain_main (H := limited) 3 0 (fun _ p => Ok p) (fun _ => 0) (fun _ => false) (boot [] []).
Definition sample_fault : out (process_end fault_err string * st sim) :=
  fault_main (H := limited) 3 1000 sample_rnd 0 (fun _ => false) false (boot [] []).

Definition run_ok {E O} (Q : E -> Prop) (x : out (process_end E O * st sim)) : Prop :=
  match x with
  | Val (NotRoot _, _) | Panic => False
  | Val (Failed e, s) => Q e /\ own [] [] s
  | Val (Returned _, s) => own [] [] s
  | Stuck => True
  end.

Lemma run_ok_of {E O} Q (m : M sim (process_end E O)) :
  triple (own [] []) m (fun x s => own [] [] s /\
    match x with NotRoot _ => 0 <> 0 | Failed e => 0 = 0 /\ Q e | Returned _ => 0 = 0 end) ->
  run_ok Q (m (boot [] [])).
Proof.
  intros Ht. specialize (Ht _ (boot_own [] [])). unfold run_ok.
  destruct (m _) as [[[msg|e|o] s]| |]; naive_solver.
Qed.

Lemma limited_New (b : storage) :
  match @New sim limited 3 _ (logged ChainMem.backend) (Dynamic KPointer false b) chainSize [] (boot [] []) with
  | Val (Ok _, s) => length (acquired (trace s)) = 8%nat
  | _ => False
  end.
Proof. vm_compute. reflexivity. Qed.



(** The requests of the sample host suit every device in working order. *)
Lemma sample_host_works {B} file size (b : B) d x :
  1024 <= size -> works size b d x -> @host_ok Z B (sample_host file) x.
Proof.
  intros Hs (_ & Ha & Hz & _ & Hd & Hb) o h. pose proof (at_bufSize _ Ha). change (queueDepth default_config) with 128 in Hd.
  destruct o; cbn; repeat constructor; cbn; try first [done|lia|naive_solver]; rewrite ?Hz, ?Hd;
    first [done|lia|vm_compute; first [done|lia|naive_solver]].
Qed.

Lemma fs_refused (b : Logging.loggingBackend) :
  match @New sim limited 3 _ Logging.backend (Dynamic KPointer false b) FsDemo.devSize []
          (boot [] [uCmdAddDev; cmdAddDev]) with
  | Val (Err _, s) => length (acquired (trace s)) = 4%nat
  | _ => False
  end.
Proof. vm_compute. reflexivity. Qed.

Lemma fsdemo_refused {K} `{Kernel K} fuel {T} `{Host T} (h : T) s e s' :
  New fuel Logging.backend (Dynamic KPointer false FsDemo.newBackend) FsDemo.devSize [] s = Val (Err e, s') ->
  fsdemo_main fuel h s = Val (Failed (FsDemo.DeviceErr (Wrap "ublk.New" e)), [], s').
Proof. intros En. unfold fsdemo_main, FsDemo.run, hosted, mbind, M_bind. by rewrite En. Qed.


(** ** [stress] and [sigkill] *)

(** The modes a log is about, in order, those it says were skipped, and the sum
    of the close errors it reports, as Go adds them up. *)
Definition modes_in (ls : list mode_line) : list string :=
  omap (fun l => match l with Skipped n | Started n _ => Some n | _ => None end) ls.
Definition skipped_in (ls : list mode_line) : list string :=
  omap (fun l => match l with Skipped n => Some n | _ => None end) ls.
Definition closes_from (t : Z) (ls : list mode_line) : Z :=
  foldl (fun t l => match l with Finished _ sm _ => i64 (t + closeErrs sm) | _ => t end) t ls.

(** What the loop over the modes logs. *)
Definition logged_modes (interrupted : string -> bool) (names : list string)
    (x : list mode_line * list (string * summary * Z)) : Prop :=
  modes_in x.1 = names /\ skipped_in x.1 = filter (fun n => interrupted n = true) names /\
  forall t, closes_from t x.1 = foldl (fun t y => i64 (t + closeErrs y.1.2)) t x.2.

Section StressEnd.
Context {K : Type} `{KernelLaws K} (fuel : nat) `{!BlockFile StressMem.memBackend}.
Context (budget : Z) (elapsed : string -> Z) (interrupted : string -> bool).

Lemma returns_run_modes ms F G :
  Forall (fun nf => returns (K := K) (own F G) nf.2 (fun _ => own F G)) ms ->
  returns (K := K) (own F G) (run_modes budget elapsed interrupted ms)
    (fun x s => logged_modes interrupted (fst <$> ms) x /\ own F G s).
Proof.
  unfold logged_modes. induction 1 as [|[name fn] ms Hfn Hms IH]; cbn [run_modes]; [by apply returns_ret|].
  destruct (interrupted name) eqn:Ei; [|eapply returns_bind; [exact Hfn|]; intros sm];
    (eapply returns_bind; [exact IH|]; intros [ls sms]; apply returns_pure; intros (H1 & H2 & H3);
     apply returns_ret; intros s Hs; split; [|done]);
    rewrite fmap_cons, filter_cons; cbn [fst snd] in *.
  - rewrite decide_True by done. split_and!; [cbn; by f_equal..|done].
  - rewrite decide_False by congruence. split_and!; [cbn; by f_equal|done|]. intros t. apply H3.
Qed.
End StressEnd.

Lemma stressors_names {K} `{Kernel K} fuel `{!BlockFile StressMem.memBackend} workers parallel wss :
  length wss = 4%nat ->
  fst <$> stressors (K := K) fuel workers parallel wss = ["churn"; "ioWhileClose"; "concurrentClose"; "many"].
Proof. by destruct wss as [|w1 [|w2 [|w3 [|w4 [|w5 wss]]]]]. Qed.

(** Lines of the summary say nothing about the modes. *)
Lemma summary_lines {A} (f : A -> string * summary * Z) sms :
  let ls := SummaryHeader :: ((fun x => Summarised (f x).1.1 (f x).1.2 (trunc_ms (f x).2)) <$> sms) in
  modes_in ls = [] /\ skipped_in ls = [] /\ forall t, closes_from t ls = t.
Proof. induction sms as [|x sms IH]; [done|]. exact IH. Qed.

Lemma log_app l1 l2 :
  modes_in (l1 ++ l2) = modes_in l1 ++ modes_in l2 /\ skipped_in (l1 ++ l2) = skipped_in l1 ++ skipped_in l2 /\
  forall t, closes_from t (l1 ++ l2) = closes_from (closes_from t l1) l2.
Proof. unfold modes_in, skipped_in, closes_from. rewrite !omap_app. split_and!; [done..|]. intros t. apply foldl_app. Qed.

(** What [stress] prints: the four modes in order, run or skipped, then a warning
    when the close errors they reported do not sum up to zero or less, and PASS. *)
Definition stress_log (interrupted : string -> bool) (out : list mode_line) : Prop :=
  let names := ["churn"; "ioWhileClose"; "concurrentClose"; "many"] in
  exists body, out = body ++ (if decide (0 < closes_from 0 body) then [CloseWarning (closes_from 0 body)] else []) ++ [Pass] /\
    modes_in body = names /\ skipped_in body = filter (fun n => interrupted n = true) names.

Lemma stress_log_of interrupted names p ls sms :
  logged_modes interrupted names (ls, sms) -> names = ["churn"; "ioWhileClose"; "concurrentClose"; "many"] ->
  modes_in [p] = [] -> skipped_in [p] = [] -> (forall t, closes_from t [p] = t) ->
  stress_log interrupted (p :: ls ++ SummaryHeader :: ((fun x => Summarised x.1.1 x.1.2 (trunc_ms x.2)) <$> sms) ++
    (if decide (0 < totalClose sms) then [CloseWarning (totalClose sms)] else []) ++ [Pass]).
Proof.
  intros (H1 & H2 & H3) -> Hp1 Hp2 Hp3. destruct (summary_lines (fun x => x) sms) as (S1 & S2 & S3).
  set (sl := SummaryHeader :: _) in *. exists ([p] ++ ls ++ sl).
  destruct (log_app [p] (ls ++ sl)) as (A1 & A2 & A3), (log_app ls sl) as (B1 & B2 & B3).
  assert (Ec : closes_from 0 ([p] ++ ls ++ sl) = totalClose sms) by (rewrite A3, Hp3, B3, S3; apply H3).
  rewrite Ec. split_and!; [by rewrite <- !app_assoc| |].
  - rewrite A1, B1, Hp1, S1, app_nil_r. exact H1.
  - rewrite A2, B2, Hp2, S2, app_nil_r. exact H2.
Qed.

(** The child of [sigkill]: it is killed after its announcement or exits with 2. *)
Lemma returns_runChild {K} `{KernelLaws K} fuel `{!BlockFile SigkillMem.memBackend} n F G :
  returns (own F G) (runChild (K := K) fuel n) (fun x _ =>
    (x = ("", Some 2)) \/ exists d : Device, x.1 = announcement d /\ (x.2 = None \/ x.2 = Some 2)).
Proof.
  unfold runChild. eapply returns_bind; [by apply returns_New, kill_size_u64|].
  intros [[d b]|e]; [|apply returns_ret; auto]. apply returns_pure. intros _.
  eapply returns_bind; [by apply returns_open_dev|]. intros [fd|e]; [|apply returns_ret; eauto].
  apply returns_must. intros x _. apply returns_must. intros x' _. apply returns_ret. eauto.
Qed.


(** An interrupted run of [stress] whose budget allowed no pass. *)
#[local] Instance sample_f4 : BlockFile StressMem.memBackend := sector_file StressMem.backend.
#[local] Instance sample_f5 : BlockFile SigkillMem.memBackend := sector_file SigkillMem.backend.
Definition sample_stress : out (process_end goerr mode_line * st sim) :=
  stress_main 3 0 (30 * second) 8 4 (fun _ => 0) (fun n => bool_decide (n = "many")) [[]; []; []; []] (boot [] []).

